(* ===== verification/_CoqProject ===== *)
-Q . S2P
Prelude.v
Bytes.v
Errors.v
UserPtr.v
FileOps.v
Locks.v
Guid.v
IpAddr.v
IpText.v
Channel.v
CoSched.v
RingMsg.v
RingSafe.v
RingSim.v
Verbs.v
ChrDev.v
LinuxUtil.v
Drivers.v
CmVerbs.v
Sim.v
Context.v
MemoryRegion.v
CompletionQueue.v
QueuePair.v
BringUp.v
Endpoint.v
PostSend.v
Doorbell.v
RecvHelper.v
Runtime.v
WorkerGroup.v
Registry.v
UserCM.v
Listener.v
Stable.v
CommManager.v
Services.v
KernelClient.v
SysQp.v
SysDoorbell.v
SysBringUp.v
SysCtrl.v
SysAbi.v
VirtualQueue.v
SysCalls.v
DeviceFile.v
KrLib.v
MetaKv.v
OneSided.v
MetaLookup.v
Migrate.v
KrSim.v
UserLib.v
UserConnect.v
