(* ===== verification/Prelude.v ===== *)
(** * KRdmaKit and the KRCORE system calls: a verification development

    ** The program

    The repository holds three stacks that manage RDMA queue pairs, and the library
    of its evaluation programs.

    _KRdmaKit_ (src/KRdmaKit) is a library with a kernel build and a user build: it
    opens a device ([Context]), registers memory, builds queue pairs, brings them up
    (RESET, INIT, RTR, RTS), posts work requests, one by one or in batches behind one
    doorbell, and connects queue pairs.  In the kernel the connection manager of
    Linux carries the handshake (comm_manager, services); in user space a TCP server
    does (services_user), on a small cooperative runtime (runtime).  The text format
    of the addresses is in a vendored crate (no-std-net).

    _KRCORE_ (src/KRdmaKit-syscall/two-sided-dc) gives processes RDMA through system
    calls.  A process calls the functions of include/syscall.h, which enter the
    module (KRdmaKit-syscall/src) through [ioctl]; a _virtual queue_ per open file
    serves them with the queue pairs of its own copy of the library (KRdmaKit/src)
    and with the _controls_ of the services, which accept connections and own the
    receive buffers.

    The _one-sided module_ (src/KRdmaKit-syscall/src) is the other half of KRCORE.
    Its virtual queues use dynamically connected queue pairs first and migrate to
    reliable connections in the background; the end points of the machines are kept
    by a meta server, in tables that the other machines read with one-sided
    operations.

    The kernel builds stand on _rust-kernel-rdma_ (src/rust-kernel-rdma): the library
    for modules of Linux in Rust (deps/rust-kernel-module: memory of processes, files,
    character devices, sysctls, locks, the entry points of a module) and utilities
    (rust-kernel-linux-util: logging, timers, threads).  The module of KRCORE is a
    character device of that library, and its virtual queues are the values of the
    files of that device.

    _r2_ (src/deps/r2) is the library of the evaluation programs: channels between
    threads, a scheduler of coroutines, and messages over rings of remote memory.

    ** How it is modelled

    Code is a computation [M W A] over a world [W]: the state of the driver with, for
    the components that have it, the state of an object ([onW], [onX]) or of the
    whole module ([sys]).  A computation returns [Done] a value and a new world, or
    [Panic] for a Rust panic (an index out of range, an unwrapped [None], arithmetic
    overflow in a build that checks it, which is a parameter) and for what the source leaves undefined (an access to freed
    memory, a null pointer).  Errors are values of [Result].  Machine integers are [Z]
    with their width written out; what is copied between a process, the kernel and
    the network is a list of bytes with the layout of the C structures, little
    endian.  Flags of the C headers are symbolic lists, other constants numbers.

    The driver, the connection manager of Linux, serde_json and TCP are not in the
    repository.  They are type classes of operations ([QueueOps], [DataOps],
    [DeviceOps], [CmOps], [Serde], [Tcp], ...) and the theorems hold for every
    instance that has the documented behaviour, which is stated by classes of laws
    ([VerbsLaws], [DeviceLaws], [AddressLaws], [CmLaws], [LinkLaws], [PollLaws],
    [PathLaws], ...).  The version of the kernel library that the one-sided module is
    written against, and the library rlib under r2, are absent too; they are the
    classes [KrLib] and [Rlib], with the laws [ReadLaws], [PostLaws], [WireLaws].  The laws say which objects a call creates and removes, what a
    successful [modify_qp] changes and that a _healthy_ driver accepts what the
    specification of the verbs allows; they never speak of the library.  Sim.v is a
    driver that satisfies those of the driver at once, with injected faults, and the
    witnesses run on it; KrSim.v and RingSim.v are the instances for the others.

    ** The files

    - Prelude.v: the computations, their laws, machine integers, lists.
    - Bytes.v: byte lists, layouts of structures, the memory of a process.
    - Errors.v: the error types of rdma-shim and of KRdmaKit.
    - UserPtr.v, FileOps.v, ChrDev.v: user_ptr.rs and sysctl.rs; file_operations.rs;
      chrdev.rs, filesystem.rs and the entry points in lib.rs of rust-kernel-module.
    - Locks.v: rwlock.rs and mutex.rs of the kernel build.
    - LinuxUtil.v: level.rs, macros.rs, timer.rs, kthread.rs, string.rs of
      rust-kernel-linux-util, printk.rs and random.rs of rust-kernel-module, the
      generator and the profile of KRdmaKit (random.rs, lib.rs).
    - Guid.v: [Guid], its parser and its printer (no-std-net/src), the conversions of
      comm_manager/explorer.rs.
    - IpAddr.v, IpText.v: the IP and socket addresses of no-std-net with their parsers,
      printers and serialization; what holds of their texts.
    - Channel.v, CoSched.v: r2's channel/mod.hh; linked_list.hh, routine.hh, sshed.hh
      and sshed.cc.
    - RingMsg.v: r2's ring_msg; RingSafe.v: the delivery of its messages; RingSim.v:
      an instance of its library.
    - Verbs.v, CmVerbs.v: the interfaces of the driver and of the connection manager
      with their laws.  Sim.v: an instance.
    - Drivers.v: kdriver.rs, udriver.rs, with the reference counts of drivers and
      devices.
    - Context.v, MemoryRegion.v, CompletionQueue.v: device.rs, context.rs,
      memory_region.rs, memory_window.rs, completion_queue.rs.
    - QueuePair.v, BringUp.v: queue_pairs/mod.rs, builder.rs,
      dynamic_connected_transport.rs and the bring-up of both builds.
    - Endpoint.v, PostSend.v, Doorbell.v: endpoint.rs, the operations of both builds,
      doorbell_helper.rs.
    - Runtime.v, WorkerGroup.v: runtime/tid.rs, task.rs, waitable.rs, worker.rs,
      worker_group.rs.
    - Registry.v: the invariant of a map of connected queue pairs, for both servers.
    - UserCM.v: services_user/mod.rs, services_user/cm.rs and the client
      queue_pairs/handshake_user.rs; Listener.v: the loop that accepts connections,
      with the tasks of the connections and the stop.
    - Stable.v: which relations between worlds the library respects, with the tactic
      [preserve].
    - CommManager.v, Services.v, KernelClient.v: comm_manager, services, and the
      clients rc_comm.rs, callbacks.rs, handshake_kernel.rs, endpoint.rs.
    - RecvHelper.v: the ring of receive requests (qp/recv_helper.rs of the
      system-call stack).
    - SysQp.v, SysBringUp.v: device.rs, qp/mod.rs, qp/rc.rs, qp/ud.rs, qp/dc.rs, their
      operations, cm/client.rs, cm/sidr.rs, qp/conn.rs, ib_path_explorer.rs.
    - SysDoorbell.v: qp/doorbell.rs, the operations that KRCORE does not use
      (qp/rc_op.rs, qp/mod.rs, cm/client.rs), mem/virt.rs.
    - SysCtrl.v: ctrl.rs and mem/phy.rs.
    - SysAbi.v: include/common.h.
    - VirtualQueue.v: virtual_queue.rs, core.rs, client.rs and lib.rs of the module;
      SysCalls.v: what holds for all of its commands; DeviceFile.v: the module as a
      device, its load and unload, its files.
    - KrLib.v: the interface of the library under the one-sided module.  MetaKv.v:
      client.rs and rpc/protocol.rs, the meta server; OneSided.v: virtual_queue.rs and
      core.rs; MetaLookup.v, Migrate.v: lookups and migrations; KrSim.v: an instance.
    - UserLib.v, UserConnect.v: include/syscall.h and the system calls together.

    In each file a [Module] bears the name of the type of the source, its state is a [Record]
    with the fields of the source, and each function is a [Definition] of the same
    name with all its branches.  A destructor is [drop].

    ** What is proved

    - Batching is invisible.  The doorbell ring is a bounded list of requests, and a
      batch equals the posts one by one (Doorbell.v); the receive ring hands out its
      buffers in cyclic order (RecvHelper.v); a process that pushes requests, in
      batches of 64 in the kernel, has the driver receive the requests one by one up
      to the first refusal (UserLib.v).
    - Connecting connects.  Bring-up gives a queue pair in RTS with the settings asked
      for, or an error with nothing left (BringUp.v); the handshakes of the user build
      (UserCM.v), the kernel build (KernelClient.v) and the system-call stack
      (SysCtrl.v), client and server composed, leave two queue pairs in RTS that name
      each other; and so does [qconnect] from the memory of a process (UserConnect.v).
    - Nothing leaks and nothing is freed twice, on every path and for every behaviour
      of the driver and of the peer: builders, contexts, regions, servers, handshakes,
      queriers, connection identifiers, queue pairs of the system-call stack.  Where
      the source leaks, the theorem says what.
    - System calls are safe: for any commands, arguments and memory of the process the
      state of the module stays well formed (SysCalls.v), the bounded loops end, the
      statuses of binding are those of a one-variable machine, and messages arrive in
      the memory of the process as the driver reported them (UserLib.v).
    - The module is a well-behaved device: files opened, used and closed in any order
      keep the module and the other files (DeviceFile.v); loading and unloading it
      leaves the devices of the kernel as they were; what is left after each error of a
      registration is stated (ChrDev.v).  Reads and writes of files touch the buffer of
      the process only and return what was moved (FileOps.v); successful reads never
      fetch a byte twice, whatever the process does to its memory (UserPtr.v); a sysctl
      stores the value of the text, or an error and nothing (UserPtr.v).
    - Closures under the locks of the kernel build appear to run alone in every
      interleaving, and some thread can always go on (Locks.v).
    - The server of the user build keeps its registry for any connections, errors and
      stops (Listener.v).  A driver has the devices of the host, and is given back when
      its counts reach zero (Drivers.v), which the devices prevent.
    - Texts: the parser of GIDs accepts exactly the stated language and reads back what
      the printer prints (Guid.v); addresses come back from their serialization, and no
      text makes their parsers panic (IpText.v).
    - The meta server refines a map: what a one-sided read of its tables finds is what
      was registered (MetaLookup.v); a migration in the middle of a push does not show
      in the requests the device gets (Migrate.v).
    - The channel is linearizable, a bounded queue in every interleaving of its two
      threads, and its blocking calls end (Channel.v); the scheduler's linked chain is
      a round-robin queue, and every coroutine gets its turn (CoSched.v); ring messages
      arrive once, in order and intact, for any number of sessions and any wrap-around,
      under the contract that RingSafe.v states.
    - Requests: scatter entries stay within their region, datagram batches keep their
      order (PostSend.v).
    - The runtime runs every task as if it had its own thread, and completes all of
      them (Runtime.v); a group of workers and the client that waits for it come to
      their end under every fair schedule, without a lost wake-up (WorkerGroup.v).

    ** Bounds

    Recursion that is not structural has fuel, and a theorem says that it is enough or
    where it ends: 10001 and 1001 polls in the waits of the transports and 50002 in
    [pop_msg_impl] (the bounds of the source, [bounded_loops_end]); a push takes at
    most as many batches as there are requests; the number of groups of an address
    and of digits of a number is bounded by the text; the search of the ring iterator
    takes one step more than there are completions ([fill_wp]); the driver
    reads a chain of requests for as many steps as the ring has slots
    (SysDoorbell.v); a drop of a count has fuel for the counts that it can drop in
    turn (Drivers.v).  A wait of the source that has no
    bound ([wait_til_comp] of a reliable connection) polls [patience] times, a
    parameter, and is [Panic] after that.  The schedules of a worker and
    the arrivals during a wait are lists of any length, those of a group infinite.  The queue of a worker holds 1024
    tasks and the receive ring of a service 2048 buffers, as in the source; a doorbell
    has any capacity.

    ** Not modelled

    - Reference counts ([Arc]), except for drivers and devices: [drop] is the
      destructor of the last reference.
    - Threads: except for the runtime, the channel, the migration of a queue and the
      closures under locks, whose steps interleave, operations are atomic.  Memory
      ordering is not modelled.
    - Floating point: the conversions of timers and the report of a profile.
    - The global allocators, which pass their arguments to the kernel; an allocation
      that can fail with a length of a process is a parameter (UserPtr.v).
    - The bindings, which are generated at build time: they are the interfaces above.
      The information of a port is constant while the library runs.
    - KRdmaKit/src/ctrl.rs, which the crate does not include; benchmarks, examples and
      tests; the programs of the evaluation (src/exp).
    - The rest of r2: its older message and RPC layers include headers that the
      repository does not contain; its allocator, clocks and logging wrap those of the
      system.  The stacks of coroutines, which boost switches. *)

From Stdlib Require Export ZArith Lia.
From stdpp Require Export base tactics list numbers strings gmap.

#[global] Open Scope Z_scope.
#[export] Set Warnings "-clear-no-such-hyp".

(** Notations of the development live in a scope of their own. *)
Declare Scope krdma_scope.
Delimit Scope krdma_scope with krdma.
#[global] Open Scope krdma_scope.

(** ** Machine integers

    A [w]-bit unsigned integer is a [Z] in [0, 2^w); [wrap] is the reduction an
    [as uN] cast or a [wrapping_*] operation performs, [swrap] the one of a cast
    to a signed type. *)
Definition wrap (w z : Z) : Z := z mod 2 ^ w.
Definition in_width (w z : Z) : Prop := 0 <= z < 2 ^ w.
Definition swrap (w z : Z) : Z :=
  let r := wrap w z in if r <? 2 ^ (w - 1) then r else r - 2 ^ w.

Abbreviation u8 := (wrap 8).
Abbreviation u16 := (wrap 16).
Abbreviation u32 := (wrap 32).
Abbreviation u64 := (wrap 64).
Abbreviation i32 := (swrap 32).

(** ** Outcomes

    [Panic] is a Rust panic ([unwrap] on [None], a failed [assert!], an
    arithmetic overflow under overflow checks). *)
Inductive outcome (A : Type) : Type :=
| Done (a : A)
| Panic.
Arguments Done {A} a.
Arguments Panic {A}.

(** Rust's [Result]; the error type comes first, as in the proofs it is fixed. *)
Inductive Result (E A : Type) : Type :=
| Ok (a : A)
| Err (e : E).
Arguments Ok {E A} a.
Arguments Err {E A} e.

Definition is_Ok {E A} (r : Result E A) : bool :=
  match r with Ok _ => true | Err _ => false end.

Definition map_err {E F A} (f : E -> F) (r : Result E A) : Result F A :=
  match r with Ok a => Ok a | Err e => Err (f e) end.

(** Rust's [Result::ok]. *)
Definition ok {E A} (r : Result E A) : option A :=
  match r with Ok a => Some a | Err _ => None end.

(** Rust's [Option::ok_or]. *)
Definition ok_or {E A} (e : E) (o : option A) : Result E A :=
  match o with Some a => Ok a | None => Err e end.

(** ** The computation monad

    Code that reads or changes the world of type [W] (the device, the
    connection manager, the scheduler ...) is a function from the world to an
    outcome with the world it leaves behind. *)
Definition M (W A : Type) : Type := W -> outcome (A * W).

#[export] Instance M_ret W : MRet (M W) := fun A a w => Done (a, w).
#[export] Instance M_bind W : MBind (M W) := fun A B k m w =>
  match m w with
  | Done (a, w') => k a w'
  | Panic => Panic
  end.

Definition panic {W A} : M W A := fun _ => Panic.
Definition gets {W A} (f : W -> A) : M W A := fun w => Done (f w, w).

(** A call of an external operation: it always returns. *)
Definition call {W A} (f : W -> A * W) : M W A := fun w => Done (f w).

(** A pure outcome inside the monad. *)
Definition lift {W A} (o : outcome A) : M W A := fun w =>
  match o with Done a => Done (a, w) | Panic => Panic end.

(** [Option::unwrap]. *)
Definition unwrap {W A} (o : option A) : M W A :=
  match o with Some a => mret a | None => panic end.

(** The [?] operator: bind through [Result], with the error returned early. *)
Definition try_bind {W E A B} (m : M W (Result E A)) (k : A -> M W (Result E B)) :
  M W (Result E B) :=
  m ≫= fun r => match r with Ok a => k a | Err e => mret (Err e) end.

Notation "x ←? m ; k" := (try_bind m (fun x => k))
  (at level 20, m at level 100, k at level 200, right associativity,
   format "x  ←?  m ;  '/' k") : krdma_scope.

(** [Result::map_err] on the result of a computation. *)
Definition map_errM {W E F A} (f : E -> F) (m : M W (Result E A)) : M W (Result F A) :=
  r ← m; mret (map_err f r).

(** A computation on the state of an object beside the world. *)
Definition onW {W X A} (m : M W A) : M (W * X) A := fun s =>
  match m (fst s) with Done (a, w) => Done (a, (w, snd s)) | Panic => Panic end.
Definition onX {W X} (f : X -> X) : M (W * X) unit := fun s => Done ((), (fst s, f (snd s))).
Definition getX {W X} : M (W * X) X := fun s => Done (snd s, s).

(** Arithmetic on [u64]: with overflow checks (debug profiles) an overflow
    panics, without them (release profiles) it wraps. *)
Definition add_u64 (overflow_checks : bool) (a b : Z) : outcome Z :=
  if a + b <? 2 ^ 64 then Done (a + b)
  else if overflow_checks then Panic else Done (u64 (a + b)).

Definition sub_u64 (overflow_checks : bool) (a b : Z) : outcome Z :=
  if b <=? a then Done (a - b) else if overflow_checks then Panic else Done (u64 (a - b)).
Definition rem_u64 (a b : Z) : outcome Z := if b =? 0 then Panic else Done (a mod b).

(** ** Pointers *)
Abbreviation ptr := Z (only parsing).
Definition null : Z := 0.
Definition is_null (p : ptr) : bool := p =? null.

(** ** Automation *)
Create HintDb krdma.
Create Rewrite HintDb krdma.

(** Case analysis on the scrutinee of every match in the goal or a hypothesis. *)
Ltac case_match_all :=
  repeat match goal with
  | H : context [match ?x with _ => _ end] |- _ =>
      lazymatch x with context [match _ with _ => _ end] => fail | _ => destruct x eqn:? end
  | |- context [match ?x with _ => _ end] =>
      lazymatch x with context [match _ with _ => _ end] => fail | _ => destruct x eqn:? end
  end.

(** Boolean comparisons become facts [lia] can use. *)
Ltac bool_to_Prop :=
  repeat match goal with
  | H : (_ =? _) = true |- _ => apply Z.eqb_eq in H
  | H : (_ =? _) = false |- _ => apply Z.eqb_neq in H
  | H : (_ <? _) = true |- _ => apply Z.ltb_lt in H
  | H : (_ <? _) = false |- _ => apply Z.ltb_ge in H
  | H : (_ <=? _) = true |- _ => apply Z.leb_le in H
  | H : (_ <=? _) = false |- _ => apply Z.leb_gt in H
  | H : (_ && _)%bool = true |- _ => apply andb_prop in H; destruct H
  | H : negb _ = true |- _ => apply negb_true_iff in H
  | H : negb _ = false |- _ => apply negb_false_iff in H
  end.

(** ** Facts about machine integers *)
Lemma wrap_range w z : 0 <= w -> in_width w (wrap w z).
Proof. intros Hw. apply Z.mod_pos_bound. by apply Z.pow_pos_nonneg. Qed.

Lemma wrap_small w z : in_width w z -> wrap w z = z.
Proof. apply Z.mod_small. Qed.

Lemma wrap_wrap w z : 0 <= w -> wrap w (wrap w z) = wrap w z.
Proof. intros. by apply wrap_small, wrap_range. Qed.

Lemma swrap_small w z : 0 < w -> - 2 ^ (w - 1) <= z < 2 ^ (w - 1) -> swrap w z = z.
Proof.
  intros Hw Hz. assert (E : 2 ^ w = 2 * 2 ^ (w - 1)) by (rewrite <- Z.pow_succ_r by lia; f_equal; lia).
  unfold swrap, wrap. destruct (Z_lt_le_dec z 0).
  - replace (z mod 2 ^ w) with (z + 2 ^ w) by (symmetry; rewrite <- (Z.mod_add z 1), Z.mul_1_l, Z.mod_small by lia; lia).
    destruct (_ <? _) eqn:?; bool_to_Prop; lia.
  - rewrite Z.mod_small by lia. destruct (_ <? _) eqn:?; bool_to_Prop; lia.
Qed.

Lemma add_u64_small oc a b : in_width 64 (a + b) -> add_u64 oc a b = Done (a + b).
Proof. intros [_ H]. unfold add_u64. by apply Z.ltb_lt in H as ->. Qed.

Lemma sub_u64_small oc a b : b <= a -> sub_u64 oc a b = Done (a - b).
Proof. intros H. unfold sub_u64. by apply Z.leb_le in H as ->. Qed.

Lemma rem_u64_pos a b : 0 < b -> rem_u64 a b = Done (a mod b).
Proof. intros H. unfold rem_u64. destruct (Z.eqb_spec b 0); [lia|done]. Qed.

Lemma add_u64_overflow a b : 2 ^ 64 <= a + b -> add_u64 true a b = Panic.
Proof. intros H. unfold add_u64. by apply Z.ltb_ge in H as ->. Qed.

#[export] Hint Resolve wrap_range : krdma.
#[export] Hint Rewrite @wrap_small using (unfold in_width; lia) : krdma.

(** ** Running computations *)
Lemma bind_run {W A B} (m : M W A) (k : A -> M W B) w :
  (m ≫= k) w = match m w with Done (a, w') => k a w' | Panic => Panic end.
Proof. done. Qed.

Lemma bind_done {W A B} (m : M W A) (k : A -> M W B) w a w' :
  m w = Done (a, w') -> (m ≫= k) w = k a w'.
Proof. intros H. by rewrite bind_run, H. Qed.

Lemma bind_done_inv {W A B} (m : M W A) (k : A -> M W B) w b w' :
  (m ≫= k) w = Done (b, w') -> exists a w1, m w = Done (a, w1) /\ k a w1 = Done (b, w').
Proof. rewrite bind_run. destruct (m w) as [[a w1]|]; naive_solver. Qed.

Lemma try_done {W E A B} (m : M W (Result E A)) (k : A -> M W (Result E B)) w a w' :
  m w = Done (Ok a, w') -> try_bind m k w = k a w'.
Proof. intros H. unfold try_bind. by rewrite bind_run, H. Qed.

Lemma try_err {W E A B} (m : M W (Result E A)) (k : A -> M W (Result E B)) w e w' :
  m w = Done (Err e, w') -> try_bind m k w = Done (Err e, w').
Proof. intros H. unfold try_bind. by rewrite bind_run, H. Qed.

(** A run that ended in [Ok] went through every [?]. *)
Lemma try_ok_inv {W E A B} (m : M W (Result E A)) (k : A -> M W (Result E B)) w b w' :
  try_bind m k w = Done (Ok b, w') ->
  exists a w1, m w = Done (Ok a, w1) /\ k a w1 = Done (Ok b, w').
Proof.
  unfold try_bind. intros ([a|e] & w1 & Hm & Hk)%bind_done_inv; [by eauto|done].
Qed.

Lemma bind_call {W A B} (f : W -> A * W) (k : A -> M W B) w :
  (call f ≫= k) w = let '(a, w') := f w in k a w'.
Proof. rewrite bind_run. unfold call. by destruct (f w). Qed.

Lemma bind_gets {W A B} (f : W -> A) (k : A -> M W B) w : (gets f ≫= k) w = k (f w) w.
Proof. done. Qed.

Lemma bind_ret {W A B} (a : A) (k : A -> M W B) w : (mret a ≫= k) w = k a w.
Proof. done. Qed.

Lemma bind_assoc {W A B C} (m : M W A) (k : A -> M W B) (h : B -> M W C) w :
  ((m ≫= k) ≫= h) w = (m ≫= fun a => k a ≫= h) w.
Proof. rewrite !bind_run. by destruct (m w) as [[a w1]|]. Qed.

Lemma try_as_bind {W E A B} (m : M W (Result E A)) (k : A -> M W (Result E B)) w :
  try_bind m k w = (m ≫= fun r => match r with Ok a => k a | Err e => mret (Err e) end) w.
Proof. done. Qed.

Lemma map_errM_done {W E F A} (f : E -> F) (m : M W (Result E A)) w r w' :
  m w = Done (r, w') -> map_errM f m w = Done (map_err f r, w').
Proof. intros H. unfold map_errM. by rewrite bind_run, H. Qed.

Lemma onW_run {W X A} (m : M W A) (s : W * X) a w' :
  m (fst s) = Done (a, w') -> onW m s = Done (a, (w', snd s)).
Proof. intros E. unfold onW. by rewrite E. Qed.

Lemma onW_inv {W X A} (m : M W A) (s : W * X) a s' :
  onW m s = Done (a, s') -> m (fst s) = Done (a, fst s') /\ snd s' = snd s.
Proof. unfold onW. destruct (m (fst s)) as [[b w]|]; [|done]. by intros [= <- <-]. Qed.

Lemma bind_lift {W A B} (a : A) (k : A -> M W B) w : (lift (Done a) ≫= k) w = k a w.
Proof. done. Qed.

Lemma bind_onX {W X B} (f : X -> X) (k : unit -> M (W * X) B) w x : (onX f ≫= k) (w, x) = k () (w, f x).
Proof. done. Qed.

Lemma bind_getX {W X B} (k : X -> M (W * X) B) w x : (getX ≫= k) (w, x) = k x (w, x).
Proof. done. Qed.

Lemma bind_onW {W X A B} (m : M W A) (k : A -> M (W * X) B) w x :
  (onW m ≫= k) (w, x) = match m w with Done (a, w') => k a (w', x) | Panic => Panic end.
Proof. rewrite bind_run. unfold onW. cbn [fst snd]. by destruct (m w) as [[a w']|]. Qed.

(** ** Total correctness

    [wp m w Q]: from [w] the computation ends without a panic, in [Q]. *)
Definition wp {W A} (m : M W A) (w : W) (Q : A -> W -> Prop) : Prop :=
  match m w with Done (a, w') => Q a w' | Panic => False end.

Lemma wp_done {W A} (m : M W A) w Q : wp m w Q <-> exists a w', m w = Done (a, w') /\ Q a w'.
Proof. unfold wp. destruct (m w) as [[a w']|]; naive_solver. Qed.

Lemma wp_mono {W A} (m : M W A) w (Q R : A -> W -> Prop) :
  wp m w Q -> (forall a w', Q a w' -> R a w') -> wp m w R.
Proof. unfold wp. destruct (m w) as [[a w']|]; auto. Qed.

Lemma wp_bind {W A B} (m : M W A) (k : A -> M W B) w Q :
  wp m w (fun a w' => wp (k a) w' Q) -> wp (m ≫= k) w Q.
Proof. unfold wp. rewrite bind_run. by destruct (m w) as [[a w']|]. Qed.

Lemma wp_ret {W A} (a : A) w (Q : A -> W -> Prop) : Q a w -> wp (mret a) w Q.
Proof. done. Qed.

Lemma wp_gets {W A} (f : W -> A) w (Q : A -> W -> Prop) : Q (f w) w -> wp (gets f) w Q.
Proof. done. Qed.

Lemma wp_lift {W A} (a : A) w (Q : A -> W -> Prop) : Q a w -> wp (lift (Done a)) w Q.
Proof. done. Qed.

Lemma wp_unwrap {W A} (a : A) w (Q : A -> W -> Prop) : Q a w -> wp (unwrap (Some a)) w Q.
Proof. done. Qed.

Lemma wp_onW {W X A} (m : M W A) w (x : X) Q :
  wp m w (fun a w' => Q a (w', x)) -> wp (onW m) (w, x) Q.
Proof. unfold wp, onW. cbn [fst snd]. by destruct (m w) as [[a w']|]. Qed.

Lemma wp_getX {W X} (w : W) (x : X) Q : Q x (w, x) -> wp getX (w, x) Q.
Proof. done. Qed.

Lemma wp_onX {W X} (f : X -> X) (w : W) (x : X) Q : Q () (w, f x) -> wp (onX f) (w, x) Q.
Proof. done. Qed.

(** One step of a computation whose head is known. *)
Ltac wstep :=
  lazymatch goal with
  | |- wp (_ ≫= _) _ _ => apply wp_bind
  | |- wp (mret _) _ _ => apply wp_ret
  | |- wp (gets _) _ _ => apply wp_gets
  | |- wp (lift (Done _)) _ _ => apply wp_lift
  | |- wp (unwrap (Some _)) _ _ => apply wp_unwrap
  | |- wp (onW _) (_, _) _ => apply wp_onW
  | |- wp getX (_, _) _ => apply wp_getX
  | |- wp (onX _) (_, _) _ => apply wp_onX
  end; cbv beta iota.
Ltac wsteps := cbv beta iota; repeat wstep.

(** Two steps with the same error mapping are one. *)
Lemma map_errM_try {W E F A B} (f : E -> F) (m : M W (Result E A)) (k : A -> M W (Result E B)) w :
  try_bind (map_errM f m) (fun a => map_errM f (k a)) w = map_errM f (try_bind m k) w.
Proof.
  unfold try_bind, map_errM. rewrite !bind_run. destruct (m w) as [[[a|e] w1]|]; done.
Qed.

(** Symbolic execution of a computation in a hypothesis [H : m w = Done _]: the
    next call is named, then the matches on its result are reduced. *)
Ltac mstep H :=
  lazymatch type of H with
  | try_bind _ _ _ = _ => rewrite try_as_bind in H
  | ((_ ≫= _) ≫= _) _ = _ => rewrite bind_assoc in H
  | (mret _ ≫= _) _ = _ => rewrite bind_ret in H
  | (gets _ ≫= _) _ = _ => rewrite bind_gets in H
  | (call ?f ≫= _) ?w = _ =>
      rewrite bind_call in H; let E := fresh "E" in destruct (f w) as [??] eqn:E
  | mret _ _ = Done _ => injection H as <- <-
  | Done _ = Done _ => injection H as <- <-
  | Panic = Done _ => discriminate H
  end.
Ltac msteps H := repeat (mstep H; cbv beta iota in H).

(** The same on the left-hand side of the goal. *)
Ltac mgoal :=
  lazymatch goal with
  | |- context [try_bind ?m ?k ?w] => rewrite (try_as_bind m k w)
  | |- context [((?m ≫= ?k) ≫= ?h) ?w] => rewrite (bind_assoc m k h w)
  | |- context [(mret ?a ≫= ?k) ?w] => rewrite (bind_ret a k w)
  | |- context [(gets ?f ≫= ?k) ?w] => rewrite (bind_gets f k w)
  | |- context [(call ?f ≫= ?k) ?w] =>
      rewrite (bind_call f k w); let E := fresh "E" in destruct (f w) as [??] eqn:E
  end; cbv beta iota.
Ltac mgoals := repeat mgoal.

(** ** Lists *)
Lemma lookup_map {A B} (f : A -> B) (l : list A) i : map f l !! i = f <$> l !! i.
Proof. exact (list_lookup_fmap f l i). Qed.
