(* ===== verification/Bytes.v ===== *)
(** * Memory as bytes

    Structures that cross a boundary of the program (private data of the
    connection manager, the system-call interface) are byte lists, little endian
    as on x86.  A C structure is given by the widths of its fields, padding
    included; [pack] writes one and [field] reads a field back.  The memory of a
    user process maps the addresses it may access to bytes.  Text is checked to be
    UTF-8. *)

From S2P Require Import Prelude.

#[local] Open Scope Z_scope.

(** ** Words *)
Fixpoint le (n : nat) (z : Z) : list Z :=
  match n with O => [] | S n => z mod 256 :: le n (z / 256) end.
Fixpoint unle (l : list Z) : Z := match l with [] => 0 | b :: l => b + 256 * unle l end.

(** The value of the [n] bytes at offset [off] of a buffer. *)
Definition word_at (off n : nat) (l : list Z) : Z :=
  unle (take n (drop off (l ++ replicate (off + n) 0))).

(** ** Structures *)
Definition offset (ws : list nat) (i : nat) : nat := sum_list (take i ws).
Definition pack (ws : list nat) (zs : list Z) : list Z := concat (zip_with le ws zs).
Definition field (ws : list nat) (i : nat) (l : list Z) : Z :=
  word_at (offset ws i) (nth i ws O) l.

(** ** User memory *)
Abbreviation umem := (gmap Z Z).

(** [_copy_from_user]: the bytes up to the first one that cannot be read, then
    zeros; the number of bytes not copied. *)
Fixpoint copy_from_user (m : umem) (src : Z) (n : nat) : list Z * Z :=
  match n with
  | O => ([], 0)
  | S n' =>
      match m !! src with
      | Some b => let '(l, r) := copy_from_user m (src + 1) n' in (b :: l, r)
      | None => (replicate n 0, Z.of_nat n)
      end
  end.

(** [_copy_to_user]: it stops at the first byte that cannot be written. *)
Fixpoint copy_to_user (m : umem) (dst : Z) (l : list Z) : umem * Z :=
  match l with
  | [] => (m, 0)
  | b :: l' =>
      match m !! dst with
      | Some _ => copy_to_user (<[dst := b]> m) (dst + 1) l'
      | None => (m, Z.of_nat (length l))
      end
  end.

(** The bytes at address [a], and a block that may be accessed. *)
Definition holds (m : umem) (a : Z) (l : list Z) : Prop :=
  forall i b, l !! i = Some b -> m !! (a + Z.of_nat i) = Some b.
Definition mapped (m : umem) (a : Z) (n : nat) : Prop :=
  forall i, (i < n)%nat -> is_Some (m !! (a + Z.of_nat i)).
(** [m] and [m'] agree outside of the block. *)
Definition outside (a : Z) (n : nat) (m m' : umem) : Prop :=
  forall x, x < a \/ a + Z.of_nat n <= x -> m' !! x = m !! x.

(** ** Text

    [core::str::from_utf8]: whether a byte string is UTF-8. *)
Definition cont (b : Z) : bool := (128 <=? b) && (b <=? 191).
Definition between (lo b hi : Z) : bool := (lo <=? b) && (b <=? hi).

Fixpoint valid_utf8 (l : list Z) : bool :=
  match l with
  | [] => true
  | b :: l =>
      if b <? 128 then valid_utf8 l
      else match l with
      | c :: l =>
          if between 194 b 223 then cont c && valid_utf8 l
          else match l with
          | d :: l =>
              if b =? 224 then between 160 c 191 && cont d && valid_utf8 l
              else if between 225 b 236 || between 238 b 239 then cont c && cont d && valid_utf8 l
              else if b =? 237 then between 128 c 159 && cont d && valid_utf8 l
              else match l with
              | e :: l =>
                  (if b =? 240 then between 144 c 191
                   else if between 241 b 243 then cont c
                   else if b =? 244 then between 128 c 143 else false) && cont d && cont e && valid_utf8 l
              | [] => false
              end
          | [] => false
          end
      | [] => false
      end
  end.

(** ** Words are read back *)
Lemma ascii_utf8 l : Forall (fun c => c < 128) l -> valid_utf8 l = true.
Proof.
  induction 1 as [|c l Hc Hl IH]; [done|]. cbn [valid_utf8]. by rewrite (proj2 (Z.ltb_lt _ _)).
Qed.

Lemma unle_le n z : unle (le n z) = z mod 256 ^ Z.of_nat n.
Proof.
  revert z. induction n as [|n IH]; intros z; cbn [le unle]; [by rewrite Z.mod_1_r|].
  rewrite IH, Nat2Z.inj_succ, Z.pow_succ_r by lia.
  rewrite Z.rem_mul_r by lia. lia.
Qed.

Lemma le_unle l : Forall (in_width 8) l -> le (length l) (unle l) = l.
Proof.
  intros HF. induction HF as [|b l Hb _ IH]; [done|]. cbn [length le unle]. unfold in_width in Hb.
  replace (b + 256 * unle l) with (b + unle l * 256) by lia.
  rewrite Z.mod_add, Z.div_add, Z.mod_small, Z.div_small by lia. by rewrite Z.add_0_l, IH.
Qed.

Lemma le_length n z : length (le n z) = n.
Proof. revert z. induction n as [|n IH]; intros z; cbn; [done|by rewrite IH]. Qed.

(** A word is read back from where it was written. *)
Lemma word_at_le pre n z post :
  word_at (length pre) n (pre ++ le n z ++ post) = z mod 256 ^ Z.of_nat n.
Proof.
  unfold word_at. rewrite <- !app_assoc, drop_app_length, take_app_le by by rewrite le_length.
  by rewrite firstn_all2, unle_le by by rewrite le_length.
Qed.

Lemma pack_length ws zs : length zs = length ws -> length (pack ws zs) = sum_list ws.
Proof.
  revert zs. induction ws as [|w ws IH]; intros [|z zs] Hl; try done. unfold pack. cbn.
  rewrite length_app, le_length. f_equal. apply IH. by injection Hl.
Qed.

Lemma field_pack ws zs i w z post :
  ws !! i = Some w -> zs !! i = Some z ->
  field ws i (pack ws zs ++ post) = z mod 256 ^ Z.of_nat w.
Proof.
  intros Hw Hz. unfold field. rewrite (nth_lookup_Some ws i O w Hw).
  pose proof (take_drop_middle ws i w Hw) as Ew. pose proof (take_drop_middle zs i z Hz) as Ez.
  assert (Hlen : length (take i zs) = length (take i ws)).
  { apply lookup_lt_Some in Hw, Hz. rewrite !length_take. lia. }
  assert (pack ws zs = pack (take i ws) (take i zs) ++ le w z ++ pack (drop (S i) ws) (drop (S i) zs)) as ->.
  { unfold pack. rewrite <- Ew at 1. rewrite <- Ez at 1. by rewrite zip_with_app, concat_app by done. }
  unfold offset. rewrite <- (pack_length _ _ Hlen), <- !app_assoc. apply word_at_le.
Qed.

Lemma byte_range n z : in_width (8 * Z.of_nat n) z -> z mod 256 ^ Z.of_nat n = z.
Proof.
  intros [H0 H1]. apply Z.mod_small. split; [done|]. replace 256 with (2 ^ 8) by done.
  by rewrite <- Z.pow_mul_r by lia.
Qed.

(** The fields of a structure that was just packed. *)
Ltac fields := repeat (erewrite field_pack by reflexivity).

(** ** Copies between the kernel and a user process *)
Lemma holds_cons m a b l : holds m a (b :: l) <-> m !! a = Some b /\ holds m (a + 1) l.
Proof.
  split.
  - intros H. split; [by rewrite <- (H 0%nat b eq_refl), Z.add_0_r|]. intros i c Hi.
    rewrite <- (H (S i) c Hi). f_equal. lia.
  - intros [H0 H] [|i] c Hi; [injection Hi as <-; by rewrite Z.add_0_r|].
    rewrite <- (H i c Hi). f_equal. lia.
Qed.

Lemma holds_app m a l1 l2 : holds m a (l1 ++ l2) <-> holds m a l1 /\ holds m (a + Z.of_nat (length l1)) l2.
Proof.
  revert a. induction l1 as [|b l1 IH]; intros a; cbn [app length].
  - rewrite Z.add_0_r. split; [by split|by intros []].
  - rewrite !holds_cons, IH. replace (a + 1 + Z.of_nat (length l1)) with (a + Z.of_nat (S (length l1))) by lia.
    tauto.
Qed.

Lemma copy_from_user_holds m a l : holds m a l -> copy_from_user m a (length l) = (l, 0).
Proof.
  revert a. induction l as [|b l IH]; intros a H; [done|]. apply holds_cons in H as [Hb H].
  cbn. by rewrite Hb, (IH _ H).
Qed.

Lemma copy_from_user_length m a n : length (fst (copy_from_user m a n)) = n.
Proof.
  revert a. induction n as [|n IH]; intros a; [done|]. cbn. destruct (m !! a); cbn; [|by rewrite length_replicate].
  specialize (IH (a + 1)). destruct (copy_from_user m (a + 1) n). cbn in *. by rewrite IH.
Qed.

Lemma copy_to_user_mapped m a l :
  mapped m a (length l) ->
  exists m', copy_to_user m a l = (m', 0) /\ holds m' a l /\ outside a (length l) m m' /\ dom m' = dom m.
Proof.
  revert m a. induction l as [|b l IH]; intros m a Hm.
  { exists m. split_and!; [done|by intros []|by intros x _|done]. }
  assert (is_Some (m !! a)) as [c Hc] by (rewrite <- (Z.add_0_r a); apply (Hm 0%nat); cbn; lia).
  destruct (IH (<[a := b]> m) (a + 1)) as (m' & Hr & Hh & Ho & Hd).
  { intros i Hi. destruct (Hm (S i)) as [d Hd]; [cbn; lia|]. rewrite lookup_insert_ne by lia.
    exists d. rewrite <- Hd. f_equal. lia. }
  cbn [copy_to_user]. rewrite Hc. exists m'. split; [done|]. split; [|split].
  - apply holds_cons. split; [|done]. rewrite Ho by (left; lia). apply lookup_insert_eq.
  - intros x Hx. cbn in Hx. rewrite Ho by lia. apply lookup_insert_ne. lia.
  - rewrite Hd, dom_insert_L. apply elem_of_dom_2 in Hc. set_solver.
Qed.

(** A write changes no mapping, and leaves at most everything unwritten. *)
Lemma copy_to_user_dom m a l :
  dom (fst (copy_to_user m a l)) = dom m /\ 0 <= snd (copy_to_user m a l) <= Z.of_nat (length l).
Proof.
  revert m a. induction l as [|b l IH]; intros m a; cbn [copy_to_user]; [done|].
  destruct (m !! a) eqn:E; [|cbn [fst snd length]; split; [done|lia]].
  destruct (IH (<[a := b]> m) (a + 1)) as [-> ?]. split; [|cbn [length]; lia].
  rewrite dom_insert_L. assert (a ∈ dom m) by (apply elem_of_dom; eauto). set_solver.
Qed.

Lemma mapped_dom m m' a n : dom m' = dom m -> mapped m a n -> mapped m' a n.
Proof. intros Hd Hm i Hi. apply elem_of_dom. rewrite Hd. by apply elem_of_dom, Hm. Qed.

Lemma mapped_sub m a n b k : mapped m a n -> a <= b -> b + Z.of_nat k <= a + Z.of_nat n -> mapped m b k.
Proof.
  intros Hm Hb Hk i Hi. destruct (Hm (Z.to_nat (b - a) + i)%nat) as [c Hc]; [lia|].
  exists c. rewrite <- Hc. f_equal. lia.
Qed.

(** Bytes outside of a changed block are still there. *)
Lemma holds_outside m m' a n b l :
  outside a n m m' -> holds m b l -> b + Z.of_nat (length l) <= a \/ a + Z.of_nat n <= b -> holds m' b l.
Proof.
  intros Ho Hh Hd i c Hi. rewrite Ho; [by apply Hh|]. apply lookup_lt_Some in Hi. lia.
Qed.

(** ** Structures in the memory of a process *)

(** A block that may be accessed has some bytes. *)
Lemma mapped_holds m a n :
  mapped m a n -> exists l, length l = n /\ holds m a l /\ copy_from_user m a n = (l, 0).
Proof.
  intros Hm. assert (exists l, length l = n /\ holds m a l) as (l & <- & Hl); [|exists l; split_and!; [done..|by apply copy_from_user_holds]].
  revert a Hm. induction n as [|n IH]; intros a Hm; [by exists []|].
  assert (is_Some (m !! a)) as [b Hb] by (rewrite <- (Z.add_0_r a); apply (Hm 0%nat); lia).
  destruct (IH (a + 1)) as (l & Hl & Hh).
  { intros i Hi. destruct (Hm (S i)) as [c Hc]; [lia|]. exists c. rewrite <- Hc. f_equal. lia. }
  exists (b :: l). split; [by cbn; rewrite Hl|by apply holds_cons].
Qed.

(** A memory of one block. *)
Fixpoint block (a : Z) (l : list Z) : umem :=
  match l with [] => ∅ | b :: l => <[a := b]> (block (a + 1) l) end.

Lemma block_holds a l : holds (block a l) a l.
Proof.
  revert a. induction l as [|b l IH]; intros a; [by intros []|]. cbn [block]. apply holds_cons.
  split; [apply lookup_insert_eq|]. intros i c Hi. rewrite lookup_insert_ne by lia. by apply IH.
Qed.

Lemma holds_mapped m a l : holds m a l -> mapped m a (length l).
Proof. intros Hh i Hi. destruct (lookup_lt_is_Some_2 l i Hi) as [b Hb]. exists b. by apply Hh. Qed.

(** A word somewhere in a structure that is copied. *)
Lemma word_of_user m a n off w z :
  mapped m a n -> (off + w <= n)%nat -> holds m (a + Z.of_nat off) (le w z) ->
  word_at off w (fst (copy_from_user m a n)) = z mod 256 ^ Z.of_nat w.
Proof.
  intros Hm Hn Hz. destruct (mapped_holds _ _ _ Hm) as (l & Hl & Hh & ->). cbn [fst].
  rewrite <- (take_drop off l) in Hh |- *. apply holds_app in Hh as [_ Hh]. rewrite length_take_le in Hh by lia.
  rewrite <- (take_drop w (drop off l)) in Hh |- *. apply holds_app in Hh as [Hh _].
  assert (take w (drop off l) = le w z) as ->.
  { apply list_eq_same_length with w; [by rewrite le_length|by rewrite length_take, length_drop; lia|].
    intros i x y _ Hx Hy. apply Hh in Hx. apply Hz in Hy. congruence. }
  rewrite <- (length_take_le l off) at 1 by lia. by rewrite word_at_le.
Qed.

(** A part of a copied structure. *)
Lemma holds_copy m m' a b c off l :
  holds m a c -> holds m' b c -> (off + length l <= length c)%nat ->
  holds m (a + Z.of_nat off) l -> holds m' (b + Z.of_nat off) l.
Proof.
  intros Hc Hc' Hlen Hl i x Hi. pose proof (lookup_lt_Some _ _ _ Hi).
  destruct (lookup_lt_is_Some_2 c (off + i)) as [y Hy]; [lia|].
  pose proof (Hc _ _ Hy) as H1. pose proof (Hc' _ _ Hy) as H2. specialize (Hl _ _ Hi).
  replace (a + Z.of_nat off + Z.of_nat i) with (a + Z.of_nat (off + i)) in Hl by lia.
  replace (b + Z.of_nat off + Z.of_nat i) with (b + Z.of_nat (off + i)) by lia. congruence.
Qed.

(** Assignments to the members of the structure at [a]: offsets and bytes. *)
Fixpoint stores (m : umem) (a : Z) (bl : list (nat * list Z)) : umem :=
  match bl with
  | [] => m
  | (off, l) :: bl => stores (fst (copy_to_user m (a + Z.of_nat off) l)) a bl
  end.

(** The members are inside of the structure and do not overlap. *)
Definition apart (x y : nat * list Z) : bool :=
  (fst x + length (snd x) <=? fst y)%nat || (fst y + length (snd y) <=? fst x)%nat.
Fixpoint members (n : nat) (bl : list (nat * list Z)) : bool :=
  match bl with
  | [] => true
  | b :: bl => (fst b + length (snd b) <=? n)%nat && forallb (apart b) bl && members n bl
  end.

Lemma stores_outside m a n bl :
  mapped m a n -> members n bl = true -> outside a n m (stores m a bl) /\ dom (stores m a bl) = dom m.
Proof.
  revert m. induction bl as [|[off l] bl IH]; intros m Hm Hb; cbn [stores]; [by split|].
  cbn [members fst snd] in Hb. apply andb_prop in Hb as [Hb Hbl]. apply andb_prop in Hb as [Hn%Nat.leb_le _].
  destruct (copy_to_user_mapped m (a + Z.of_nat off) l) as (m' & -> & _ & Ho & Hd).
  { apply (mapped_sub m a n); [done|lia..]. }
  cbn [fst]. destruct (IH m') as [Ho' Hd']; [by eapply mapped_dom|done|]. split; [|congruence].
  intros x Hx. rewrite Ho', Ho by lia. done.
Qed.

Lemma stores_kept m a n bl x :
  mapped m a n -> members n bl = true -> forallb (apart x) bl = true ->
  holds m (a + Z.of_nat (fst x)) (snd x) -> holds (stores m a bl) (a + Z.of_nat (fst x)) (snd x).
Proof.
  revert m. induction bl as [|[off l] bl IH]; intros m Hm Hb Hx Hh; cbn [stores]; [done|].
  cbn [members fst snd] in Hb. apply andb_prop in Hb as [Hb Hbl]. apply andb_prop in Hb as [Hn%Nat.leb_le _].
  cbn [forallb] in Hx. apply andb_prop in Hx as [Hx Hxl]. unfold apart in Hx. cbn [fst snd] in Hx.
  destruct (copy_to_user_mapped m (a + Z.of_nat off) l) as (m' & -> & _ & Ho & Hd).
  { apply (mapped_sub m a n); [done|lia..]. }
  cbn [fst]. apply IH; [by eapply mapped_dom|done..|]. eapply holds_outside; [done..|].
  apply orb_prop in Hx as [Hx%Nat.leb_le|Hx%Nat.leb_le]; lia.
Qed.

(** Every member is there afterwards. *)
Lemma stores_holds m a n bl :
  mapped m a n -> members n bl = true ->
  Forall (fun b => holds (stores m a bl) (a + Z.of_nat (fst b)) (snd b)) bl.
Proof.
  revert m. induction bl as [|[off l] bl IH]; intros m Hm Hb; cbn [stores]; [done|].
  cbn [members fst snd] in Hb. apply andb_prop in Hb as [Hb Hbl]. apply andb_prop in Hb as [Hn%Nat.leb_le Hx].
  destruct (copy_to_user_mapped m (a + Z.of_nat off) l) as (m' & -> & Hh & Ho & Hd).
  { apply (mapped_sub m a n); [done|lia..]. }
  assert (Hm' : mapped m' a n) by by eapply mapped_dom.
  constructor; [by apply (stores_kept m' a n bl (off, l))|by apply IH].
Qed.
