(* ===== verification/Errors.v ===== *)
(** * Error types

    The errno wrapper of the shim (src/rdma-shim/src/user/mod.rs) and the three
    error enumerations of the library (src/KRdmaKit/src/lib.rs).  A [&'static str]
    is a [string]. *)

From S2P Require Import Prelude.

#[global] Open Scope Z_scope.

(** The errno values of libc the library names. *)
Definition libc_EAGAIN : Z := 11.
Definition libc_ENOMEM : Z := 12.
Definition libc_EFAULT : Z := 14.
Definition libc_EINVAL : Z := 22.
Definition libc_ESPIPE : Z := 29.

(** [pub struct Error(pub c_int)]. *)
Inductive Error : Set := mkError (errno : Z).

Definition EINVAL : Error := mkError (- libc_EINVAL).
Definition ENOMEM : Error := mkError (- libc_ENOMEM).
Definition EFAULT : Error := mkError (- libc_EFAULT).
Definition ESPIPE : Error := mkError (- libc_ESPIPE).
Definition EAGAIN : Error := mkError (- libc_EAGAIN).

Definition from_kernel_errno (errno : Z) : Error := mkError errno.
Definition to_kernel_errno (e : Error) : Z := let '(mkError n) := e in n.

Inductive ControlpathError : Set :=
| ContextError (what : string) (e : Error)
| CreationError (what : string) (e : Error)
| InvalidArg (what : string)
| QueryError (what : string) (e : Error).

Inductive DatapathError : Set :=
| PostSendError (e : Error)
| PostRecvError (e : Error)
| PollCQError (e : Error)
| TimeoutError
| QPTypeError.

(** [CMError::InvalidArg] carries the offending text, a byte list here. *)
Inductive CMError : Set :=
| Timeout
| Creation (errno : Z)
| CallbackError (code : Z)
| SendError (what : string) (e : Error)
| ServerError (what : string) (e : Error)
| CMInvalidArg (what : string) (arg : list Z)
| Unknown.

#[export] Instance Error_eq_dec : EqDecision Error.
Proof. solve_decision. Defined.
#[export] Instance ControlpathError_eq_dec : EqDecision ControlpathError.
Proof. solve_decision. Defined.
#[export] Instance DatapathError_eq_dec : EqDecision DatapathError.
Proof. solve_decision. Defined.
#[export] Instance CMError_eq_dec : EqDecision CMError.
Proof. solve_decision. Defined.
