(* ===== verification/UserPtr.v ===== *)
(** * Memory of user processes, and sysctls

    src/rust-kernel-rdma/deps/rust-kernel-module/src/user_ptr.rs and sysctl.rs: slices
    of the memory of a process, which are read and written from their start to their
    end, and parameters of a module that a process reads and writes as text.

    The world has the memory of the current process and the calls of
    [_copy_from_user] and [_copy_to_user] so far, the last one first; another thread
    of the process may change the memory between two calls. *)

From S2P Require Import Prelude Bytes Errors.

#[local] Open Scope Z_scope.

Inductive ucall : Set := CopyFrom (a n : Z) | CopyTo (a n : Z).
Record user := mkUser { bytes : umem; ucalls : list ucall }.

Definition _copy_from_user (a n : Z) : M user (list Z * Z) := fun u =>
  Done (copy_from_user (bytes u) a (Z.to_nat n), mkUser (bytes u) (CopyFrom a n :: ucalls u)).
Definition _copy_to_user (a : Z) (l : list Z) : M user Z := fun u =>
  let '(m, r) := copy_to_user (bytes u) a l in
  Done (r, mkUser m (CopyTo a (Z.of_nat (length l)) :: ucalls u)).

Definition u32_MAX : Z := 2 ^ 32 - 1.

(** ** Slices (user_ptr.rs) *)
Module UserSlicePtr.

Record UserSlicePtr := mkSlice { ptr : Z; length : Z }.

(** [access_ok] is the kernel's check that a range is in the area of processes. *)
Definition new (access_ok : Z -> Z -> bool) (p n : Z) : Result Error UserSlicePtr :=
  if negb (access_ok p n) then Err EFAULT else Ok (mkSlice p n).

(** Readers and writers are what is left of a slice. *)
Definition reader (s : UserSlicePtr) : UserSlicePtr := s.
Definition writer (s : UserSlicePtr) : UserSlicePtr := s.
Definition len (s : UserSlicePtr) : Z := length s.
Definition is_empty (s : UserSlicePtr) : bool := len s =? 0.

Definition forward (n : Z) (s : UserSlicePtr) : UserSlicePtr := mkSlice (u64 (ptr s + n)) (length s - n).

(** [read] into a buffer of [n] bytes. *)
Definition read (n : Z) : M (user * UserSlicePtr) (Result Error (list Z)) :=
  s ← getX;
  if (length s <? n) || (u32_MAX <? n) then mret (Err EFAULT)
  else
    '(data, res) ← onW (_copy_from_user (ptr s) n);
    if negb (res =? 0) then mret (Err EFAULT)
    else _ ← onX (forward n); mret (Ok data).

(** The vector is allocated first; an allocation that fails is a panic. *)
Definition read_all (alloc_ok : Z -> bool) : M (user * UserSlicePtr) (Result Error (list Z)) :=
  s ← getX; if alloc_ok (length s) then read (length s) else panic.

Definition write (data : list Z) : M (user * UserSlicePtr) (Result Error unit) :=
  s ← getX;
  let n := Z.of_nat (Datatypes.length data) in
  if (length s <? n) || (u32_MAX <? n) then mret (Err EFAULT)
  else
    res ← onW (_copy_to_user (ptr s) data);
    if negb (res =? 0) then mret (Err EFAULT)
    else _ ← onX (forward n); mret (Ok ()).

(** The methods of the slice itself. *)
Definition on_slice {A} (s : UserSlicePtr) (m : M (user * UserSlicePtr) A) : M user A := fun u =>
  match m (u, s) with Done (a, (u, _)) => Done (a, u) | Panic => Panic end.
Definition slice_read_all (alloc_ok : Z -> bool) (s : UserSlicePtr) : M user (Result Error (list Z)) :=
  on_slice (reader s) (read_all alloc_ok).
Definition write_all (s : UserSlicePtr) (data : list Z) : M user (Result Error unit) := on_slice (writer s) (write data).

End UserSlicePtr.

(** ** Sysctls (sysctl.rs) *)
Module Sysctl.
Import UserSlicePtr.

(** The trait [SysctlStorage]: a value of the storage type [T] with the bytes
    processed and the result. *)
Record SysctlStorage (T : Type) := mkStorage {
  store_value : list Z -> T -> (Z * Result Error unit) * T;
  read_value : T -> M (user * UserSlicePtr) (Z * Result Error unit) }.
Arguments store_value {T}.
Arguments read_value {T}.

Definition is_white (b : Z) : bool := (b =? 32) || (b =? 9) || (b =? 10).
Fixpoint trim_start (l : list Z) : list Z :=
  match l with b :: l' => if is_white b then trim_start l' else l | [] => [] end.
Definition trim_end (l : list Z) : list Z := rev (trim_start (rev l)).
Definition trim_whitespace (data : list Z) : list Z := trim_end (trim_start data).

(** The storage of a flag. *)
Definition store_flag (data : list Z) (v : bool) : (Z * Result Error unit) * bool :=
  let n := Z.of_nat (Datatypes.length data) in
  let t := trim_whitespace data in
  if bool_decide (t = [48]) then ((n, Ok ()), false)
  else if bool_decide (t = [49]) then ((n, Ok ()), true)
  else ((n, Err EINVAL), v).
Definition flag_text (v : bool) : list Z := if v then [49; 10] else [48; 10].
Definition read_flag (v : bool) : M (user * UserSlicePtr) (Z * Result Error unit) :=
  r ← write (flag_text v);
  mret (Z.of_nat (Datatypes.length (flag_text v)), r).
Definition AtomicBool : SysctlStorage bool := mkStorage bool store_flag read_flag.

Section handler.
Context {T : Type} (access_ok : Z -> Z -> bool) (alloc_ok : Z -> bool) (st : SysctlStorage T).

(** [proc_handler] with the storage it finds behind [ctl]: the code it returns, and
    what it leaves in [*len] and [*ppos], which are 64-bit. *)
Definition proc_handler (wr : bool) (buffer len ppos : Z) : M (user * T) (Z * Z * Z) :=
  if negb (ppos =? 0) && negb wr then mret (0, 0, ppos)
  else
    match new access_ok buffer len with
    | Err e => mret (to_kernel_errno e, len, ppos)
    | Ok data =>
        r ← (if wr then
               d ← onW (slice_read_all alloc_ok data);
               match d with
               | Err e => mret (inl e)
               | Ok d =>
                   v ← getX;
                   let '(res, v) := store_value st d v in
                   _ ← onX (fun _ => v);
                   mret (inr res)
               end
             else
               v ← getX;
               res ← onW (on_slice (writer data) (read_value st v));
               mret (inr res));
        match r with
        | inl e => mret (to_kernel_errno e, len, ppos)
        | inr (n, res) =>
            mret (match res with Ok _ => 0 | Err e => to_kernel_errno e end, n, ppos + n)
        end
    end.

(** Registration: the name has no slash, and the kernel may refuse the table. *)
Definition register (name : list Z) (register_sysctl : option Z) (storage : T) : Result Error (T * Z) :=
  if bool_decide (47 ∈ name) then Err EINVAL
  else match register_sysctl with None => Err ENOMEM | Some header => Ok (storage, header) end.
Definition get (s : T * Z) : T := fst s.
End handler.
End Sysctl.

(** ** Slices are read once and written in place *)
Section slices.
Import UserSlicePtr.
Implicit Types (u : user) (s : UserSlicePtr).

Lemma copy_from_user_ok m a n d : copy_from_user m a n = (d, 0) -> holds m a d /\ Datatypes.length d = n.
Proof.
  revert a d. induction n as [|n IH]; intros a d; cbn; [intros [= <-]; split; [by intros []|done]|].
  destruct (m !! a) as [b|] eqn:E; [|done]. destruct (copy_from_user m (a + 1) n) as [l r] eqn:F. intros [= <- ->].
  destruct (IH _ _ F) as [Hh Hn]. split; [by apply holds_cons|cbn; lia].
Qed.

Lemma copy_to_user_outside m a l : outside a (Datatypes.length l) m (fst (copy_to_user m a l)).
Proof.
  revert m a. induction l as [|b l IH]; intros m a x Hx; cbn [copy_to_user]; [done|]. cbn [Datatypes.length] in Hx.
  destruct (m !! a) eqn:E; [|done]. rewrite IH by lia. apply lookup_insert_ne. lia.
Qed.

Lemma copy_to_user_ok m a l m' : copy_to_user m a l = (m', 0) -> holds m' a l.
Proof.
  revert m a m'. induction l as [|b l IH]; intros m a m'; cbn [copy_to_user]; [by intros _ []|].
  destruct (m !! a) eqn:E; [|by intros [= _ ?]]. intros F. apply holds_cons. split; [|by eapply IH].
  pose proof (copy_to_user_outside (<[a := b]> m) (a + 1) l a) as Ho. rewrite F in Ho. cbn [fst] in Ho.
  rewrite Ho by lia. apply lookup_insert_eq.
Qed.

(** A range of the process: [access_ok] says so of what it accepts. *)
Definition in_process (p n : Z) : Prop := 0 <= p /\ 0 <= n /\ p + n < 2 ^ 64.
Definition accepts_process (access_ok : Z -> Z -> bool) : Prop := forall p n, access_ok p n = true -> in_process p n.

Lemma forward_small n s : in_process (ptr s) (length s) -> 0 <= n <= length s ->
  forward n s = mkSlice (ptr s + n) (length s - n) /\ in_process (ptr s + n) (length s - n).
Proof. intros (? & ? & ?) ?. unfold forward. rewrite wrap_small by (unfold in_width; lia). split; [done|]. unfold in_process. lia. Qed.

Lemma read_spec n u s :
  in_process (ptr s) (length s) -> 0 <= n ->
  wp (read n) (u, s) (fun r us => bytes (fst us) = bytes u /\
    match r with
    | Ok d => n <= length s /\ Z.of_nat (Datatypes.length d) = n /\ holds (bytes u) (ptr s) d /\
        snd us = mkSlice (ptr s + n) (length s - n) /\ ucalls (fst us) = CopyFrom (ptr s) n :: ucalls u
    | Err e => e = EFAULT /\ snd us = s /\
        (ucalls (fst us) = ucalls u \/ n <= length s /\ ucalls (fst us) = CopyFrom (ptr s) n :: ucalls u)
    end).
Proof.
  intros Hs Hn. unfold read. wsteps. destruct ((length s <? n) || (u32_MAX <? n)) eqn:E; wsteps.
  { cbn. split; [done|]. split_and!; [done|done|by left]. }
  apply orb_false_elim in E as [E%Z.ltb_ge _]. unfold _copy_from_user. wsteps. unfold wp at 1.
  destruct (copy_from_user (bytes u) (ptr s) (Z.to_nat n)) as [d r] eqn:F. destruct (Z.eqb_spec r 0) as [->|Hr]; cbn [negb]; wsteps; cbn [fst snd].
  - destruct (copy_from_user_ok _ _ _ _ F) as [Hh Hl]. destruct (forward_small n s Hs) as [-> _]; [lia|].
    split_and!; try done. lia.
  - cbn. split; [done|]. split_and!; [done|done|by right].
Qed.

Definition becomes (m : umem) : M user unit := fun u => Done ((), mkUser m (ucalls u)).

(** A sequence of reads; the process has the memory [m] when the read of [n] bytes
    begins. *)
Fixpoint reads (ops : list (umem * Z)) : M (user * UserSlicePtr) (list (Result Error (list Z))) :=
  match ops with
  | [] => mret []
  | (m, n) :: ops =>
      _ ← onW (becomes m);
      r ← read n;
      rs ← reads ops;
      mret (r :: rs)
  end.

(** The results [rs] are the bytes from [p] on, each byte of the process in one of
    them at most. *)
Fixpoint fetched (p : Z) (ops : list (umem * Z)) (rs : list (Result Error (list Z))) : Prop :=
  match ops, rs with
  | [], [] => True
  | (m, n) :: ops, Ok d :: rs => Z.of_nat (Datatypes.length d) = n /\ holds m p d /\ fetched (p + n) ops rs
  | _ :: ops, Err e :: rs => e = EFAULT /\ fetched p ops rs
  | _, _ => False
  end.

Definition within (p n : Z) (c : ucall) : Prop :=
  match c with CopyFrom a k | CopyTo a k => p <= a /\ 0 <= k /\ a + k <= p + n end.

Lemma reads_spec ops u s :
  in_process (ptr s) (length s) -> Forall (fun x => 0 <= snd x) ops ->
  wp (reads ops) (u, s) (fun rs us => fetched (ptr s) ops rs /\
    exists cs, ucalls (fst us) = cs ++ ucalls u /\ Forall (within (ptr s) (length s)) cs).
Proof.
  intros Hs HF. revert u s Hs. induction HF as [|[m n] ops Hn HF IH]; intros u s Hs; cbn [reads]; wsteps.
  { split; [done|]. by exists []. }
  apply wp_done. exists (), (mkUser m (ucalls u)). split; [done|]. wsteps. eapply wp_mono; [apply (read_spec n (mkUser m (ucalls u)) s Hs Hn)|]. intros r [u1 s1] (_ & Hr). cbn [fst snd bytes ucalls] in Hr.
  wsteps. destruct r as [d|e].
  - destruct Hr as (Hle & Hl & Hh & -> & Hc). cbn [snd] in Hn. eapply wp_mono; [apply (IH u1); unfold in_process in *; cbn; lia|].
    intros rs [u2 s2] (Hf & cs & Hu & Hw). wsteps. cbn [fst snd ptr length] in *. split; [done|]. exists (cs ++ [CopyFrom (ptr s) n]).
    rewrite Hu, Hc, <- app_assoc. split; [done|]. apply Forall_app. split; [|by repeat constructor; lia].
    eapply Forall_impl; [exact Hw|]. intros [] Hx; unfold within in *; lia.
  - destruct Hr as (-> & -> & Hc). eapply wp_mono; [apply (IH u1 s Hs)|]. intros rs [u2 s2] (Hf & cs & Hu & Hw). wsteps. cbn [fst snd] in *.
    split; [done|]. destruct Hc as [Hc|[Hle Hc]]; rewrite Hu, Hc; [by exists cs|]. exists (cs ++ [CopyFrom (ptr s) n]).
    rewrite <- app_assoc. split; [done|]. apply Forall_app. split; [done|]. cbn [snd] in Hn. repeat constructor; unfold in_process in Hs; lia.
Qed.

Lemma write_spec data u s :
  in_process (ptr s) (length s) ->
  wp (write data) (u, s) (fun r us =>
    outside (ptr s) (Z.to_nat (length s)) (bytes u) (bytes (fst us)) /\ dom (bytes (fst us)) = dom (bytes u) /\
    match r with
    | Ok _ => Z.of_nat (Datatypes.length data) <= length s /\ holds (bytes (fst us)) (ptr s) data /\
        outside (ptr s) (Datatypes.length data) (bytes u) (bytes (fst us)) /\
        snd us = mkSlice (ptr s + Z.of_nat (Datatypes.length data)) (length s - Z.of_nat (Datatypes.length data))
    | Err e => e = EFAULT /\ snd us = s
    end).
Proof.
  intros Hs. unfold write. wsteps. destruct ((length s <? Z.of_nat (Datatypes.length data)) || _) eqn:E; wsteps; [done|].
  apply orb_false_elim in E as [E%Z.ltb_ge _].
  destruct (copy_to_user (bytes u) (ptr s) data) as [m r] eqn:F.
  apply wp_done. do 2 eexists. split; [unfold _copy_to_user; by rewrite F|]. cbn [fst snd bytes].
  pose proof (copy_to_user_outside (bytes u) (ptr s) data) as Ho. pose proof (copy_to_user_dom (bytes u) (ptr s) data) as [Hd _].
  rewrite F in Ho, Hd. cbn [fst] in Ho, Hd.
  assert (outside (ptr s) (Z.to_nat (length s)) (bytes u) m) by (intros x Hx; apply Ho; lia).
  destruct (Z.eqb_spec r 0) as [->|Hr]; cbn [negb]; wsteps; cbn [fst snd bytes]; [|done].
  destruct (forward_small (Z.of_nat (Datatypes.length data)) s Hs) as [-> _]; [lia|].
  split_and!; try done. by eapply copy_to_user_ok.
Qed.
End slices.

Import UserSlicePtr Sysctl.

Lemma new_ok access_ok p n s :
  accepts_process access_ok -> new access_ok p n = Ok s -> s = mkSlice p n /\ in_process p n.
Proof. unfold new. intros Ha. destruct (access_ok p n) eqn:E; [|done]. intros [= <-]. auto. Qed.

(** C23. A slice of a process is read once. However the process changes its memory
    between the reads, and whatever the sizes of the reads are, those that succeed
    return consecutive blocks from the start of the slice on, each with the bytes that
    were there when it was read; the others fail with EFAULT; and no byte outside of
    the slice is ever accessed. *)
Theorem slice_single_fetch access_ok p n s u ops :
  accepts_process access_ok -> new access_ok p n = Ok s -> Forall (fun x => 0 <= snd x) ops ->
  exists rs u' s', reads ops (u, reader s) = Done (rs, (u', s')) /\ fetched p ops rs /\
    exists cs, ucalls u' = cs ++ ucalls u /\ Forall (within p n) cs.
Proof.
  intros Ha [-> Hp]%(new_ok _ _ _ _ Ha) HF.
  destruct (proj1 (wp_done _ _ _) (reads_spec ops u (mkSlice p n) Hp HF)) as (rs & [u' s'] & Hr & Hf & Hc). by exists rs, u', s'.
Qed.

Definition below_4g (p n : Z) : bool := (0 <=? p) && (0 <=? n) && (p + n <? 2 ^ 32).
Lemma below_4g_process : accepts_process below_4g.
Proof. intros p n. unfold below_4g, in_process. intros H. apply andb_prop in H as [[H1 H2]%andb_prop H3]. lia. Qed.

Example slice_single_fetch_witness : exists rs u' s',
  reads [(<[100 := 1]> ∅, 1); (<[100 := 2]> ∅, 1); (<[100 := 2]> (<[101 := 3]> ∅), 1)] (mkUser ∅ [], mkSlice 100 3) = Done (rs, (u', s')) /\
  rs = [Ok [1]; Err EFAULT; Ok [3]] /\ ucalls u' = [CopyFrom 101 1; CopyFrom 101 1; CopyFrom 100 1].
Proof.
  destruct (slice_single_fetch below_4g 100 3 (mkSlice 100 3) (mkUser ∅ [])
    [(<[100 := 1]> ∅, 1); (<[100 := 2]> ∅, 1); (<[100 := 2]> (<[101 := 3]> ∅), 1)]) as (rs & u' & s' & H & _);
    [exact below_4g_process|reflexivity|repeat constructor; cbn; lia|].
  exists rs, u', s'. split; [exact H|]. vm_compute in H. by injection H as <- <- <-.
Defined.

Section sysctl.
Context (access_ok : Z -> Z -> bool) (alloc_ok : Z -> bool) (Ha : accepts_process access_ok).

Lemma slice_read_all_spec u s :
  in_process (ptr s) (length s) -> alloc_ok (length s) = true ->
  wp (slice_read_all alloc_ok s) u (fun r u' => bytes u' = bytes u /\
    match r with
    | Ok d => Z.of_nat (Datatypes.length d) = length s /\ holds (bytes u) (ptr s) d
    | Err e => e = EFAULT /\ (u32_MAX < length s \/ ~ mapped (bytes u) (ptr s) (Z.to_nat (length s)))
    end).
Proof.
  intros Hs Hal. unfold wp, slice_read_all, on_slice, read_all, reader. rewrite bind_getX. cbn [snd]. rewrite Hal.
  unfold read. rewrite bind_getX. cbn [snd]. rewrite Z.ltb_irrefl, orb_false_l.
  destruct (Z.ltb_spec u32_MAX (length s)); [cbn; by auto|].
  rewrite bind_onW. cbn. destruct (copy_from_user (bytes u) (ptr s) (Z.to_nat (length s))) as [d r] eqn:F.
  destruct (Z.eqb_spec r 0) as [->|Hr]; cbn.
  - destruct (copy_from_user_ok _ _ _ _ F). destruct Hs as (? & ? & ?). repeat split; [lia|done].
  - split; [done|]. split; [done|]. right. intros Hm. apply mapped_holds in Hm as (l & _ & _ & Hc). rewrite Hc in F. by injection F as _ <-.
Qed.


(** Flags survive the text: what a process reads of a flag, written back at any
    time, stores the value that was read. *)
Theorem sysctl_roundtrip u v v0 buffer len pos :
  access_ok buffer len = true -> 2 <= len -> mapped (bytes u) buffer 2 ->
  access_ok buffer 2 = true -> alloc_ok 2 = true ->
  exists u1 u2,
    proc_handler access_ok alloc_ok AtomicBool false buffer len 0 (u, v) = Done ((0, 2, 2), (u1, v)) /\
    proc_handler access_ok alloc_ok AtomicBool true buffer 2 pos (u1, v0) = Done ((0, 2, pos + 2), (u2, v)).
Proof.
  intros Hk Hlen Hm Hk2 Hal.
  destruct (copy_to_user_mapped (bytes u) buffer (flag_text v)) as (m & Hc & Hh & _); [by destruct v|].
  assert (Hr : copy_from_user m buffer 2 = (flag_text v, 0)).
  { rewrite <- (copy_from_user_holds _ _ _ Hh). by destruct v. }
  do 2 eexists. split.
  - unfold proc_handler, new. rewrite Hk. cbn [negb andb Z.eqb]. rewrite bind_run, bind_getX. cbn [snd].
    unfold AtomicBool, read_value, read_flag. rewrite bind_onW. unfold on_slice, writer, write. rewrite bind_run, bind_getX. cbn [snd length ptr].
    replace (Z.of_nat (Datatypes.length (flag_text v))) with 2 by by destruct v.
    rewrite (proj2 (Z.ltb_ge len 2)) by lia. cbn [orb]. change (u32_MAX <? 2) with false. cbv iota.
    rewrite bind_onW. unfold _copy_to_user. rewrite Hc. reflexivity.
  - unfold proc_handler, new. rewrite Hk2, andb_false_r. cbn [negb]. rewrite bind_run, bind_onW.
    unfold slice_read_all, on_slice, read_all, reader. rewrite bind_getX. cbn [snd length]. rewrite Hal.
    unfold read. rewrite bind_getX. cbn [snd length ptr]. change ((2 <? 2) || (u32_MAX <? 2)) with false. cbv iota.
    rewrite bind_onW. unfold _copy_from_user. cbn [bytes fst]. change (Z.to_nat 2) with 2%nat. rewrite Hr. by destruct v.
Qed.
End sysctl.


Example sysctl_roundtrip_witness : exists u1 u2,
  proc_handler below_4g (fun n => n <? 4096) AtomicBool false 100 64 0 (mkUser (<[100 := 0]> (<[101 := 0]> ∅)) [], true) = Done ((0, 2, 2), (u1, true)) /\
  proc_handler below_4g (fun n => n <? 4096) AtomicBool true 100 2 5 (u1, false) = Done ((0, 2, 7), (u2, true)).
Proof.
  apply (sysctl_roundtrip below_4g (fun n => n <? 4096)); [reflexivity|lia| |reflexivity|reflexivity].
  intros [|[|i]] Hi; [by vm_compute; eauto|by vm_compute; eauto|lia].
Defined.
