(* ===== verification/FileOps.v ===== *)
(** * Files of a module

    src/rust-kernel-rdma/deps/rust-kernel-module/src/file_operations.rs: the functions
    the kernel calls for the files of a device, over an implementation of the trait
    [FileOperations].

    A file has the value of its implementation in [private_data] ([None]: a null
    pointer, whose use is a crash). An implementation of [READ] or [WRITE] reaches the
    memory of the process only through the writer or the reader it is given, so it is
    a program over the operations of these; the shared value may have interior
    mutability, so that the program ends with the value it leaves. *)

From S2P Require Import Prelude Bytes Errors UserPtr.
Import UserSlicePtr.

#[local] Open Scope Z_scope.

Abbreviation i64 := (swrap 64).

Definition O_NONBLOCK : Z := 2048.
Definition SEEK_SET : Z := 0.
Definition SEEK_CUR : Z := 1.
Definition SEEK_END : Z := 2.

Record file (T : Type) := mkFile { private_data : option T; f_pos : Z; f_flags : Z }.
Arguments mkFile {T}.
Arguments private_data {T}.
Arguments f_pos {T}.
Arguments f_flags {T}.
Definition set_private {T} (p : option T) (f : file T) : file T := mkFile p (f_pos f) (f_flags f).

(** What an implementation sees of a file. *)
Record File := mkView { pos : Z; nonblock : bool }.
Definition from_ptr {T} (f : file T) : File := mkView (u64 (f_pos f)) (negb (Z.land (f_flags f) O_NONBLOCK =? 0)).

Inductive SeekFrom : Set := Start (n : Z) | End_ (n : Z) | Current (n : Z).

(** Programs over a writer and over a reader. *)
Inductive wprog (T : Type) : Type :=
| WRet (t : T) (r : Result Error unit)
| WLen (k : Z -> wprog T)
| WWrite (data : list Z) (k : Result Error unit -> wprog T).
Arguments WRet {T}.
Arguments WLen {T}.
Arguments WWrite {T}.

Inductive rprog (T : Type) : Type :=
| RRet (t : T) (r : Result Error unit)
| RLen (k : Z -> rprog T)
| RRead (n : nat) (k : Result Error (list Z) -> rprog T).
Arguments RRet {T}.
Arguments RLen {T}.
Arguments RRead {T}.

Fixpoint run_writer {T} (p : wprog T) : M (user * UserSlicePtr) (T * Result Error unit) :=
  match p with
  | WRet t r => mret (t, r)
  | WLen k => s ← getX; run_writer (k (len s))
  | WWrite data k => r ← write data; run_writer (k r)
  end.
Fixpoint run_reader {T} (p : rprog T) : M (user * UserSlicePtr) (T * Result Error unit) :=
  match p with
  | RRet t r => mret (t, r)
  | RLen k => s ← getX; run_reader (k (len s))
  | RRead n k => r ← read (Z.of_nat n); run_reader (k r)
  end.

(** The trait, over the world [V] of the implementation; [drop] is the drop of the
    value. *)
Record FileOperations (V T : Type) := mkOps {
  open : M V (Result Error T);
  ioctrl : Z -> Z -> M (V * T) Z;
  mmap : Z -> M (V * T) Z;
  READ : option (T -> File -> Z -> wprog T);
  WRITE : option (T -> Z -> rprog T);
  SEEK : option (T -> File -> SeekFrom -> Result Error Z);
  drop : T -> M V unit }.
Arguments mkOps {V T}.
Arguments open {V T}.
Arguments ioctrl {V T}.
Arguments mmap {V T}.
Arguments READ {V T}.
Arguments WRITE {V T}.
Arguments SEEK {V T}.
Arguments drop {V T}.

Section callbacks.
Context {V T : Type} (access_ok : Z -> Z -> bool) (ops : FileOperations V T).
Implicit Types (f : file T).

Definition open_callback : M (V * file T) Z :=
  r ← onW (open ops);
  match r with
  | Ok t => _ ← onX (set_private (Some t)); mret 0
  | Err e => mret (to_kernel_errno e)
  end.

(** A call of a method with the value of the file. *)
Definition on_private {A} (m : M (V * T) A) : M (V * file T) A := fun '(v, f) =>
  match private_data f with
  | None => Panic
  | Some t => match m (v, t) with Done (a, (v, t)) => Done (a, (v, set_private (Some t) f)) | Panic => Panic end
  end.

Definition ioctrl_callback (cmd arg : Z) : M (V * file T) Z := on_private (ioctrl ops cmd arg).
Definition mmap_callback (vma : Z) : M (V * file T) Z := on_private (mmap ops vma).

(** The end of [read_callback] and of [write_callback]: the code returned and what is
    left in [*offset], when [n] bytes have been moved. *)
Definition moved (r : Result Error unit) (n offset : Z) : M (user * file T) (Z * Z) :=
  match r with
  | Ok _ => if 2 ^ 63 <=? n then panic else mret (n, i64 (offset + n))
  | Err e => mret (to_kernel_errno e, offset)
  end.

Definition with_slice (p : T -> M (user * UserSlicePtr) (T * Result Error unit)) (s : UserSlicePtr) :
    M (user * file T) (Result Error unit * Z) := fun '(u, f) =>
  match private_data f with
  | None => Panic
  | Some t =>
      match p t (u, s) with
      | Done ((t, r), (u, s')) => Done ((r, len s'), (u, set_private (Some t) f))
      | Panic => Panic
      end
  end.

Definition read_callback (buf n offset : Z) : M (user * file T) (Z * Z) :=
  match new access_ok buf n with
  | Err e => mret (to_kernel_errno e, offset)
  | Ok s =>
      f ← getX;
      if offset <? 0 then mret (to_kernel_errno EINVAL, offset)
      else
        rd ← unwrap (READ ops);
        '(r, rest) ← with_slice (fun t => run_writer (rd t (from_ptr f) offset)) (writer s);
        moved r (n - rest) offset
  end.

Definition write_callback (buf n offset : Z) : M (user * file T) (Z * Z) :=
  match new access_ok buf n with
  | Err e => mret (to_kernel_errno e, offset)
  | Ok s =>
      if offset <? 0 then mret (to_kernel_errno EINVAL, offset)
      else
        wr ← unwrap (WRITE ops);
        '(r, rest) ← with_slice (fun t => run_reader (wr t offset)) (reader s);
        moved r (n - rest) offset
  end.

Definition release_callback : M (V * file T) Z :=
  f ← getX;
  _ ← onX (set_private None);
  t ← unwrap (private_data f);
  _ ← onW (drop ops t);
  mret 0.

(** [llseek_callback] leaves the position of the file to the implementation, which
    cannot change it. *)
Definition llseek_callback (offset whence : Z) : M (V * file T) Z :=
  let off :=
    if u32 whence =? SEEK_SET then if offset <? 0 then None else Some (Start offset)
    else if u32 whence =? SEEK_CUR then Some (Current offset)
    else if u32 whence =? SEEK_END then Some (End_ offset)
    else None in
  match off with
  | None => mret (to_kernel_errno EINVAL)
  | Some off =>
      f ← getX;
      t ← unwrap (private_data f);
      seek ← unwrap (SEEK ops);
      match seek t (from_ptr f) off with
      | Ok n => mret (i64 n)
      | Err e => mret (to_kernel_errno e)
      end
  end.

End callbacks.

(** The table the kernel is given: the optional functions are there when the
    implementation has them. *)
Record file_operations (V T : Type) := mkTable {
  t_open : M (V * file T) Z;
  t_release : M (V * file T) Z;
  t_unlocked_ioctl : Z -> Z -> M (V * file T) Z;
  t_mmap : Z -> M (V * file T) Z;
  t_read : option (Z -> Z -> Z -> M (user * file T) (Z * Z));
  t_write : option (Z -> Z -> Z -> M (user * file T) (Z * Z));
  t_llseek : option (Z -> Z -> M (V * file T) Z) }.
Arguments mkTable {V T}.
Arguments t_open {V T}.
Arguments t_release {V T}.
Arguments t_unlocked_ioctl {V T}.
Arguments t_mmap {V T}.
Arguments t_read {V T}.
Arguments t_write {V T}.
Arguments t_llseek {V T}.

Definition VTABLE {V T} (access_ok : Z -> Z -> bool) (ops : FileOperations V T) : file_operations V T :=
  mkTable (open_callback ops) (release_callback ops) (ioctrl_callback ops) (mmap_callback ops)
    ((fun _ => read_callback access_ok ops) <$> READ ops)
    ((fun _ => write_callback access_ok ops) <$> WRITE ops)
    ((fun _ => llseek_callback ops) <$> SEEK ops).

(** ** What a read and a write of a file do *)

(** A program over a writer of [n] bytes, with [out] written so far: each write
    succeeds or fails as [oks] says, and it succeeds only when the bytes fit. With
    [strict] it fails only when they do not. *)
Fixpoint replay_writer {T} (strict : bool) (n : Z) (p : wprog T) (out : list Z) (oks : list bool) :
    option (T * Result Error unit * list Z) :=
  match p with
  | WRet t r => match oks with [] => Some (t, r, out) | _ => None end
  | WLen k => replay_writer strict n (k (n - Z.of_nat (Datatypes.length out))) out oks
  | WWrite data k =>
      let fits := Z.of_nat (Datatypes.length out + Datatypes.length data) <=? n in
      match oks with
      | true :: oks => if fits then replay_writer strict n (k (Ok ())) (out ++ data) oks else None
      | false :: oks => if strict && fits then None else replay_writer strict n (k (Err EFAULT)) out oks
      | [] => None
      end
  end.

(** A program over a reader of [n] bytes, with the bytes [inp] to come. *)
Fixpoint replay_reader {T} (strict : bool) (n : Z) (p : rprog T) (inp : list Z) (oks : list bool) :
    option (T * Result Error unit) :=
  match p with
  | RRet t r => match inp, oks with [], [] => Some (t, r) | _, _ => None end
  | RLen k => replay_reader strict n (k n) inp oks
  | RRead m k =>
      match oks with
      | true :: oks =>
          if (m <=? Datatypes.length inp)%nat
          then replay_reader strict (n - Z.of_nat m) (k (Ok (take m inp))) (skipn m inp) oks else None
      | false :: oks =>
          if strict && (Z.of_nat m <=? n) then None else replay_reader strict n (k (Err EFAULT)) inp oks
      | [] => None
      end
  end.

Section replay.
Context {T : Type}.
Implicit Types (u : user) (s : UserSlicePtr).

Lemma write_fits data u s :
  in_process (ptr s) (length s) -> mapped (bytes u) (ptr s) (Z.to_nat (length s)) -> length s <= u32_MAX ->
  Z.of_nat (Datatypes.length data) <= length s -> wp (write data) (u, s) (fun r _ => r = Ok ()).
Proof.
  intros Hs Hm Hn Hd. unfold write. wsteps.
  rewrite (proj2 (Z.ltb_ge _ _)), (proj2 (Z.ltb_ge u32_MAX _)) by lia. cbn [orb]. cbv iota. wsteps.
  destruct (copy_to_user_mapped (bytes u) (ptr s) data) as (m & Hc & _); [by eapply mapped_sub; [exact Hm|lia..]|].
  apply wp_done. do 2 eexists. split; [unfold _copy_to_user; by rewrite Hc|]. cbn [negb Z.eqb]. by wsteps.
Qed.

Lemma run_writer_spec strict n (p : wprog T) buf u out :
  in_process buf n -> Z.of_nat (Datatypes.length out) <= n ->
  (strict = true -> mapped (bytes u) buf (Z.to_nat n) /\ n <= u32_MAX) -> holds (bytes u) buf out ->
  let at_ out := mkSlice (buf + Z.of_nat (Datatypes.length out)) (n - Z.of_nat (Datatypes.length out)) in
  wp (run_writer p) (u, at_ out) (fun '(t, r) '(u', s') => exists oks out',
    replay_writer strict n p out oks = Some (t, r, out') /\ s' = at_ out' /\ holds (bytes u') buf out' /\
    Z.of_nat (Datatypes.length out') <= n /\ outside buf (Z.to_nat n) (bytes u) (bytes u') /\ dom (bytes u') = dom (bytes u)).
Proof.
  intros Hb. cbv zeta. revert u out. induction p as [t r|k IH|data k IH]; intros u out Ho Hst Hh; cbn [run_writer].
  - wsteps. by exists [], out.
  - wsteps. eapply wp_mono; [by apply IH|]. by intros [t r] [u' s'].
  - wsteps. set (s := mkSlice _ _). assert (Hs : in_process (ptr s) (length s)) by (unfold in_process, s in *; cbn; lia).
    pose proof (write_spec data u s Hs) as Hw. apply wp_done in Hw as (r & [u1 s1] & Hw & Ho1 & Hd1 & Hr).
    apply wp_done. exists r, (u1, s1). split; [done|]. cbn [fst snd] in *.
    assert (Ho2 : outside buf (Z.to_nat n) (bytes u) (bytes u1)) by (intros x Hx; apply Ho1; unfold s; cbn; lia).
    assert (Hst1 : strict = true -> mapped (bytes u1) buf (Z.to_nat n) /\ n <= u32_MAX)
      by (intros E; destruct (Hst E); split; [by eapply mapped_dom|done]).
    assert (Hh1 : holds (bytes u1) buf out) by (eapply holds_outside; [exact Ho1|exact Hh|left; unfold s; cbn; lia]).
    destruct r as [[]|e].
    + destruct Hr as (Hle & Hdat & _ & ->). unfold s in Hle, Hdat; cbn [ptr length] in Hle, Hdat.
      replace (mkSlice _ _) with (mkSlice (buf + Z.of_nat (Datatypes.length (out ++ data))) (n - Z.of_nat (Datatypes.length (out ++ data))))
        by (rewrite length_app; unfold s; cbn; f_equal; lia).
      eapply wp_mono; [apply IH; [rewrite length_app; lia|done|by apply holds_app]|].
      intros [t r] [u' s'] (oks & out' & Hp & -> & Hh' & Hl' & Ho' & Hd'). exists (true :: oks), out'. cbn [replay_writer].
      rewrite (proj2 (Z.leb_le _ _)) by lia. split_and!; try done; [|congruence]. intros x Hx. by rewrite Ho', Ho2.
    + destruct Hr as [-> ->]. eapply wp_mono; [by apply IH|].
      intros [t r] [u' s'] (oks & out' & Hp & -> & Hh' & Hl' & Ho' & Hd'). exists (false :: oks), out'. cbn [replay_writer].
      assert (strict && (Z.of_nat (Datatypes.length out + Datatypes.length data) <=? n) = false) as ->.
      { destruct strict; [|done]. cbn [andb]. destruct (Z.leb_spec (Z.of_nat (Datatypes.length out + Datatypes.length data)) n); [|done].
        destruct (Hst eq_refl) as [Hm Hu]. assert (Hf : wp (write data) (u, s) (fun r _ => r = Ok ()))
          by (apply write_fits; [done|eapply mapped_sub; [exact Hm|unfold s; cbn; lia..]|unfold s; cbn; lia..]).
        apply wp_done in Hf as (? & ? & Hf & ->). congruence. }
      split_and!; try done; [|congruence]. intros x Hx. by rewrite Ho', Ho2.
Qed.

Lemma read_fits n u s :
  in_process (ptr s) (length s) -> mapped (bytes u) (ptr s) (Z.to_nat (length s)) -> length s <= u32_MAX ->
  Z.of_nat n <= length s -> wp (read (Z.of_nat n)) (u, s) (fun r _ => is_Ok r).
Proof.
  intros Hs Hm Hn Hd. unfold read. wsteps.
  rewrite (proj2 (Z.ltb_ge _ _)), (proj2 (Z.ltb_ge u32_MAX _)) by lia. cbn [orb]. cbv iota. wsteps.
  destruct (mapped_holds (bytes u) (ptr s) n) as (l & _ & _ & Hc); [by eapply mapped_sub; [exact Hm|lia..]|].
  apply wp_done. do 2 eexists. split; [unfold _copy_from_user; rewrite Nat2Z.id, Hc; done|]. cbv beta iota. cbn [negb Z.eqb]. by wsteps.
Qed.

Lemma run_reader_spec strict (p : rprog T) u s :
  in_process (ptr s) (length s) -> (strict = true -> mapped (bytes u) (ptr s) (Z.to_nat (length s)) /\ length s <= u32_MAX) ->
  wp (run_reader p) (u, s) (fun '(t, r) '(u', s') => bytes u' = bytes u /\ exists oks inp,
    replay_reader strict (length s) p inp oks = Some (t, r) /\ holds (bytes u) (ptr s) inp /\
    Z.of_nat (Datatypes.length inp) <= length s /\
    s' = mkSlice (ptr s + Z.of_nat (Datatypes.length inp)) (length s - Z.of_nat (Datatypes.length inp))).
Proof.
  revert u s. induction p as [t r|k IH|n k IH]; intros u s Hs Hst; cbn [run_reader].
  - wsteps. split; [done|]. exists [], []. split_and!; [done|by intros []|unfold in_process in Hs; cbn; lia|].
    destruct s. cbn. f_equal; lia.
  - wsteps. by apply IH.
  - wsteps. pose proof (read_spec (Z.of_nat n) u s Hs ltac:(lia)) as Hw. apply wp_done in Hw as (r & [u1 s1] & Hw & Hb & Hr).
    apply wp_done. exists r, (u1, s1). split; [done|]. cbn [fst snd] in *. destruct r as [d|e].
    + destruct Hr as (Hle & Hl & Hh & -> & _). eapply wp_mono.
      { apply (IH (Ok d)); cbn [ptr length]; [unfold in_process in *; lia|]. intros E. destruct (Hst E) as [Hm Hn].
        split; [|lia]. rewrite Hb. eapply mapped_sub; [exact Hm|lia|lia]. }
      intros [t r] [u' s'] (Hb' & oks & inp & Hp & Hh' & Hl' & ->). cbn [ptr length] in *. split; [congruence|].
      exists (true :: oks), (d ++ inp). cbn [replay_reader].
      rewrite length_app, (proj2 (Nat.leb_le _ _)) by lia. assert (Hn : n = Datatypes.length d) by lia. subst n.
      rewrite take_app_length, drop_app_length. rewrite Hb in Hh'.
      split_and!; [done|by apply holds_app|lia|f_equal; lia].
    + destruct Hr as (-> & -> & _). eapply wp_mono; [apply (IH (Err EFAULT)); [done|by rewrite Hb]|].
      intros [t r] [u' s'] (Hb' & oks & inp & Hp & Hh' & Hl' & ->). split; [congruence|]. rewrite Hb in Hh'.
      exists (false :: oks), inp. cbn [replay_reader].
      assert (strict && (Z.of_nat n <=? length s) = false) as ->; [|done].
      destruct strict; [|done]. cbn [andb]. destruct (Z.leb_spec (Z.of_nat n) (length s)); [|done].
      destruct (Hst eq_refl) as [Hm Hu]. pose proof (read_fits n u s Hs Hm Hu ltac:(lia)) as Hf.
      apply wp_done in Hf as (? & ? & Hf & Hok). by rewrite Hw in Hf; injection Hf as <- _.
Qed.
End replay.

Section callback_specs.
Context {V T : Type} (access_ok : Z -> Z -> bool) (ops : FileOperations V T).
Context (Ha : accepts_process access_ok).

Lemma moved_small r n offset (st : user * file T) :
  0 <= offset -> 0 <= n -> offset + n < 2 ^ 63 ->
  moved r n offset st = Done (match r with Ok _ => (n, offset + n) | Err e => (to_kernel_errno e, offset) end, st).
Proof.
  intros. unfold moved. destruct r as [[]|e]; [|done]. rewrite (proj2 (Z.leb_gt _ _)) by lia.
  unfold swrap. rewrite wrap_small by (unfold in_width; lia). change (64 - 1) with 63. by rewrite (proj2 (Z.ltb_lt _ _)) by lia.
Qed.

(** C20. A read of a file. A range that is not of the process is EFAULT and a negative
    offset EINVAL, and nothing is touched. Otherwise the implementation runs as over a
    list of at most [n] bytes, which are then the first bytes of the buffer: its
    writes succeed in order, fail only when they do not fit if the buffer is mapped,
    and reach no byte outside of the buffer; the call returns the number of bytes and
    moves the offset by it, or returns the error and leaves the offset. *)
Theorem read_callback_correct rd buf n offset u (f : file T) t strict :
  READ ops = Some rd -> private_data f = Some t -> offset + n < 2 ^ 63 ->
  (strict = true -> mapped (bytes u) buf (Z.to_nat n) /\ n <= u32_MAX) ->
  exists c offset' u' f', read_callback access_ok ops buf n offset (u, f) = Done ((c, offset'), (u', f')) /\
    if negb (access_ok buf n) then c = -14 /\ offset' = offset /\ u' = u /\ f' = f
    else if offset <? 0 then c = -22 /\ offset' = offset /\ u' = u /\ f' = f
    else outside buf (Z.to_nat n) (bytes u) (bytes u') /\ exists oks t' r out,
      replay_writer strict n (rd t (from_ptr f) offset) [] oks = Some (t', r, out) /\
      f' = set_private (Some t') f /\ holds (bytes u') buf out /\ Z.of_nat (Datatypes.length out) <= n /\
      match r with
      | Ok _ => c = Z.of_nat (Datatypes.length out) /\ offset' = offset + c
      | Err e => c = to_kernel_errno e /\ offset' = offset
      end.
Proof.
  intros Hrd Ht Hn Hst. unfold read_callback. destruct (new access_ok buf n) as [s|e] eqn:E.
  2:{ unfold new in E. destruct (access_ok buf n); [done|]. injection E as <-. by exists (-14), offset, u, f. }
  destruct (new_ok _ _ _ _ Ha E) as [-> Hp]. unfold new in E. destruct (access_ok buf n); [|done]. cbn [negb].
  rewrite bind_getX. destruct (Z.ltb_spec offset 0); [by exists (-22), offset, u, f|].
  rewrite Hrd. destruct (proj1 (wp_done _ _ _) (run_writer_spec strict n (rd t (from_ptr f) offset) buf u [] Hp
    ltac:(unfold in_process in Hp; cbn; lia) Hst ltac:(by intros []))) as ([t' r] & [u' s'] & Hr & oks & out & Hpl & -> & Hh & Hl & Ho & _).
  cbn [Datatypes.length] in Hr. change (Z.of_nat 0) with 0 in Hr. rewrite Z.add_0_r, Z.sub_0_r in Hr.
  cbn [unwrap]. rewrite bind_ret. unfold with_slice, writer. rewrite bind_run, Ht, Hr. cbn [len length].
  rewrite moved_small by lia. replace (n - (n - _)) with (Z.of_nat (Datatypes.length out)) by lia.
  destruct r as [[]|e]; do 4 eexists; (split; [reflexivity|]); (split; [done|]); do 4 eexists; (split; [exact Hpl|]); done.
Qed.

(** A write of a file: the same refusals; otherwise the implementation runs over
    the first bytes of the buffer, each read once and in order, reads fail only when
    they are too long if the buffer is mapped, the memory of the process is unchanged,
    and the call returns the number of bytes and moves the offset by it, or returns
    the error and leaves the offset. *)
Theorem write_callback_correct wr buf n offset u (f : file T) t strict :
  WRITE ops = Some wr -> private_data f = Some t -> offset + n < 2 ^ 63 ->
  (strict = true -> mapped (bytes u) buf (Z.to_nat n) /\ n <= u32_MAX) ->
  exists c offset' u' f', write_callback access_ok ops buf n offset (u, f) = Done ((c, offset'), (u', f')) /\
    bytes u' = bytes u /\
    if negb (access_ok buf n) then c = -14 /\ offset' = offset /\ f' = f
    else if offset <? 0 then c = -22 /\ offset' = offset /\ f' = f
    else exists oks t' r inp,
      replay_reader strict n (wr t offset) inp oks = Some (t', r) /\
      f' = set_private (Some t') f /\ holds (bytes u) buf inp /\ Z.of_nat (Datatypes.length inp) <= n /\
      match r with
      | Ok _ => c = Z.of_nat (Datatypes.length inp) /\ offset' = offset + c
      | Err e => c = to_kernel_errno e /\ offset' = offset
      end.
Proof.
  intros Hwr Ht Hn Hst. unfold write_callback. destruct (new access_ok buf n) as [s|e] eqn:E.
  2:{ unfold new in E. destruct (access_ok buf n); [done|]. injection E as <-. by exists (-14), offset, u, f. }
  destruct (new_ok _ _ _ _ Ha E) as [-> Hp]. unfold new in E. destruct (access_ok buf n); [|done]. cbn [negb].
  destruct (Z.ltb_spec offset 0); [by exists (-22), offset, u, f|].
  rewrite Hwr. destruct (proj1 (wp_done _ _ _) (run_reader_spec strict (wr t offset) u (mkSlice buf n) Hp Hst))
    as ([t' r] & [u' s'] & Hr & Hb & oks & inp & Hpl & Hh & Hl & ->). cbn [ptr length] in *.
  cbn [unwrap]. rewrite bind_ret. unfold with_slice, reader. rewrite bind_run, Ht, Hr. cbn [len length].
  rewrite moved_small by lia. replace (n - (n - _)) with (Z.of_nat (Datatypes.length inp)) by lia.
  destruct r as [[]|e]; do 4 eexists; (split; [reflexivity|]); (split; [done|]); do 4 eexists; (split; [exact Hpl|]); done.
Qed.
End callback_specs.

(** A file with the bytes [data], which counts its reads; writes append. *)
Module FileSample.
Record text := mkText { data : list Z; uses : nat }.
Definition rd (t : text) (_ : File) (off : Z) : wprog text :=
  WLen (fun n => WWrite (firstn (Z.to_nat n) (skipn (Z.to_nat off) (data t))) (fun r => WRet (mkText (data t) (S (uses t))) r)).
Definition wr (t : text) (off : Z) : rprog text :=
  RLen (fun n => RRead (Z.to_nat n) (fun r =>
    match r with Ok d => RRet (mkText (data t ++ d) (uses t)) (Ok ()) | Err e => RRet t (Err e) end)).
Definition ops : FileOperations unit text :=
  mkOps (mret (Ok (mkText [] 0))) (fun _ _ => mret 0) (fun _ => mret 0) (Some rd) (Some wr) None (fun _ => mret ()).
Definition memory : user := mkUser (<[100 := 1]> (<[101 := 2]> (<[102 := 3]> ∅))) [].
Definition opened (t : text) : file text := mkFile (Some t) 0 0.

Lemma memory_mapped : true = true -> mapped (bytes memory) 100 (Z.to_nat 3) /\ 3 <= u32_MAX.
Proof. intros _. split; [|vm_compute; discriminate]. intros [|[|[|i]]] Hi; [by vm_compute; eauto..|cbn in Hi; lia]. Qed.
End FileSample.

Example read_callback_correct_witness : exists c offset u' f',
  read_callback below_4g FileSample.ops 100 3 2 (FileSample.memory, FileSample.opened (FileSample.mkText [7; 8; 9; 10] 0)) = Done ((c, offset), (u', f')) /\
  c = 2 /\ offset = 4 /\ holds (bytes u') 100 [9; 10].
Proof.
  destruct (read_callback_correct below_4g FileSample.ops below_4g_process FileSample.rd 100 3 2 FileSample.memory
    (FileSample.opened (FileSample.mkText [7; 8; 9; 10] 0)) (FileSample.mkText [7; 8; 9; 10] 0) true)
    as (c & o & u' & f' & H & _); [reflexivity|reflexivity|lia|exact FileSample.memory_mapped|].
  exists c, o, u', f'. split; [exact H|]. vm_compute in H. injection H as <- <- <- <-.
  split_and!; [done|done|]. intros [|[|i]] b; [by intros [= <-]|by intros [= <-]|done].
Defined.

Example write_callback_correct_witness : exists c offset u' f',
  write_callback below_4g FileSample.ops 100 3 5 (FileSample.memory, FileSample.opened (FileSample.mkText [7] 0)) = Done ((c, offset), (u', f')) /\
  c = 3 /\ offset = 8 /\ FileSample.data <$> private_data f' = Some [7; 1; 2; 3].
Proof.
  destruct (write_callback_correct below_4g FileSample.ops below_4g_process FileSample.wr 100 3 5 FileSample.memory
    (FileSample.opened (FileSample.mkText [7] 0)) (FileSample.mkText [7] 0) true)
    as (c & o & u' & f' & H & _); [reflexivity|reflexivity|lia|exact FileSample.memory_mapped|].
  exists c, o, u', f'. split; [exact H|]. vm_compute in H. by injection H as <- <- <- <-.
Defined.
