(* ===== verification/Locks.v ===== *)
(** * Locks of the kernel build

    src/rust-kernel-rdma/rust-kernel-linux-util/src/rwlock.rs ([ReadWriteLock]) and
    src/rust-kernel-rdma/deps/rust-kernel-module/src/mutex.rs ([LinuxMutex], whose lock
    is the one of a writer): data that threads reach inside closures that run while
    the lock is held.

    The lock itself is the kernel's, behind the interface [KernelLock]: a reader enters
    only when no writer is inside, a writer only when nobody is, and a lock that nobody
    holds can be taken. A closure is a sequence of accesses to the data, and the
    accesses of different threads interleave; a schedule says whose turn it is, and a
    thread that waits for the lock spends its turn. *)

From S2P Require Import Prelude.

(** The calls of thread [i] on a lock of the kernel; a call that gives nothing waits. *)
Class KernelLock (L : Type) := {
  unlocked : L;
  rd_lock : nat -> L -> option L;
  rd_unlock : nat -> L -> L;
  wr_lock : nat -> L -> option L;
  wr_unlock : nat -> L -> L }.

(** [holds l rs w]: the readers and the writer inside. *)
Class KernelLockLaws (L : Type) `{!KernelLock L} := {
  holds : L -> list nat -> option nat -> Prop;
  holds_unlocked : holds unlocked [] None;
  rd_lock_law i l l' rs w : holds l rs w -> rd_lock i l = Some l' -> w = None /\ holds l' (i :: rs) None;
  rd_unlock_law i l rs w : holds l rs w -> i ∈ rs -> holds (rd_unlock i l) (filter (fun j => j <> i) rs) w;
  wr_lock_law i l l' rs w : holds l rs w -> wr_lock i l = Some l' -> w = None /\ rs = [] /\ holds l' [] (Some i);
  wr_unlock_law i l rs : holds l rs (Some i) -> holds (wr_unlock i l) rs None;
  free_law i l : holds l [] None -> is_Some (rd_lock i l) /\ is_Some (wr_lock i l) }.

Section locks.
Context {T L : Type} `{!KernelLock L}.
Implicit Types (d v : T).

(** What a thread does next. *)
Inductive act : Type :=
| read_lock | read_unlock | write_lock | write_unlock
| Look | Update (f : T -> T).

(** The methods with a closure that looks [n] times, and with one that updates. *)
Definition rlock_f (n : nat) : list act := read_lock :: replicate n Look ++ [read_unlock].
Definition wlock_f (fs : list (T -> T)) : list act := write_lock :: (Update <$> fs) ++ [write_unlock].
(** [LinuxMutex::lock_f]: the mutex has writers only. *)
Definition lock_f (fs : list (T -> T)) : list act := wlock_f fs.

Inductive method : Type := RLock (n : nat) | WLock (fs : list (T -> T)).
Definition code (m : method) : list act := match m with RLock n => rlock_f n | WLock fs => wlock_f fs end.
Definition program (ms : list method) : list act := concat (code <$> ms).

(** The lock, the data, the threads; and what happened: who is inside, the values seen,
    and the closures of writers in the order in which they entered. *)
Record state := mkState {
  lock : L; readers : list nat; writer_ : option nat; data : T; threads : list (list act);
  seen : list T; entered : list (nat * list (T -> T)) }.

Definition start (d : T) (mss : list (list method)) : state := mkState unlocked [] None d (program <$> mss) [] [].

(** The updates up to the end of the closure. *)
Fixpoint closure (p : list act) : list (T -> T) :=
  match p with Update f :: p => f :: closure p | _ => [] end.

Definition step (i : nat) (s : state) : option state :=
  match threads s !! i with
  | Some (a :: p) =>
      let ts := <[i := p]> (threads s) in
      match a with
      | read_lock =>
          match rd_lock i (lock s) with
          | Some l => Some (mkState l (i :: readers s) (writer_ s) (data s) ts (seen s) (entered s))
          | None => None
          end
      | read_unlock =>
          Some (mkState (rd_unlock i (lock s)) (filter (fun j => j <> i) (readers s)) (writer_ s) (data s) ts (seen s) (entered s))
      | write_lock =>
          match wr_lock i (lock s) with
          | Some l => Some (mkState l (readers s) (Some i) (data s) ts (seen s) (entered s ++ [(i, closure p)]))
          | None => None
          end
      | write_unlock => Some (mkState (wr_unlock i (lock s)) (readers s) None (data s) ts (seen s) (entered s))
      | Look => Some (mkState (lock s) (readers s) (writer_ s) (data s) ts (seen s ++ [data s]) (entered s))
      | Update f => Some (mkState (lock s) (readers s) (writer_ s) (f (data s)) ts (seen s) (entered s))
      end
  | _ => None
  end.

Definition turn (s : state) (i : nat) : state := default s (step i s).
Definition run (sched : list nat) (s : state) : state := foldl turn s sched.

(** ** Closures appear as if they ran alone *)
Definition apply_all (fs : list (T -> T)) (d : T) : T := foldl (fun d f => f d) d fs.
Definition apply_hist (h : list (nat * list (T -> T))) (d : T) : T := foldl (fun d c => apply_all (snd c) d) d h.

Definition writes (ms : list method) : list (list (T -> T)) :=
  ms ≫= fun m => match m with WLock fs => [fs] | RLock _ => [] end.
Definition of_thread (i : nat) (h : list (nat * list (T -> T))) : list (list (T -> T)) :=
  h ≫= fun c => if bool_decide (fst c = i) then [snd c] else [].

Lemma of_thread_app i h1 h2 : of_thread i (h1 ++ h2) = of_thread i h1 ++ of_thread i h2.
Proof. apply bind_app. Qed.

Context `{!KernelLockLaws L}.

(** Where a thread is: outside, in a closure of a reader, or of a writer. *)
Inductive place : Type := Outside | Reading (n : nat) | Writing (fs : list (T -> T)).
Definition rest (pl : place) (ms : list method) : list act :=
  match pl with
  | Outside => program ms
  | Reading n => replicate n Look ++ read_unlock :: program ms
  | Writing fs => (Update <$> fs) ++ write_unlock :: program ms
  end.

Record thread_ok (d0 : T) (ws : list (list (T -> T))) (s : state) (i : nat) (pl : place) (ms : list method) : Prop := {
  t_rest : threads s !! i = Some (rest pl ms);
  t_reader : (exists n, pl = Reading n) <-> i ∈ readers s;
  t_writer fs : pl = Writing fs -> writer_ s = Some i /\ apply_all fs (data s) = apply_hist (entered s) d0;
  t_inside : writer_ s = Some i -> exists fs, pl = Writing fs;
  t_hist : ws = of_thread i (entered s) ++ writes ms }.

Record inv (d0 : T) (mss : list (list method)) (s : state) : Prop := {
  i_threads i ms0 : mss !! i = Some ms0 -> exists pl ms, thread_ok d0 (writes ms0) s i pl ms;
  i_len : length (threads s) = length mss;
  i_range j : j ∈ readers s \/ writer_ s = Some j -> (j < length mss)%nat;
  i_lock : holds (lock s) (readers s) (writer_ s);
  i_excl : is_Some (writer_ s) -> readers s = [];
  i_data : writer_ s = None -> data s = apply_hist (entered s) d0;
  i_seen v : v ∈ seen s -> exists k, v = apply_hist (take k (entered s)) d0 }.


Local Ltac sproj := cbn [lock readers writer_ data threads seen entered].

Lemma closure_updates fs p : closure ((Update <$> fs) ++ write_unlock :: p) = fs.
Proof. induction fs as [|f fs IH]; [done|]. cbn. by f_equal. Qed.

Lemma apply_hist_snoc h c d : apply_hist (h ++ [c]) d = apply_all (snd c) (apply_hist h d).
Proof. unfold apply_hist. by rewrite foldl_app. Qed.

(** A step of a thread leaves the others where they are. *)
Lemma thread_frame d0 ws s s' i j p pl ms :
  i <> j -> threads s' = <[i := p]> (threads s) -> (j ∈ readers s' <-> j ∈ readers s) ->
  (writer_ s' = writer_ s /\ data s' = data s /\ entered s' = entered s) \/
  (writer_ s <> Some j /\ writer_ s' <> Some j /\ of_thread j (entered s') = of_thread j (entered s)) ->
  thread_ok d0 ws s j pl ms -> thread_ok d0 ws s' j pl ms.
Proof.
  intros Hij Ht Hr Hc [H1 H2 H3 H4 H5]. split.
  - by rewrite Ht, list_lookup_insert_ne.
  - by rewrite Hr.
  - intros fs Hfs. destruct (H3 fs Hfs) as [Hw Hd]. destruct Hc as [(-> & -> & ->)|(? & _)]; done.
  - destruct Hc as [(-> & _)|(_ & ? & _)]; done.
  - destruct Hc as [(_ & _ & ->)|(_ & _ & ->)]; done.
Qed.

Lemma lock_inv_start d0 mss : inv d0 mss (start d0 mss).
Proof.
  split; cbn; [|by rewrite length_fmap|intros j [?%elem_of_nil|?]; done|apply holds_unlocked|by intros [? ?]|done|by intros v ?%elem_of_nil].
  intros i ms0 Hi. exists Outside, ms0. split; cbn; [by rewrite list_lookup_fmap, Hi| |done|done|done].
  split; [by intros [? ?]|by intros ?%elem_of_nil].
Qed.

(** Every thread after a step: the one whose turn it was, and the others. *)
Lemma step_threads d0 mss s s' i p ms0 pl' ms' :
  inv d0 mss s -> mss !! i = Some ms0 -> threads s' = <[i := p]> (threads s) ->
  (forall j, i <> j -> j ∈ readers s' <-> j ∈ readers s) ->
  (writer_ s' = writer_ s /\ data s' = data s /\ entered s' = entered s) \/
  ((writer_ s = None \/ writer_ s = Some i) /\ (writer_ s' = None \/ writer_ s' = Some i) /\
   forall j, i <> j -> of_thread j (entered s') = of_thread j (entered s)) ->
  thread_ok d0 (writes ms0) s' i pl' ms' ->
  forall j ms0, mss !! j = Some ms0 -> exists pl ms, thread_ok d0 (writes ms0) s' j pl ms.
Proof.
  intros HI Hi Ht Hr Hc Hok j ms1 Hj. destruct (decide (i = j)) as [->|Hij]; [rewrite Hi in Hj; injection Hj as <-; eauto|].
  destruct (i_threads _ _ _ HI j ms1 Hj) as (pl & ms & H). exists pl, ms. eapply thread_frame; [done|done|by apply Hr| |done].
  destruct Hc as [?|(Hw & Hw' & Hh)]; [by left|right]. split_and!; [naive_solver..|by apply Hh].
Qed.

Lemma thread_of d0 mss s i p : inv d0 mss s -> threads s !! i = Some p -> exists ms0, mss !! i = Some ms0 /\ (i < length (threads s))%nat.
Proof.
  intros HI Hp. pose proof (lookup_lt_Some _ _ _ Hp). rewrite (i_len _ _ _ HI) in *.
  destruct (lookup_lt_is_Some_2 mss i) as [ms0 ?]; [done|]. eauto.
Qed.

(** A thread enters. *)
Lemma enter_inv d0 mss s s' i ms0 m ms :
  inv d0 mss s -> mss !! i = Some ms0 -> thread_ok d0 (writes ms0) s i Outside (m :: ms) -> step i s = Some s' -> inv d0 mss s'.
Proof.
  intros HI Hi [H1 H2 H3 H4 H5] Hs. unfold step in Hs. rewrite H1 in Hs. destruct m as [n|fs]; cbn -[program] in Hs; fold (program ms) in Hs.
  - destruct (rd_lock i (lock s)) as [l|] eqn:El; [|done]. injection Hs as <-. destruct (rd_lock_law _ _ _ _ _ (i_lock _ _ _ HI) El) as [Ew Hl].
    rewrite <- app_assoc. cbn [app]. split; sproj; rewrite ?Ew; [| | |done|by intros [? ?]|intros _; by apply (i_data _ _ _ HI)|apply HI].
    + eapply (step_threads d0 mss s _ i _ ms0 (Reading n) ms HI Hi); [reflexivity|sproj; intros j Hj; set_solver|left; by sproj|].
      split; sproj; [apply list_lookup_insert_eq; by eapply lookup_lt_Some|set_solver|done|by rewrite Ew in H4|done].
    + by rewrite length_insert, (i_len _ _ _ HI).
    + intros j [[->|Hj]%elem_of_cons|?]; [by eapply lookup_lt_Some|apply (i_range _ _ _ HI); by left|done].
  - destruct (wr_lock i (lock s)) as [l|] eqn:El; [|done]. injection Hs as <-.
    destruct (wr_lock_law _ _ _ _ _ (i_lock _ _ _ HI) El) as (Ew & Er & Hl). rewrite <- app_assoc. cbn [app]. rewrite closure_updates.
    split; sproj; rewrite ?Er; [| | |done|done|done|].
    + eapply (step_threads d0 mss s _ i _ ms0 (Writing fs) ms HI Hi); [reflexivity|sproj; intros j Hj; by rewrite Er| |].
      { right. split; [by left|]. split; [by right|]. intros j Hj. sproj. rewrite of_thread_app. unfold of_thread at 2. cbn. rewrite bool_decide_eq_false_2 by done. by rewrite !app_nil_r. }
      split; sproj; [apply list_lookup_insert_eq; by eapply lookup_lt_Some| | |by eauto|].
      * split; [by intros [? ?]|by intros ?%elem_of_nil].
      * intros fs' [= <-]. split; [done|]. rewrite apply_hist_snoc. cbn [snd]. by rewrite (i_data _ _ _ HI Ew).
      * rewrite H5, of_thread_app. unfold of_thread at 3. cbn. rewrite bool_decide_eq_true_2 by done. by rewrite <- app_assoc.
    + by rewrite length_insert, (i_len _ _ _ HI).
    + intros j [?%elem_of_nil|[= <-]]; [done|by eapply lookup_lt_Some].
    + intros v Hv. destruct (i_seen _ _ _ HI v Hv) as [k ->]. exists (Nat.min k (length (entered s))).
      rewrite take_app_le by lia. by rewrite <- take_take, firstn_all.
Qed.

(** A thread in the closure of a reader. *)
Lemma read_inv d0 mss s s' i ms0 n ms :
  inv d0 mss s -> mss !! i = Some ms0 -> thread_ok d0 (writes ms0) s i (Reading n) ms -> step i s = Some s' -> inv d0 mss s'.
Proof.
  intros HI Hi [H1 H2 H3 H4 H5] Hs. pose proof (lookup_lt_Some _ _ _ H1) as Hlt.
  assert (Ew : writer_ s = None).
  { destruct (writer_ s) as [j|] eqn:Ew; [|done]. assert (Hn : i ∈ readers s) by (apply H2; eauto).
    rewrite (i_excl _ _ _ HI) in Hn by eauto. by apply elem_of_nil in Hn. }
  unfold step in Hs. rewrite H1 in Hs. destruct n as [|n]; cbn -[program] in Hs; injection Hs as <-; split; sproj.
  - eapply (step_threads d0 mss s _ i _ ms0 Outside ms HI Hi); [reflexivity|sproj; intros j Hj; rewrite list_elem_of_filter; naive_solver|by left|].
    split; sproj; [by apply list_lookup_insert_eq| |done|by rewrite Ew|done].
    split; [by intros [? ?]|]. rewrite list_elem_of_filter. by intros [? ?].
  - by rewrite length_insert, (i_len _ _ _ HI).
  - intros j Hj. apply (i_range _ _ _ HI). rewrite list_elem_of_filter in Hj. naive_solver.
  - apply rd_unlock_law; [apply HI|]. apply H2. eauto.
  - rewrite Ew. by intros [? ?].
  - intros _. by apply (i_data _ _ _ HI).
  - apply HI.
  - eapply (step_threads d0 mss s _ i _ ms0 (Reading n) ms HI Hi); [reflexivity|done|by left|].
    split; sproj; [by apply list_lookup_insert_eq| |done|by rewrite Ew|done].
    split; [intros _; apply H2|]; eauto.
  - by rewrite length_insert, (i_len _ _ _ HI).
  - apply HI.
  - apply HI.
  - apply HI.
  - apply HI.
  - intros v [Hv| ->%list_elem_of_singleton]%elem_of_app; [by apply (i_seen _ _ _ HI)|].
    exists (length (entered s)). rewrite firstn_all. by apply (i_data _ _ _ HI).
Qed.

(** A thread in the closure of a writer. *)
Lemma write_inv d0 mss s s' i ms0 fs ms :
  inv d0 mss s -> mss !! i = Some ms0 -> thread_ok d0 (writes ms0) s i (Writing fs) ms -> step i s = Some s' -> inv d0 mss s'.
Proof.
  intros HI Hi [H1 H2 H3 H4 H5] Hs. pose proof (lookup_lt_Some _ _ _ H1) as Hlt. destruct (H3 fs eq_refl) as [Ew Hd].
  assert (Er : readers s = []) by (apply (i_excl _ _ _ HI); eauto).
  unfold step in Hs. rewrite H1 in Hs. destruct fs as [|f fs]; cbn -[program] in Hs; injection Hs as <-; split; sproj.
  - eapply (step_threads d0 mss s _ i _ ms0 Outside ms HI Hi); [reflexivity|done|right; split_and!; sproj; [by right|by left|done]|].
    split; sproj; [by apply list_lookup_insert_eq| |done|done|done]. rewrite Er. split; [by intros [? ?]|by intros ?%elem_of_nil].
  - by rewrite length_insert, (i_len _ _ _ HI).
  - intros j [Hj|?]; [apply (i_range _ _ _ HI); by left|done].
  - apply wr_unlock_law. rewrite <- Ew. apply HI.
  - done.
  - intros _. exact Hd.
  - apply HI.
  - eapply (step_threads d0 mss s _ i _ ms0 (Writing fs) ms HI Hi); [reflexivity|done|right; split_and!; sproj; [by right|by right|done]|].
    split; sproj; [by apply list_lookup_insert_eq| | |by eauto|done].
    + rewrite Er. split; [by intros [? ?]|by intros ?%elem_of_nil].
    + intros fs' [= <-]. split; [done|]. exact Hd.
  - by rewrite length_insert, (i_len _ _ _ HI).
  - apply HI.
  - apply HI.
  - apply HI.
  - by rewrite Ew.
  - apply HI.
Qed.

Lemma step_inv d0 mss s s' i : inv d0 mss s -> step i s = Some s' -> inv d0 mss s'.
Proof.
  intros HI Hs. destruct (threads s !! i) as [p|] eqn:Hp; [|unfold step in Hs; by rewrite Hp in Hs].
  destruct (thread_of _ _ _ _ _ HI Hp) as (ms0 & Hi & _). destruct (i_threads _ _ _ HI i ms0 Hi) as ([|n|fs] & ms & Hok).
  - destruct ms as [|m ms]; [|by eapply enter_inv]. unfold step in Hs. by rewrite (t_rest _ _ _ _ _ _ Hok) in Hs.
  - by eapply read_inv.
  - by eapply write_inv.
Qed.

Lemma run_inv d0 mss sched s : inv d0 mss s -> inv d0 mss (run sched s).
Proof.
  unfold run. revert s. induction sched as [|i sched IH]; intros s HI; cbn; [done|]. apply IH. unfold turn.
  destruct (step i s) as [s'|] eqn:E; cbn; [by eapply step_inv|done].
Qed.

Definition finished (s : state) : Prop := Forall (fun p => p = []) (threads s).

Lemma thread_finished d0 ws s i pl ms :
  thread_ok d0 ws s i pl ms -> threads s !! i = Some [] -> pl = Outside /\ ms = [].
Proof.
  intros [H1 _ _ _ _] H. rewrite H1 in H. injection H as H. destruct pl as [|n|fs].
  - destruct ms as [|[]]; done.
  - by destruct n.
  - by destruct fs.
Qed.

(** Some thread can take a step while one is not finished: one that is inside, or any. *)
Lemma progress d0 mss s : inv d0 mss s -> ~ finished s -> exists i, is_Some (step i s).
Proof.
  intros HI Hf.
  assert (Hin : forall i ms0 pl ms, mss !! i = Some ms0 -> thread_ok d0 (writes ms0) s i pl ms -> pl <> Outside -> is_Some (step i s)).
  { intros i ms0 pl ms _ [H1 _ _ _ _] Hpl. unfold step. rewrite H1. destruct pl as [|[|n]|[|f fs]]; cbn; [done|eauto..]. }
  destruct (writer_ s) as [j|] eqn:Ew.
  { exists j. destruct (lookup_lt_is_Some_2 mss j) as [ms0 Hj]; [apply (i_range _ _ _ HI); by right|].
    destruct (i_threads _ _ _ HI j ms0 Hj) as (pl & ms & Hok). destruct (t_inside _ _ _ _ _ _ Hok Ew) as [fs ->]. by eapply Hin. }
  destruct (readers s) as [|j l] eqn:Er.
  - apply not_Forall_Exists in Hf; [|intros [|]; [left|right]; done]. apply Exists_exists in Hf as (p & Hp & Hne).
    apply list_elem_of_lookup in Hp as [i Hp]. exists i. unfold step. rewrite Hp.
    destruct p as [|a p]; [by destruct Hne|]. pose proof (i_lock _ _ _ HI) as Hl. rewrite Ew, Er in Hl. destruct (free_law i _ Hl) as [[? El] [? El']].
    destruct a; rewrite ?El, ?El'; eauto.
  - assert (Hj : j ∈ readers s) by (rewrite Er; by left). exists j.
    destruct (lookup_lt_is_Some_2 mss j) as [ms0 Hm]; [apply (i_range _ _ _ HI); by left|].
    destruct (i_threads _ _ _ HI j ms0 Hm) as (pl & ms & Hok). apply (t_reader _ _ _ _ _ _ Hok) in Hj as [n ->]. by eapply Hin.
Qed.

(** C17. Closures under a lock run as if alone. Let threads call [rlock_f], [wlock_f] and
    [lock_f] in any order and their accesses interleave in any way. Then the closures
    of the writers have an order, in which those of each thread keep theirs, such that
    every value a reader saw is the data after some first closures of that order, each
    of them complete; the data while no writer is inside is the data after all of
    them; when the threads are finished every closure has run once; and until then
    some thread can go on. *)
Theorem locks_linearizable d0 (mss : list (list method)) sched :
  let s := run sched (start d0 mss) in
  (forall v, v ∈ seen s -> exists k, v = apply_hist (take k (entered s)) d0) /\
  (writer_ s = None -> data s = apply_hist (entered s) d0) /\
  (finished s -> writer_ s = None /\ forall i ms, mss !! i = Some ms -> of_thread i (entered s) = writes ms) /\
  (~ finished s -> exists i, is_Some (step i s)).
Proof.
  cbv zeta. pose proof (run_inv d0 mss sched _ (lock_inv_start d0 mss)) as HI. set (s := run _ _) in *.
  assert (Hfin : finished s -> forall i ms0, mss !! i = Some ms0 ->
    writer_ s <> Some i /\ of_thread i (entered s) = writes ms0).
  { intros Hf i ms0 Hi. destruct (i_threads _ _ _ HI i ms0 Hi) as (pl & ms & Hok). pose proof (t_rest _ _ _ _ _ _ Hok) as Hr.
    pose proof (proj1 (Forall_lookup _ _) Hf i _ Hr) as He. rewrite He in Hr. apply (thread_finished _ _ _ _ _ _ Hok) in Hr as [-> ->].
    pose proof (t_hist _ _ _ _ _ _ Hok) as Hh. cbn in Hh. rewrite app_nil_r in Hh. split; [|done].
    intros Hw. by destruct (t_inside _ _ _ _ _ _ Hok Hw). }
  split_and!; [apply HI|apply HI| |by apply (progress d0 mss)]. intros Hf. split; [|intros i ms Hi; by apply (Hfin Hf)].
  destruct (writer_ s) as [i|] eqn:Ew; [|done]. destruct (lookup_lt_is_Some_2 mss i) as [ms0 Hi]; [apply (i_range _ _ _ HI); by right|].
  by destruct (Hfin Hf i ms0 Hi).
Qed.
End locks.

(** A lock that the witness runs on: who is inside. *)
Module LockSim.
#[local] Instance sim_lock : KernelLock (list nat * option nat) := {
  unlocked := ([], None);
  rd_lock i l := match snd l with None => Some (i :: fst l, None) | Some _ => None end;
  rd_unlock i l := (filter (fun j => j <> i) (fst l), snd l);
  wr_lock i l := match l with ([], None) => Some ([], Some i) | _ => None end;
  wr_unlock _ l := (fst l, None) }.

#[local] Instance sim_lock_laws : KernelLockLaws (list nat * option nat).
Proof.
  refine {| holds l rs w := l = (rs, w) |}.
  - done.
  - intros i l l' rs [w|] -> E; [done|]. by injection E as <-.
  - by intros i l rs w -> _.
  - intros i l l' [|r rs] [w|] -> E; try done. by injection E as <-.
  - by intros i l rs ->.
  - intros i l ->. split; eexists; reflexivity.
Defined.

Definition programs : list (list (@method Z)) := [[WLock [Z.add 1; Z.add 1]]; [RLock 1]; [WLock [Z.mul 3]]].
Definition schedule : list nat := [0; 1; 0; 2; 0; 0; 1; 2; 1; 1; 2; 2; 2]%nat.
End LockSim.

(** Two writers and a reader: the reader enters between them and sees the first closure
    complete. *)
#[local] Existing Instance LockSim.sim_lock.
#[local] Existing Instance LockSim.sim_lock_laws.
Lemma locks_linearizable_witness :
  let s := run LockSim.schedule (start (L := list nat * option nat) 5 LockSim.programs) in
  seen s = [7] /\ data s = 21 /\ (exists k, 7 = apply_hist (take k (entered s)) 5) /\ data s = apply_hist (entered s) 5.
Proof.
  destruct (locks_linearizable (L := list nat * option nat) 5 LockSim.programs LockSim.schedule) as (Hs & Hd & _).
  split; [reflexivity|]. split; [reflexivity|]. split; [apply Hs; by left|by apply Hd].
Defined.
