(* ===== verification/Guid.v ===== *)
(** * RDMA GIDs as text

    The [Guid] type and the address parser of the vendored [no-std-net] crate
    (src/rust-kernel-rdma/deps/no-std-net/src/lib.rs and parser.rs), with the two
    conversions of KRdmaKit's path explorer that use them
    (src/KRdmaKit/src/comm_manager/explorer.rs).  A [&str] is its list of bytes;
    the parser is a computation over the byte slice and the position. *)

From S2P Require Import Prelude Errors.

Module Parser.

Record Parser := mkParser { s : list Z; pos : nat }.

Definition new (s : list Z) : Parser := mkParser s 0.

Definition is_eof (p : Parser) : bool := Nat.eqb (pos p) (length (s p)).

Abbreviation P A := (M Parser (option A)).

(** Commit only if the parser returns [Some]. *)
Definition read_atomically {A} (cb : P A) : P A := fun p =>
  match cb p with
  | Done (None, p') => Done (None, mkParser (s p') (pos p))
  | r => r
  end.

(** Commit only if the parser reads until the end of the input. *)
Definition read_till_eof {A} (cb : P A) : P A :=
  read_atomically
    (r ← cb;
     match r with
     | Some x => e ← gets is_eof; mret (if (e : bool) then Some x else None)
     | None => mret None
     end).

(** Apply three parsers in sequence. *)
Definition read_seq_3 {A B C} (pa : P A) (pb : P B) (pc : P C) : P (A * B * C) :=
  read_atomically
    (a ← pa;
     b ← (match a with Some _ => pb | None => mret None end);
     c ← (match b with Some _ => pc | None => mret None end);
     mret match a, b, c with
          | Some a, Some b, Some c => Some (a, b, c)
          | _, _, _ => None
          end).

(** The slice access [self.s[self.pos]] panics out of range. *)
Definition read_char : P Z := fun p =>
  if is_eof p then Done (None, p)
  else match s p !! pos p with
       | Some r => Done (Some r, mkParser (s p) (S (pos p)))
       | None => Panic
       end.

Definition read_given_char (c : Z) : P Z :=
  read_atomically
    (r ← read_char;
     mret match r with
          | Some next => if next =? c then Some next else None
          | None => None
          end).

Definition parse_digit (c radix : Z) : option Z :=
  if (48 <=? c) && (c <=? 57) then Some (c - 48)
  else if (10 <? radix) && (97 <=? c) && (c <? 97 + (radix - 10)) then Some (c - 97 + 10)
  else if (10 <? radix) && (65 <=? c) && (c <? 65 + (radix - 10)) then Some (c - 65 + 10)
  else None.

Definition read_digit (radix : Z) : P Z :=
  read_atomically
    (r ← read_char;
     mret match r with Some c => parse_digit c radix | None => None end).

(** [r * (radix as u32) + (d as u32)] on [u32], under overflow checks. *)
Definition mul_add_u32 (r radix d : Z) : outcome Z :=
  if r * radix + d <? 2 ^ 32 then Done (r * radix + d) else Panic.

(** The loop of [read_number_impl]; a run of the loop reads at most
    [max_digits + 1] digits, and a loop out of fuel is a panic, which
    [from_str_total] excludes. *)
Fixpoint read_number_loop (fuel : nat) (radix max_digits upto r digit_count : Z) : P Z :=
  match fuel with
  | O => panic
  | S fuel =>
      d ← read_digit radix;
      match d with
      | Some d =>
          r ← lift (mul_add_u32 r radix d);
          let digit_count := digit_count + 1 in
          if (max_digits <? digit_count) || (upto <=? r) then mret None
          else read_number_loop fuel radix max_digits upto r digit_count
      | None => if digit_count =? 0 then mret None else mret (Some r)
      end
  end.

Definition read_number_impl (radix max_digits upto : Z) : P Z :=
  read_number_loop (S (Z.to_nat max_digits)) radix max_digits upto 0 0.

Definition read_number (radix max_digits upto : Z) : P Z :=
  read_atomically (read_number_impl radix max_digits upto).

(** The [while i < n] loop shared by [read_ipv4_addr_impl] and
    [read_guid_addr_impl]: separators between numbers, stored by index. *)
Fixpoint read_numbers (n : nat) (sep radix max_digits upto cast : Z) (i : nat) (bs : list Z) :
  P (list Z) :=
  match n with
  | O => mret (Some bs)
  | S n =>
      c ← (if Nat.eqb i 0 then mret (Some sep) else read_given_char sep);
      match c with
      | None => mret None
      | Some _ =>
          r ← read_number radix max_digits upto;
          match r with
          | None => mret None
          | Some v => read_numbers n sep radix max_digits upto cast (S i) (<[i := wrap cast v]> bs)
          end
      end
  end.

End Parser.
Import Parser.

(** ** Guid *)
Module Guid.

(** [inner: [u8; 16]]. *)
Record Guid := mkGuid { inner : list Z }.

Definition new_u8 (inner : list Z) : Guid := mkGuid inner.
Definition get_raw (g : Guid) : list Z := inner g.

Definition new (a b c d e f g h : Z) : Guid :=
  mkGuid [u8 (Z.shiftr a 8); u8 a; u8 (Z.shiftr b 8); u8 b;
          u8 (Z.shiftr c 8); u8 c; u8 (Z.shiftr d 8); u8 d;
          u8 (Z.shiftr e 8); u8 e; u8 (Z.shiftr f 8); u8 f;
          u8 (Z.shiftr g 8); u8 g; u8 (Z.shiftr h 8); u8 h].

(** [(hi as u16) << 8 | (lo as u16)]. *)
Definition seg (hi lo : Z) : Z := Z.lor (u16 (Z.shiftl hi 8)) lo.

Fixpoint segs (arr : list Z) : list Z :=
  match arr with
  | hi :: lo :: rest => seg hi lo :: segs rest
  | _ => []
  end.

Definition segments (g : Guid) : list Z := segs (inner g).

(** [{:x}] and [{}]: the digits of a number in lower case, without padding; a
    [u16] has at most four hexadecimal digits. *)
Definition hex_digit (d : Z) : Z := if d <? 10 then 48 + d else 87 + d.

Fixpoint digits_loop (radix : Z) (fuel : nat) (n : Z) (acc : list Z) : list Z :=
  match fuel with
  | O => acc
  | S fuel =>
      let acc := hex_digit (n mod radix) :: acc in
      if n / radix =? 0 then acc else digits_loop radix fuel (n / radix) acc
  end.

Definition lower_hex (n : Z) : list Z := digits_loop 16 4 n [].

Definition colon : Z := 58.

Fixpoint join (sep : Z) (l : list (list Z)) : list Z :=
  match l with
  | [] => []
  | [x] => x
  | x :: l => x ++ sep :: join sep l
  end.

Definition fmt (g : Guid) : list Z := join colon (map lower_hex (segments g)).

Definition read_guid_addr_impl : P Guid :=
  r ← read_numbers 8 colon 16 4 65535 16 0 (replicate 8 0);
  match r with
  | None => mret None
  | Some [a; b; c; d; e; f; g; h] => mret (Some (new a b c d e f g h))
  | Some _ => panic
  end.

Definition read_guid_addr : P Guid := read_atomically read_guid_addr_impl.

Inductive AddrParseError : Set := mkAddrParseError.

Definition from_str (str : list Z) : outcome (Result AddrParseError Guid) :=
  match read_till_eof read_guid_addr (Parser.new str) with
  | Done (Some g, _) => Done (Ok g)
  | Done (None, _) => Done (Err mkAddrParseError)
  | Panic => Panic
  end.

End Guid.

(** ** The explorer's conversions; an [ib_gid] is its [raw] array. *)
Module Explorer.

Definition string_to_gid (gid : list Z) : outcome (Result CMError (list Z)) :=
  match Guid.from_str gid with
  | Done r =>
      Done match map_err (fun _ => CMInvalidArg "string_to_gid" gid) r with
           | Ok addr => Ok (Guid.get_raw addr)
           | Err e => Err e
           end
  | Panic => Panic
  end.

Definition gid_to_string (gid : list Z) : list Z := Guid.fmt (Guid.new_u8 gid).

End Explorer.

(** ** The language the parser accepts *)
Section grammar.
Context (radix max_digits upto : Z).

Definition is_digit (c : Z) : bool :=
  match parse_digit c radix with Some _ => true | None => false end.
Definition digit_val (c : Z) : Z := default 0 (parse_digit c radix).

Definition value_from (r : Z) (ds : list Z) : Z :=
  foldl (fun r c => r * radix + digit_val c) r ds.
Definition value (ds : list Z) : Z := value_from 0 ds.

(** A numeral: between one and [max_digits] digits with a value below [upto]. *)
Definition numeral (ds : list Z) : Prop :=
  1 <= Z.of_nat (length ds) <= max_digits /\ Forall (fun c => is_digit c = true) ds /\
  value ds < upto.

#[global] Instance numeral_dec ds : Decision (numeral ds).
Proof. unfold numeral. apply _. Defined.

(** The reader stops in front of a byte that is not a digit. *)
Definition stops (l : list Z) : bool :=
  match l with c :: _ => negb (is_digit c) | [] => true end.

Fixpoint span (l : list Z) : list Z * list Z :=
  match l with
  | c :: l' => if is_digit c then let '(ds, r) := span l' in (c :: ds, r) else ([], l)
  | [] => ([], [])
  end.

(** [n] numerals, each but the first behind a separator. *)
Fixpoint groups (sep : Z) (n : nat) (first : bool) (l : list Z) :
  option (list (list Z) * list Z) :=
  match n with
  | O => Some ([], l)
  | S n =>
      l1 ← (if first then Some l
            else match l with c :: l' => if c =? sep then Some l' else None | [] => None end);
      let '(ds, r) := span l1 in
      if decide (numeral ds) then '(gs, r') ← groups sep n false r; Some (ds :: gs, r') else None
  end.

End grammar.

(** The parser whose input is [pre ++ l], stopped between the two. *)
Definition at_ (pre l : list Z) : Parser := mkParser (pre ++ l) (length pre).

(** ** Running the primitives *)
Lemma read_char_at pre l :
  read_char (at_ pre l) =
  match l with c :: l' => Done (Some c, at_ (pre ++ [c]) l') | [] => Done (None, at_ pre []) end.
Proof.
  unfold read_char, is_eof, at_. simpl. destruct l as [|c l]; simpl.
  - by rewrite app_nil_r, Nat.eqb_refl.
  - rewrite length_app. simpl. destruct (Nat.eqb_spec (length pre) (length pre + S (length l)));
      [lia|]. rewrite lookup_app_r, Nat.sub_diag by lia. simpl.
    by rewrite length_app, Nat.add_comm, <-app_assoc.
Qed.

Lemma read_given_char_at c pre l :
  read_given_char c (at_ pre l) =
  match l with
  | x :: l' => if x =? c then Done (Some x, at_ (pre ++ [x]) l') else Done (None, at_ pre l)
  | [] => Done (None, at_ pre [])
  end.
Proof.
  unfold read_given_char, read_atomically, mbind, M_bind. rewrite read_char_at.
  destruct l as [|x l]; [done|]. simpl. destruct (x =? c); [done|].
  unfold at_. simpl. by rewrite <-app_assoc.
Qed.

Lemma read_digit_at radix pre l :
  read_digit radix (at_ pre l) =
  match l with
  | x :: l' => match parse_digit x radix with
               | Some d => Done (Some d, at_ (pre ++ [x]) l')
               | None => Done (None, at_ pre l)
               end
  | [] => Done (None, at_ pre [])
  end.
Proof.
  unfold read_digit, read_atomically, mbind, M_bind. rewrite read_char_at.
  destruct l as [|x l]; [done|]. simpl. destruct (parse_digit x radix); [done|].
  unfold at_. simpl. by rewrite <-app_assoc.
Qed.

Lemma parse_digit_bound c radix d : 10 <= radix -> parse_digit c radix = Some d -> 0 <= d < radix.
Proof. unfold parse_digit. intros Hr H. case_match_all; simplify_eq; bool_to_Prop; lia. Qed.

Lemma digit_val_bound radix c : 10 <= radix -> 0 <= digit_val radix c < radix.
Proof.
  intros Hr. unfold digit_val. destruct (parse_digit c radix) eqn:E; simpl; [|lia].
  by apply (parse_digit_bound c).
Qed.

Lemma value_from_ge radix r ds : 10 <= radix -> 0 <= r -> r <= value_from radix r ds.
Proof.
  intros Hr. revert r. induction ds as [|c ds IH]; intros r H0; simpl; [done|].
  pose proof (digit_val_bound radix c Hr). etrans; [|apply IH]; nia.
Qed.

Lemma span_app radix ds r :
  Forall (fun c => is_digit radix c = true) ds -> stops radix r = true ->
  span radix (ds ++ r) = (ds, r).
Proof.
  intros Hd Hs. induction Hd as [|c ds Hc _ IH]; simpl.
  - destruct r as [|x r]; [done|]. simpl in *. by destruct (is_digit radix x).
  - by rewrite Hc, IH.
Qed.

Lemma span_inv radix l ds r :
  span radix l = (ds, r) ->
  l = ds ++ r /\ Forall (fun c => is_digit radix c = true) ds /\ stops radix r = true.
Proof.
  revert ds r. induction l as [|c l IH]; intros ds r; simpl; [by intros [= <- <-]|].
  destruct (is_digit radix c) eqn:Hc.
  - destruct (span radix l) as [ds' r']. destruct (IH ds' r' eq_refl) as (-> & Hd & Hs).
    intros [= <- <-]. by repeat constructor.
  - intros [= <- <-]. simpl. by rewrite Hc.
Qed.

(** The number loop after the digits read so far: it reads all of [ds] exactly
    when the bounds allow, without overflow and within its fuel. *)
Lemma read_number_loop_at radix max upto ds rest :
  10 <= radix -> upto * radix + radix <= 2 ^ 32 ->
  Forall (fun c => is_digit radix c = true) ds -> stops radix rest = true ->
  forall pre r cnt, 0 <= r < upto -> 0 <= cnt <= max ->
  let n := cnt + Z.of_nat (length ds) in
  let v := value_from radix r ds in
  let run := read_number_loop (S (Z.to_nat (max - cnt))) radix max upto r cnt (at_ pre (ds ++ rest)) in
  if (n <=? max) && (v <? upto)
  then run = Done (if n =? 0 then None else Some v, at_ (pre ++ ds) rest)
  else exists pos', run = Done (None, mkParser (pre ++ ds ++ rest) pos').
Proof.
  intros Hradix Hup Hd Hs. induction Hd as [|c ds Hc Hd IH]; intros pre r cnt Hr Hcnt.
  - cbn -[Z.mul Z.add Z.sub]. rewrite app_nil_r, Z.add_0_r.
    unfold mbind, M_bind. rewrite read_digit_at.
    replace (cnt <=? max) with true by (symmetry; apply Z.leb_le; lia).
    replace (r <? upto) with true by (symmetry; apply Z.ltb_lt; lia). simpl.
    destruct rest as [|x rest]; simpl in *; [by destruct (cnt =? 0)|].
    unfold is_digit in Hs. destruct (parse_digit x radix); [done|]. by destruct (cnt =? 0).
  - assert (Hdv : parse_digit c radix = Some (digit_val radix c)).
    { unfold is_digit, digit_val in *. by destruct (parse_digit c radix). }
    pose proof (parse_digit_bound _ _ _ Hradix Hdv) as Hdb.
    cbn -[Z.mul Z.add Z.sub Z.to_nat]. unfold mbind, M_bind. rewrite read_digit_at. simpl app.
    rewrite Hdv. unfold lift, mul_add_u32.
    destruct (Z.ltb_spec (r * radix + digit_val radix c) (2 ^ 32)); [|nia].
    set (r' := r * radix + digit_val radix c) in *.
    replace (cnt + Z.of_nat (S (length ds))) with ((cnt + 1) + Z.of_nat (length ds)) by lia.
    fold (value_from radix r' ds).
    pose proof (value_from_ge radix r' ds Hradix ltac:(unfold r'; nia)) as Hv.
    destruct (Z.ltb_spec max (cnt + 1)); simpl.
    { destruct (Z.leb_spec (cnt + 1 + Z.of_nat (length ds)) max); [lia|].
      simpl. unfold at_. eexists. by rewrite <-app_assoc. }
    destruct (Z.leb_spec upto r'); simpl.
    { destruct (Z.ltb_spec (value_from radix r' ds) upto); [lia|].
      rewrite andb_false_r. unfold at_. eexists. by rewrite <-app_assoc. }
    specialize (IH (pre ++ [c]) r' (cnt + 1) ltac:(unfold r' in *; nia) ltac:(lia)).
    replace (Z.to_nat (max - cnt)) with (S (Z.to_nat (max - (cnt + 1)))) by lia.
    cbv zeta in IH. rewrite <-!app_assoc in IH. exact IH.
Qed.

Lemma read_number_at radix max upto pre l ds rest :
  10 <= radix -> 0 <= max -> 0 < upto -> upto * radix + radix <= 2 ^ 32 ->
  span radix l = (ds, rest) ->
  read_number radix max upto (at_ pre l) =
  if decide (numeral radix max upto ds) then Done (Some (value radix ds), at_ (pre ++ ds) rest)
  else Done (None, at_ pre l).
Proof.
  intros Hradix Hmax Hup Hov (-> & Hd & Hs)%span_inv.
  pose proof (read_number_loop_at radix max upto ds rest Hradix Hov Hd Hs pre 0 0
    ltac:(lia) ltac:(lia)) as H.
  cbv zeta in H. rewrite Z.sub_0_r, Z.add_0_l in H. unfold read_number, read_atomically, read_number_impl.
  destruct (_ && _) eqn:Hb.
  - rewrite H. apply andb_prop in Hb as [?%Z.leb_le ?%Z.ltb_lt].
    destruct (Z.eqb_spec (Z.of_nat (length ds)) 0).
    + case_decide as Hn; [destruct Hn; lia|]. destruct ds; [|done]. by rewrite app_nil_r.
    + case_decide as Hn; [done|]. destruct Hn. split; [lia|done].
  - destruct H as [pos' ->]. case_decide as Hn; [|done]. destruct Hn as (? & _ & ?).
    apply andb_false_iff in Hb as [?%Z.leb_gt|?%Z.ltb_ge]; unfold value in *; lia.
Qed.

(** ** Sequences of numerals *)
Section numbers.
Context (sep radix max upto cast : Z).
Context (Hradix : 10 <= radix) (Hmax : 0 <= max) (Hupto : 0 < upto)
  (Hov : upto * radix + radix <= 2 ^ 32) (Hsep : is_digit radix sep = false).

Lemma read_numbers_at n i pre l bs :
  length bs = (i + n)%nat ->
  match groups radix max upto sep n (Nat.eqb i 0) l with
  | Some (gs, r) => exists pre',
      read_numbers n sep radix max upto cast i bs (at_ pre l) =
      Done (Some (take i bs ++ map (fun ds => wrap cast (value radix ds)) gs), at_ pre' r)
  | None => exists p', read_numbers n sep radix max upto cast i bs (at_ pre l) = Done (None, p')
  end.
Proof.
  revert i pre l bs. induction n as [|n IH]; intros i pre l bs Hbs; simpl.
  { exists pre. by rewrite app_nil_r, take_ge by lia. }
  assert (Hn : forall pre l,
    match (let '(ds, r) := span radix l in
           if decide (numeral radix max upto ds)
           then '(gs, r') ← groups radix max upto sep n false r; Some (ds :: gs, r') else None) with
    | Some (gs, r) => exists pre',
        (v ← read_number radix max upto;
         match v with
         | Some v => read_numbers n sep radix max upto cast (S i) (<[i:=wrap cast v]> bs)
         | None => mret None
         end) (at_ pre l) =
        Done (Some (take i bs ++ map (fun ds => wrap cast (value radix ds)) gs), at_ pre' r)
    | None => exists p',
        (v ← read_number radix max upto;
         match v with
         | Some v => read_numbers n sep radix max upto cast (S i) (<[i:=wrap cast v]> bs)
         | None => mret None
         end) (at_ pre l) = Done (None, p')
    end).
  { clear pre l. intros pre l. rewrite bind_run.
    destruct (span radix l) as [ds r] eqn:Hspan.
    rewrite (read_number_at _ _ _ _ _ _ _ Hradix Hmax Hupto Hov Hspan).
    case_decide; [|by eexists].
    specialize (IH (S i) (pre ++ ds) r (<[i:=wrap cast (value radix ds)]> bs)).
    rewrite length_insert in IH. specialize (IH ltac:(lia)). simpl in IH.
    destruct (groups radix max upto sep n false r) as [[gs r']|]; simpl; [|done].
    destruct IH as [pre' ->]. exists pre'. do 3 f_equal.
    rewrite (take_S_r _ _ (wrap cast (value radix ds))) by (apply list_lookup_insert_eq; lia).
    by rewrite take_insert_ge, <-app_assoc by lia. }
  destruct (Nat.eqb i 0); [apply Hn|].
  rewrite bind_run, read_given_char_at.
  destruct l as [|c l]; [by eexists|].
  destruct (c =? sep); [|by eexists]. apply Hn.
Qed.

Definition seps (gs : list (list Z)) : list Z := concat (map (cons sep) gs).

Lemma join_seps g gs : Guid.join sep (g :: gs) = g ++ seps gs.
Proof.
  revert g. induction gs as [|h gs IH]; intros g; [simpl; by rewrite app_nil_r|].
  change (Guid.join sep (g :: h :: gs)) with (g ++ sep :: Guid.join sep (h :: gs)).
  by rewrite IH.
Qed.

Lemma stops_seps gs r : stops radix r = true -> stops radix (seps gs ++ r) = true.
Proof. destruct gs; [done|]. intros _. simpl. by rewrite Hsep. Qed.

Lemma groups_sound n l gs r :
  groups radix max upto sep n false l = Some (gs, r) ->
  length gs = n /\ Forall (numeral radix max upto) gs /\ l = seps gs ++ r.
Proof.
  revert l gs r. induction n as [|n IH]; intros l gs r; simpl; [by intros [= <- <-]|].
  destruct l as [|c l]; [done|]. simpl. destruct (Z.eqb_spec c sep) as [->|]; [|done]. simpl.
  destruct (span radix l) as [ds r1] eqn:Hspan. apply span_inv in Hspan as (-> & _ & _).
  case_decide as Hnum; [|done].
  destruct (groups radix max upto sep n false r1) as [[gs' r']|] eqn:E; [|done].
  simpl. intros [= <- <-]. destruct (IH _ _ _ E) as (<- & HF & ->).
  split_and!; [done|by constructor|]. simpl. by rewrite <-app_assoc.
Qed.

Lemma groups_complete gs r :
  Forall (numeral radix max upto) gs -> stops radix r = true ->
  groups radix max upto sep (length gs) false (seps gs ++ r) = Some (gs, r).
Proof.
  intros HF Hr. induction HF as [|ds gs Hnum _ IH]; simpl; [done|].
  fold (seps gs). rewrite Z.eqb_refl, <-app_assoc. simpl. pose proof Hnum as (_ & Hd & _).
  rewrite (span_app radix ds) by (done || by apply stops_seps).
  rewrite decide_True by done. by rewrite IH.
Qed.

(** The first group: the same reading without a separator in front. *)
Lemma groups_first_sound n l gs r :
  groups radix max upto sep (S n) true l = Some (gs, r) ->
  length gs = S n /\ Forall (numeral radix max upto) gs.
Proof.
  simpl. destruct (span radix l) as [ds r1]. case_decide; [|done].
  destruct (groups _ _ _ _ _ _ _) as [[gs' r']|] eqn:E; [|done]. simpl. intros [= <- _].
  apply groups_sound in E as (<- & HF & _). by split; [|constructor].
Qed.

Lemma groups_first_iff n l gs :
  groups radix max upto sep (S n) true l = Some (gs, []) <->
  length gs = S n /\ Forall (numeral radix max upto) gs /\ l = Guid.join sep gs.
Proof.
  simpl. split.
  - destruct (span radix l) as [ds r] eqn:Hspan. apply span_inv in Hspan as (-> & _ & _).
    case_decide; [|done]. destruct (groups _ _ _ _ _ _ _) as [[gs' r']|] eqn:E; [|done].
    simpl. intros [= <- ->]. apply groups_sound in E as (<- & HF & ->).
    split_and!; [done|by constructor|]. by rewrite join_seps, app_nil_r.
  - intros (Hlen & HF & ->). destruct gs as [|ds gs]; [done|].
    apply Forall_cons in HF as [Hnum HF]. rewrite join_seps. pose proof Hnum as (_ & Hd & _).
    injection Hlen as <-.
    rewrite (span_app radix ds)
      by (done || rewrite <-(app_nil_r (seps gs)); by apply stops_seps).
    rewrite decide_True by done. rewrite <-(app_nil_r (seps gs)).
    by rewrite groups_complete.
Qed.

End numbers.

(** ** GIDs *)
Module GuidSpec.
Import Guid.

(** The GID with the given eight groups. *)
Definition of_segments (l : list Z) : Guid :=
  match l with
  | [a; b; c; d; e; f; g; h] => Guid.new a b c d e f g h
  | _ => mkGuid []
  end.

(** The texts [from_str] accepts, with the GID they denote. *)
Definition denotes (str : list Z) (g : Guid) : Prop :=
  exists gs, length gs = 8%nat /\ Forall (numeral 16 4 65535) gs /\
    str = join colon gs /\ g = of_segments (map (value 16) gs).

(** Sixteen bytes. *)
Definition wf (raw : list Z) : Prop := length raw = 16%nat /\ Forall (in_width 8) raw.

Lemma value_bound ds upto : numeral 16 4 upto ds -> 0 <= value 16 ds < upto.
Proof. intros (_ & _ & H). split; [|done]. by apply value_from_ge. Qed.

Lemma read_guid_addr_run str :
  match groups 16 4 65535 colon 8 true str with
  | Some (gs, r) => exists pre',
      read_guid_addr (Parser.new str) = Done (Some (of_segments (map (value 16) gs)), at_ pre' r)
  | None => exists p', read_guid_addr (Parser.new str) = Done (None, p')
  end.
Proof.
  pose proof (read_numbers_at colon 16 4 65535 16 ltac:(lia) ltac:(lia) ltac:(lia) ltac:(lia)
    8 0 [] str (replicate 8 0) eq_refl) as H.
  change (at_ [] str) with (Parser.new str) in H. change (Nat.eqb 0 0) with true in H.
  unfold read_guid_addr, read_atomically, read_guid_addr_impl. rewrite bind_run.
  destruct (groups _ _ _ _ _ _ _) as [[gs r]|] eqn:E.
  - destruct H as [pre' H]. rewrite H. exists pre'.
    assert (length gs = 8%nat /\ Forall (numeral 16 4 65535) gs) as [Hl HF].
    { by apply groups_first_sound in E. }
    assert (map (fun ds => u16 (value 16 ds)) gs = map (value 16) gs) as ->.
    { apply map_ext_Forall. eapply Forall_impl; [exact HF|]. intros ds Hds%value_bound.
      apply wrap_small. unfold in_width. lia. }
    do 9 (destruct gs as [|? gs]; try done).
  - destruct H as [p' H]. rewrite H. by eexists.
Qed.

Lemma from_str_run str :
  from_str str =
  Done match groups 16 4 65535 colon 8 true str with
       | Some (gs, []) => Ok (of_segments (map (value 16) gs))
       | _ => Err mkAddrParseError
       end.
Proof.
  pose proof (read_guid_addr_run str) as H.
  unfold from_str, read_till_eof, read_atomically. rewrite bind_run.
  destruct (groups _ _ _ _ _ _ _) as [[gs r]|]; [|by destruct H as [p' ->]].
  destruct H as [pre' ->]. rewrite bind_run. unfold gets, is_eof, at_. simpl.
  rewrite length_app.
  destruct (Nat.eqb_spec (length pre') (length pre' + length r)), r; simpl in *; done || lia.
Qed.

Lemma parse_printed radix d :
  10 <= radix <= 16 -> 0 <= d < radix -> parse_digit (hex_digit d) radix = Some d.
Proof.
  intros Hr Hd. unfold parse_digit, hex_digit.
  destruct (Z.ltb_spec d 10); case_match_all; bool_to_Prop; try (f_equal; lia);
  repeat match goal with H : (_ && _)%bool = false |- _ => apply andb_false_iff in H as [H|H] end;
  bool_to_Prop; try lia; done.
Qed.

Lemma digits_loop_S radix fuel n acc :
  digits_loop radix (S fuel) n acc =
  if n / radix =? 0 then hex_digit (n mod radix) :: acc
  else digits_loop radix fuel (n / radix) (hex_digit (n mod radix) :: acc).
Proof. done. Qed.

(** Printing in a radix gives a numeral of the same value, of the digits the
    number has. *)
Lemma digits_loop_spec radix fuel n acc :
  10 <= radix <= 16 -> 0 <= n < radix ^ Z.of_nat (S fuel) ->
  Forall (fun c => is_digit radix c = true) acc ->
  let ds := digits_loop radix (S fuel) n acc in
  value_from radix 0 ds = value_from radix n acc /\ Forall (fun c => is_digit radix c = true) ds /\
  (S (length acc) <= length ds <= S fuel + length acc)%nat.
Proof.
  intros Hr. revert n acc. induction fuel as [|fuel IH]; intros n acc Hn Hacc; cbv zeta;
    rewrite digits_loop_S; pose proof (Z.mod_pos_bound n radix ltac:(lia)) as Hm;
    pose proof (parse_printed radix _ Hr Hm) as Hc;
    (assert (Hacc' : Forall (fun c => is_digit radix c = true) (hex_digit (n mod radix) :: acc));
     [constructor; [unfold is_digit; by rewrite Hc|done]|]);
    pose proof (Z.div_mod n radix ltac:(lia)) as Hdm.
  - change (Z.of_nat 1) with 1 in Hn. rewrite Z.pow_1_r in Hn.
    rewrite (Z.div_small n radix) in * by lia. simpl. unfold digit_val. rewrite Hc. simpl.
    split_and!; [f_equal; lia|done|lia|lia].
  - destruct (Z.eqb_spec (n / radix) 0) as [Hz|Hz].
    + simpl. unfold digit_val. rewrite Hc. simpl. split_and!; [f_equal; lia|done|lia|lia].
    + destruct (IH (n / radix) (hex_digit (n mod radix) :: acc)) as (-> & ? & Hl); [|done|].
      { split; [apply Z.div_pos; lia|]. apply Z.div_lt_upper_bound; [lia|].
        rewrite Nat2Z.inj_succ, Z.pow_succ_r in Hn by lia. lia. }
      rewrite length_cons in Hl. split_and!; [|done|lia|lia].
      simpl. unfold digit_val. rewrite Hc. simpl. f_equal. lia.
Qed.

(** More fuel than digits changes nothing. *)
Lemma digits_loop_fuel radix k f n acc :
  10 <= radix -> 0 <= n < radix ^ Z.of_nat (S k) -> (k <= f)%nat ->
  digits_loop radix (S f) n acc = digits_loop radix (S k) n acc.
Proof.
  intros Hr. revert f n acc. induction k as [|k IH]; intros f n acc Hn Hf; rewrite !digits_loop_S.
  - change (Z.of_nat 1) with 1 in Hn. rewrite Z.pow_1_r in Hn. by rewrite Z.div_small by lia.
  - destruct f as [|f]; [lia|]. destruct (n / radix =? 0); [done|]. apply IH; [|lia].
    split; [apply Z.div_pos; lia|]. apply Z.div_lt_upper_bound; [lia|].
    rewrite Nat2Z.inj_succ, Z.pow_succ_r in Hn by lia. lia.
Qed.

Lemma lower_hex_numeral n upto :
  0 <= n < 65536 -> numeral 16 4 upto (lower_hex n) <-> n < upto.
Proof.
  intros Hn. destruct (digits_loop_spec 16 3 n []) as (Hv & Hd & Hl); [lia|lia|done|].
  unfold numeral, value, lower_hex. rewrite Hv. simpl in *. split; [by intros (_ & _ & ?)|].
  intros ?. split_and!; [lia|lia|done|done].
Qed.

Lemma value_lower_hex n : 0 <= n < 65536 -> value 16 (lower_hex n) = n.
Proof. intros Hn. by destruct (digits_loop_spec 16 3 n []) as (Hv & _); [lia|lia|done|]. Qed.

(** Groups and bytes determine each other. *)
Lemma seg_eq hi lo : in_width 8 hi -> in_width 8 lo -> seg hi lo = hi * 256 + lo.
Proof.
  unfold in_width, seg. intros Hh Hl. rewrite Z.shiftl_mul_pow2 by lia.
  rewrite wrap_small by (unfold in_width; lia).
  rewrite <-Z.lxor_lor, <-Z.add_nocarry_lxor; [lia|..];
    apply Z.bits_inj'; intros k Hk; rewrite Z.land_spec, Z.bits_0;
    rewrite <-Z.shiftl_mul_pow2 by lia;
    (destruct (Z.ltb_spec k 8);
     [rewrite Z.shiftl_spec_low by lia; done
     |rewrite (Z.bits_above_log2 lo k); [apply andb_false_r|lia|
       destruct (Z.eq_dec lo 0) as [->|]; [simpl; lia|];
       apply Z.log2_lt_pow2; [lia|]; apply (Z.lt_le_trans _ (2 ^ 8)); [lia|];
       apply Z.pow_le_mono_r; lia]]).
Qed.

Lemma seg_bytes hi lo :
  in_width 8 hi -> in_width 8 lo ->
  u8 (Z.shiftr (seg hi lo) 8) = hi /\ u8 (seg hi lo) = lo /\ 0 <= seg hi lo < 65536.
Proof.
  intros Hh Hl. rewrite seg_eq by done. unfold wrap, in_width in *.
  rewrite Z.shiftr_div_pow2 by lia. change (2 ^ 8) with 256 in *.
  rewrite Z.div_add_l, (Z.div_small lo), Z.add_0_r by lia.
  rewrite (Z.add_comm _ lo), Z.mod_add by lia. rewrite !Z.mod_small by lia. lia.
Qed.

Lemma segments_length raw : length raw = 16%nat -> length (segments (mkGuid raw)) = 8%nat.
Proof. intros H. do 17 (destruct raw as [|? raw]; try done). Qed.

Lemma segments_bound raw :
  wf raw -> Forall (fun n => 0 <= n < 65536) (segments (mkGuid raw)).
Proof.
  intros [Hl HF]. do 17 (destruct raw as [|? raw]; try done).
  rewrite !Forall_cons in HF. destruct_and!. unfold segments. simpl.
  repeat constructor; by apply seg_bytes.
Qed.

Lemma of_segments_segments raw : wf raw -> of_segments (segments (mkGuid raw)) = mkGuid raw.
Proof.
  intros [Hl HF]. do 17 (destruct raw as [|? raw]; try done).
  rewrite !Forall_cons in HF. destruct_and!.
  unfold of_segments, segments, Guid.new. cbn [segs inner].
  repeat match goal with
  | |- context [seg ?h ?l] =>
      destruct (seg_bytes h l) as (E1 & E2 & _); [done..|]; rewrite E1, E2; clear E1 E2
  end. done.
Qed.

(** A printed GID read back with the bound [upto] on its groups. *)
Lemma groups_fmt raw upto :
  wf raw -> Forall (fun n => n < upto) (segments (mkGuid raw)) ->
  groups 16 4 upto colon 8 true (fmt (mkGuid raw)) = Some (map lower_hex (segments (mkGuid raw)), []).
Proof.
  intros Hwf Hup. apply groups_first_iff; [done|]. split_and!; [|..|done].
  - rewrite length_map. apply segments_length, Hwf.
  - apply Forall_map. pose proof (segments_bound raw Hwf) as Hb.
    eapply Forall_impl; [apply Forall_and; split; [exact Hb|exact Hup]|].
    intros n [H1 H2]. by apply lower_hex_numeral.
Qed.

Lemma map_value_lower_hex raw :
  wf raw -> map (value 16) (map lower_hex (segments (mkGuid raw))) = segments (mkGuid raw).
Proof.
  intros Hwf. rewrite map_map. rewrite <-(map_id (segments (mkGuid raw))) at 2.
  apply map_ext_Forall. eapply Forall_impl; [by apply segments_bound|].
  intros n Hn. by apply value_lower_hex.
Qed.

Lemma numeral_mono radix max upto upto' ds :
  upto <= upto' -> numeral radix max upto ds -> numeral radix max upto' ds.
Proof. intros Hle (? & ? & ?). split_and!; [lia|lia|done|lia]. Qed.

Lemma groups_fmt_ffff raw :
  wf raw -> 65535 ∈ segments (mkGuid raw) ->
  forall gs, groups 16 4 65535 colon 8 true (fmt (mkGuid raw)) <> Some (gs, []).
Proof.
  intros Hwf Hin gs (Hl & HF & Hj)%groups_first_iff; [|done].
  assert (H : groups 16 4 65536 colon 8 true (fmt (mkGuid raw)) = Some (gs, [])).
  { apply groups_first_iff; [done|]. split_and!; [done| |done].
    eapply Forall_impl; [exact HF|]. intros ds. by apply numeral_mono. }
  rewrite groups_fmt in H; [|done|].
  - injection H as <-. rewrite Forall_map, Forall_forall in HF. specialize (HF _ Hin).
    apply lower_hex_numeral in HF; lia.
  - eapply Forall_impl; [by apply segments_bound|]. simpl. lia.
Qed.

End GuidSpec.

(** C24. Parsing a GID text never panics (no overflow, no access out of range, the
    loop ends), and it accepts exactly the texts made of eight groups of one to
    four hexadecimal digits, each of a value below 0xffff, separated by colons;
    the result is the GID with these groups. *)
Theorem from_str_language (str : list Z) :
  exists r, Guid.from_str str = Done r /\
  forall g, r = Ok g <-> GuidSpec.denotes str g.
Proof.
  eexists. split; [apply GuidSpec.from_str_run|]. intros g. unfold GuidSpec.denotes.
  split.
  - destruct (groups _ _ _ _ _ _ _) as [[gs [|]]|] eqn:E; [|done..]. intros [= <-].
    apply groups_first_iff in E as (? & ? & ?); [|done]. by exists gs.
  - intros (gs & Hl & HF & Hj & ->).
    assert (groups 16 4 65535 Guid.colon 8 true str = Some (gs, [])) as ->; [|done].
    by apply groups_first_iff.
Qed.

(** Reading back a printed GID returns the GID unless one of its groups is
    0xffff, and then fails with [InvalidArg]: the parser's bound is exclusive. *)
Theorem gid_text_roundtrip (raw : list Z) :
  GuidSpec.wf raw ->
  Explorer.string_to_gid (Explorer.gid_to_string raw) =
  Done (if decide (65535 ∈ Guid.segments (Guid.new_u8 raw))
        then Err (CMInvalidArg "string_to_gid" (Explorer.gid_to_string raw))
        else Ok raw).
Proof.
  intros Hwf. unfold Explorer.string_to_gid, Explorer.gid_to_string, Guid.new_u8.
  rewrite GuidSpec.from_str_run. case_decide as Hin.
  - pose proof (GuidSpec.groups_fmt_ffff raw Hwf Hin) as Hno.
    destruct (groups _ _ _ _ _ _ _) as [[gs [|]]|]; [by destruct (Hno gs)|done..].
  - rewrite GuidSpec.groups_fmt; [|done|].
    + by rewrite GuidSpec.map_value_lower_hex, GuidSpec.of_segments_segments by done.
    + pose proof (GuidSpec.segments_bound raw Hwf) as Hb. rewrite Forall_forall in Hb |- *.
      intros n Hn. specialize (Hb n Hn). assert (n <> 65535) by congruence. lia.
Qed.

Lemma gid_text_roundtrip_witness :
  Explorer.string_to_gid
    (Explorer.gid_to_string [254; 128; 0; 0; 0; 0; 0; 0; 236; 13; 154; 3; 255; 255; 99; 118]) =
  Done (Err (CMInvalidArg "string_to_gid"
    (Explorer.gid_to_string [254; 128; 0; 0; 0; 0; 0; 0; 236; 13; 154; 3; 255; 255; 99; 118]))).
Proof.
  apply (gid_text_roundtrip [254; 128; 0; 0; 0; 0; 0; 0; 236; 13; 154; 3; 255; 255; 99; 118]).
  split; [done|]. repeat constructor; done.
Defined.
