(* ===== verification/IpAddr.v ===== *)
(** * IP and socket addresses

    The address types of the vendored [no-std-net] crate
    (src/rust-kernel-rdma/deps/no-std-net/src/ip.rs and addr.rs), the rest of its
    parser (parser.rs, whose primitives are in [Guid]) and their printing.  What a
    [Display] implementation writes is the list of the pieces it passes to
    [write_str], so that a bounded writer can be run on it; the text is their
    concatenation. *)

From S2P Require Import Prelude Bytes Guid.
Import Parser.

#[local] Open Scope Z_scope.

(** Big-endian words, [from_be_bytes] and [to_be_bytes]. *)
Definition be (n : nat) (z : Z) : list Z := rev (le n z).
Definition unbe (l : list Z) : Z := unle (rev l).

(** The derived order of byte arrays. *)
Fixpoint lex (l k : list Z) : comparison :=
  match l, k with
  | [], [] => Eq
  | [], _ => Lt
  | _, [] => Gt
  | x :: l, y :: k => match x ?= y with Eq => lex l k | c => c end
  end.

Definition nth_byte (l : list Z) (i : nat) : Z := nth i l 0.

(** [{}] of an unsigned number of at most 16 bits: up to five decimal digits. *)
Definition decimal (n : Z) : list Z := Guid.digits_loop 10 5 n [].

Definition dot : Z := 46.
Abbreviation colon := Guid.colon.

(** ** IPv4 addresses *)
Module Ipv4.

(** [inner: [u8; 4]], the octets in transmit order. *)
Record Ipv4Addr := mkIpv4Addr { inner : list Z }.

#[global] Instance Ipv4Addr_eq_dec : EqDecision Ipv4Addr.
Proof. solve_decision. Defined.

Definition new (a b c d : Z) : Ipv4Addr := mkIpv4Addr [a; b; c; d].
Definition octets (ip : Ipv4Addr) : list Z := inner ip.
Definition octet (ip : Ipv4Addr) (i : nat) : Z := nth_byte (inner ip) i.

(** The [sa_data] of a [sockaddr]: the octets as [i8], then zeros. *)
Definition get_inner_as_sockaddr (ip : Ipv4Addr) : list Z :=
  map (swrap 8) [octet ip 0; octet ip 1; octet ip 2; octet ip 3] ++ replicate 10 0.

Definition localhost : Ipv4Addr := new 127 0 0 1.
Definition unspecified : Ipv4Addr := new 0 0 0 0.

Definition is_unspecified (ip : Ipv4Addr) : bool := forallb (fun b => b =? 0) (inner ip).
Definition is_loopback (ip : Ipv4Addr) : bool := octet ip 0 =? 127.
Definition is_private (ip : Ipv4Addr) : bool :=
  if octet ip 0 =? 10 then true
  else if (octet ip 0 =? 172) && ((16 <=? octet ip 1) && (octet ip 1 <=? 31)) then true
  else (octet ip 0 =? 192) && (octet ip 1 =? 168).
Definition is_link_local (ip : Ipv4Addr) : bool := (octet ip 0 =? 169) && (octet ip 1 =? 254).
Definition is_multicast (ip : Ipv4Addr) : bool := Z.land (octet ip 0) 0xF0 =? 0xE0.
Definition is_broadcast (ip : Ipv4Addr) : bool := forallb (fun b => b =? 255) (inner ip).
Definition is_documentation (ip : Ipv4Addr) : bool :=
  ((octet ip 0 =? 192) && (octet ip 1 =? 0) && (octet ip 2 =? 2)) ||
  ((octet ip 0 =? 198) && (octet ip 1 =? 51) && (octet ip 2 =? 100)) ||
  ((octet ip 0 =? 203) && (octet ip 1 =? 0) && (octet ip 2 =? 113)).
Definition is_global (ip : Ipv4Addr) : bool :=
  negb (is_private ip) && negb (is_loopback ip) && negb (is_link_local ip) &&
  negb (is_broadcast ip) && negb (is_documentation ip) && negb (is_unspecified ip).

(** [write!(fmt, "{}.{}.{}.{}", ...)]. *)
Definition fmt (ip : Ipv4Addr) : list (list Z) :=
  [decimal (octet ip 0); [dot]; decimal (octet ip 1); [dot];
   decimal (octet ip 2); [dot]; decimal (octet ip 3)].

(** The conversions from and to [u32]. *)
Definition to_u32 (ip : Ipv4Addr) : Z := unbe (inner ip).
Definition of_u32 (ip : Z) : Ipv4Addr := mkIpv4Addr (be 4 ip).

Definition read_ipv4_addr_impl : P Ipv4Addr :=
  r ← read_numbers 4 dot 10 3 0x100 8 0 (replicate 4 0);
  match r with
  | None => mret None
  | Some [a; b; c; d] => mret (Some (new a b c d))
  | Some _ => panic
  end.
Definition read_ipv4_addr : P Ipv4Addr := read_atomically read_ipv4_addr_impl.

End Ipv4.
Import Ipv4(Ipv4Addr, mkIpv4Addr).

(** ** IPv6 addresses *)
Module Ipv6.

(** [inner: [u8; 16]]. *)
Record Ipv6Addr := mkIpv6Addr { inner : list Z }.

#[global] Instance Ipv6Addr_eq_dec : EqDecision Ipv6Addr.
Proof. solve_decision. Defined.

Inductive Ipv6MulticastScope : Set :=
| InterfaceLocal | LinkLocal | RealmLocal | AdminLocal | SiteLocal | OrganizationLocal | Global.

Definition new (a b c d e f g h : Z) : Ipv6Addr :=
  mkIpv6Addr (flat_map (fun s => [u8 (Z.shiftr s 8); u8 s]) [a; b; c; d; e; f; g; h]).
Definition octets (ip : Ipv6Addr) : list Z := inner ip.
Definition octet (ip : Ipv6Addr) (i : nat) : Z := nth_byte (inner ip) i.
Definition segments (ip : Ipv6Addr) : list Z := Guid.segs (inner ip).

Definition localhost : Ipv6Addr := new 0 0 0 0 0 0 0 1.
Definition unspecified : Ipv6Addr := new 0 0 0 0 0 0 0 0.

Definition first_segment (ip : Ipv6Addr) : Z := Guid.seg (octet ip 0) (octet ip 1).
Definition second_segment (ip : Ipv6Addr) : Z := Guid.seg (octet ip 2) (octet ip 3).

Definition is_unspecified (ip : Ipv6Addr) : bool := forallb (fun b => b =? 0) (inner ip).
Definition is_loopback (ip : Ipv6Addr) : bool :=
  bool_decide (segments ip = [0; 0; 0; 0; 0; 0; 0; 1]).
Definition is_unique_local (ip : Ipv6Addr) : bool := Z.land (octet ip 0) 0xfe =? 0xfc.
Definition is_unicast_link_local (ip : Ipv6Addr) : bool :=
  Z.land (first_segment ip) 0xffc0 =? 0xfe80.
Definition is_unicast_site_local (ip : Ipv6Addr) : bool :=
  Z.land (first_segment ip) 0xffc0 =? 0xfec0.
Definition is_documentation (ip : Ipv6Addr) : bool :=
  (first_segment ip =? 0x2001) && (second_segment ip =? 0xdb8).
Definition is_multicast (ip : Ipv6Addr) : bool := octet ip 0 =? 0xff.
Definition is_unicast_global (ip : Ipv6Addr) : bool :=
  negb (is_multicast ip) && negb (is_loopback ip) && negb (is_unicast_link_local ip) &&
  negb (is_unicast_site_local ip) && negb (is_unique_local ip) &&
  negb (is_unspecified ip) && negb (is_documentation ip).

Definition multicast_scope (ip : Ipv6Addr) : option Ipv6MulticastScope :=
  if is_multicast ip then
    match Z.land (octet ip 1) 0x0F with
    | 1 => Some InterfaceLocal
    | 2 => Some LinkLocal
    | 3 => Some RealmLocal
    | 4 => Some AdminLocal
    | 5 => Some SiteLocal
    | 8 => Some OrganizationLocal
    | 14 => Some Global
    | _ => None
    end
  else None.

Definition is_global (ip : Ipv6Addr) : bool :=
  match multicast_scope ip with
  | Some Global => true
  | None => is_unicast_global ip
  | _ => false
  end.

(** The conversions from and to [u128] and [Ipv4Addr]. *)
Definition to_u128 (ip : Ipv6Addr) : Z := unbe (inner ip).
Definition of_u128 (ip : Z) : Ipv6Addr := mkIpv6Addr (be 16 ip).

Definition to_ipv4 (ip : Ipv6Addr) : option Ipv4Addr :=
  match segments ip with
  | [a; b; c; d; e; f; g; h] =>
      if (a =? 0) && (b =? 0) && (c =? 0) && (d =? 0) && (e =? 0) && ((f =? 0) || (f =? 0xffff))
      then Some (Ipv4.new (u8 (Z.shiftr g 8)) (u8 g) (u8 (Z.shiftr h 8)) (u8 h))
      else None
  | _ => None
  end.
Definition to_ipv6_compatible (ip : Ipv4Addr) : Ipv6Addr :=
  new 0 0 0 0 0 0 (Guid.seg (Ipv4.octet ip 0) (Ipv4.octet ip 1))
                  (Guid.seg (Ipv4.octet ip 2) (Ipv4.octet ip 3)).
Definition to_ipv6_mapped (ip : Ipv4Addr) : Ipv6Addr :=
  new 0 0 0 0 0 0xffff (Guid.seg (Ipv4.octet ip 0) (Ipv4.octet ip 1))
                       (Guid.seg (Ipv4.octet ip 2) (Ipv4.octet ip 3)).

(** *** Printing *)

(** The longest run of zero groups: the loop over the groups, with the longest
    and the current run, each as its position and length. *)
Definition zero_slice_step (st : (nat * nat) * (nat * nat)) (i : nat) (s : Z) :
  (nat * nat) * (nat * nat) :=
  let '((longest_span_at, longest_span_len), (cur_span_at, cur_span_len)) := st in
  if s =? 0 then
    let cur_span_at := if Nat.eqb cur_span_len 0 then i else cur_span_at in
    let cur_span_len := S cur_span_len in
    if Nat.ltb longest_span_len cur_span_len
    then ((cur_span_at, cur_span_len), (cur_span_at, cur_span_len))
    else ((longest_span_at, longest_span_len), (cur_span_at, cur_span_len))
  else ((longest_span_at, longest_span_len), (0, 0)%nat).

Fixpoint zero_slice_loop (st : (nat * nat) * (nat * nat)) (i : nat) (segments : list Z) :
  nat * nat :=
  match segments with
  | [] => fst st
  | s :: segments => zero_slice_loop (zero_slice_step st i s) (S i) segments
  end.

Definition find_zero_slice (segments : list Z) : nat * nat :=
  zero_slice_loop ((0, 0)%nat, (0, 0)%nat) 0 segments.

Definition fmt_subslice (segments : list Z) : list (list Z) :=
  match segments with
  | [] => []
  | s :: rest => Guid.lower_hex s :: flat_map (fun seg => [[colon]; Guid.lower_hex seg]) rest
  end.

(** The four decimal octets of the last two groups. *)
Definition fmt_octets (g h : Z) : list (list Z) :=
  Ipv4.fmt (Ipv4.new (u8 (Z.shiftr g 8)) (u8 g) (u8 (Z.shiftr h 8)) (u8 h)).

Definition fmt_general (segments : list Z) : list (list Z) :=
  let '(zeros_at, zeros_len) := find_zero_slice segments in
  if Nat.ltb 1 zeros_len then
    fmt_subslice (take zeros_at segments) ++ [[colon; colon]] ++
    fmt_subslice (skipn (zeros_at + zeros_len) segments)
  else fmt_subslice segments.

Definition fmt (ip : Ipv6Addr) : list (list Z) :=
  match segments ip with
  | [a; b; c; d; e; f; g; h] =>
      if (a =? 0) && (b =? 0) && (c =? 0) && (d =? 0) && (e =? 0) then
        if (f =? 0) && (g =? 0) && (h =? 0) then [[colon; colon]]
        else if (f =? 0) && (g =? 0) && (h =? 1) then [[colon; colon; 49]]
        else if f =? 0 then [colon; colon] :: fmt_octets g h
        else if f =? 0xffff then [colon; colon; 102; 102; 102; 102; colon] :: fmt_octets g h
        else fmt_general (segments ip)
      else fmt_general (segments ip)
  | _ => []
  end.

(** *** Parsing *)

(** [bs[i] = v]. *)
Definition store (i : nat) (v : Z) (bs : list Z) : outcome (list Z) :=
  if Nat.ltb i (length bs) then Done (<[i := v]> bs) else Panic.

(** The separator in front of every group but the first, then the group. *)
Definition behind_colon {A} (i : nat) (group : P A) : P A :=
  read_atomically
    (c ← (if Nat.eqb i 0 then mret (Some colon) else read_given_char colon);
     match c with Some _ => group | None => mret None end).

(** The [while i < limit] loop of [read_groups]; [n] is [limit - i].  It returns
    the array of groups with the pair of the source. *)
Fixpoint read_groups (n limit i : nat) (groups : list Z) : M Parser (list Z * (nat * bool)) :=
  match n with
  | O => mret (groups, (i, false))
  | S n =>
      ipv4 ← (if Nat.ltb i (limit - 1) then behind_colon i Ipv4.read_ipv4_addr else mret None);
      match ipv4 with
      | Some v4_addr =>
          let octets := Ipv4.octets v4_addr in
          groups ← lift (store i (Guid.seg (nth_byte octets 0) (nth_byte octets 1)) groups);
          groups ← lift (store (i + 1) (Guid.seg (nth_byte octets 2) (nth_byte octets 3)) groups);
          mret (groups, (i + 2, true)%nat)
      | None =>
          group ← behind_colon i (read_number 16 4 0x10000);
          match group with
          | Some g =>
              groups ← lift (store i (u16 g) groups);
              read_groups n limit (S i) groups
          | None => mret (groups, (i, false))
          end
      end
  end.

Definition of_groups (gs : list Z) : outcome Ipv6Addr :=
  match gs with
  | [a; b; c; d; e; f; g; h] => Done (new a b c d e f g h)
  | _ => Panic
  end.

(** The two groups of numbers around the double colon; the assertion and the
    slices panic out of range. *)
Definition ipv6_addr_from_head_tail (head tail : list Z) : outcome Ipv6Addr :=
  if Nat.leb (length head + length tail) 8 then
    let gs := replicate 8 0 in
    let gs := head ++ skipn (length head) gs in
    let gs := take (8 - length tail) gs ++ tail in
    of_groups gs
  else Panic.

Definition read_ipv6_addr_impl : P Ipv6Addr :=
  '(head, (head_size, head_ipv4)) ← read_groups 8 8 0 (replicate 8 0);
  if Nat.eqb head_size 8 then ip ← lift (of_groups head); mret (Some ip)
  else if (head_ipv4 : bool) then mret None
  else
    c1 ← read_given_char colon;
    c2 ← (match c1 with Some _ => read_given_char colon | None => mret None end);
    match c2 with
    | None => mret None
    | Some _ =>
        if Nat.ltb 8 (head_size + 1) then panic
        else
          let limit := (8 - (head_size + 1))%nat in
          '(tail, (tail_size, _)) ← read_groups limit limit 0 (replicate 8 0);
          ip ← lift (ipv6_addr_from_head_tail (take head_size head) (take tail_size tail));
          mret (Some ip)
    end.
Definition read_ipv6_addr : P Ipv6Addr := read_atomically read_ipv6_addr_impl.

End Ipv6.
Import Ipv6(Ipv6Addr, mkIpv6Addr).

(** ** Addresses of either family *)
Module Ip.

Inductive IpAddr :=
| V4 (a : Ipv4Addr)
| V6 (a : Ipv6Addr).

#[global] Instance IpAddr_eq_dec : EqDecision IpAddr.
Proof. solve_decision. Defined.

(** The two families of a dispatching method. *)
Definition on {A} (f4 : Ipv4Addr -> A) (f6 : Ipv6Addr -> A) (ip : IpAddr) : A :=
  match ip with V4 a => f4 a | V6 a => f6 a end.

Definition is_unspecified := on Ipv4.is_unspecified Ipv6.is_unspecified.
Definition is_loopback := on Ipv4.is_loopback Ipv6.is_loopback.
Definition is_global := on Ipv4.is_global Ipv6.is_global.
Definition is_multicast := on Ipv4.is_multicast Ipv6.is_multicast.
Definition is_documentation := on Ipv4.is_documentation Ipv6.is_documentation.
Definition is_ipv4 := on (fun _ => true) (fun _ => false).
Definition is_ipv6 := on (fun _ => false) (fun _ => true).
Definition fmt : IpAddr -> list (list Z) := on Ipv4.fmt Ipv6.fmt.

(** The derived order: the families in order, then the octets. *)
Definition cmp (x y : IpAddr) : comparison :=
  match x, y with
  | V4 a, V4 b => lex (Ipv4.inner a) (Ipv4.inner b)
  | V4 _, V6 _ => Lt
  | V6 _, V4 _ => Gt
  | V6 a, V6 b => lex (Ipv6.inner a) (Ipv6.inner b)
  end.

(** The comparisons of one family with either. *)
Definition partial_cmp_ip_v4 (x : IpAddr) (b : Ipv4Addr) : option comparison :=
  match x with V4 a => Some (lex (Ipv4.inner a) (Ipv4.inner b)) | V6 _ => Some Gt end.
Definition partial_cmp_v4_ip (a : Ipv4Addr) (y : IpAddr) : option comparison :=
  match y with V4 b => Some (lex (Ipv4.inner a) (Ipv4.inner b)) | V6 _ => Some Lt end.
Definition partial_cmp_ip_v6 (x : IpAddr) (b : Ipv6Addr) : option comparison :=
  match x with V4 _ => Some Lt | V6 a => Some (lex (Ipv6.inner a) (Ipv6.inner b)) end.
Definition partial_cmp_v6_ip (a : Ipv6Addr) (y : IpAddr) : option comparison :=
  match y with V4 _ => Some Gt | V6 b => Some (lex (Ipv6.inner a) (Ipv6.inner b)) end.

End Ip.
Import Ip(IpAddr).

(** ** Socket addresses *)
Module Sock.

Record SocketAddrV4 := mkSocketAddrV4 { addr4 : Ipv4Addr; port4 : Z }.
Record SocketAddrV6 := mkSocketAddrV6 {
  addr6 : Ipv6Addr; port6 : Z; flow_info : Z; scope_id : Z }.

Inductive SocketAddr :=
| V4 (a : SocketAddrV4)
| V6 (a : SocketAddrV6).

Definition new (ip : IpAddr) (port : Z) : SocketAddr :=
  match ip with
  | Ip.V4 a => V4 (mkSocketAddrV4 a port)
  | Ip.V6 a => V6 (mkSocketAddrV6 a port 0 0)
  end.

Definition ip (s : SocketAddr) : IpAddr :=
  match s with V4 a => Ip.V4 (addr4 a) | V6 a => Ip.V6 (addr6 a) end.
Definition port (s : SocketAddr) : Z :=
  match s with V4 a => port4 a | V6 a => port6 a end.

Definition set_ip4 (new_ip : Ipv4Addr) (s : SocketAddrV4) : SocketAddrV4 :=
  mkSocketAddrV4 new_ip (port4 s).
Definition set_port4 (new_port : Z) (s : SocketAddrV4) : SocketAddrV4 :=
  mkSocketAddrV4 (addr4 s) new_port.
Definition set_ip6 (new_ip : Ipv6Addr) (s : SocketAddrV6) : SocketAddrV6 :=
  mkSocketAddrV6 new_ip (port6 s) (flow_info s) (scope_id s).
Definition set_port6 (new_port : Z) (s : SocketAddrV6) : SocketAddrV6 :=
  mkSocketAddrV6 (addr6 s) new_port (flow_info s) (scope_id s).
Definition set_flowinfo (new_flowinfo : Z) (s : SocketAddrV6) : SocketAddrV6 :=
  mkSocketAddrV6 (addr6 s) (port6 s) new_flowinfo (scope_id s).
Definition set_scope_id (new_scope_id : Z) (s : SocketAddrV6) : SocketAddrV6 :=
  mkSocketAddrV6 (addr6 s) (port6 s) (flow_info s) new_scope_id.

(** An address of the other family replaces the whole value. *)
Definition set_ip (new_ip : IpAddr) (s : SocketAddr) : SocketAddr :=
  match s, new_ip with
  | V4 a, Ip.V4 new_ip => V4 (set_ip4 new_ip a)
  | V6 a, Ip.V6 new_ip => V6 (set_ip6 new_ip a)
  | self_, new_ip => new new_ip (port self_)
  end.
Definition set_port (new_port : Z) (s : SocketAddr) : SocketAddr :=
  match s with V4 a => V4 (set_port4 new_port a) | V6 a => V6 (set_port6 new_port a) end.

Definition is_ipv4 (s : SocketAddr) : bool := match s with V4 _ => true | V6 _ => false end.
Definition is_ipv6 (s : SocketAddr) : bool := match s with V4 _ => false | V6 _ => true end.

(** [write!(f, "{}:{}", ...)] and [write!(f, "[{}]:{}", ...)]. *)
Definition fmt4 (s : SocketAddrV4) : list (list Z) :=
  Ipv4.fmt (addr4 s) ++ [[colon]; decimal (port4 s)].
Definition fmt6 (s : SocketAddrV6) : list (list Z) :=
  [[91]] ++ Ipv6.fmt (addr6 s) ++ [[93; colon]; decimal (port6 s)].
Definition fmt (s : SocketAddr) : list (list Z) :=
  match s with V4 a => fmt4 a | V6 a => fmt6 a end.

Definition read_port : P Z :=
  r ← read_number 10 5 0x10000; mret (u16 <$> r).

Definition read_socket_addr_v4 : P SocketAddrV4 :=
  r ← read_seq_3 Ipv4.read_ipv4_addr (read_given_char colon) read_port;
  mret ((fun '(ip, _, port) => mkSocketAddrV4 ip port) <$> r).

Definition read_socket_addr_v6 : P SocketAddrV6 :=
  let ip_addr :=
    (r ← read_seq_3 (read_given_char 91) Ipv6.read_ipv6_addr (read_given_char 93);
     mret ((fun '(_, ip, _) => ip) <$> r)) in
  r ← read_seq_3 ip_addr (read_given_char colon) read_port;
  mret ((fun '(ip, _, port) => mkSocketAddrV6 ip port 0 0) <$> r).

End Sock.
Import Sock(SocketAddr, SocketAddrV4, SocketAddrV6).

(** ** The [FromStr] implementations *)
Module FromStr.
Import Guid(AddrParseError, mkAddrParseError).

Definition whole {A} (p : P A) (str : list Z) : outcome (option A) :=
  match read_till_eof p (Parser.new str) with
  | Done (r, _) => Done r
  | Panic => Panic
  end.

(** One reader over the whole text. *)
Definition parse {A} (p : P A) (str : list Z) : outcome (Result AddrParseError A) :=
  match whole p str with
  | Done (Some a) => Done (Ok a)
  | Done None => Done (Err mkAddrParseError)
  | Panic => Panic
  end.

(** The first reader over the whole text, then the second. *)
Definition parse_either {A B C} (p : P A) (q : P B) (f : A -> C) (g : B -> C) (str : list Z) :
  outcome (Result AddrParseError C) :=
  match whole p str with
  | Done (Some a) => Done (Ok (f a))
  | Done None =>
      match whole q str with
      | Done (Some b) => Done (Ok (g b))
      | Done None => Done (Err mkAddrParseError)
      | Panic => Panic
      end
  | Panic => Panic
  end.

Definition ipv4 := parse Ipv4.read_ipv4_addr.
Definition ipv6 := parse Ipv6.read_ipv6_addr.
Definition ip := parse_either Ipv4.read_ipv4_addr Ipv6.read_ipv6_addr Ip.V4 Ip.V6.
Definition socket_v4 := parse Sock.read_socket_addr_v4.
Definition socket_v6 := parse Sock.read_socket_addr_v6.
Definition socket := parse_either Sock.read_socket_addr_v4 Sock.read_socket_addr_v6 Sock.V4 Sock.V6.

End FromStr.

(** [ToString]: what [Display] writes. *)
Definition text (pieces : list (list Z)) : list Z := concat pieces.

(** ** Serialization

    The calls made on a [serde] serializer are tokens of its data model; a
    deserializer yields them back.  Both are told whether the format is for
    people to read. *)
Module Serde.
Import Guid(AddrParseError).

Inductive token :=
| Str (s : list Z)
| Tuple (len : nat)
| TupleEnd
| U8 (v : Z)
| U16 (v : Z)
| NewtypeVariant (name variant : string).

Inductive Error :=
| FmtError
| NotUtf8
| Custom (e : AddrParseError)
| InvalidType
| UnknownVariant (variant : string).

(** A writer into a buffer of fixed size. *)
Record Wrapper := mkWrapper { buf : list Z; offset : nat }.

Definition write_str (s : list Z) (w : Wrapper) : bool * Wrapper :=
  if Nat.ltb (length (buf w)) (offset w) then (false, w)
  else
    let remaining := (length (buf w) - offset w)%nat in
    let write_num := Nat.min (length s) remaining in
    let buf' := take (offset w) (buf w) ++ take write_num s ++ skipn (offset w + write_num) (buf w) in
    (negb (Nat.ltb write_num (length s)), mkWrapper buf' (offset w + length s)).

(** The formatter stops at the first piece that fails. *)
Fixpoint write_pieces (pieces : list (list Z)) (w : Wrapper) : bool * Wrapper :=
  match pieces with
  | [] => (true, w)
  | s :: pieces =>
      match write_str s w with
      | (true, w) => write_pieces pieces w
      | r => r
      end
  end.

Definition as_str (w : Wrapper) : option (list Z) :=
  if Nat.leb (offset w) (length (buf w)) then
    let s := take (offset w) (buf w) in
    if valid_utf8 s then Some s else None
  else None.

Definition serialize_display_bounded_length (pieces : list (list Z)) (max : nat) :
  Result Error (list token) :=
  match write_pieces pieces (mkWrapper (replicate max 0) 0) with
  | (false, _) => Err FmtError
  | (true, w) =>
      match as_str w with
      | Some s => Ok [Str s]
      | None => Err NotUtf8
      end
  end.

(** An array of octets, and a pair of an address and a port. *)
Definition octet_tuple (l : list Z) : list token := Tuple (length l) :: map U8 l ++ [TupleEnd].
Definition pair_tuple (ip : list token) (port : Z) : list token :=
  Tuple 2 :: ip ++ [U16 port; TupleEnd].

Definition on_ok {E A B} (f : A -> B) (r : Result E A) : Result E B :=
  match r with Ok a => Ok (f a) | Err e => Err e end.

Section serialize.
Context (is_human_readable : bool).

Definition ser_ipv4 (a : Ipv4Addr) : Result Error (list token) :=
  if is_human_readable then serialize_display_bounded_length (Ipv4.fmt a) 15
  else Ok (octet_tuple (Ipv4.octets a)).
Definition ser_ipv6 (a : Ipv6Addr) : Result Error (list token) :=
  if is_human_readable then serialize_display_bounded_length (Ipv6.fmt a) 39
  else Ok (octet_tuple (Ipv6.octets a)).
Definition ser_ip (ip : IpAddr) : Result Error (list token) :=
  if is_human_readable then Ip.on ser_ipv4 ser_ipv6 ip
  else
    match ip with
    | Ip.V4 a => on_ok (cons (NewtypeVariant "IpAddr" "V4")) (ser_ipv4 a)
    | Ip.V6 a => on_ok (cons (NewtypeVariant "IpAddr" "V6")) (ser_ipv6 a)
    end.
Definition ser_socket_v4 (s : SocketAddrV4) : Result Error (list token) :=
  if is_human_readable then serialize_display_bounded_length (Sock.fmt4 s) 21
  else on_ok (fun ip => pair_tuple ip (Sock.port4 s)) (ser_ipv4 (Sock.addr4 s)).
Definition ser_socket_v6 (s : SocketAddrV6) : Result Error (list token) :=
  if is_human_readable then serialize_display_bounded_length (Sock.fmt6 s) 47
  else on_ok (fun ip => pair_tuple ip (Sock.port6 s)) (ser_ipv6 (Sock.addr6 s)).
Definition ser_socket (s : SocketAddr) : Result Error (list token) :=
  if is_human_readable then
    match s with Sock.V4 a => ser_socket_v4 a | Sock.V6 a => ser_socket_v6 a end
  else
    match s with
    | Sock.V4 a => on_ok (cons (NewtypeVariant "SocketAddr" "V4")) (ser_socket_v4 a)
    | Sock.V6 a => on_ok (cons (NewtypeVariant "SocketAddr" "V6")) (ser_socket_v6 a)
    end.

(** A deserializer takes the tokens of a value off the front. *)
Definition de A := list token -> outcome (Result Error (A * list token)).

(** [deserialize_str] with the visitor that parses. *)
Definition de_str {A} (parse : list Z -> outcome (Result AddrParseError A)) : de A := fun toks =>
  match toks with
  | Str s :: rest =>
      match parse s with
      | Done (Ok a) => Done (Ok (a, rest))
      | Done (Err e) => Done (Err (Custom e))
      | Panic => Panic
      end
  | _ => Done (Err InvalidType)
  end.

Fixpoint take_u8s (n : nat) (toks : list token) : option (list Z * list token) :=
  match n, toks with
  | O, TupleEnd :: rest => Some ([], rest)
  | S n, U8 v :: rest => '(l, rest) ← take_u8s n rest; Some (v :: l, rest)
  | _, _ => None
  end.

(** [<[u8; N]>::deserialize]. *)
Definition de_octets (n : nat) : de (list Z) := fun toks =>
  match toks with
  | Tuple len :: rest =>
      match (if Nat.eqb len n then take_u8s n rest else None) with
      | Some r => Done (Ok r)
      | None => Done (Err InvalidType)
      end
  | _ => Done (Err InvalidType)
  end.

Definition de_map {A B} (f : A -> B) (d : de A) : de B := fun toks =>
  match d toks with
  | Done r => Done (on_ok (fun '(a, rest) => (f a, rest)) r)
  | Panic => Panic
  end.

(** [<(_, u16)>::deserialize]. *)
Definition de_pair {A} (d : de A) : de (A * Z) := fun toks =>
  match toks with
  | Tuple 2 :: rest =>
      match d rest with
      | Done (Ok (a, U16 port :: TupleEnd :: rest)) => Done (Ok (a, port, rest))
      | Done (Ok _) => Done (Err InvalidType)
      | Done (Err e) => Done (Err e)
      | Panic => Panic
      end
  | _ => Done (Err InvalidType)
  end.

(** [deserialize_enum] with the variant names of the macro. *)
Definition de_enum {A} (name : string) (v4 v6 : de A) : de A := fun toks =>
  match toks with
  | NewtypeVariant n variant :: rest =>
      if negb (String.eqb n name) then Done (Err InvalidType)
      else if String.eqb variant "V4" then v4 rest
      else if String.eqb variant "V6" then v6 rest
      else Done (Err (UnknownVariant variant))
  | _ => Done (Err InvalidType)
  end.

Definition de_ipv4 : de Ipv4Addr :=
  if is_human_readable then de_str FromStr.ipv4 else de_map mkIpv4Addr (de_octets 4).
Definition de_ipv6 : de Ipv6Addr :=
  if is_human_readable then de_str FromStr.ipv6 else de_map mkIpv6Addr (de_octets 16).
Definition de_ip : de IpAddr :=
  if is_human_readable then de_str FromStr.ip
  else de_enum "IpAddr" (de_map Ip.V4 de_ipv4) (de_map Ip.V6 de_ipv6).
Definition de_socket_v4 : de SocketAddrV4 :=
  if is_human_readable then de_str FromStr.socket_v4
  else de_map (fun '(ip, port) => Sock.mkSocketAddrV4 ip port) (de_pair de_ipv4).
Definition de_socket_v6 : de SocketAddrV6 :=
  if is_human_readable then de_str FromStr.socket_v6
  else de_map (fun '(ip, port) => Sock.mkSocketAddrV6 ip port 0 0) (de_pair de_ipv6).
Definition de_socket : de SocketAddr :=
  if is_human_readable then de_str FromStr.socket
  else de_enum "SocketAddr" (de_map Sock.V4 de_socket_v4) (de_map Sock.V6 de_socket_v6).

End serialize.
End Serde.
