(* ===== verification/IpText.v ===== *)
(** * Addresses as text

    Parsing and printing of the addresses of [IpAddr]: the parser ends without a
    panic on every input, and a printed address is read back.  The last part is
    the crate's [serde] support
    (src/rust-kernel-rdma/deps/no-std-net/src/ser.rs and de.rs) over the tokens of
    the [serde] data model. *)

From S2P Require Import Prelude Bytes Guid IpAddr.
Import Parser Ipv4(Ipv4Addr, mkIpv4Addr) Ipv6(Ipv6Addr, mkIpv6Addr).

#[local] Open Scope Z_scope.

(** ** Parsers that end

    [ends m Q]: from every position of every input [m] returns, with a result in
    [Q], at a position of the same input. *)
Definition ends {A} (m : M Parser A) (Q : A -> Prop) : Prop :=
  forall pre l, exists r pre' l',
    m (at_ pre l) = Done (r, at_ pre' l') /\ pre ++ l = pre' ++ l' /\ Q r.

Create HintDb ends discriminated.

Lemma ends_ret {A} (a : A) (Q : A -> Prop) : Q a -> ends (mret a) Q.
Proof. intros Ha pre l. by exists a, pre, l. Qed.

Lemma ends_bind {A B} (m : M Parser A) (k : A -> M Parser B) Q R :
  ends m Q -> (forall a, Q a -> ends (k a) R) -> ends (m ≫= k) R.
Proof.
  intros Hm Hk pre l. destruct (Hm pre l) as (a & p & t & E & Hs & Ha).
  destruct (Hk a Ha p t) as (b & p' & t' & E' & Hs' & Hb).
  exists b, p', t'. rewrite (bind_done _ _ _ _ _ E), Hs. done.
Qed.

Lemma ends_mono {A} (m : M Parser A) (Q R : A -> Prop) :
  ends m Q -> (forall a, Q a -> R a) -> ends m R.
Proof. intros Hm HQ pre l. destruct (Hm pre l) as (a & p & t & ? & ? & ?). exists a, p, t. auto. Qed.

Lemma ends_lift {A} (a : A) (Q : A -> Prop) : Q a -> ends (lift (Done a)) Q.
Proof. intros Ha pre l. by exists a, pre, l. Qed.

Lemma at_same pre l pre' l' : pre ++ l = pre' ++ l' -> mkParser (pre' ++ l') (length pre) = at_ pre l.
Proof. intros <-. done. Qed.

Lemma at_eq pre t pre' r p u :
  at_ pre' r = at_ p u -> pre ++ t ++ r = p ++ u -> at_ pre' r = at_ (pre ++ t) r.
Proof.
  intros [= Hs Hl] Hp. assert (pre' = pre ++ t) as ->; [|done].
  apply (app_inv_tail r). by rewrite Hs, <- Hp, app_assoc.
Qed.

(** An atomic reader either succeeds like its body or stays where it was. *)
Lemma atomically_cases {A} (m : P A) Q pre l :
  ends m Q ->
  (exists a pre' l', m (at_ pre l) = Done (Some a, at_ pre' l') /\
     read_atomically m (at_ pre l) = Done (Some a, at_ pre' l') /\
     pre ++ l = pre' ++ l' /\ Q (Some a)) \/
  read_atomically m (at_ pre l) = Done (None, at_ pre l).
Proof.
  intros Hm. destruct (Hm pre l) as (r & p & t & E & Hs & Hr). unfold read_atomically. rewrite E.
  destruct r as [a|]; [left; by exists a, p, t|right]. simpl. by rewrite (at_same pre l).
Qed.

Lemma ends_atomically {A} (m : P A) (Q : option A -> Prop) :
  ends m Q -> Q None -> ends (read_atomically m) Q.
Proof.
  intros Hm HN pre l. destruct (atomically_cases m Q pre l Hm) as [(a & p & t & _ & E & Hs & Ha)|E].
  - by exists (Some a), p, t.
  - by exists None, pre, l.
Qed.

Definition any {A} (_ : A) : Prop := True.

Lemma ends_given_char c : ends (read_given_char c) any.
Proof.
  intros pre l. rewrite read_given_char_at. destruct l as [|x l]; [by exists None, pre, []|].
  destruct (x =? c); [exists (Some x), (pre ++ [x]), l|exists None, pre, (x :: l)]; split_and!; try done.
  by rewrite <- app_assoc.
Qed.

(** A number read is a value below the bound. *)
Definition below (upto : Z) (r : option Z) : Prop := forall v, r = Some v -> 0 <= v < upto.

Lemma value_nonneg radix ds : 10 <= radix -> 0 <= value radix ds.
Proof. intros. by apply value_from_ge. Qed.

Lemma ends_number radix max upto :
  10 <= radix -> 0 <= max -> 0 < upto -> upto * radix + radix <= 2 ^ 32 ->
  ends (read_number radix max upto) (below upto).
Proof.
  intros Hr Hm Hu Hov pre l. destruct (span radix l) as [ds r] eqn:E.
  rewrite (read_number_at _ _ _ _ _ _ _ Hr Hm Hu Hov E). apply span_inv in E as (-> & _ & _).
  case_decide as Hn; [exists (Some (value radix ds)), (pre ++ ds), r|exists None, pre, (ds ++ r)];
    split_and!; try done; [by rewrite <- app_assoc|].
  intros v [= <-]. split; [by apply value_nonneg|apply Hn].
Qed.

Lemma ends_numbers n sep radix max upto cast i bs :
  10 <= radix -> 0 <= max -> 0 < upto -> upto * radix + radix <= 2 ^ 32 ->
  ends (read_numbers n sep radix max upto cast i bs)
    (fun r => forall bs', r = Some bs' -> length bs' = length bs).
Proof.
  intros Hr Hm Hu Hov. revert i bs. induction n as [|n IH]; intros i bs; simpl.
  { apply ends_ret. by intros ? [= <-]. }
  apply (ends_bind _ _ any); [destruct (Nat.eqb i 0); [by apply ends_ret|apply ends_given_char]|].
  intros [c|] _; [|by apply ends_ret].
  apply (ends_bind _ _ (below upto)); [by apply ends_number|].
  intros [v|] _; [|by apply ends_ret].
  eapply ends_mono; [apply IH|]. intros r Hl bs' E. by rewrite (Hl bs' E), length_insert.
Qed.

(** ** IPv4 addresses *)
Lemma ends_ipv4_impl : ends Ipv4.read_ipv4_addr_impl any.
Proof.
  unfold Ipv4.read_ipv4_addr_impl. eapply ends_bind; [by apply ends_numbers|].
  intros [bs|] Hl; [|by apply ends_ret]. specialize (Hl bs eq_refl).
  do 5 (destruct bs as [|? bs]; try done). by apply ends_ret.
Qed.

Lemma ends_ipv4 : ends Ipv4.read_ipv4_addr any.
Proof. apply ends_atomically; [apply ends_ipv4_impl|done]. Qed.

Definition of_octets (l : list Z) : Ipv4Addr := mkIpv4Addr l.

Lemma map_u8_value gs :
  Forall (numeral 10 3 256) gs -> map (fun ds => wrap 8 (value 10 ds)) gs = map (value 10) gs.
Proof.
  intros HF. apply map_ext_Forall. eapply Forall_impl; [exact HF|]. intros ds (_ & _ & Hv).
  apply wrap_small. split; [by apply value_nonneg|exact Hv].
Qed.

(** The reader of IPv4 addresses: four decimal groups, or nothing. *)
Lemma read_ipv4_addr_at pre l :
  match groups 10 3 256 dot 4 true l with
  | Some (gs, r) => forall t, l = t ++ r ->
      Ipv4.read_ipv4_addr (at_ pre l) = Done (Some (of_octets (map (value 10) gs)), at_ (pre ++ t) r)
  | None => Ipv4.read_ipv4_addr (at_ pre l) = Done (None, at_ pre l)
  end.
Proof.
  pose proof (read_numbers_at dot 10 3 256 8 ltac:(lia) ltac:(lia) ltac:(lia) ltac:(lia)
    4 0 pre l (replicate 4 0) eq_refl) as H.
  change (Nat.eqb 0 0) with true in H.
  pose proof (atomically_cases _ _ pre l ends_ipv4_impl) as Hc.
  unfold Ipv4.read_ipv4_addr in *. unfold Ipv4.read_ipv4_addr_impl in Hc at 1. rewrite bind_run in Hc.
  destruct (groups 10 3 256 dot 4 true l) as [[gs r]|] eqn:E.
  - destruct H as [pre' H]. rewrite H in Hc. intros t ->.
    apply groups_first_sound in E as [Hl HF]. rewrite map_u8_value in Hc by done.
    do 5 (destruct gs as [|? gs]; try done). simpl in Hc.
    destruct Hc as [(a & p & u & E & -> & Hs & _)|Hn].
    + unfold mret, M_ret in E. assert (at_ pre' r = at_ p u) as Hp by congruence.
      rewrite <- (at_eq pre t pre' r p u) by done. by rewrite <- E.
    + unfold read_atomically, Ipv4.read_ipv4_addr_impl in Hn. rewrite bind_run, H, map_u8_value in Hn by done. done.
  - destruct H as [p' H]. rewrite H in Hc. by destruct Hc as [(a & p & t & ? & _)|Hn].
Qed.

Section reading.

(** [m] reads the text [t] in front of [r] as [v]; [m] reads nothing from [l]. *)
Definition reads {A} (m : P A) (t : list Z) (v : A) (r : list Z) : Prop :=
  forall pre, m (at_ pre (t ++ r)) = Done (Some v, at_ (pre ++ t) r).
Definition refuses {A} (m : P A) (l : list Z) : Prop :=
  forall pre, m (at_ pre l) = Done (None, at_ pre l).

Lemma reads_atomically {A} (m : P A) t v r : reads m t v r -> reads (read_atomically m) t v r.
Proof. intros H pre. unfold read_atomically. by rewrite H. Qed.

Lemma reads_given_char c r : reads (read_given_char c) [c] c r.
Proof. intros pre. rewrite read_given_char_at. simpl. by rewrite Z.eqb_refl. Qed.

(** The numeral in front of a byte that is not a digit. *)
Lemma reads_number radix max upto ds r :
  10 <= radix -> 0 <= max -> 0 < upto -> upto * radix + radix <= 2 ^ 32 ->
  numeral radix max upto ds -> stops radix r = true ->
  reads (read_number radix max upto) ds (value radix ds) r.
Proof.
  intros Hr Hm Hu Hov Hn Hs pre. pose proof Hn as (_ & Hd & _).
  rewrite (read_number_at _ _ _ _ _ _ _ Hr Hm Hu Hov (span_app radix ds r Hd Hs)).
  by rewrite decide_True.
Qed.

Lemma refuses_number radix max upto l :
  10 <= radix -> 0 <= max -> 0 < upto -> upto * radix + radix <= 2 ^ 32 ->
  stops radix l = true -> refuses (read_number radix max upto) l.
Proof.
  intros Hr Hm Hu Hov Hs pre.
  rewrite (read_number_at _ _ _ _ _ _ _ Hr Hm Hu Hov (span_app radix [] l (Forall_nil_2 _) Hs)).
  rewrite decide_False; [done|]. intros [Hl _]. simpl in Hl. lia.
Qed.

Lemma reads_seq_3 {A B C} (pa : P A) (pb : P B) (pc : P C) ta tb tc a b c r :
  reads pa ta a (tb ++ tc ++ r) -> reads pb tb b (tc ++ r) -> reads pc tc c r ->
  reads (read_seq_3 pa pb pc) (ta ++ tb ++ tc) (a, b, c) r.
Proof.
  intros Ha Hb Hc. apply reads_atomically. intros pre. rewrite <- !app_assoc.
  rewrite (bind_done _ _ _ _ _ (Ha pre)), (bind_done _ _ _ _ _ (Hb _)), (bind_done _ _ _ _ _ (Hc _)).
  by rewrite <- !app_assoc.
Qed.

Lemma reads_map {A B} (f : A -> B) (m : P A) t v r :
  reads m t v r -> reads (r ← m; mret (f <$> r)) t (f v) r.
Proof. intros H pre. by rewrite (bind_done _ _ _ _ _ (H pre)). Qed.

(** A reader that does not start is refused by the sequence. *)
Lemma refuses_seq_3 {A B C} (pa : P A) (pb : P B) (pc : P C) l :
  refuses pa l -> refuses (read_seq_3 pa pb pc) l.
Proof.
  intros Ha pre. unfold read_seq_3, read_atomically. rewrite (bind_done _ _ _ _ _ (Ha pre)). done.
Qed.

Lemma refuses_map {A B} (f : A -> B) (m : P A) l :
  refuses m l -> refuses (r ← m; mret (f <$> r)) l.
Proof. intros H pre. by rewrite (bind_done _ _ _ _ _ (H pre)). Qed.

(** The whole text. *)
Lemma parse_reads {A} (m : P A) t v : reads m t v [] -> FromStr.whole m t = Done (Some v).
Proof.
  intros H. unfold FromStr.whole, read_till_eof, read_atomically.
  specialize (H []). rewrite app_nil_r in H. change (at_ [] t) with (Parser.new t) in H.
  rewrite (bind_done _ _ _ _ _ H), bind_gets. unfold is_eof, at_. simpl.
  by rewrite app_nil_r, Nat.eqb_refl.
Qed.

Lemma parse_refuses {A} (m : P A) t : refuses m t -> FromStr.whole m t = Done None.
Proof.
  intros H. unfold FromStr.whole, read_till_eof, read_atomically.
  specialize (H []). change (at_ [] t) with (Parser.new t) in H.
  by rewrite (bind_done _ _ _ _ _ H).
Qed.

Lemma parse_ends {A} (m : P A) Q t : ends m Q -> exists r, FromStr.whole m t = Done r.
Proof.
  intros H. unfold FromStr.whole, read_till_eof, read_atomically.
  destruct (H [] t) as (r & pre & l & E & _). change (at_ [] t) with (Parser.new t) in E.
  rewrite (bind_done _ _ _ _ _ E). destruct r as [a|]; [|by eexists].
  rewrite bind_gets. unfold mret, M_ret. destruct (is_eof _); by eexists.
Qed.

End reading.

(** ** Printed numbers *)
Lemma decimal_spec k n :
  0 <= n < 10 ^ Z.of_nat (S k) -> (k <= 4)%nat ->
  value 10 (decimal n) = n /\ Forall (fun c => is_digit 10 c = true) (decimal n) /\
  (1 <= length (decimal n) <= S k)%nat.
Proof.
  intros Hn Hk. unfold decimal. rewrite (GuidSpec.digits_loop_fuel 10 k 4) by (lia || done).
  destruct (GuidSpec.digits_loop_spec 10 k n []) as (Hv & Hd & Hl); [lia|done..|].
  cbn [length] in Hl. split_and!; [exact Hv|exact Hd|lia|lia].
Qed.

Lemma decimal_numeral k n upto :
  0 <= n < upto -> upto <= 10 ^ Z.of_nat (S k) -> (k <= 4)%nat ->
  numeral 10 (Z.of_nat (S k)) upto (decimal n).
Proof.
  intros Hn Hu Hk. destruct (decimal_spec k n) as (Hv & Hd & Hl); [lia|done|].
  unfold numeral. rewrite Hv. split_and!; [lia|lia|done|lia].
Qed.

(** ** IPv4 addresses as text *)
Definition wf4 (ip : Ipv4Addr) : Prop :=
  length (Ipv4.inner ip) = 4%nat /\ Forall (in_width 8) (Ipv4.inner ip).

Lemma wf4_new ip : wf4 ip -> exists a b c d,
  ip = Ipv4.new a b c d /\ in_width 8 a /\ in_width 8 b /\ in_width 8 c /\ in_width 8 d.
Proof.
  destruct ip as [l]. intros [Hl HF]. simpl in *. do 5 (destruct l as [|? l]; try done).
  rewrite !Forall_cons in HF. destruct_and!. by eexists _, _, _, _.
Qed.

Lemma new_wf4 a b c d :
  in_width 8 a -> in_width 8 b -> in_width 8 c -> in_width 8 d -> wf4 (Ipv4.new a b c d).
Proof. intros. split; [done|]. do 4 (apply Forall_cons_2; [done|]). apply Forall_nil_2. Qed.

Lemma fmt4_join a b c d :
  text (Ipv4.fmt (Ipv4.new a b c d)) = Guid.join dot (map decimal [a; b; c; d]).
Proof. unfold text, Ipv4.fmt. simpl. by rewrite app_nil_r. Qed.

Lemma groups_first_complete sep radix max upto g gs r :
  is_digit radix sep = false -> Forall (numeral radix max upto) (g :: gs) -> stops radix r = true ->
  groups radix max upto sep (S (length gs)) true (Guid.join sep (g :: gs) ++ r) = Some (g :: gs, r).
Proof.
  intros Hsep [Hn HF]%Forall_cons Hr. rewrite join_seps, <- app_assoc. simpl.
  pose proof Hn as (_ & Hd & _).
  rewrite (span_app radix g) by (done || by apply stops_seps).
  rewrite decide_True by done. by rewrite groups_complete.
Qed.

(** An address in front of a byte that is not a digit. *)
Lemma reads_ipv4 ip r :
  wf4 ip -> stops 10 r = true -> reads Ipv4.read_ipv4_addr (text (Ipv4.fmt ip)) ip r.
Proof.
  intros (a & b & c & d & -> & Ha & Hb & Hc & Hd)%wf4_new Hr pre.
  rewrite fmt4_join. pose proof (read_ipv4_addr_at pre (Guid.join dot (map decimal [a; b; c; d]) ++ r)) as H.
  assert (HF : Forall (numeral 10 3 256) (map decimal [a; b; c; d])).
  { repeat (constructor; [apply (decimal_numeral 2); [done|done|lia]|]). constructor. }
  pose proof (groups_first_complete dot 10 3 256 (decimal a) (map decimal [b; c; d]) r eq_refl HF Hr) as E.
  change (decimal a :: map decimal [b; c; d]) with (map decimal [a; b; c; d]) in E.
  change (S (length (map decimal [b; c; d]))) with 4%nat in E. rewrite E in H.
  rewrite (H _ eq_refl). do 3 f_equal. unfold of_octets, Ipv4.new. f_equal.
  rewrite map_map. rewrite <- (map_id [a; b; c; d]) at 2. apply map_ext_Forall.
  repeat (constructor; [apply (decimal_spec 2); [unfold in_width in *; lia|lia]|]). constructor.
Qed.

(** No address: the digits at the start are not followed by a dot. *)
Definition no_dot (l : list Z) : Prop := head (snd (span 10 l)) <> Some dot.

Lemma refuses_ipv4 l : no_dot l -> refuses Ipv4.read_ipv4_addr l.
Proof.
  intros H pre. pose proof (read_ipv4_addr_at pre l) as E. unfold no_dot in H.
  simpl in E. destruct (span 10 l) as [ds r]. simpl in H. case_decide; [|done].
  destruct r as [|c r]; [done|]. destruct (Z.eqb_spec c dot) as [->|]; [by destruct H|done].
Qed.

Lemma no_dot_absent l : dot ∉ l -> no_dot l.
Proof.
  intros Hl. unfold no_dot. destruct (span 10 l) as [ds r] eqn:E. apply span_inv in E as (-> & _ & _).
  destruct r as [|c r]; [done|]. intros [= ->]. apply Hl. set_solver.
Qed.

Lemma no_dot_stops l c : head l = Some c -> is_digit 10 c = false -> c <> dot -> no_dot l.
Proof.
  destruct l as [|x l]; [done|]. intros [= ->] Hd Hc. unfold no_dot. simpl. rewrite Hd. simpl. congruence.
Qed.

(** ** IPv6 addresses *)
Lemma ends_behind {A} i (m : P A) (Q : option A -> Prop) :
  ends m Q -> Q None -> ends (Ipv6.behind_colon i m) Q.
Proof.
  intros Hm HN. apply ends_atomically; [|done].
  apply (ends_bind _ _ any); [destruct (Nat.eqb i 0); [by apply ends_ret|apply ends_given_char]|].
  intros [c|] _; [done|by apply ends_ret].
Qed.

Lemma store_in i v bs : (i < length bs)%nat -> Ipv6.store i v bs = Done (<[i := v]> bs).
Proof. intros H. unfold Ipv6.store. by destruct (Nat.ltb_spec i (length bs)); [|lia]. Qed.

Lemma ends_store {B} i v bs (k : list Z -> M Parser B) R :
  (i < length bs)%nat -> (forall bs', length bs' = length bs -> ends (k bs') R) ->
  ends (lift (Ipv6.store i v bs) ≫= k) R.
Proof.
  intros Hi Hk. rewrite store_in by done.
  apply (ends_bind _ _ (fun bs' => length bs' = length bs)); [|done].
  apply ends_lift. by rewrite length_insert.
Qed.

(** The groups stay in the array and below the limit. *)
Lemma ends_groups n limit i groups :
  (n + i = limit)%nat -> (limit <= 8)%nat -> length groups = 8%nat ->
  ends (Ipv6.read_groups n limit i groups)
    (fun '(gs, (k, _)) => length gs = 8%nat /\ (k <= limit)%nat).
Proof.
  revert i groups. induction n as [|n IH]; intros i groups Hn Hlim Hl; simpl.
  { apply ends_ret. split; [done|lia]. }
  apply (ends_bind _ _ (fun r => is_Some r -> (i + 2 <= limit)%nat)).
  { destruct (Nat.ltb_spec i (limit - 1)); [|apply ends_ret; by intros []].
    eapply ends_mono; [apply (ends_behind _ _ any ends_ipv4 I)|]. intros ? _ _. lia. }
  intros [v4|] Hv.
  - specialize (Hv ltac:(eauto)). apply ends_store; [lia|]. intros gs Hgs.
    apply ends_store; [lia|]. intros gs' Hgs'. apply ends_ret. split; [congruence|lia].
  - apply (ends_bind _ _ any).
    { apply ends_behind; [|done]. eapply ends_mono; [by apply ends_number|done]. }
    intros [g|] _; [|apply ends_ret; split; [done|lia]].
    apply ends_store; [lia|]. intros gs Hgs. apply IH; [lia|done|congruence].
Qed.

Lemma of_groups_done gs : length gs = 8%nat -> exists ip, Ipv6.of_groups gs = Done ip.
Proof. intros Hl. do 9 (destruct gs as [|? gs]; try done). by eexists. Qed.

Lemma from_head_tail head tail :
  (length head + length tail <= 8)%nat ->
  Ipv6.ipv6_addr_from_head_tail head tail =
  Ipv6.of_groups (head ++ replicate (8 - length head - length tail) 0 ++ tail).
Proof.
  intros Hl. unfold Ipv6.ipv6_addr_from_head_tail.
  destruct (Nat.leb_spec (length head + length tail) 8); [|lia]. f_equal.
  rewrite drop_replicate, take_app_ge, take_replicate, <- app_assoc by lia.
  do 3 f_equal. lia.
Qed.

Lemma ends_ipv6_impl : ends Ipv6.read_ipv6_addr_impl any.
Proof.
  unfold Ipv6.read_ipv6_addr_impl. eapply ends_bind; [by apply ends_groups|].
  intros [head [hs b]] [Hh Hs]. destruct (Nat.eqb_spec hs 8) as [->|Hne].
  { destruct (of_groups_done head Hh) as [ip ->]. apply (ends_bind _ _ any); [by apply ends_lift|].
    intros a _. by apply (ends_ret _ any). }
  destruct b; [by apply ends_ret|].
  eapply ends_bind; [apply ends_given_char|]. intros c1 _.
  apply (ends_bind _ _ any); [destruct c1; [apply ends_given_char|by apply ends_ret]|].
  intros [c2|] _; [|by apply ends_ret].
  destruct (Nat.ltb_spec 8 (hs + 1)); [lia|].
  eapply ends_bind; [apply ends_groups; lia || by rewrite ?length_replicate|].
  intros [tail [ts b']] [Ht Hts]. rewrite from_head_tail by (rewrite !length_take; lia).
  match goal with |- context [Ipv6.of_groups ?l] => destruct (of_groups_done l) as [ip ->] end.
  { rewrite !length_app, !length_take, length_replicate. lia. }
  apply (ends_bind _ _ any); [by apply ends_lift|]. intros a _. by apply (ends_ret _ any).
Qed.

Lemma ends_ipv6 : ends Ipv6.read_ipv6_addr any.
Proof. apply ends_atomically; [apply ends_ipv6_impl|done]. Qed.

(** *** Groups read from text *)
Abbreviation hexes gs := (map Guid.lower_hex gs).
Abbreviation u16s := (Forall (fun n => 0 <= n < 65536)).

Definition sep_at (i : nat) : list Z := if Nat.eqb i 0 then [] else [colon].

(** What follows does not continue the groups. *)
Definition stops_groups (i : nat) (r : list Z) : Prop :=
  forall r', r = sep_at i ++ r' -> no_dot r' /\ stops 16 r' = true.

Lemma reads_behind {A} i (m : P A) t v r :
  reads m t v r -> reads (Ipv6.behind_colon i m) (sep_at i ++ t) v r.
Proof.
  intros H. apply reads_atomically. intros pre. unfold sep_at.
  destruct (Nat.eqb i 0); [exact (H pre)|]. rewrite <- app_assoc.
  rewrite (bind_done _ _ _ _ _ (reads_given_char colon (t ++ r) pre)), H. by rewrite <- app_assoc.
Qed.

Lemma refuses_behind {A} i (m : P A) l :
  (forall l', l = sep_at i ++ l' -> refuses m l') -> refuses (Ipv6.behind_colon i m) l.
Proof.
  unfold sep_at. intros H pre. unfold Ipv6.behind_colon, read_atomically.
  destruct (Nat.eqb i 0); [rewrite bind_ret; by rewrite (H l eq_refl)|].
  rewrite bind_run, read_given_char_at. destruct l as [|x l]; [done|].
  destruct (Z.eqb_spec x colon) as [->|]; [|done].
  rewrite (H l eq_refl). unfold at_. simpl. by rewrite <- app_assoc.
Qed.

Lemma groups_stop n limit i groups pre r :
  stops_groups i r -> Ipv6.read_groups n limit i groups (at_ pre r) = Done ((groups, (i, false)), at_ pre r).
Proof.
  intros H. destruct n as [|n]; [done|]. simpl.
  rewrite (bind_done _ _ _ None (at_ pre r)).
  - rewrite (bind_done _ _ _ None (at_ pre r)); [done|]. apply refuses_behind.
    intros r' E. by apply refuses_number, H.
  - destruct (Nat.ltb _ _); [|done]. apply refuses_behind. intros r' E. by apply refuses_ipv4, H.
Qed.

Lemma groups_step n limit i groups pre g r :
  (i < length groups)%nat -> 0 <= g < 65536 -> no_dot (Guid.lower_hex g ++ r) -> stops 16 r = true ->
  Ipv6.read_groups (S n) limit i groups (at_ pre (sep_at i ++ Guid.lower_hex g ++ r)) =
  Ipv6.read_groups n limit (S i) (<[i := g]> groups) (at_ (pre ++ sep_at i ++ Guid.lower_hex g) r).
Proof.
  intros Hi Hg Hd Hs. cbn [Ipv6.read_groups].
  rewrite (bind_done _ _ _ None (at_ pre (sep_at i ++ Guid.lower_hex g ++ r))).
  - rewrite app_assoc, (bind_done _ _ _ (Some g) (at_ (pre ++ sep_at i ++ Guid.lower_hex g) r)).
    + rewrite store_in, bind_lift by done. by rewrite wrap_small.
    + apply reads_behind. rewrite <- (GuidSpec.value_lower_hex g) at 2 by done.
      apply reads_number; try done. apply GuidSpec.lower_hex_numeral; [done|apply Hg].
  - destruct (Nat.ltb _ _); [|done]. apply refuses_behind. intros l' <-%app_inv_head.
    by apply refuses_ipv4.
Qed.

Lemma lower_hex_digits n : 0 <= n < 65536 -> Forall (fun c => is_digit 16 c = true) (Guid.lower_hex n).
Proof. intros Hn. by destruct (proj2 (GuidSpec.lower_hex_numeral n 65536 Hn) (proj2 Hn)) as (_ & H & _). Qed.

Lemma digits_no_dot ds : Forall (fun c => is_digit 16 c = true) ds -> dot ∉ ds.
Proof. intros HF Hin. rewrite Forall_forall in HF. by specialize (HF _ Hin). Qed.

Lemma hexes_no_dot gs : u16s gs -> dot ∉ seps colon (hexes gs).
Proof.
  intros HF. induction HF as [|g gs Hg _ IH]; [by apply not_elem_of_nil|].
  unfold seps. simpl. apply not_elem_of_cons. split; [done|]. apply not_elem_of_app.
  split; [by apply digits_no_dot, lower_hex_digits|done].
Qed.

Lemma groups_seps gs n limit i groups pre r :
  (0 < i)%nat -> (i + length gs <= length groups)%nat -> (length gs <= n)%nat -> u16s gs ->
  dot ∉ r -> stops 16 r = true -> (n = length gs \/ stops_groups (i + length gs) r) ->
  Ipv6.read_groups n limit i groups (at_ pre (seps colon (hexes gs) ++ r)) =
  Done ((take i groups ++ gs ++ skipn (i + length gs) groups, (i + length gs, false))%nat,
        at_ (pre ++ seps colon (hexes gs)) r).
Proof.
  intros Hi Hl Hn HF Hr Hs. revert i n groups pre Hi Hl Hn.
  induction HF as [|g gs Hg HF IH]; intros i n groups pre Hi Hl Hn Hend; simpl length in *.
  - unfold seps. simpl. rewrite !Nat.add_0_r, take_drop, app_nil_r in *.
    destruct Hend as [->|Hend]; [done|]. by apply groups_stop.
  - destruct n as [|n]; [lia|].
    assert (seps colon (hexes (g :: gs)) = sep_at i ++ Guid.lower_hex g ++ seps colon (hexes gs)) as E.
    { unfold sep_at. by destruct (Nat.eqb_spec i 0); [lia|]. }
    rewrite E, <- !app_assoc, groups_step; [|lia|done| |by apply stops_seps].
    + rewrite IH; [|lia|rewrite length_insert; lia|lia|].
      * rewrite <- !app_assoc, <- Nat.add_succ_comm.
        rewrite drop_insert_lt, (take_S_r _ _ g) by (lia || apply list_lookup_insert_eq; lia).
        by rewrite take_insert_ge, <- app_assoc by lia.
      * destruct Hend as [|Hend]; [left; lia|right]. by rewrite Nat.add_succ_comm.
    + apply no_dot_absent. rewrite !not_elem_of_app. split_and!; [|by apply hexes_no_dot|done].
      by apply digits_no_dot, lower_hex_digits.
Qed.

(** The groups from the start, as [fmt_subslice] prints them. *)
Lemma groups_join gs n limit groups pre r :
  (length gs <= length groups)%nat -> (length gs <= n)%nat -> u16s gs ->
  (gs <> [] -> (dot ∉ r) /\ stops 16 r = true) -> (n = length gs \/ stops_groups (length gs) r) ->
  Ipv6.read_groups n limit 0 groups (at_ pre (Guid.join colon (hexes gs) ++ r)) =
  Done ((gs ++ skipn (length gs) groups, (length gs, false))%nat,
        at_ (pre ++ Guid.join colon (hexes gs)) r).
Proof.
  intros Hl Hn HF Hr Hend. destruct HF as [|g gs Hg HF]; simpl length in *.
  - simpl. rewrite drop_0, app_nil_r. destruct Hend as [->|Hend]; [done|]. by apply groups_stop.
  - destruct (Hr ltac:(done)) as [Hd Hs]. destruct n as [|n]; [lia|]. simpl map. rewrite join_seps, <- !app_assoc.
    pose proof (groups_step n limit 0 groups pre g (seps colon (hexes gs) ++ r)) as Hstep.
    simpl sep_at in Hstep. simpl app in Hstep. rewrite Hstep; clear Hstep; [|lia|done| |by apply stops_seps].
    + rewrite groups_seps; try done; [|lia|rewrite length_insert; lia|lia|].
      * rewrite <- !app_assoc. do 3 f_equal. destruct groups as [|x groups]; [simpl in Hl; lia|]. done.
      * destruct Hend as [|Hend]; [left; lia|by right].
    + apply no_dot_absent. rewrite !not_elem_of_app. split_and!; [|by apply hexes_no_dot|done].
      by apply digits_no_dot, lower_hex_digits.
Qed.

Lemma join_no_dot gs : u16s gs -> dot ∉ Guid.join colon (hexes gs).
Proof.
  intros HF. destruct HF as [|g gs Hg HF]; [by apply not_elem_of_nil|].
  simpl map. rewrite join_seps. apply not_elem_of_app.
  split; [by apply digits_no_dot, lower_hex_digits|by apply hexes_no_dot].
Qed.

(** *** What follows an address: the end of the text or a bracket *)
Definition closes (r : list Z) : Prop :=
  (dot ∉ r) /\ stops 16 r = true /\ stops 10 r = true /\ head r <> Some colon.

Lemma closes_groups i r : closes r -> stops_groups i r.
Proof.
  intros (Hd & Hs & _ & Hc) r'. unfold sep_at. destruct (Nat.eqb i 0); simpl.
  - intros <-. split; [by apply no_dot_absent|done].
  - by intros ->.
Qed.

Lemma colons_stop i r : stops_groups i (colon :: colon :: r).
Proof.
  intros r'. unfold sep_at. destruct (Nat.eqb i 0); simpl; intros [= <-];
    (split; [by apply (no_dot_stops _ colon)|done]).
Qed.

(** Eight groups without a double colon. *)
Lemma reads_full gs ip r :
  length gs = 8%nat -> u16s gs -> Ipv6.of_groups gs = Done ip -> closes r ->
  reads Ipv6.read_ipv6_addr (Guid.join colon (hexes gs)) ip r.
Proof.
  intros Hl HF Hip (Hd & Hs & _). apply reads_atomically. intros pre.
  unfold Ipv6.read_ipv6_addr_impl. erewrite bind_done by (apply groups_join; rewrite ?Hl; auto).
  rewrite Hl. change (Nat.eqb 8 8) with true. cbv iota. rewrite drop_ge, app_nil_r by done. by rewrite Hip, bind_lift.
Qed.

(** The groups around a double colon. *)
Lemma reads_compressed hd tl ip r :
  (length hd + length tl < 8)%nat -> u16s hd -> u16s tl -> closes r ->
  Ipv6.of_groups (hd ++ replicate (8 - length hd - length tl) 0 ++ tl) = Done ip ->
  reads Ipv6.read_ipv6_addr
    (Guid.join colon (hexes hd) ++ [colon; colon] ++ Guid.join colon (hexes tl)) ip r.
Proof.
  intros Hl Hh Ht Hr Hip. apply reads_atomically. intros pre. rewrite <- !app_assoc.
  unfold Ipv6.read_ipv6_addr_impl. pose proof Hr as (Hd & Hs & _).
  assert (Hnd : dot ∉ [colon; colon] ++ Guid.join colon (hexes tl) ++ r).
  { rewrite !not_elem_of_app. split_and!; [by vm_compute; set_solver|by apply join_no_dot|done]. }
  rewrite (bind_done _ _ _ _ _ (groups_join hd 8 8 (replicate 8 0) pre _ ltac:(simpl; lia) ltac:(lia)
    Hh (fun _ => conj Hnd eq_refl) (or_intror (colons_stop _ _)))).
  destruct (Nat.eqb_spec (length hd) 8); [lia|]. cbn [app].
  rewrite bind_run, read_given_char_at, Z.eqb_refl. cbv beta iota.
  rewrite bind_run, read_given_char_at, Z.eqb_refl. cbv beta iota.
  destruct (Nat.ltb_spec 8 (length hd + 1)); [lia|]. cbv zeta.
  rewrite (bind_done _ _ _ _ _ (groups_join tl (8 - (length hd + 1)) _ (replicate 8 0) _ r
    ltac:(simpl; lia) ltac:(lia) Ht (fun _ => conj Hd Hs) (or_intror (closes_groups _ _ Hr)))).
  rewrite !take_app_length, from_head_tail, Hip, bind_lift by lia. by rewrite <- !app_assoc.
Qed.

(** An IPv4 address ends the groups. *)
Lemma groups_ipv4 n limit i groups pre a b c d r :
  (i < limit - 1)%nat -> (i + 1 < length groups)%nat -> wf4 (Ipv4.new a b c d) -> stops 10 r = true ->
  Ipv6.read_groups (S n) limit i groups (at_ pre (sep_at i ++ text (Ipv4.fmt (Ipv4.new a b c d)) ++ r)) =
  Done ((<[i + 1 := Guid.seg c d]> (<[i := Guid.seg a b]> groups), (i + 2, true))%nat,
        at_ (pre ++ sep_at i ++ text (Ipv4.fmt (Ipv4.new a b c d))) r).
Proof.
  intros Hi Hl Hwf Hr. cbn [Ipv6.read_groups]. destruct (Nat.ltb_spec i (limit - 1)); [|lia].
  rewrite app_assoc, (bind_done _ _ _ _ _ (reads_behind i _ _ _ _ (reads_ipv4 _ _ Hwf Hr) pre)).
  cbv beta iota zeta. rewrite store_in, bind_lift by lia.
  rewrite store_in, bind_lift by (rewrite length_insert; lia). done.
Qed.

(** The forms [::a.b.c.d] and [::ffff:a.b.c.d]. *)
Lemma reads_embedded (mapped : bool) a b c d r :
  wf4 (Ipv4.new a b c d) -> closes r ->
  reads Ipv6.read_ipv6_addr
    (([colon; colon] ++ (if mapped then [102; 102; 102; 102; colon] else [])) ++
     text (Ipv4.fmt (Ipv4.new a b c d)))
    (Ipv6.new 0 0 0 0 0 (if mapped then 0xffff else 0) (Guid.seg a b) (Guid.seg c d)) r.
Proof.
  intros Hwf Hr. apply reads_atomically. intros pre. rewrite <- !app_assoc.
  unfold Ipv6.read_ipv6_addr_impl. pose proof Hr as (_ & _ & Hs & _). cbn [app].
  rewrite (bind_done _ _ _ _ _ (groups_stop 8 8 0 (replicate 8 0) pre _ (colons_stop 0 _))).
  cbv beta iota. change (Nat.eqb 0 8) with false. cbv iota.
  do 2 (rewrite bind_run, read_given_char_at, Z.eqb_refl; cbv beta iota).
  change (Nat.ltb 8 (0 + 1)) with false. cbv iota zeta. change (8 - (0 + 1))%nat with 7%nat.
  destruct mapped; cbn [app].
  - pose proof (groups_step 6 7 0 (replicate 8 0) (((pre ++ [colon]) ++ [colon])) 65535
      (colon :: text (Ipv4.fmt (Ipv4.new a b c d)) ++ r) ltac:(simpl; lia) ltac:(lia)
      ltac:(by apply (no_dot_stops _ 102)) eq_refl) as E.
    pose proof (groups_ipv4 5 7 1 (<[0%nat := 65535]> (replicate 8 0))
      (((pre ++ [colon]) ++ [colon]) ++ sep_at 0 ++ Guid.lower_hex 65535) a b c d r
      ltac:(lia) ltac:(simpl; lia) Hwf Hs) as E'.
    erewrite bind_done; [|exact (eq_trans E E')]. simpl. by rewrite <- !app_assoc.
  - rewrite bind_run. pose proof (groups_ipv4 6 7 0 (replicate 8 0) ((pre ++ [colon]) ++ [colon]) a b c d r
      ltac:(lia) ltac:(simpl; lia) Hwf Hs) as E. cbn [sep_at app Nat.eqb] in E. rewrite E. simpl.
    by rewrite <- !app_assoc.
Qed.

(** *** The longest run of zeros *)
Definition zeros (segs : list Z) (at_ len : nat) : Prop :=
  forall i, (at_ <= i < at_ + len)%nat -> segs !! i = Some 0.

(** [find_zero_slice] so far: the best run, and the run that ends here. *)
Definition slice_inv (segs : list Z) (n : nat) (st : (nat * nat) * (nat * nat)) : Prop :=
  let '((la, ll), (ca, cl)) := st in
  (la + ll <= n)%nat /\ zeros segs la ll /\
  (cl <> O -> (ca + cl = n)%nat) /\ zeros segs ca cl /\
  (forall a k, (a + k = n)%nat -> zeros segs a k -> (k <= cl)%nat) /\
  (forall a k, (a + k <= n)%nat -> zeros segs a k -> (k <= ll)%nat).

Lemma slice_step segs n st s :
  segs !! n = Some s -> slice_inv segs n st -> slice_inv segs (S n) (Ipv6.zero_slice_step st n s).
Proof.
  destruct st as [[la ll] [ca cl]]. intros Hs (H1 & H2 & H3 & H4 & H5 & H6). unfold Ipv6.zero_slice_step.
  assert (H7 : forall a k, (a + k = S n)%nat -> zeros segs a k -> k = O \/ (s = 0 /\ (k <= S cl)%nat)).
  { intros a [|k] Hk Hz; [by left|right]. split; [specialize (Hz n ltac:(lia)); congruence|].
    pose proof (H5 a k ltac:(lia) ltac:(intros i Hi; apply Hz; lia)). lia. }
  assert (H8 : forall a k, (a + k <= S n)%nat -> zeros segs a k -> (k <= ll)%nat \/ (a + k = S n)%nat).
  { intros a k Hk Hz. destruct (Nat.eq_dec (a + k)%nat (S n)); [by right|left]. apply (H6 a); [lia|done]. }
  destruct (Z.eqb_spec s 0) as [->|Hne].
  - set (ca' := if Nat.eqb cl 0 then n else ca).
    assert (Hca : (ca' + S cl = S n)%nat /\ zeros segs ca' (S cl)).
    { unfold ca'. destruct (Nat.eqb_spec cl 0) as [->|Hc]; (split; [lia|]); intros i Hi.
      - by replace i with n by lia.
      - destruct (Nat.eq_dec i n) as [->|]; [done|]. apply H4. specialize (H3 Hc). lia. }
    destruct Hca as [Hc1 Hc2].
    destruct (Nat.ltb_spec ll (S cl)); unfold slice_inv; split_and!; try done; try lia;
      intros a k Hk Hz; pose proof (H7 a k); pose proof (H8 a k ltac:(lia) Hz); intuition lia.
  - unfold slice_inv. split_and!; try done; try lia; [intros i Hi; lia|..];
      intros a k Hk Hz; pose proof (H7 a k); pose proof (H8 a k ltac:(lia) Hz); intuition lia.
Qed.

Lemma slice_loop segs pre st :
  slice_inv (pre ++ segs) (length pre) st ->
  exists st', Ipv6.zero_slice_loop st (length pre) segs = fst st' /\
    slice_inv (pre ++ segs) (length (pre ++ segs)) st'.
Proof.
  revert pre st. induction segs as [|s segs IH]; intros pre st H; simpl.
  { exists st. by rewrite app_nil_r in *. }
  apply (slice_step _ _ _ s) in H; [|by rewrite lookup_app_r, Nat.sub_diag by lia].
  destruct (IH (pre ++ [s]) (Ipv6.zero_slice_step st (length pre) s)) as (st' & E & H').
  { rewrite <- app_assoc, length_app, Nat.add_comm. exact H. }
  rewrite length_app, Nat.add_comm in E. exists st'. split; [exact E|]. by rewrite <- app_assoc in H'.
Qed.

(** The slice found is a run of zeros, and no run is longer. *)
Lemma find_zero_slice_spec segs :
  let '(at_, len) := Ipv6.find_zero_slice segs in
  (at_ + len <= length segs)%nat /\ zeros segs at_ len /\
  forall a k, (a + k <= length segs)%nat -> zeros segs a k -> (k <= len)%nat.
Proof.
  destruct (slice_loop segs [] ((0, 0)%nat, (0, 0)%nat)) as ([[la ll] [ca cl]] & E & H).
  { split_and!; try done; try (intros i Hi; lia); intros a k Hk _; simpl in *; lia. }
  assert (Ipv6.find_zero_slice segs = (la, ll)) as -> by exact E.
  destruct H as (H1 & H2 & _ & _ & _ & H6). done.
Qed.

Lemma zeros_split segs at_ len :
  (at_ + len <= length segs)%nat -> zeros segs at_ len ->
  segs = take at_ segs ++ replicate len 0 ++ skipn (at_ + len) segs.
Proof.
  intros Hl Hz. rewrite <- (take_drop at_ segs) at 1. f_equal.
  rewrite <- (take_drop len (drop at_ segs)) at 1. rewrite drop_drop. f_equal.
  apply list_eq_same_length with len; [by rewrite length_replicate|rewrite length_take, length_drop; lia|].
  intros i x y Hi Hx Hy. apply lookup_replicate in Hy as [-> _].
  rewrite lookup_take_lt, lookup_drop, Hz in Hx by lia. congruence.
Qed.

(** *** Printed addresses *)
Definition wf6 (ip : Ipv6Addr) : Prop :=
  length (Ipv6.inner ip) = 16%nat /\ Forall (in_width 8) (Ipv6.inner ip).

Lemma segments_of_wf ip :
  wf6 ip -> length (Ipv6.segments ip) = 8%nat /\ u16s (Ipv6.segments ip) /\
  Ipv6.of_groups (Ipv6.segments ip) = Done ip.
Proof.
  destruct ip as [raw]. intros Hwf. simpl in Hwf. pose proof (GuidSpec.segments_length raw (proj1 Hwf)) as Hl.
  split_and!; [exact Hl|exact (GuidSpec.segments_bound raw Hwf)|].
  pose proof (GuidSpec.of_segments_segments raw Hwf) as E. unfold Guid.segments, Ipv6.segments in *. simpl in *.
  destruct (Guid.segs raw) as [|a [|b [|c [|d [|e [|f [|g [|h [|]]]]]]]]]; try done.
  simpl in *. f_equal. unfold Ipv6.new. f_equal. by injection E.
Qed.

Lemma fmt_subslice_join gs : text (Ipv6.fmt_subslice gs) = Guid.join colon (hexes gs).
Proof.
  destruct gs as [|g gs]; [done|]. simpl map. rewrite join_seps. unfold text. simpl. f_equal.
  induction gs as [|h gs IH]; [done|]. unfold seps in *. simpl. by rewrite IH.
Qed.

Lemma text_app p q : text (p ++ q) = text p ++ text q.
Proof. apply concat_app. Qed.

Lemma reads_general ip r :
  wf6 ip -> closes r -> reads Ipv6.read_ipv6_addr (text (Ipv6.fmt_general (Ipv6.segments ip))) ip r.
Proof.
  intros Hwf Hr. destruct (segments_of_wf ip Hwf) as (Hl & HF & Hip). unfold Ipv6.fmt_general.
  pose proof (find_zero_slice_spec (Ipv6.segments ip)) as H.
  destruct (Ipv6.find_zero_slice (Ipv6.segments ip)) as [za zl]. destruct H as (H1 & H2 & _).
  destruct (Nat.ltb_spec 1 zl).
  - rewrite !text_app, !fmt_subslice_join. apply reads_compressed; try done.
    + rewrite length_take, length_drop. lia.
    + by apply Forall_take.
    + by apply Forall_drop.
    + rewrite <- Hip. f_equal. rewrite length_take, length_drop.
      replace (8 - _ - _)%nat with zl by lia. symmetry. by apply zeros_split.
  - rewrite fmt_subslice_join. by apply reads_full.
Qed.

Lemma seg_split g : 0 <= g < 65536 -> Guid.seg (u8 (Z.shiftr g 8)) (u8 g) = g.
Proof.
  intros Hg. rewrite GuidSpec.seg_eq by (apply wrap_range; lia). unfold wrap.
  rewrite Z.shiftr_div_pow2 by lia. change (2 ^ 8) with 256.
  rewrite (Z.mod_small (g / 256)) by (split; [apply Z.div_pos|apply Z.div_lt_upper_bound]; lia).
  pose proof (Z.div_mod g 256). lia.
Qed.

Lemma octets_wf4 g h :
  wf4 (Ipv4.new (u8 (Z.shiftr g 8)) (u8 g) (u8 (Z.shiftr h 8)) (u8 h)).
Proof. apply new_wf4; by apply wrap_range. Qed.

Lemma reads_ipv6 ip r :
  wf6 ip -> closes r -> reads Ipv6.read_ipv6_addr (text (Ipv6.fmt ip)) ip r.
Proof.
  intros Hwf Hr. destruct (segments_of_wf ip Hwf) as (Hl & HF & Hip). unfold Ipv6.fmt.
  pose proof (reads_general ip r Hwf Hr) as Hgen.
  destruct (Ipv6.segments ip) as [|a [|b [|c [|d [|e [|f [|g [|h [|]]]]]]]]] eqn:E; try done.
  destruct (_ && (e =? 0)) eqn:Hz; [|exact Hgen].
  rewrite !andb_true_iff, !Z.eqb_eq in Hz. destruct Hz as ((((-> & ->) & ->) & ->) & ->).
  destruct (_ && (h =? 0)) eqn:Hz0.
  { rewrite !andb_true_iff, !Z.eqb_eq in Hz0. destruct Hz0 as ((-> & ->) & ->).
    apply (reads_compressed [] []); try done; simpl; lia. }
  destruct (_ && (h =? 1)) eqn:Hz1.
  { rewrite !andb_true_iff, !Z.eqb_eq in Hz1. destruct Hz1 as ((-> & ->) & ->).
    apply (reads_compressed [] [1]); try done; [simpl; lia|repeat constructor; lia]. }
  rewrite !Forall_cons in HF. destruct_and!.
  assert (Hnew : forall f, f = 0 \/ f = 65535 ->
    Ipv6.of_groups [0; 0; 0; 0; 0; f; g; h] =
    Done (Ipv6.new 0 0 0 0 0 f (Guid.seg (u8 (Z.shiftr g 8)) (u8 g)) (Guid.seg (u8 (Z.shiftr h 8)) (u8 h)))).
  { intros ? _. by rewrite !seg_split. }
  destruct (Z.eqb_spec f 0) as [->|].
  { rewrite Hnew in Hip by auto. injection Hip as <-.
    exact (reads_embedded false _ _ _ _ r (octets_wf4 g h) Hr). }
  destruct (Z.eqb_spec f 65535) as [->|]; [|exact Hgen].
  rewrite Hnew in Hip by auto. injection Hip as <-.
  exact (reads_embedded true _ _ _ _ r (octets_wf4 g h) Hr).
Qed.

(** ** Socket addresses *)
Lemma reads_port p r : in_width 16 p -> stops 10 r = true -> reads Sock.read_port (decimal p) p r.
Proof.
  intros Hp Hr. unfold in_width in Hp. unfold Sock.read_port.
  replace p with (u16 (value 10 (decimal p))) at 2.
  - apply (reads_map u16), reads_number; try done. apply (decimal_numeral 4); lia.
  - destruct (decimal_spec 4 p) as (-> & _); [lia|lia|]. by apply wrap_small.
Qed.

Definition wf_ip (ip : Ip.IpAddr) : Prop := Ip.on wf4 wf6 ip.
Definition wf_sock (s : Sock.SocketAddr) : Prop := wf_ip (Sock.ip s) /\ in_width 16 (Sock.port s).

Lemma reads_socket_v4 ip p :
  wf4 ip -> in_width 16 p ->
  reads Sock.read_socket_addr_v4 (text (Sock.fmt4 (Sock.mkSocketAddrV4 ip p))) (Sock.mkSocketAddrV4 ip p) [].
Proof.
  intros Hip Hp. unfold Sock.fmt4. rewrite text_app.
  apply (reads_map (fun '(ip, _, port) => Sock.mkSocketAddrV4 ip port) _ _ (ip, colon, p)).
  change (text [[colon]; ?x]) with ([colon] ++ x ++ []). rewrite app_nil_r.
  apply reads_seq_3; [by apply reads_ipv4|apply reads_given_char|by apply reads_port].
Qed.

Lemma reads_socket_v6 ip p f i :
  wf6 ip -> in_width 16 p ->
  reads Sock.read_socket_addr_v6 (text (Sock.fmt6 (Sock.mkSocketAddrV6 ip p f i)))
    (Sock.mkSocketAddrV6 ip p 0 0) [].
Proof.
  intros Hip Hp. unfold Sock.fmt6. rewrite !text_app. cbn [Sock.addr6 Sock.port6].
  apply (reads_map (fun '(ip, _, port) => Sock.mkSocketAddrV6 ip port 0 0) _ _ (ip, colon, p)).
  assert (text [[91]] ++ text (Ipv6.fmt ip) ++ text [[93; colon]; decimal p] =
    ([91] ++ text (Ipv6.fmt ip) ++ [93]) ++ [colon] ++ decimal p) as ->.
  { unfold text. simpl. by rewrite app_nil_r, <- app_assoc. }
  apply reads_seq_3; [|apply reads_given_char|by apply reads_port].
  apply (reads_map (fun '(_, ip, _) => ip) _ _ (91, ip, 93)).
  apply reads_seq_3; [apply reads_given_char| |apply reads_given_char].
  apply reads_ipv6; [done|]. split_and!; try done. rewrite app_nil_r. simpl.
  rewrite !not_elem_of_cons. split_and!; try done.
  intros Hin. destruct (decimal_spec 4 p) as (_ & HF & _); [unfold in_width in Hp; lia|lia|].
  rewrite Forall_forall in HF. by specialize (HF _ Hin).
Qed.

(** ** Whole texts *)
Lemma ends_seq_3 {A B C} (pa : P A) (pb : P B) (pc : P C) :
  ends pa any -> ends pb any -> ends pc any -> ends (read_seq_3 pa pb pc) any.
Proof.
  intros Ha Hb Hc. apply ends_atomically; [|done].
  apply (ends_bind _ _ any); [done|]. intros a _.
  apply (ends_bind _ _ any); [destruct a; [done|by apply ends_ret]|]. intros b _.
  apply (ends_bind _ _ any); [destruct b; [done|by apply ends_ret]|]. intros c _. by apply ends_ret.
Qed.

Lemma ends_map {A B} (f : A -> B) (m : P A) : ends m any -> ends (r ← m; mret (f <$> r)) any.
Proof. intros H. apply (ends_bind _ _ any); [done|]. intros a _. by apply ends_ret. Qed.

Lemma ends_port : ends Sock.read_port any.
Proof. apply ends_map. eapply ends_mono; [by apply ends_number|done]. Qed.

#[export] Hint Resolve ends_ipv4 ends_ipv6 ends_port ends_given_char ends_seq_3 ends_map : ends.

Lemma ends_socket_v4 : ends Sock.read_socket_addr_v4 any.
Proof. unfold Sock.read_socket_addr_v4. auto with ends. Qed.

Lemma ends_socket_v6 : ends Sock.read_socket_addr_v6 any.
Proof. unfold Sock.read_socket_addr_v6. cbv zeta. auto 6 with ends. Qed.

#[export] Hint Resolve ends_socket_v4 ends_socket_v6 : ends.

Lemma parse_total {A} (p : P A) str : ends p any -> exists r, FromStr.parse p str = Done r.
Proof.
  intros H. unfold FromStr.parse. destruct (parse_ends p any str H) as [[a|] ->]; by eexists.
Qed.

Lemma parse_either_total {A B C} (p : P A) (q : P B) (f : A -> C) g str :
  ends p any -> ends q any -> exists r, FromStr.parse_either p q f g str = Done r.
Proof.
  intros Hp Hq. unfold FromStr.parse_either. destruct (parse_ends p any str Hp) as [[a|] ->]; [by eexists|].
  destruct (parse_ends q any str Hq) as [[b|] ->]; by eexists.
Qed.

(** An IPv6 address is not an IPv4 address. *)
Lemma general_text_no_dot segs : u16s segs -> dot ∉ text (Ipv6.fmt_general segs).
Proof.
  intros HF. unfold Ipv6.fmt_general. destruct (Ipv6.find_zero_slice segs) as [za zl].
  destruct (Nat.ltb 1 zl); rewrite ?text_app, !fmt_subslice_join, ?not_elem_of_app; [|by apply join_no_dot].
  split_and!; [by apply join_no_dot, Forall_take|vm_compute; set_solver|by apply join_no_dot, Forall_drop].
Qed.

Lemma ipv6_text_no_ipv4 ip : wf6 ip -> no_dot (text (Ipv6.fmt ip)).
Proof.
  intros Hwf. destruct (segments_of_wf ip Hwf) as (_ & HF & _). unfold Ipv6.fmt.
  pose proof (no_dot_absent _ (general_text_no_dot _ HF)) as Hgen.
  case_match; [done|]. repeat (case_match; try done); by apply (no_dot_stops _ colon).
Qed.

Lemma ip_text ip : wf_ip ip -> FromStr.ip (text (Ip.fmt ip)) = Done (Ok ip).
Proof.
  unfold FromStr.ip, FromStr.parse_either. unfold wf_ip, Ip.fmt.
  destruct ip as [a|a]; cbn [Ip.on]; intros Hwf.
  - by rewrite (parse_reads _ _ _ (reads_ipv4 a [] Hwf eq_refl)).
  - rewrite (parse_refuses _ _ (refuses_ipv4 _ (ipv6_text_no_ipv4 a Hwf))).
    rewrite (parse_reads _ _ _ (reads_ipv6 a [] Hwf ltac:(split_and!; set_solver))). done.
Qed.

Lemma socket_text s :
  wf_sock s -> FromStr.socket (text (Sock.fmt s)) = Done (Ok (Sock.new (Sock.ip s) (Sock.port s))).
Proof.
  unfold FromStr.socket, FromStr.parse_either. destruct s as [[a p]|[a p f i]]; intros [Hip Hp]; cbn [Sock.fmt Sock.ip Sock.port Sock.addr4 Sock.port4 Sock.addr6 Sock.port6] in *.
  - by rewrite (parse_reads _ _ _ (reads_socket_v4 a p Hip Hp)).
  - rewrite (parse_refuses Sock.read_socket_addr_v4).
    + by rewrite (parse_reads _ _ _ (reads_socket_v6 a p f i Hip Hp)).
    + apply refuses_map, refuses_seq_3, refuses_ipv4. by apply (no_dot_stops _ 91).
Qed.

(** ** Serialization *)
Section serde.
Import Serde.

(** A text of ASCII characters, of at most [n] of them. *)
Definition fits (n : nat) (t : list Z) : Prop :=
  Forall (fun c => 0 <= c < 128) t /\ (length t <= n)%nat.

Lemma fits_app n m t u : fits n t -> fits m u -> fits (n + m) (t ++ u).
Proof. intros [] []. split; [by apply Forall_app|rewrite length_app; lia]. Qed.

Lemma fits_cons n c t : 0 <= c < 128 -> fits n t -> fits (S n) (c :: t).
Proof. intros ? []. split; [by constructor|simpl; lia]. Qed.

Lemma fits_le n m t : fits n t -> (n <= m)%nat -> fits m t.
Proof. intros [] ?. split; [done|lia]. Qed.

Lemma digit_ascii radix c : 10 <= radix <= 16 -> is_digit radix c = true -> 0 <= c < 128.
Proof. unfold is_digit, parse_digit. intros Hr H. case_match_all; simplify_eq; bool_to_Prop; lia. Qed.

Lemma digits_fit radix ds : 10 <= radix <= 16 -> Forall (fun c => is_digit radix c = true) ds -> fits (length ds) ds.
Proof. intros Hr H. split; [|done]. eapply Forall_impl; [exact H|]. intros c. by apply digit_ascii. Qed.

Lemma decimal_fits k n : 0 <= n < 10 ^ Z.of_nat (S k) -> (k <= 4)%nat -> fits (S k) (decimal n).
Proof.
  intros Hn Hk. destruct (decimal_spec k n Hn Hk) as (_ & Hd & Hl).
  eapply fits_le; [by apply (digits_fit 10)|lia].
Qed.

Lemma lower_hex_fits n : 0 <= n < 65536 -> fits 4 (Guid.lower_hex n).
Proof.
  intros Hn. destruct (proj2 (GuidSpec.lower_hex_numeral n 65536 Hn) (proj2 Hn)) as (Hl & Hd & _).
  eapply fits_le; [by apply (digits_fit 16)|lia].
Qed.

Lemma seps_fit gs : u16s gs -> fits (5 * length gs) (seps colon (hexes gs)).
Proof.
  intros HF. induction HF as [|g gs Hg _ IH]; [by split|].
  eapply fits_le; [apply (fits_app 5 (5 * length gs) (colon :: Guid.lower_hex g)); [|exact IH]|simpl; lia].
  apply fits_cons; [done|by apply lower_hex_fits].
Qed.

Lemma join_fits gs : u16s gs -> fits (5 * length gs - 1) (Guid.join colon (hexes gs)).
Proof.
  intros HF. destruct HF as [|g gs Hg HF]; [by split|]. simpl map. rewrite join_seps.
  eapply fits_le; [apply fits_app; [by apply lower_hex_fits|by apply seps_fit]|simpl; lia].
Qed.

Lemma ipv4_fits ip : wf4 ip -> fits 15 (text (Ipv4.fmt ip)).
Proof.
  intros (a & b & c & d & -> & Ha & Hb & Hc & Hd)%wf4_new. rewrite fmt4_join. simpl.
  assert (H3 : forall n, in_width 8 n -> fits 3 (decimal n)).
  { intros n Hn. apply (decimal_fits 2); [unfold in_width in Hn; simpl; lia|lia]. }
  do 3 (apply (fits_app 3); [by apply H3|apply fits_cons; [done|]]). by apply H3.
Qed.

Lemma general_fits segs : u16s segs -> length segs = 8%nat -> fits 39 (text (Ipv6.fmt_general segs)).
Proof.
  intros HF Hl. unfold Ipv6.fmt_general. pose proof (find_zero_slice_spec segs) as H.
  destruct (Ipv6.find_zero_slice segs) as [za zl]. destruct H as (H & _).
  destruct (Nat.ltb_spec 1 zl); rewrite ?text_app, !fmt_subslice_join.
  - eapply fits_le; [apply fits_app; [by apply join_fits, Forall_take|apply (fits_app 2)]|].
    + split; [by repeat constructor|simpl; lia].
    + by apply join_fits, Forall_drop.
    + rewrite length_take, length_drop. lia.
  - eapply fits_le; [by apply join_fits|lia].
Qed.

Lemma ipv6_fits ip : wf6 ip -> fits 39 (text (Ipv6.fmt ip)).
Proof.
  intros Hwf. destruct (segments_of_wf ip Hwf) as (Hl & HF & _). unfold Ipv6.fmt.
  pose proof (general_fits _ HF Hl) as Hgen.
  assert (Hemb : forall t g h, fits 7 t -> fits 39 (text (t :: Ipv6.fmt_octets g h))).
  { intros t g h Ht. eapply fits_le; [apply (fits_app 7 15); [done|by apply ipv4_fits, octets_wf4]|lia]. }
  repeat (case_match; try done); try apply Hemb; (split; [by repeat constructor|simpl; lia]).
Qed.

Lemma socket_fits s :
  wf_sock s -> fits (match s with Sock.V4 _ => 21 | Sock.V6 _ => 47 end) (text (Sock.fmt s)).
Proof.
  intros [Hip Hp]. assert (H5 : fits 5 (decimal (Sock.port s))).
  { apply (decimal_fits 4); [unfold in_width in Hp; simpl; lia|lia]. }
  destruct s as [[a p]|[a p f i]]; cbn [Sock.fmt Sock.ip Sock.port Sock.port4 Sock.port6] in *;
    unfold Sock.fmt4, Sock.fmt6; rewrite !text_app;
    cbn [Sock.addr4 Sock.port4 Sock.addr6 Sock.port6 text concat app] in *; rewrite app_nil_r.
  - apply (fits_app 15 6); [by apply ipv4_fits|by apply fits_cons].
  - apply fits_cons; [done|]. apply (fits_app 39 7); [by apply ipv6_fits|].
    apply fits_cons; [done|]. by apply fits_cons.
Qed.

(** The bounded writer takes a text that fits. *)
Lemma write_pieces_fits pieces t z :
  (length (text pieces) <= length z)%nat ->
  write_pieces pieces (mkWrapper (t ++ z) (length t)) =
  (true, mkWrapper (t ++ text pieces ++ skipn (length (text pieces)) z) (length (t ++ text pieces))).
Proof.
  revert t z. induction pieces as [|s pieces IH]; intros t z Hl; simpl.
  { by rewrite drop_0, app_nil_r. }
  unfold text in *. simpl in Hl. rewrite length_app in Hl. unfold write_str.
  cbn [buf Serde.offset]. rewrite !length_app. destruct (Nat.ltb_spec (length t + length z) (length t)); [lia|].
  rewrite Nat.min_l by lia. destruct (Nat.ltb_spec (length s) (length s)); [lia|]. cbn [negb].
  rewrite firstn_all, take_app_length, drop_app_add.
  specialize (IH (t ++ s) (skipn (length s) z)). rewrite length_app, <- app_assoc in IH.
  rewrite IH by (rewrite length_drop; lia). rewrite drop_drop, !length_app, <- !app_assoc.
  by rewrite Nat.add_assoc.
Qed.

Lemma serialize_text pieces max :
  fits max (text pieces) -> serialize_display_bounded_length pieces max = Ok [Str (text pieces)].
Proof.
  intros [Ha Hl]. unfold serialize_display_bounded_length.
  pose proof (write_pieces_fits pieces [] (replicate max 0)) as H.
  rewrite length_replicate in H. cbn [app length] in H. rewrite H by done. clear H. unfold as_str.
  cbn [buf Serde.offset]. rewrite length_app, length_drop, length_replicate.
  destruct (Nat.leb_spec (length (text pieces)) (length (text pieces) + (max - length (text pieces)))); [|lia].
  rewrite take_app_length, ascii_utf8; [done|]. eapply Forall_impl; [done|]. by intros c [].
Qed.

Lemma take_u8s_map l rest : take_u8s (length l) (map U8 l ++ TupleEnd :: rest) = Some (l, rest).
Proof. induction l as [|v l IH]; [done|]. simpl. by rewrite IH. Qed.

Lemma de_octets_tuple l rest : de_octets (length l) (octet_tuple l ++ rest) = Done (Ok (l, rest)).
Proof.
  unfold de_octets, octet_tuple. cbn [app]. rewrite Nat.eqb_refl, <- app_assoc. cbn [app].
  by rewrite take_u8s_map.
Qed.

End serde.

(** ** Documented address blocks *)
Section blocks.

(** The address [v] of [w] bits is in the block of prefix length [n] at [net]. *)
Definition in_block (w n net v : Z) : Prop := v / 2 ^ (w - n) = net / 2 ^ (w - n).

Definition block4 (a b c d n : Z) (ip : Ipv4Addr) : Prop :=
  in_block 32 n (Ipv4.to_u32 (Ipv4.new a b c d)) (Ipv4.to_u32 ip).

Lemma to_u32_new a b c d :
  Ipv4.to_u32 (Ipv4.new a b c d) = ((a * 256 + b) * 256 + c) * 256 + d.
Proof. unfold Ipv4.to_u32, unbe. simpl. lia. Qed.

Lemma land_high a : in_width 8 a -> Z.land a 0xF0 = a / 16 * 16.
Proof.
  intros Ha. change 0xF0 with (Z.ldiff (Z.ones 8) (Z.ones 4)).
  rewrite <- (Z.shiftl_mul_pow2 _ 4), <- (Z.shiftr_div_pow2 _ 4) by lia.
  rewrite <- Z.ldiff_ones_r by lia. apply Z.bits_inj'. intros k Hk.
  rewrite Z.land_spec, !Z.ldiff_spec.
  destruct (Z.ltb_spec k 8).
  - by rewrite (Z.ones_spec_low 8 k) by lia.
  - rewrite (Z.bits_above_log2 a k); [done|unfold in_width in Ha; lia|].
    destruct (Z.eq_dec a 0) as [->|]; [simpl; lia|]. apply Z.log2_lt_pow2; [unfold in_width in Ha; lia|].
    apply (Z.lt_le_trans _ (2 ^ 8)); [apply Ha|apply Z.pow_le_mono_r; lia].
Qed.

Lemma prefixes a b c d :
  in_width 8 a -> in_width 8 b -> in_width 8 c -> in_width 8 d ->
  let v := ((a * 256 + b) * 256 + c) * 256 + d in
  v / 2 ^ (32 - 4) = a / 16 /\ v / 2 ^ (32 - 8) = a /\ v / 2 ^ (32 - 12) = a * 16 + b / 16 /\
  v / 2 ^ (32 - 16) = a * 256 + b /\ v / 2 ^ (32 - 24) = (a * 256 + b) * 256 + c.
Proof. unfold in_width. intros. cbv zeta. simpl Z.pow. split_and!; Z.div_mod_to_equations; lia. Qed.

End blocks.

(** The predicates of IPv4 addresses are membership in the documented blocks. *)
Theorem ipv4_blocks (ip : Ipv4Addr) :
  wf4 ip ->
  (Ipv4.is_loopback ip = true <-> block4 127 0 0 0 8 ip) /\
  (Ipv4.is_private ip = true <->
     block4 10 0 0 0 8 ip \/ block4 172 16 0 0 12 ip \/ block4 192 168 0 0 16 ip) /\
  (Ipv4.is_link_local ip = true <-> block4 169 254 0 0 16 ip) /\
  (Ipv4.is_multicast ip = true <-> block4 224 0 0 0 4 ip) /\
  (Ipv4.is_documentation ip = true <->
     block4 192 0 2 0 24 ip \/ block4 198 51 100 0 24 ip \/ block4 203 0 113 0 24 ip).
Proof.
  intros (a & b & c & d & -> & Ha & Hb & Hc & Hd)%wf4_new.
  unfold Ipv4.is_loopback, Ipv4.is_private, Ipv4.is_link_local, Ipv4.is_multicast, Ipv4.is_documentation,
    block4, in_block, Ipv4.octet, nth_byte. rewrite !to_u32_new. cbn [Ipv4.inner Ipv4.new nth].
  rewrite land_high by done.
  destruct (prefixes a b c d Ha Hb Hc Hd) as (-> & -> & -> & -> & ->). unfold in_width in *.
  split_and!; simpl Z.div; rewrite ?orb_true_iff, ?andb_true_iff, ?Z.eqb_eq; try lia.
  all: repeat case_match; bool_to_Prop; Z.div_mod_to_equations; lia.
Qed.

(** ** Conversions *)
Lemma be_unbe l : Forall (in_width 8) l -> be (length l) (unbe l) = l.
Proof.
  intros HF. unfold be, unbe. rewrite <- length_rev, le_unle; [apply rev_involutive|].
  by apply Forall_rev.
Qed.

(** Numbers and the embeddings of IPv4 in IPv6 give the address back, and the
    comparisons with either family are the order of [IpAddr]. *)
Theorem ip_conversions (ip : Ipv4Addr) (ip6 : Ipv6Addr) (x : Ip.IpAddr) :
  wf4 ip -> wf6 ip6 ->
  Ipv4.of_u32 (Ipv4.to_u32 ip) = ip /\ Ipv6.of_u128 (Ipv6.to_u128 ip6) = ip6 /\
  Ipv6.to_ipv4 (Ipv6.to_ipv6_mapped ip) = Some ip /\
  Ipv6.to_ipv4 (Ipv6.to_ipv6_compatible ip) = Some ip /\
  Ip.partial_cmp_ip_v4 x ip = Some (Ip.cmp x (Ip.V4 ip)) /\
  Ip.partial_cmp_v4_ip ip x = Some (Ip.cmp (Ip.V4 ip) x) /\
  Ip.partial_cmp_ip_v6 x ip6 = Some (Ip.cmp x (Ip.V6 ip6)) /\
  Ip.partial_cmp_v6_ip ip6 x = Some (Ip.cmp (Ip.V6 ip6) x).
Proof.
  intros H4 [Hl6 HF6]. split_and!; try by destruct x.
  - destruct H4 as [Hl HF]. unfold Ipv4.of_u32, Ipv4.to_u32. rewrite <- Hl, be_unbe by done. by destruct ip.
  - unfold Ipv6.of_u128, Ipv6.to_u128. rewrite <- Hl6, be_unbe by done. by destruct ip6.
  - destruct (wf4_new ip H4) as (a & b & c & d & -> & Ha & Hb & Hc & Hd).
    unfold Ipv6.to_ipv4, Ipv6.to_ipv6_mapped, Ipv4.octet, nth_byte. simpl.
    destruct (GuidSpec.seg_bytes a b Ha Hb) as (-> & -> & _), (GuidSpec.seg_bytes c d Hc Hd) as (-> & -> & _).
    by destruct (GuidSpec.seg_bytes a b Ha Hb) as (-> & -> & _), (GuidSpec.seg_bytes c d Hc Hd) as (-> & -> & _).
  - destruct (wf4_new ip H4) as (a & b & c & d & -> & Ha & Hb & Hc & Hd).
    unfold Ipv6.to_ipv4, Ipv6.to_ipv6_compatible, Ipv4.octet, nth_byte. simpl.
    destruct (GuidSpec.seg_bytes a b Ha Hb) as (-> & -> & _), (GuidSpec.seg_bytes c d Hc Hd) as (-> & -> & _).
    by destruct (GuidSpec.seg_bytes a b Ha Hb) as (-> & -> & _), (GuidSpec.seg_bytes c d Hc Hd) as (-> & -> & _).
Qed.

(** ** The properties *)



