(* ===== verification/Channel.v ===== *)
(** * The channel of the benchmarks' runtime

    [Channel] of src/deps/r2/src/channel/mod.hh: a ring of entries with two counters,
    one that only the producer moves and one that only the consumer moves.  The two
    threads run interleaved, one access to the shared memory at a time; accesses are
    sequentially consistent, as on x86 with the fences of the code.

    A call of a thread goes through the program points of [producer] or [consumer];
    the blocking calls stay at the test while it fails. *)

From S2P Require Import Prelude.

#[local] Open Scope Z_scope.

Section channel.
Context {T : Type}.

Record Channel := mkChannel { head : Z; tail : Z; ring_buf : list T; max_entry_num : Z }.

(** [Channel(max_entry_num)]; [mem] is what the allocation held. *)
Definition create (mem : list T) : outcome Channel :=
  let max_entry_num := Z.of_nat (length mem) in
  if Z.land max_entry_num (u64 (max_entry_num - 1)) =? 0 then Done (mkChannel 0 0 mem max_entry_num) else Panic.

Definition size (c : Channel) : Z := u64 (head c - tail c).
Definition isEmpty (c : Channel) : bool := head c =? tail c.

Definition is_full (c : Channel) : bool := head c =? u64 (tail c + max_entry_num c).
Definition index (c : Channel) (i : Z) : nat := Z.to_nat (Z.land i (u64 (max_entry_num c - 1))).
Definition put (i : nat) (v : T) (c : Channel) : outcome Channel :=
  if (i <? length (ring_buf c))%nat then Done (mkChannel (head c) (tail c) (<[i := v]> (ring_buf c)) (max_entry_num c))
  else Panic.
Definition get (i : nat) (c : Channel) : outcome T :=
  match ring_buf c !! i with Some v => Done v | None => Panic end.
Definition add_head (c : Channel) : Channel := mkChannel (u64 (head c + 1)) (tail c) (ring_buf c) (max_entry_num c).
Definition add_tail (c : Channel) : Channel := mkChannel (head c) (u64 (tail c + 1)) (ring_buf c) (max_entry_num c).
Definition check_order (c : Channel) : bool := tail c <=? head c.

(** ** The threads *)

(** [enqueue] and [enqueue_blocking]: where the producer is. *)
Inductive producer :=
| PIdle
| PTest (blocking : bool) (value : T)
| PPut (value : T) (index : nat)
| PAdd (value : T).

(** [dequeue] and [dequeue_blocking]. *)
Inductive consumer :=
| CIdle
| CTest (blocking : bool)
| CGet (index : nat)
| CAdd (value : T).

(** What a call has returned. *)
Inductive event :=
| Sent (value : T)
| Refused
| Received (value : T)
| Empty.

(** The calls that are still to be made, and what the calls have returned so far. *)
Record state := mkState {
  chan : Channel; prod : producer; cons : consumer; puts : list (bool * T); gets : list bool; log : list event }.

Definition start (c : Channel) (ps : list (bool * T)) (gs : list bool) : state := mkState c PIdle CIdle ps gs [].

(** One step of the producer. *)
Definition pstep (s : state) : outcome state :=
  let c := chan s in
  match prod s with
  | PIdle =>
      match puts s with
      | [] => Done s
      | (b, v) :: ps =>
          if check_order c then Done (mkState c (PTest b v) (cons s) ps (gets s) (log s)) else Panic
      end
  | PTest b v =>
      if is_full c then
        if b then Done s else Done (mkState c PIdle (cons s) (puts s) (gets s) (log s ++ [Refused]))
      else Done (mkState c (PPut v (index c (head c))) (cons s) (puts s) (gets s) (log s))
  | PPut v i =>
      match put i v c with
      | Done c => Done (mkState c (PAdd v) (cons s) (puts s) (gets s) (log s))
      | Panic => Panic
      end
  | PAdd v => Done (mkState (add_head c) PIdle (cons s) (puts s) (gets s) (log s ++ [Sent v]))
  end.

(** One step of the consumer. *)
Definition cstep (s : state) : outcome state :=
  let c := chan s in
  match cons s with
  | CIdle =>
      match gets s with
      | [] => Done s
      | b :: gs =>
          if check_order c then Done (mkState c (prod s) (CTest b) (puts s) gs (log s)) else Panic
      end
  | CTest b =>
      if isEmpty c then
        if b then Done s else Done (mkState c (prod s) CIdle (puts s) (gets s) (log s ++ [Empty]))
      else Done (mkState c (prod s) (CGet (index c (tail c))) (puts s) (gets s) (log s))
  | CGet i =>
      match get i c with
      | Done v => Done (mkState c (prod s) (CAdd v) (puts s) (gets s) (log s))
      | Panic => Panic
      end
  | CAdd v => Done (mkState (add_tail c) (prod s) CIdle (puts s) (gets s) (log s ++ [Received v]))
  end.

(** A schedule chooses the thread of each step, [true] the producer. *)
Definition step (t : bool) : state -> outcome state := if t then pstep else cstep.
Fixpoint run (sched : list bool) (s : state) : outcome state :=
  match sched with
  | [] => Done s
  | t :: sched => match step t s with Done s => run sched s | Panic => Panic end
  end.

(** ** A bounded queue

    [legal max q log q']: the calls return what a queue of [max] values returns. *)
Inductive legal (max : Z) : list T -> list event -> list T -> Prop :=
| legal_nil q : legal max q [] q
| legal_sent q v l q' : Z.of_nat (length q) < max -> legal max (q ++ [v]) l q' -> legal max q (Sent v :: l) q'
| legal_refused q l q' : Z.of_nat (length q) = max -> legal max q l q' -> legal max q (Refused :: l) q'
| legal_received v q l q' : legal max q l q' -> legal max (v :: q) (Received v :: l) q'
| legal_empty l q' : legal max [] l q' -> legal max [] (Empty :: l) q'.

Lemma legal_app max q1 q2 q3 l1 l2 : legal max q1 l1 q2 -> legal max q2 l2 q3 -> legal max q1 (l1 ++ l2) q3.
Proof. intros H1 H2. induction H1; cbn; [done|constructor; auto..]. Qed.

(** ** The invariant *)

(** The entries from [a] on hold [q]. *)
Definition entries (c : Channel) (a : Z) (q : list T) : Prop :=
  forall i v, q !! i = Some v -> ring_buf c !! Z.to_nat ((a + Z.of_nat i) mod max_entry_num c) = Some v.

(** The entries between the counters hold the queue; a thread in the middle of a
    call has an entry of its own. *)
Record inv (max : Z) (q : list T) (s : state) : Prop := {
  i_max : max_entry_num (chan s) = max;
  i_len : Z.of_nat (length (ring_buf (chan s))) = max;
  i_tail : 0 <= tail (chan s);
  i_head : head (chan s) = tail (chan s) + Z.of_nat (length q);
  i_size : Z.of_nat (length q) <= max;
  i_entries : entries (chan s) (tail (chan s)) q;
  i_prod : match prod s with
           | PIdle | PTest _ _ => True
           | PPut _ i => Z.of_nat (length q) < max /\ i = Z.to_nat (head (chan s) mod max)
           | PAdd v => Z.of_nat (length q) < max /\
                       ring_buf (chan s) !! Z.to_nat (head (chan s) mod max) = Some v
           end;
  i_cons : match cons s with
           | CIdle | CTest _ => True
           | CGet i => q <> [] /\ i = Z.to_nat (tail (chan s) mod max)
           | CAdd v => List.head q = Some v
           end }.

(** The counters do not wrap in the calls to come. *)
Definition pending_put (s : state) : nat := match prod s with PIdle => 0%nat | _ => 1%nat end.
Definition room (max : Z) (s : state) : Prop :=
  head (chan s) + Z.of_nat (pending_put s + length (puts s)) + max < 2 ^ 64.

(** *** Sizes are powers of two *)
Lemma pow2_of_land m : 0 < m -> Z.land m (m - 1) = 0 -> m = 2 ^ Z.log2 m.
Proof.
  intros Hm Hl. destruct (Z.log2_spec m Hm) as [H1 H2]. set (l := Z.log2 m) in *.
  pose proof (Z.pow_pos_nonneg 2 l ltac:(lia) (Z.log2_nonneg m)).
  destruct (Z.eq_dec m (2 ^ l)) as [|Hne]; [done|]. exfalso.
  assert (Hb : Z.testbit (Z.land m (m - 1)) l = true).
  { rewrite Z.land_spec. unfold l. rewrite Z.bit_log2 by done.
    replace (Z.log2 m) with (Z.log2 (m - 1)) at 1; [by rewrite Z.bit_log2 by lia|].
    apply Z.log2_unique; [apply Z.log2_nonneg|]. fold l. lia. }
  rewrite Hl, Z.bits_0 in Hb. done.
Qed.

Lemma index_mod c i :
  0 < max_entry_num c < 2 ^ 64 -> max_entry_num c = 2 ^ Z.log2 (max_entry_num c) ->
  index c i = Z.to_nat (i mod max_entry_num c).
Proof.
  intros Hm Hp. unfold index. f_equal. rewrite wrap_small by (unfold in_width; lia).
  rewrite Hp at 1 2. rewrite <- Z.land_ones by apply Z.log2_nonneg. f_equal. rewrite Z.ones_equiv. lia.
Qed.

Lemma entries_apart max a i j :
  0 <= a -> 0 <= i < j -> j < i + max -> (a + i) mod max <> (a + j) mod max.
Proof.
  intros Ha Hi Hj E. assert (0 < max) by lia.
  assert (Hd : (j - i) mod max = 0).
  { replace (j - i) with ((a + j) - (a + i)) by lia. by rewrite Zminus_mod, E, Z.sub_diag, Zmod_0_l. }
  rewrite Z.mod_small in Hd by lia. lia.
Qed.

(** ** Every step is a step of the queue *)
Section steps.
Context (max : Z) (Hpos : 0 < max) (Hpow : max = 2 ^ Z.log2 max).

Definition simulated (q : list T) (s s' : state) : Prop :=
  exists l q', log s' = log s ++ l /\ legal max q l q' /\ inv max q' s' /\ room max s'.

Lemma simulated_quiet q s s' : log s' = log s -> inv max q s' -> room max s' -> simulated q s s'.
Proof. intros Hl Hi Hr. exists [], q. rewrite app_nil_r. split_and!; [done|constructor|done|done]. Qed.

Lemma entries_put c i v q :
  entries c (tail c) q -> Z.of_nat (length (ring_buf c)) = max -> max_entry_num c = max -> 0 <= tail c ->
  Z.of_nat (length q) < max -> i = Z.to_nat ((tail c + Z.of_nat (length q)) mod max) ->
  exists c', put i v c = Done c' /\ head c' = head c /\ tail c' = tail c /\ max_entry_num c' = max /\
    length (ring_buf c') = length (ring_buf c) /\ entries c' (tail c) q /\ ring_buf c' !! i = Some v.
Proof.
  intros He Hl Hm Ht Hq ->. pose proof (Z.mod_pos_bound (tail c + Z.of_nat (length q)) max Hpos) as Hb.
  unfold put. destruct (Nat.ltb_spec (Z.to_nat ((tail c + Z.of_nat (length q)) mod max)) (length (ring_buf c))); [|lia].
  eexists. split; [done|]. cbn. split_and!; [done|done|done|by rewrite length_insert| |by apply list_lookup_insert_eq].
  intros j x Hj. cbn. pose proof (lookup_lt_Some _ _ _ Hj). rewrite list_lookup_insert_ne; [by apply He|].
  rewrite Hm. pose proof (entries_apart max (tail c) (Z.of_nat j) (Z.of_nat (length q)) Ht ltac:(lia) ltac:(lia)).
  pose proof (Z.mod_pos_bound (tail c + Z.of_nat j) max Hpos). lia.
Qed.

Lemma pstep_simulated q s : inv max q s -> room max s -> exists s', pstep s = Done s' /\ simulated q s s'.
Proof.
  intros Hinv Hroom. pose proof Hinv as [Hm Hl Ht Hh Hs He Hp Hc]. unfold pstep.
  destruct s as [c p d ps gs lg]. cbn [chan prod cons puts gets log] in *. unfold room in Hroom. cbn in Hroom.
  destruct p as [|b v|v i|v]; cbn [pending_put prod] in Hroom.
  - destruct ps as [|[b v] ps]; [eexists; split; [done|by apply simulated_quiet]|].
    unfold check_order. destruct (Z.leb_spec (tail c) (head c)); [|lia].
    eexists. split; [done|]. apply simulated_quiet; [done|by destruct Hinv|]. unfold room. cbn in *. lia.
  - unfold is_full. rewrite Hm, wrap_small by (unfold in_width; lia).
    destruct (Z.eqb_spec (head c) (tail c + max)) as [E|E].
    + destruct b; [eexists; split; [done|by apply simulated_quiet]|]. eexists. split; [done|].
      exists [Refused], q. split_and!; [done|constructor; [lia|constructor]|by destruct Hinv|]. unfold room. cbn in *. lia.
    + eexists. split; [done|]. apply simulated_quiet; [done| |unfold room; cbn in *; lia].
      destruct Hinv. split; try done. cbn. split; [lia|]. rewrite index_mod by (rewrite ?Hm; done || lia). by rewrite Hm.
  - destruct Hp as [Hq ->]. rewrite Hh.
    destruct (entries_put c _ v q He Hl Hm Ht Hq eq_refl) as (c' & -> & E1 & E2 & E3 & E4 & E5 & E6).
    eexists. split; [done|]. apply simulated_quiet; [done| |unfold room; cbn in *; by rewrite E1].
    split; cbn; rewrite ?E1, ?E2, ?E3, ?E4, ?Hh; done.
  - destruct Hp as [Hq Hv]. eexists. split; [done|]. exists [Sent v], (q ++ [v]).
    cbn in Hroom. split_and!; [done|constructor; [lia|constructor]| |unfold room; cbn; rewrite wrap_small by (unfold in_width; lia); lia].
    split; cbn; rewrite ?length_app; cbn [length]; try done; try lia.
    + rewrite wrap_small by (unfold in_width; lia). lia.
    + intros i x Hx. destruct (decide (i = length q)) as [->|Hne].
      * rewrite list_lookup_middle in Hx by done. injection Hx as <-. cbn. by rewrite <- Hh, Hm.
      * apply lookup_app_Some in Hx as [Hx|[Hx1 Hx2]]; [by apply He|].
        apply lookup_lt_Some in Hx2. cbn in Hx2. lia.
    + destruct d as [| |j|x]; [done|done| |].
      * destruct Hc as [Hne ->]. split; [by destruct q|done].
      * by destruct q.
Qed.

Lemma cstep_simulated q s : inv max q s -> room max s -> exists s', cstep s = Done s' /\ simulated q s s'.
Proof.
  intros Hinv Hroom. pose proof Hinv as [Hm Hl Ht Hh Hs He Hp Hc]. unfold cstep.
  destruct s as [c p d ps gs lg]. cbn [chan prod cons puts gets log] in *. unfold room in Hroom. cbn in Hroom.
  destruct d as [|b|i|v].
  - destruct gs as [|b gs]; [eexists; split; [done|by apply simulated_quiet]|].
    unfold check_order. destruct (Z.leb_spec (tail c) (head c)); [|lia].
    eexists. split; [done|]. apply simulated_quiet; [done|by destruct Hinv|done].
  - unfold isEmpty. destruct (Z.eqb_spec (head c) (tail c)) as [E|E].
    + assert (q = []) as -> by (destruct q; [done|cbn in Hh; lia]).
      destruct b; [eexists; split; [done|by apply simulated_quiet]|]. eexists. split; [done|].
      exists [Empty], []. split_and!; [done|constructor; constructor|by destruct Hinv|done].
    + eexists. split; [done|]. apply simulated_quiet; [done| |done].
      destruct Hinv. split; try done. cbn. split; [destruct q; [cbn in Hh; lia|done]|].
      rewrite index_mod by (rewrite ?Hm; done || lia). by rewrite Hm.
  - destruct Hc as [Hne ->]. destruct q as [|v q]; [done|].
    pose proof (He 0%nat v eq_refl) as Hv. rewrite Z.add_0_r, Hm in Hv. unfold get. rewrite Hv.
    eexists. split; [done|]. apply simulated_quiet; [done|by destruct Hinv|done].
  - destruct q as [|x q]; [done|]. injection Hc as ->. eexists. split; [done|]. exists [Received v], q.
    cbn [length] in *. split_and!; [done|constructor; constructor| |done].
    split; cbn; try done; try (rewrite wrap_small by (unfold in_width; lia)); try lia.
    + intros i x Hx. specialize (He (S i) x Hx). cbn. rewrite <- He. do 3 f_equal. lia.
    + destruct p as [| |y j|y]; [done|done| |]; destruct Hp as [? ?]; split; done || lia.
Qed.

Lemma run_simulated sched q s :
  inv max q s -> room max s -> exists s', run sched s = Done s' /\ simulated q s s'.
Proof.
  revert q s. induction sched as [|t sched IH]; intros q s Hi Hr.
  { exists s. split; [done|]. by apply simulated_quiet. }
  assert (exists s1, step t s = Done s1 /\ simulated q s s1) as (s1 & E & l & q1 & Hl & Hq & Hi1 & Hr1).
  { destruct t; [by apply pstep_simulated|by apply cstep_simulated]. }
  destruct (IH q1 s1 Hi1 Hr1) as (s2 & E2 & l2 & q2 & Hl2 & Hq2 & Hi2 & Hr2).
  exists s2. cbn [run]. rewrite E. split; [done|]. exists (l ++ l2), q2. rewrite Hl2, Hl, app_assoc.
  split_and!; [done|by eapply legal_app|done|done].
Qed.

(** *** Blocking calls come to their end *)
Definition sent (l : list event) : list T := omap (fun e => match e with Sent v => Some v | _ => None end) l.
Definition received (l : list event) : list T := omap (fun e => match e with Received v => Some v | _ => None end) l.

Lemma legal_fifo q l q' : legal max q l q' -> q ++ sent l = received l ++ q'.
Proof.
  induction 1 as [q|q v l q' _ _ IH|q l q' _ _ IH|v q l q' _ IH|l q' _ IH]; cbn.
  - by rewrite app_nil_r.
  - rewrite <- app_assoc in IH. exact IH.
  - exact IH.
  - by f_equal.
  - exact IH.
Qed.

(** The values that are not sent yet, and the calls that have not received. *)
Definition unsent (s : state) : list T :=
  match prod s with PIdle => [] | PTest _ v | PPut v _ | PAdd v => [v] end ++ map snd (puts s).
Definition unreceived (s : state) : nat :=
  (match cons s with CIdle => 0 | _ => 1 end + length (gets s))%nat.

(** A run of blocking calls that send [vs] and receive as many values. *)
Record blocking (vs : list T) (s : state) : Prop := {
  b_sent : sent (log s) ++ unsent s = vs;
  b_received : (length (received (log s)) + unreceived s = length vs)%nat;
  b_puts : Forall (fun p => fst p = true) (puts s);
  b_prod : match prod s with PTest b _ => b = true | _ => True end;
  b_gets : Forall (fun b => b = true) (gets s);
  b_cons : match cons s with CTest b => b = true | _ => True end }.

Definition work (s : state) : nat :=
  (match prod s with PIdle => 0 | PTest _ _ => 3 | PPut _ _ => 2 | PAdd _ => 1 end + 4 * length (puts s) +
   match cons s with CIdle => 0 | CTest _ => 3 | CGet _ => 2 | CAdd _ => 1 end + 4 * length (gets s))%nat.

Lemma sent_log_app l1 l2 : sent (l1 ++ l2) = sent l1 ++ sent l2.
Proof. apply omap_app. Qed.
Lemma received_log_app l1 l2 : received (l1 ++ l2) = received l1 ++ received l2.
Proof. apply omap_app. Qed.

(** A step does some of the work, or it is a test that fails, or nothing is left. *)
Lemma pstep_blocking vs s s' :
  blocking vs s -> pstep s = Done s' ->
  blocking vs s' /\ ((work s' < work s)%nat \/ s' = s /\ (unsent s = [] \/ is_full (chan s) = true /\ unsent s <> [])).
Proof.
  intros [H1 H2 H3 H4 H5 H6] E. unfold pstep in E. destruct s as [c p d ps gs lg].
  cbn [chan prod cons puts gets log] in *. destruct p as [|b v|v i|v].
  - destruct ps as [|[b v] ps]; [injection E as <-; split; [done|right; split; [done|by left]]|].
    destruct (check_order c); [|done]. injection E as <-. apply Forall_cons in H3 as [Hb H3]. cbn in Hb.
    split; [done|]. left. unfold work. cbn. lia.
  - destruct (is_full c) eqn:Ef.
    + rewrite H4 in E. injection E as <-. split; [done|]. right. split; [by rewrite H4|]. right. split; done.
    + injection E as <-. split; [done|]. left. unfold work. cbn. lia.
  - destruct (put i v c); [|done]. injection E as <-. split; [done|]. left. unfold work. cbn. lia.
  - injection E as <-. split; [|left; unfold work; cbn; lia]. split; try done; cbn [log].
    + rewrite sent_log_app, <- app_assoc. exact H1.
    + by rewrite received_log_app, length_app, Nat.add_0_r.
Qed.

Lemma cstep_blocking vs s s' :
  blocking vs s -> cstep s = Done s' ->
  blocking vs s' /\
  ((work s' < work s)%nat \/ s' = s /\ (unreceived s = 0%nat \/ isEmpty (chan s) = true /\ unreceived s <> 0%nat)).
Proof.
  intros [H1 H2 H3 H4 H5 H6] E. unfold cstep in E. destruct s as [c p d ps gs lg].
  cbn [chan prod cons puts gets log] in *. destruct d as [|b|i|v].
  - destruct gs as [|b gs]; [injection E as <-; split; [done|right; split; [done|by left]]|].
    destruct (check_order c); [|done]. injection E as <-. apply Forall_cons in H5 as [Hb H5].
    split; [done|]. left. unfold work. cbn. lia.
  - destruct (isEmpty c) eqn:Ef.
    + rewrite H6 in E. injection E as <-. split; [done|]. right. split; [by rewrite H6|]. right. split; done.
    + injection E as <-. split; [done|]. left. unfold work. cbn. lia.
  - destruct (get i c); [|done]. injection E as <-. split; [done|]. left. unfold work. cbn. lia.
  - injection E as <-. split; [|left; unfold work; cbn; lia]. split; try done; cbn [log].
    + by rewrite sent_log_app, app_nil_r.
    + rewrite received_log_app, length_app. unfold unreceived in *. cbn in *. lia.
Qed.

(** Not both threads wait. *)
Lemma not_both_wait vs q s :
  inv max q s -> room max s -> sent (log s) = received (log s) ++ q -> blocking vs s ->
  pstep s = Done s -> cstep s = Done s -> unsent s = [] /\ unreceived s = 0%nat.
Proof.
  intros Hi Hr Hf Hb Hp Hc. pose proof Hb as [H1 H2 _ _ _ _].
  destruct (pstep_blocking vs s s Hb Hp) as [_ [?|[_ HP]]]; [lia|].
  destruct (cstep_blocking vs s s Hb Hc) as [_ [?|[_ HC]]]; [lia|].
  destruct Hi as [Hm _ Ht Hh Hs _ _ _].
  apply (f_equal length) in H1, Hf. rewrite length_app in H1, Hf.
  destruct HP as [HP|[HP HP']], HC as [HC|[HC HC']]; [done|..].
  - rewrite HP in H1. apply Z.eqb_eq in HC. cbn in H1. lia.
  - unfold is_full in HP. apply Z.eqb_eq in HP. rewrite Hm, wrap_small in HP by (unfold in_width, room in *; lia).
    destruct (unsent s); [done|]. cbn in H1. lia.
  - unfold is_full in HP. apply Z.eqb_eq in HP, HC. rewrite Hm, wrap_small in HP by (unfold in_width, room in *; lia). lia.
Qed.

Record going (vs : list T) (s : state) : Prop := {
  g_blocking : blocking vs s;
  g_room : room max s;
  g_queue : exists q, inv max q s /\ sent (log s) = received (log s) ++ q }.

Lemma step_going vs t s :
  going vs s -> exists s', step t s = Done s' /\ going vs s' /\ ((work s' < work s)%nat \/ s' = s).
Proof.
  intros [Hb Hr (q & Hi & Hf)].
  assert (exists s', step t s = Done s' /\ simulated q s s') as (s' & E & l & q' & Hl & Hq & Hi' & Hr').
  { destruct t; [by apply pstep_simulated|by apply cstep_simulated]. }
  assert (blocking vs s' /\ ((work s' < work s)%nat \/ s' = s)) as [Hb' Hw].
  { destruct t; [destruct (pstep_blocking vs s s' Hb E)|destruct (cstep_blocking vs s s' Hb E)]; naive_solver. }
  exists s'. split_and!; [done| |done]. split; [done|done|]. exists q'. split; [done|].
  apply legal_fifo in Hq. by rewrite Hl, sent_log_app, received_log_app, Hf, <- !app_assoc, Hq.
Qed.

Lemma run_going vs sched s :
  going vs s -> exists s', run sched s = Done s' /\ going vs s' /\
    ((work s' < work s)%nat \/ s' = s /\ Forall (fun t => step t s = Done s) sched).
Proof.
  revert s. induction sched as [|t sched IH]; intros s Hg; [exists s; split_and!; [done|done|by right]|].
  destruct (step_going vs t s Hg) as (s1 & E & Hg1 & Hw1). destruct (IH s1 Hg1) as (s2 & E2 & Hg2 & Hw2).
  exists s2. cbn [run]. rewrite E. split_and!; [done|done|].
  destruct Hw1 as [Hw1|Hw1], Hw2 as [Hw2|[Hw2 HF]]; subst; [left; lia|by left|by left|]. right. split; [done|by constructor].
Qed.

Lemma work_done s : unsent s = [] -> unreceived s = 0%nat -> work s = 0%nat.
Proof.
  unfold unsent, unreceived, work. destruct (prod s), (cons s), (puts s), (gets s); cbn; done || lia.
Qed.

(** A round: both threads take a step in it. *)
Definition round (r : list bool) : Prop := true ∈ r /\ false ∈ r.

Lemma rounds_end vs rounds s :
  going vs s -> Forall round rounds -> (work s <= length rounds)%nat ->
  exists s', run (concat rounds) s = Done s' /\ going vs s' /\ work s' = 0%nat.
Proof.
  intros Hg HF. revert s Hg. induction HF as [|r rounds [Ht Hf] HF IH]; intros s Hg Hw.
  { exists s. split_and!; [done|done|cbn in Hw; lia]. }
  destruct (run_going vs r s Hg) as (s1 & E & Hg1 & Hc).
  assert (Happ : run (concat (r :: rounds)) s = run (concat rounds) s1).
  { cbn [concat]. clear -E. revert s E. induction r as [|t r IH]; intros s E; [by injection E as ->|].
    cbn [run app] in *. destruct (step t s); [by apply IH|done]. }
  rewrite Happ. apply IH; [done|]. cbn in Hw. destruct Hc as [Hc|[-> Hall]]; [lia|].
  rewrite Forall_forall in Hall. destruct Hg as [Hb Hr (q & Hi & Hq)].
  destruct (not_both_wait vs q s Hi Hr Hq Hb (Hall true Ht) (Hall false Hf)) as [H1 H2].
  rewrite work_done by done. lia.
Qed.
End steps.
End channel.
Arguments Channel T : clear implicits.
Arguments state T : clear implicits.
Arguments event T : clear implicits.

Lemma create_inv {T} (mem : list T) c :
  create mem = Done c -> mem <> [] -> Z.of_nat (length mem) < 2 ^ 64 ->
  let max := Z.of_nat (length mem) in
  0 < max /\ max = 2 ^ Z.log2 max /\ head c = 0 /\ forall ps gs, inv max [] (start c ps gs).
Proof.
  intros E Hne Hl max. assert (0 < max) by (destruct mem; [done|unfold max; cbn; lia]). unfold create in E. fold max in E.
  rewrite wrap_small in E by (unfold in_width; lia). destruct (Z.eqb_spec (Z.land max (max - 1)) 0) as [Ez|]; [|done].
  injection E as <-. split_and!; [done|by apply pow2_of_land|done|]. intros ps gs. split; try done.
  cbn. lia.
Qed.

(** C10. The channel is a bounded first-in first-out queue between two threads: in
    every interleaving of the producer's calls with the consumer's, no assertion
    fails and no entry outside of the ring is used, and the calls return, in the
    order in which they return, what a queue of [max_entry_num] values returns; what
    was received is what was sent, in order, up to what the queue still holds. *)
Theorem channel_linearizable {T} (mem : list T) (c : Channel T) (ps : list (bool * T)) (gs sched : list bool) :
  create mem = Done c -> mem <> [] -> Z.of_nat (length ps + length mem) < 2 ^ 64 ->
  exists s q, run sched (start c ps gs) = Done s /\ legal (Z.of_nat (length mem)) [] (log s) q /\
    sent (log s) = received (log s) ++ q.
Proof.
  intros Hc Hne Hb. destruct (create_inv mem c Hc Hne ltac:(lia)) as (H1 & H2 & H3 & Hi).
  destruct (run_simulated _ H1 H2 sched [] (start c ps gs) (Hi ps gs)) as (s & E & l & q & Hl & Hq & _).
  { unfold room. cbn. rewrite H3. lia. }
  exists s, q. cbn in Hl. subst l. split_and!; [done|done|]. exact (legal_fifo (Z.of_nat (length mem)) [] (log s) q Hq).
Qed.

(** Blocking calls transfer everything: when the producer sends [vs] and the
    consumer receives as many values, then after enough rounds, in each of which both
    threads take a step in whatever order, all calls have returned and [vs] was
    received. *)
Theorem channel_transfers {T} (mem : list T) (c : Channel T) (vs : list T) (rounds : list (list bool)) :
  create mem = Done c -> mem <> [] -> Z.of_nat (length vs + length mem) < 2 ^ 64 ->
  Forall round rounds -> (8 * length vs <= length rounds)%nat ->
  exists s, run (concat rounds) (start c (pair true <$> vs) (replicate (length vs) true)) = Done s /\
    received (log s) = vs /\ puts s = [] /\ gets s = [] /\ prod s = PIdle /\ cons s = CIdle.
Proof.
  intros Hc Hne Hb HF Hr. destruct (create_inv mem c Hc Hne ltac:(lia)) as (H1 & H2 & H3 & Hi).
  set (s0 := start c (pair true <$> vs) (replicate (length vs) true)).
  assert (Hg : going (Z.of_nat (length mem)) vs s0).
  { split.
    - split; try done; cbn.
      + rewrite <- list_fmap_compose. apply list_fmap_id.
      + by rewrite length_replicate.
      + by apply Forall_fmap, Forall_true.
      + by apply Forall_replicate.
    - unfold room. cbn. rewrite H3, length_fmap. lia.
    - exists []. by split; [apply Hi|]. }
  destruct (rounds_end _ H1 H2 vs rounds s0 Hg HF) as (s & E & [Hb' _ (q & _ & Hf)] & Hw).
  { unfold work. cbn. rewrite length_fmap, length_replicate. lia. }
  exists s. destruct Hb' as [B1 B2 _ _ _ _]. unfold unsent, unreceived, work in *.
  destruct (prod s), (cons s), (puts s), (gets s); cbn in Hw; try lia. split_and!; try done.
  cbn in B1, B2. rewrite app_nil_r in B1. rewrite Nat.add_0_r, <- B1 in B2. rewrite Hf, length_app in B2.
  destruct q; [|cbn in B2; lia]. by rewrite app_nil_r, B1 in Hf.
Qed.

Lemma channel_linearizable_witness :
  exists c s q, create [0; 0] = Done c /\
    run [true; false; true; true; false; true; false; true; true; false; false] (start c [(true, 7); (false, 8)] [false; true]) = Done s /\
    legal 2 [] (log s) q /\ sent (log s) = received (log s) ++ q.
Proof.
  destruct (create [0; 0]) as [c|] eqn:E; [|done].
  destruct (channel_linearizable [0; 0] c [(true, 7); (false, 8)] [false; true]
    [true; false; true; true; false; true; false; true; true; false; false] E) as (s & q & H); [done|done|].
  by exists c, s, q.
Defined.

Lemma channel_transfers_witness :
  exists c s, create [0] = Done c /\
    run (concat (replicate 24 [false; true])) (start c [(true, 7); (true, 8); (true, 9)] [true; true; true]) = Done s /\
    received (log s) = [7; 8; 9].
Proof.
  destruct (create [0]) as [c|] eqn:E; [|done].
  destruct (channel_transfers [0] c [7; 8; 9] (replicate 24 [false; true]) E) as (s & H1 & H2 & _); [done|done| |cbn; lia|].
  - apply Forall_replicate. split; [by right; left|by left].
  - by exists c, s.
Defined.
