(* ===== verification/CoSched.v ===== *)
(** * The coroutine scheduler of the benchmarks' runtime

    [LinkedList] of src/deps/r2/src/linked_list.hh, a chain of nodes behind pointers,
    and [SScheduler] of sshed.hh and sshed.cc, which keeps the runnable coroutines in
    such a chain.  A coroutine calls the scheduler and control passes to the
    coroutine at [cur_routine_ptr]; coroutine 0 polls the futures.

    The memory is a map from addresses to nodes; a null pointer is [None], and an
    access through it, or to a node that was deleted, is a fault, as is an assertion
    that does not hold.  What a future answers when it is polled, and the address of
    a new node, are parameters. *)

From S2P Require Import Prelude.

#[local] Open Scope Z_scope.

(** ** Nodes *)
Module LinkedList.

Record Routine := mkRoutine { id : Z; ok : bool; active : bool }.
Record node := mkNode { prev_p : option Z; next_p : option Z; val : Routine }.
Abbreviation heap := (gmap Z node).

Record chain := mkChain { nodes : heap; header_p : option Z; tailer_p : option Z }.

Abbreviation L := (M chain).

Definition with_prev x n := mkNode x (next_p n) (val n).
Definition with_next x n := mkNode (prev_p n) x (val n).
Definition on_node (f : node -> node) (p : Z) (c : chain) : chain :=
  mkChain (alter f p (nodes c)) (header_p c) (tailer_p c).

Definition deref (p : Z) : L node := c ← gets Datatypes.id; unwrap (nodes c !! p).
Definition modify (f : chain -> chain) : L unit := fun c => Done ((), f c).
Definition set_prev (p : Z) (x : option Z) : L unit := _ ← deref p; modify (on_node (with_prev x) p).
Definition set_next (p : Z) (x : option Z) : L unit := _ ← deref p; modify (on_node (with_next x) p).
Definition assert (b : bool) : L unit := if b then mret () else panic.

Definition set_header x (c : chain) := mkChain (nodes c) x (tailer_p c).
Definition set_tailer x (c : chain) := mkChain (nodes c) (header_p c) x.

Definition null (c : chain) : bool := bool_decide (header_p c = None).

Definition add (n : Z) : L Z :=
  c ← gets Datatypes.id;
  prev ← (if null c then _ ← modify (fun c => set_tailer (Some n) (set_header (Some n) c)); mret (Some n)
          else
            tailer ← unwrap (tailer_p c);
            t ← deref tailer;
            _ ← assert (bool_decide (next_p t = header_p c));
            mret (tailer_p c));
  c ← gets Datatypes.id;
  tailer ← unwrap (tailer_p c);
  _ ← set_next tailer (Some n);
  _ ← modify (set_tailer (Some n));
  _ ← set_prev n prev;
  c ← gets Datatypes.id;
  _ ← set_next n (header_p c);
  mret n.

Definition leave_one (n : Z) : L (option Z) :=
  nd ← deref n;
  let next := next_p nd in
  prev ← unwrap (prev_p nd);
  _ ← set_next prev next;
  nd ← deref n;
  nx ← unwrap (next_p nd);
  _ ← set_prev nx (prev_p nd);
  c ← gets Datatypes.id;
  nd ← deref n;
  _ ← (if bool_decide (tailer_p c = Some n) then modify (set_tailer (prev_p nd)) else mret ());
  _ ← set_prev n None;
  _ ← set_next n None;
  mret next.

Definition peek : L (option Z) :=
  c ← gets Datatypes.id;
  match header_p c with
  | None => mret None
  | Some h =>
      nd ← deref h;
      _ ← (if bool_decide (next_p nd = Some h) then modify (set_header None) else modify (set_header (next_p nd)));
      mret (Some h)
  end.

(** ** Circular chains

    [path h p l e]: from [p] the next pointers lead through [l] to [e], and the
    previous pointers of [l] lead back. *)
Definition nextof (h : heap) (p : Z) : option Z := h !! p ≫= next_p.
Definition prevof (h : heap) (p : Z) : option Z := h !! p ≫= prev_p.

Fixpoint path (h : heap) (p : Z) (l : list Z) (e : Z) : Prop :=
  match l with
  | [] => nextof h p = Some e
  | q :: l => nextof h p = Some q /\ prevof h q = Some p /\ path h q l e
  end.

(** The chain holds the nodes [p :: l] in a circle.  The previous pointer of the
    header is the last node only after a node has left, or when the header is alone. *)
Record ring (c : chain) (p : Z) (l : list Z) : Prop := {
  r_header : header_p c = Some p;
  r_tailer : tailer_p c = last (p :: l);
  r_path : path (nodes c) p l p;
  r_alone : l = [] -> prevof (nodes c) p = Some p;
  r_nodup : NoDup (p :: l) }.

Lemma nextof_some h p x : nextof h p = Some x -> is_Some (h !! p).
Proof. unfold nextof. destruct (h !! p); done. Qed.

Lemma nextof_alter h f p q :
  nextof (alter f p h) q = if decide (p = q) then h !! p ≫= next_p ∘ f else nextof h q.
Proof.
  unfold nextof. case_decide as E; [subst; rewrite lookup_alter_eq; by destruct (h !! q)|by rewrite lookup_alter_ne].
Qed.
Lemma prevof_alter h f p q :
  prevof (alter f p h) q = if decide (p = q) then h !! p ≫= prev_p ∘ f else prevof h q.
Proof.
  unfold prevof. case_decide as E; [subst; rewrite lookup_alter_eq; by destruct (h !! q)|by rewrite lookup_alter_ne].
Qed.

Lemma nextof_set h p x q : is_Some (h !! p) -> nextof (alter (with_next x) p h) q = if decide (p = q) then x else nextof h q.
Proof. intros [n E]. rewrite nextof_alter. case_decide; [by rewrite E|done]. Qed.
Lemma prevof_set h p x q : is_Some (h !! p) -> prevof (alter (with_prev x) p h) q = if decide (p = q) then x else prevof h q.
Proof. intros [n E]. rewrite prevof_alter. case_decide; [by rewrite E|done]. Qed.
Lemma nextof_set_prev h p x q : nextof (alter (with_prev x) p h) q = nextof h q.
Proof. rewrite nextof_alter. case_decide; [subst|done]. unfold nextof. by destruct (h !! q). Qed.
Lemma prevof_set_next h p x q : prevof (alter (with_next x) p h) q = prevof h q.
Proof. rewrite prevof_alter. case_decide; [subst|done]. unfold prevof. by destruct (h !! q). Qed.

(** Only the pointers of the path matter. *)
Lemma path_frame h h' p l e :
  (forall x, x ∈ p :: l -> nextof h' x = nextof h x) -> (forall x, x ∈ l -> prevof h' x = prevof h x) ->
  path h p l e -> path h' p l e.
Proof.
  revert p. induction l as [|q l IH]; intros p Hn Hp; cbn [path]; [by rewrite Hn by set_solver|].
  intros (H1 & H2 & H3). rewrite Hn, Hp by set_solver. split_and!; [done|done|]. apply IH; [set_solver..|done].
Qed.

(** A path splits at a node. *)
Lemma path_app h p l1 q l2 e :
  path h p (l1 ++ q :: l2) e <-> path h p l1 q /\ prevof h q = last (p :: l1) /\ path h q l2 e.
Proof.
  revert p. induction l1 as [|r l1 IH]; intros p; cbn [path app].
  - cbn. naive_solver.
  - rewrite IH. change (last (p :: r :: l1)) with (last (r :: l1)). naive_solver.
Qed.

(** The last node of a path gets another successor. *)
Lemma path_retarget h p l e a e' :
  NoDup (p :: l) -> last (p :: l) = Some a -> path h p l e -> path (alter (with_next (Some e')) a h) p l e'.
Proof.
  revert p. induction l as [|q l IH]; intros p Hd Ha; cbn [path].
  - injection Ha as <-. intros H. rewrite nextof_set by by eapply nextof_some. by rewrite decide_True.
  - intros (H1 & H2 & H3). apply NoDup_cons in Hd as [Hp Hd].
    assert (a ∈ q :: l) by by apply last_Some_elem_of.
    rewrite nextof_alter, decide_False by set_solver. rewrite prevof_set_next. split_and!; [done|done|]. by apply IH.
Qed.

(** ** Operations on a circular chain *)

(** The values of the nodes stay, and no node comes or goes. *)
Definition same_vals (h h' : heap) : Prop := forall q, val <$> h' !! q = val <$> h !! q.

#[export] Instance same_vals_preorder : PreOrder same_vals.
Proof. split; [done|]. intros a b c H1 H2 q. by rewrite H2. Qed.

Lemma same_vals_some h h' p : same_vals h h' -> is_Some (h !! p) -> is_Some (h' !! p).
Proof. intros H [n E]. specialize (H p). rewrite E in H. destruct (h' !! p); [by eexists|done]. Qed.

Lemma alter_vals f p h h' : (forall n, val (f n) = val n) -> same_vals h h' -> same_vals h (alter f p h').
Proof.
  intros Hf Hs q. rewrite <- Hs. destruct (decide (p = q)) as [->|]; [|by rewrite lookup_alter_ne].
  rewrite lookup_alter_eq. destruct (h' !! q); cbn; [by rewrite Hf|done].
Qed.

(** A node that is there stays there. *)
Ltac is_node := cbn [nodes on_node set_tailer set_header]; rewrite ?lookup_alter_is_Some; done.

Lemma wp_modify f c (Q : unit -> chain -> Prop) : Q () (f c) -> wp (modify f) c Q.
Proof. done. Qed.
Lemma wp_deref p c n (Q : node -> chain -> Prop) : nodes c !! p = Some n -> Q n c -> wp (deref p) c Q.
Proof. intros E HQ. unfold deref. wsteps. unfold Datatypes.id. rewrite E. by wsteps. Qed.
Lemma wp_set_next p x c (Q : unit -> chain -> Prop) :
  is_Some (nodes c !! p) -> Q () (on_node (with_next x) p c) -> wp (set_next p x) c Q.
Proof. intros [n E] HQ. apply wp_bind. by eapply wp_deref. Qed.
Lemma wp_set_prev p x c (Q : unit -> chain -> Prop) :
  is_Some (nodes c !! p) -> Q () (on_node (with_prev x) p c) -> wp (set_prev p x) c Q.
Proof. intros [n E] HQ. apply wp_bind. by eapply wp_deref. Qed.

Lemma path_last h p l e a : path h p l e -> last (p :: l) = Some a -> nextof h a = Some e.
Proof.
  revert p. induction l as [|q l IH]; intros p; cbn [path]; [by intros ? [= <-]|].
  intros (_ & _ & H) Ha. by eapply IH.
Qed.
Lemma path_some h p l e x : path h p l e -> x ∈ p :: l -> is_Some (h !! x).
Proof.
  revert p. induction l as [|q l IH]; intros p; cbn [path].
  - intros H Hx%list_elem_of_singleton. subst. by eapply nextof_some.
  - intros (H1 & _ & H) [->|Hx]%elem_of_cons; [by eapply nextof_some|by eapply IH].
Qed.

Lemma add_first c n :
  header_p c = None -> is_Some (nodes c !! n) ->
  wp (add n) c (fun r c' => r = n /\ ring c' n [] /\ same_vals (nodes c) (nodes c')).
Proof.
  intros Hh Hn. unfold add, null. wsteps. rewrite bool_decide_eq_true_2 by done. wsteps. apply wp_modify. wsteps. cbn.
  wsteps. apply wp_set_next; [done|]. apply wp_bind, wp_modify, wp_bind, wp_set_prev; [is_node|].
  wsteps. apply wp_set_next; [is_node|]. wsteps. split; [done|]. split.
  - split; cbn; [done|done| | |apply NoDup_singleton].
    + rewrite nextof_set, decide_True by (done || is_node). done.
    + intros _. rewrite prevof_set_next, prevof_set, decide_True by (done || is_node). done.
  - by repeat apply alter_vals.
Qed.

Lemma add_wp c p l n :
  ring c p l -> n ∉ p :: l -> is_Some (nodes c !! n) ->
  wp (add n) c (fun r c' => r = n /\ ring c' p (l ++ [n]) /\ same_vals (nodes c) (nodes c')).
Proof.
  intros [Hh Ht Hp _ Hd] Hnot Hn. destruct (last (p :: l)) as [a|] eqn:Ha; [|by apply last_None in Ha].
  assert (Hna : n <> a) by (intros ->; apply Hnot; by apply last_Some_elem_of).
  pose proof (path_last _ _ _ _ _ Hp Ha) as Hnext. pose proof (nextof_some _ _ _ Hnext) as [na Ena].
  unfold nextof in Hnext. rewrite Ena in Hnext. cbn in Hnext.
  unfold add, null. wsteps. rewrite bool_decide_eq_false_2 by (unfold Datatypes.id; by rewrite Hh).
  unfold Datatypes.id. rewrite Ht. wsteps. eapply wp_deref; [done|]. rewrite Hh. unfold assert.
  rewrite bool_decide_eq_true_2 by done. wsteps. rewrite Ht. wsteps. apply wp_set_next; [by eexists|].
  apply wp_bind, wp_modify, wp_bind, wp_set_prev; [is_node|]. wsteps. apply wp_set_next; [is_node|]. wsteps.
  split; [done|]. cbn. rewrite Hh. split; [|by repeat apply alter_vals].
  split; cbn; [done|by rewrite app_comm_cons, last_snoc| |by intros [? ?]%app_nil|].
  - apply path_app. split_and!.
    + eapply path_frame; [| |by eapply path_retarget].
      * intros x Hx. by rewrite nextof_alter, decide_False, nextof_set_prev by set_solver.
      * intros x Hx. by rewrite prevof_set_next, prevof_alter, decide_False by set_solver.
    + rewrite prevof_set_next, prevof_set, decide_True by (done || is_node). done.
    + cbn. rewrite nextof_set, decide_True by (done || is_node). done.
  - rewrite app_comm_cons. apply NoDup_app. split_and!; [done|set_solver|apply NoDup_singleton].
Qed.

(** The node behind [n] in the circle [p :: l1 ++ n :: l2]. *)
Definition succ_of (p : Z) (l2 : list Z) : Z := hd p l2.

Lemma path_next h n l2 p : path h n l2 p -> nextof h n = Some (succ_of p l2).
Proof. destruct l2; cbn; naive_solver. Qed.

(** The memory when [n] has left: its neighbours point to each other. *)
Definition left (a n b : Z) (h : heap) : heap :=
  alter (with_next None) n (alter (with_prev None) n (alter (with_prev (Some a)) b (alter (with_next (Some b)) a h))).

Lemma nextof_left a n b h x : is_Some (h !! a) -> x <> n -> nextof (left a n b h) x = if decide (a = x) then Some b else nextof h x.
Proof. intros Ha Hx. unfold left. rewrite nextof_alter, decide_False, !nextof_set_prev by done. by apply nextof_set. Qed.
Lemma prevof_left a n b h x : is_Some (h !! b) -> x <> n -> prevof (left a n b h) x = if decide (b = x) then Some a else prevof h x.
Proof.
  intros Hb Hx. unfold left. rewrite prevof_set_next, prevof_alter, decide_False by done.
  rewrite prevof_set by is_node. case_decide; [done|]. by rewrite prevof_set_next.
Qed.

Lemma path_left h p l1 n l2 a :
  path h p (l1 ++ n :: l2) p -> NoDup (p :: l1 ++ n :: l2) -> last (p :: l1) = Some a ->
  let h' := left a n (succ_of p l2) h in
  path h' p (l1 ++ l2) p /\ (l1 ++ l2 = [] -> prevof h' p = Some p).
Proof.
  intros Hp Hd Ha. pose proof Hp as (Hp1 & Hpn & Hp2)%path_app.
  assert (Hal : a ∈ p :: l1) by by apply last_Some_elem_of.
  assert (Hin : forall x, x ∈ p :: l1 ++ n :: l2 -> is_Some (h !! x)) by (intros x; by eapply path_some).
  rewrite app_comm_cons in Hd. apply NoDup_app in Hd as (Hd1 & Hd12 & [Hn Hd2]%NoDup_cons).
  assert (Hn1 : n ∉ p :: l1) by (intros H; apply (Hd12 n H); set_solver).
  assert (Hsa : is_Some (h !! a)) by (apply Hin; set_solver).
  assert (Hre : forall e, path h p l1 n -> (forall x, x ∈ l1 -> e <> x) -> is_Some (h !! e) -> path (left a n e h) p l1 e).
  { intros e H He Hse. eapply path_frame; [| |by eapply path_retarget].
    - intros x Hx. rewrite nextof_left, nextof_set by (done || set_solver). done.
    - intros x Hx. rewrite prevof_left, decide_False, prevof_set_next by (done || set_solver || by apply not_eq_sym, He). done. }
  destruct l2 as [|b l2]; cbn [succ_of hd].
  - rewrite app_nil_r. apply NoDup_cons in Hd1 as [Hpl Hd1]. split; [apply Hre; [done|set_solver|apply Hin; set_solver]|].
    intros ->. cbn in Ha. injection Ha as <-. rewrite prevof_left, decide_True by (done || set_solver). done.
  - apply NoDup_cons in Hd2 as [Hb Hd2]. cbn in Hp2. destruct Hp2 as (_ & _ & Hp2).
    assert (Hbl : b ∉ p :: l1) by (intros H; apply (Hd12 b H); set_solver).
    assert (Hsb : is_Some (h !! b)) by (apply Hin; set_solver).
    split; [|by intros [? ?]%app_nil]. apply path_app. split_and!.
    + apply Hre; [done|set_solver|done].
    + rewrite prevof_left, decide_True by (done || set_solver). done.
    + eapply path_frame; [| |exact Hp2].
      * intros x Hx. rewrite nextof_left, decide_False by (done || set_solver). done.
      * intros x Hx. rewrite prevof_left, decide_False by (done || set_solver). done.
Qed.

Lemma leave_wp c p l1 n l2 :
  ring c p (l1 ++ n :: l2) ->
  wp (leave_one n) c (fun r c' => r = Some (succ_of p l2) /\ ring c' p (l1 ++ l2) /\ same_vals (nodes c) (nodes c')).
Proof.
  intros [Hh Ht Hp _ Hd]. destruct (last (p :: l1)) as [a|] eqn:Ha; [|by apply last_None in Ha].
  pose proof Hp as (_ & Hpn & Hp2)%path_app. pose proof (path_next _ _ _ _ Hp2) as Hnn. rewrite Ha in Hpn.
  destruct (path_left _ _ _ _ _ _ Hp Hd Ha) as [Hpath Halone].
  assert (Hin : forall x, x ∈ p :: l1 ++ n :: l2 -> is_Some (nodes c !! x)) by (intros x; by eapply path_some).
  assert (a ∈ p :: l1) by by apply last_Some_elem_of. set (b := succ_of p l2) in *.
  assert (Hb : b ∈ p :: l2) by (unfold b; destruct l2; cbn; set_solver).
  pose proof Hd as Hd'. rewrite app_comm_cons in Hd'. apply NoDup_app in Hd' as (Hd1 & Hd12 & [Hn Hd2]%NoDup_cons).
  assert (n ∉ p :: l1) by (intros H'; apply (Hd12 n H'); set_solver).
  assert (a <> n /\ b <> n) as [Han Hbn] by (split; set_solver).
  unfold nextof, prevof in Hnn, Hpn. destruct (nodes c !! n) as [nd|] eqn:En; [|done]. cbn in Hnn, Hpn.
  unfold leave_one. apply wp_bind. eapply wp_deref; [done|]. rewrite Hpn, Hnn. wsteps.
  apply wp_set_next; [apply Hin; set_solver|]. apply wp_bind.
  eapply wp_deref; [cbn; rewrite lookup_alter_ne by done; exact En|]. rewrite Hpn, Hnn. wsteps.
  apply wp_set_prev; [cbn; rewrite lookup_alter_is_Some; apply Hin; set_solver|]. wsteps.
  eapply wp_deref; [unfold Datatypes.id; cbn; rewrite !lookup_alter_ne by done; exact En|]. rewrite Hpn. wsteps.
  unfold Datatypes.id. cbn [tailer_p on_node]. rewrite Ht.
  apply (wp_mono _ _ (fun _ c' => c' = mkChain (alter (with_prev (Some a)) b (alter (with_next (Some b)) a (nodes c)))
    (header_p c) (last (p :: l1 ++ l2)))).
  { destruct l2 as [|b' l2]; cbn [succ_of hd] in b.
    - rewrite bool_decide_eq_true_2 by (by rewrite app_comm_cons, last_snoc). apply wp_modify. by rewrite app_nil_r, Ha.
    - assert (Hl : last (p :: l1 ++ n :: b' :: l2) = last (b' :: l2)).
      { rewrite app_comm_cons, last_app_cons. done. }
      rewrite Hl, bool_decide_eq_false_2; [|intros H'%last_Some_elem_of; set_solver]. wsteps.
      rewrite (app_comm_cons l1), last_app_cons. unfold on_node. by rewrite <- Hl, Ht. }
  intros _ ? ->. wsteps. apply wp_set_prev; [cbn; rewrite !lookup_alter_is_Some; by eexists|]. wsteps.
  apply wp_set_next; [cbn; rewrite !lookup_alter_is_Some; by eexists|]. wsteps. split; [done|]. cbn.
  split; [|by repeat apply alter_vals]. split; cbn; [done|done|exact Hpath|exact Halone|].
  rewrite app_comm_cons. apply NoDup_app. split_and!; [done| |done]. intros x Hx Hx2. apply (Hd12 x Hx). set_solver.
Qed.

(** The header that leaves: the last node still points to it, and it to nothing. *)
Lemma header_leaves c p q l a :
  ring c p (q :: l) -> prevof (nodes c) p = Some p -> last (q :: l) = Some a ->
  wp (leave_one p) c (fun r c' => r = Some q /\ header_p c' = Some p /\ nextof (nodes c') a = Some p /\ nextof (nodes c') p = None).
Proof.
  intros [Hh Ht Hp _ Hd] Hpp Ha. pose proof (path_last _ _ _ _ a Hp Ha) as Hnext.
  cbn [path] in Hp. destruct Hp as (Hpq & _ & Hp2). apply NoDup_cons in Hd as [Hpl _].
  assert (p <> a) by (intros ->; by apply Hpl, last_Some_elem_of). assert (p <> q) by set_solver.
  assert (is_Some (nodes c !! q)) by (eapply path_some; [exact Hp2|set_solver]).
  unfold nextof in Hpq. unfold prevof in Hpp. destruct (nodes c !! p) as [nd|] eqn:En; [|done]. cbn in Hpq, Hpp.
  unfold leave_one. apply wp_bind. eapply wp_deref; [done|]. rewrite Hpq, Hpp. wsteps.
  apply wp_set_next; [by eexists|]. apply wp_bind. eapply wp_deref; [cbn; by rewrite lookup_alter_eq, En|].
  cbn [next_p prev_p with_next]. rewrite Hpp. wsteps. apply wp_set_prev; [is_node|]. wsteps.
  eapply wp_deref; [unfold Datatypes.id; cbn; by rewrite lookup_alter_ne, lookup_alter_eq, En by done|]. wsteps.
  unfold Datatypes.id. cbn [tailer_p on_node]. rewrite Ht, bool_decide_eq_false_2 by (change (last (p :: q :: l)) with (last (q :: l)); congruence).
  wsteps. apply wp_set_prev; [cbn; rewrite !lookup_alter_is_Some; by eexists|]. wsteps.
  apply wp_set_next; [cbn; rewrite !lookup_alter_is_Some; by eexists|]. wsteps. cbn. split_and!; [done|done| |].
  - by rewrite nextof_alter, decide_False, !nextof_set_prev, nextof_alter, decide_False by done.
  - rewrite nextof_set, decide_True by (done || (rewrite !lookup_alter_is_Some; by eexists)). done.
Qed.
End LinkedList.

(** ** The scheduler *)
Module SScheduler.
Import LinkedList.

Definition kMaxRoutineSupported : nat := 64.

Inductive IOCode : Set := Ok | NearOk | NotReady | Timeout | Err.

Section scheduler.
Context {F : Type}.

Record SScheduler := mkSched {
  routine_chain : chain; routines : list Z; cur_routine_ptr : option Z; pending_futures : list Z;
  futures : list F; running : bool }.

Abbreviation S := (M SScheduler).

Definition set_chain x s := mkSched x (routines s) (cur_routine_ptr s) (pending_futures s) (futures s) (running s).
Definition set_routines x s := mkSched (routine_chain s) x (cur_routine_ptr s) (pending_futures s) (futures s) (running s).
Definition set_cur x s := mkSched (routine_chain s) (routines s) x (pending_futures s) (futures s) (running s).
Definition set_pending x s := mkSched (routine_chain s) (routines s) (cur_routine_ptr s) x (futures s) (running s).
Definition set_futures x s := mkSched (routine_chain s) (routines s) (cur_routine_ptr s) (pending_futures s) x (running s).
Definition set_running x s := mkSched (routine_chain s) (routines s) (cur_routine_ptr s) (pending_futures s) (futures s) x.

Definition state : S SScheduler := gets Datatypes.id.
Definition upd (f : SScheduler -> SScheduler) : S unit := fun s => Done ((), f s).
Definition on_chain {A} (m : L A) : S A := fun s =>
  match m (routine_chain s) with Done (a, c) => Done (a, set_chain c s) | Panic => Panic end.
Definition assertS (b : bool) : S unit := if b then mret () else panic.

(** The routine of a node. *)
Definition with_val (f : Routine -> Routine) n := mkNode (prev_p n) (next_p n) (f (val n)).
Definition set_active b r := mkRoutine (id r) (ok r) b.
Definition set_failed r := mkRoutine (id r) false (active r).
Definition on_val (f : Routine -> Routine) (p : Z) : S unit :=
  on_chain (_ ← deref p; modify (on_node (with_val f) p)).
Definition routine_of (p : Z) : S Routine := n ← on_chain (deref p); mret (val n).

(** [routines.at(id)], an exception when there is none. *)
Definition routine_at (cid : Z) : S Z := s ← state; unwrap (routines s !! Z.to_nat cid).
Definition cur : S Z := s ← state; unwrap (cur_routine_ptr s).
Definition cur_id : S Z := p ← cur; r ← routine_of p; mret (id r).

(** Control passes to another coroutine. *)
Definition execute (p : Z) : S unit := on_val (set_active true) p.

Definition pending_at (cid : Z) : S Z := s ← state; unwrap (pending_futures s !! Z.to_nat cid).
Definition set_pending_at (cid x : Z) : S unit :=
  upd (fun s => set_pending (<[Z.to_nat cid := x]> (pending_futures s)) s).

Section calls.
Context (alloc : heap -> Z).

Definition new_node (r : Routine) : S Z :=
  s ← state;
  let c := routine_chain s in
  let p := alloc (nodes c) in
  _ ← upd (set_chain (mkChain (<[p := mkNode None None r]> (nodes c)) (header_p c) (tailer_p c)));
  mret p.

Definition spawn : S (option Z) :=
  s ← state;
  let cid := Z.of_nat (length (routines s)) in
  if Z.of_nat kMaxRoutineSupported <=? cid then mret None
  else
    p ← new_node (mkRoutine (u8 cid) true false);
    _ ← upd (fun s => set_routines (routines s ++ [p]) s);
    p ← routine_at cid;
    added ← on_chain (add p);
    s ← state;
    _ ← (if bool_decide (cur_routine_ptr s = None) then upd (set_cur (Some added)) else mret ());
    mret (Some cid).

(** The constructor; the coroutine it spawns polls the futures. *)
Definition no_sched : SScheduler :=
  mkSched (mkChain ∅ None None) [] None (replicate kMaxRoutineSupported 0) [] false.
Definition create : S unit :=
  _ ← spawn;
  s ← state;
  assertS (bool_decide (is_Some (cur_routine_ptr s))).

Definition emplace_future (f : F) : S unit := upd (fun s => set_futures (futures s ++ [f]) s).
Definition wait_num (cid num : Z) : S unit :=
  n ← pending_at cid; set_pending_at cid (u64 (n + num)).
Definition emplace_for_routine (cid num : Z) (f : F) : S unit :=
  _ ← wait_num cid num; emplace_future f.

Definition run : S unit :=
  _ ← upd (set_running true);
  _ ← routine_at 0;
  mret ().

Definition addback_coroutine (cid : Z) : S unit :=
  p ← routine_at cid; _ ← on_chain (add p); mret ().

Definition pause_and_yield : S unit :=
  p ← cur;
  _ ← on_val (set_active false) p;
  next ← on_chain (leave_one p);
  _ ← upd (set_cur next);
  next ← unwrap next;
  execute next.

Definition pause : S unit :=
  cid ← cur_id;
  n ← pending_at cid;
  if 0 <? n then pause_and_yield else mret ().

Definition yield_to_next : S unit :=
  temp ← cur;
  n ← on_chain (deref temp);
  _ ← upd (set_cur (next_p n));
  if bool_decide (Some temp = next_p n) then mret ()
  else next ← unwrap (next_p n); execute next.

Definition exit : S unit :=
  temp ← cur;
  next ← on_chain (leave_one temp);
  _ ← upd (set_cur next);
  _ ← on_chain (modify (fun c => mkChain (delete temp (nodes c)) (header_p c) (tailer_p c)));
  if bool_decide (Some temp = next) then mret () else next ← unwrap next; execute next.

Definition stop : S unit := upd (set_running false).

(** One future: its answer, and the coroutine that it lets run again. *)
Definition counts (code : IOCode) : bool := match code with Ok | NearOk => true | _ => false end.
Definition fails (code : IOCode) : bool := match code with Err => true | _ => false end.
Definition ejects (code : IOCode) : bool := match code with Ok | Err => true | _ => false end.
Definition resume (cid : Z) : S unit :=
  p ← routine_at cid; r ← routine_of p; _ ← assertS (negb (active r)); addback_coroutine cid.
Definition poll_future (code : IOCode) (cid num : Z) : S unit :=
  need_add ← (if counts code then
                n ← pending_at cid;
                _ ← assertS (num <=? n);
                _ ← set_pending_at cid (n - num);
                mret (n - num =? 0)
              else mret false);
  need_add ← (if fails code then p ← routine_at cid; _ ← on_val set_failed p; mret true else mret need_add);
  if need_add : bool then resume cid else mret ().

Fixpoint poll_loop (answer : F -> IOCode * (Z * Z)) (todo : list F) : S (list F) :=
  match todo with
  | [] => mret []
  | f :: todo =>
      let '(code, (cid, num)) := answer f in
      _ ← poll_future code cid num;
      kept ← poll_loop answer todo;
      mret (if ejects code then kept else f :: kept)
  end.
Definition poll_all_futures (answer : F -> IOCode * (Z * Z)) : S unit :=
  s ← state;
  kept ← poll_loop answer (futures s);
  upd (set_futures kept).

(** What a coroutine does with the scheduler (the macros of libroutine.hh). *)
Inductive op :=
| Yield | Spawn | Exit | Stop
| WaitFor (num : Z) (f : F)      (* R2_PAUSE_WAIT *)
| WaitNum (num : Z)
| Pause
| Emplace (num : Z) (f : F)
| EmplaceFuture (f : F)
| Poll (answer : F -> IOCode * (Z * Z)).

Definition run_op (o : op) : S unit :=
  match o with
  | Yield => yield_to_next
  | Spawn => _ ← spawn; mret ()
  | Exit => exit
  | Stop => stop
  | WaitFor num f => cid ← cur_id; _ ← emplace_for_routine cid num f; pause_and_yield
  | WaitNum num => cid ← cur_id; _ ← wait_num cid num; pause_and_yield
  | Pause => pause
  | Emplace num f => cid ← cur_id; emplace_for_routine cid num f
  | EmplaceFuture f => emplace_future f
  | Poll answer => poll_all_futures answer
  end.
Fixpoint run_ops (os : list op) : S unit :=
  match os with [] => mret () | o :: os => _ ← run_op o; run_ops os end.
End calls.

(** ** The scheduler as a round-robin queue

    The coroutines that can run stand in a circle that starts at coroutine 0; one of
    them is the current one.  The others wait.  [None]: the call is not one that the
    scheduler supports (coroutine 0 does not wait and does not leave; a future lets a
    coroutine run again only while it waits). *)
Record astate := mkA {
  runnable : list Z; current : Z; waiting : list Z; pend : list Z; futs : list F; spawned : nat; is_running : bool }.

Definition a_runnable x a := mkA x (current a) (waiting a) (pend a) (futs a) (spawned a) (is_running a).
Definition a_current x a := mkA (runnable a) x (waiting a) (pend a) (futs a) (spawned a) (is_running a).
Definition a_waiting x a := mkA (runnable a) (current a) x (pend a) (futs a) (spawned a) (is_running a).
Definition a_pend x a := mkA (runnable a) (current a) (waiting a) x (futs a) (spawned a) (is_running a).
Definition a_futs x a := mkA (runnable a) (current a) (waiting a) (pend a) x (spawned a) (is_running a).
Definition a_spawned x a := mkA (runnable a) (current a) (waiting a) (pend a) (futs a) x (is_running a).
Definition a_running x a := mkA (runnable a) (current a) (waiting a) (pend a) (futs a) (spawned a) x.

(** The element behind [x], [d] behind the last. *)
Fixpoint after (x : Z) (l : list Z) (d : Z) : Z :=
  match l with [] => d | y :: l => if x =? y then hd d l else after x l d end.
Definition next_runnable (a : astate) : Z := after (current a) (0 :: runnable a) 0.
Definition without (x : Z) (l : list Z) : list Z := filter (fun y => y <> x) l.

(** The current coroutine leaves the circle. *)
Definition aleave (a : astate) : option astate :=
  if current a =? 0 then None
  else Some (a_current (next_runnable a) (a_runnable (without (current a) (runnable a)) a)).
Definition asuspend (a : astate) : option astate := a_waiting (current a :: waiting a) <$> aleave a.
Definition await (num : Z) (a : astate) : option astate :=
  n ← pend a !! Z.to_nat (current a);
  Some (a_pend (<[Z.to_nat (current a) := u64 (n + num)]> (pend a)) a).
Definition aresume (cid : Z) (a : astate) : option astate :=
  if decide (cid ∈ waiting a) then Some (a_waiting (without cid (waiting a)) (a_runnable (runnable a ++ [cid]) a))
  else None.

Definition apoll_future (code : IOCode) (cid num : Z) (a : astate) : option astate :=
  '(need, a) ← (if counts code then
                  n ← pend a !! Z.to_nat cid;
                  if num <=? n then Some (n - num =? 0, a_pend (<[Z.to_nat cid := n - num]> (pend a)) a) else None
                else Some (false, a));
  if (need || fails code) : bool then aresume cid a else Some a.
Fixpoint apoll_loop (answer : F -> IOCode * (Z * Z)) (todo : list F) (a : astate) : option (list F * astate) :=
  match todo with
  | [] => Some ([], a)
  | f :: todo =>
      let '(code, (cid, num)) := answer f in
      a ← apoll_future code cid num a;
      '(kept, a) ← apoll_loop answer todo a;
      Some (if ejects code then kept else f :: kept, a)
  end.

Definition astep (o : op) (a : astate) : option astate :=
  match o with
  | Yield => Some (a_current (next_runnable a) a)
  | Spawn =>
      if (spawned a <? kMaxRoutineSupported)%nat then
        Some (a_spawned (1 + spawned a) (a_runnable (runnable a ++ [Z.of_nat (spawned a)]) a))
      else Some a
  | Exit => aleave a
  | Stop => Some (a_running false a)
  | WaitFor num f => a ← await num a; asuspend (a_futs (futs a ++ [f]) a)
  | WaitNum num => a ← await num a; asuspend a
  | Pause => n ← pend a !! Z.to_nat (current a); if 0 <? n then asuspend a else Some a
  | Emplace num f => a ← await num a; Some (a_futs (futs a ++ [f]) a)
  | EmplaceFuture f => Some (a_futs (futs a ++ [f]) a)
  | Poll answer => '(kept, a) ← apoll_loop answer (futs a) a; Some (a_futs kept a)
  end.
Fixpoint asteps (os : list op) (a : astate) : option astate :=
  match os with [] => Some a | o :: os => a ← astep o a; asteps os a end.

Definition a_create : astate := mkA [] 0 [] (replicate kMaxRoutineSupported 0) [] 1 false.

(** ** The relation *)
Definition ptr_of (s : SScheduler) (cid : Z) : Z := default 0 (routines s !! Z.to_nat cid).
Definition live (a : astate) : list Z := 0 :: runnable a ++ waiting a.

Record related (s : SScheduler) (a : astate) : Prop := {
  x_ring : ring (routine_chain s) (ptr_of s 0) (map (ptr_of s) (runnable a));
  x_cur : cur_routine_ptr s = Some (ptr_of s (current a));
  x_in : current a ∈ 0 :: runnable a;
  x_live : NoDup (live a);
  x_range cid : cid ∈ live a -> 0 <= cid < Z.of_nat (spawned a);
  x_inj i j : i ∈ live a -> j ∈ live a -> ptr_of s i = ptr_of s j -> i = j;
  x_node cid : cid ∈ live a -> exists n, nodes (routine_chain s) !! ptr_of s cid = Some n /\ id (val n) = cid /\
    (cid ∈ waiting a -> active (val n) = false);
  x_count : length (routines s) = spawned a;
  x_max : (0 < spawned a <= kMaxRoutineSupported)%nat;
  x_pend : pending_futures s = pend a;
  x_plen : length (pend a) = kMaxRoutineSupported;
  x_futs : futures s = futs a;
  x_run : running s = is_running a }.

(** *** Calls *)
Lemma wp_state s (Q : SScheduler -> SScheduler -> Prop) : Q s s -> wp state s Q.
Proof. done. Qed.
Lemma wp_upd f s (Q : unit -> SScheduler -> Prop) : Q () (f s) -> wp (upd f) s Q.
Proof. done. Qed.
Lemma wp_on_chain {A} (m : L A) s (Q : A -> SScheduler -> Prop) :
  wp m (routine_chain s) (fun a c => Q a (set_chain c s)) -> wp (on_chain m) s Q.
Proof. unfold wp, on_chain. by destruct (m (routine_chain s)) as [[a c]|]. Qed.
Lemma wp_on_val f p s (Q : unit -> SScheduler -> Prop) :
  is_Some (nodes (routine_chain s) !! p) -> Q () (set_chain (on_node (with_val f) p (routine_chain s)) s) ->
  wp (on_val f p) s Q.
Proof. intros [n E] HQ. apply wp_on_chain, wp_bind. by eapply wp_deref. Qed.
Lemma wp_routine_at cid s (Q : Z -> SScheduler -> Prop) :
  (Z.to_nat cid < length (routines s))%nat -> Q (ptr_of s cid) s -> wp (routine_at cid) s Q.
Proof.
  intros [p Hp]%lookup_lt_is_Some_2 HQ. unfold ptr_of in HQ. rewrite Hp in HQ.
  apply wp_bind, wp_state. rewrite Hp. by apply wp_unwrap.
Qed.
Lemma wp_pending_at cid n s (Q : Z -> SScheduler -> Prop) :
  pending_futures s !! Z.to_nat cid = Some n -> Q n s -> wp (pending_at cid) s Q.
Proof. intros E HQ. apply wp_bind, wp_state. rewrite E. by apply wp_unwrap. Qed.

Lemma ring_val f q c p l : ring c p l -> ring (on_node (with_val f) q c) p l.
Proof.
  assert (Hn : forall x, nextof (nodes (on_node (with_val f) q c)) x = nextof (nodes c) x).
  { intros x. cbn. rewrite nextof_alter. case_decide; [subst|done]. unfold nextof. by destruct (nodes c !! x). }
  assert (Hp : forall x, prevof (nodes (on_node (with_val f) q c)) x = prevof (nodes c) x).
  { intros x. cbn. rewrite prevof_alter. case_decide; [subst|done]. unfold prevof. by destruct (nodes c !! x). }
  intros []. split; try done; [|by rewrite Hp].
  eapply path_frame; [intros; apply Hn|intros; apply Hp|done].
Qed.

(** A node that belongs to coroutine [cid], and is not active if [w]. *)
Definition node_ok (c : chain) (p cid : Z) (w : Prop) : Prop :=
  exists n, nodes c !! p = Some n /\ id (val n) = cid /\ (w -> active (val n) = false).

Lemma node_ok_vals c c' p cid w : same_vals (nodes c) (nodes c') -> node_ok c p cid w -> node_ok c' p cid w.
Proof.
  intros Hs (n & E & Hi & Hw). specialize (Hs p). rewrite E in Hs. destruct (nodes c' !! p) as [n'|] eqn:E'; [|done].
  injection Hs as Hv. exists n'. by rewrite Hv.
Qed.
Lemma node_ok_other f q c p cid w : p <> q -> node_ok c p cid w -> node_ok (on_node (with_val f) q c) p cid w.
Proof. intros Hne (n & E & H). exists n. cbn. by rewrite lookup_alter_ne. Qed.
Lemma node_ok_set f c p cid (w w' : Prop) :
  (forall r, id (f r) = id r) -> (w' -> forall r, active (f r) = false) ->
  node_ok c p cid w -> node_ok (on_node (with_val f) p c) p cid w'.
Proof.
  intros Hid Hw (n & E & Hi & _). exists (with_val f n). cbn. rewrite lookup_alter_eq, E. split_and!; [done|by rewrite Hid|].
  intros H. by apply Hw.
Qed.
Lemma node_ok_keep f q c p cid w :
  (forall r, id (f r) = id r) -> (forall r, active (f r) = active r) ->
  node_ok c p cid w -> node_ok (on_node (with_val f) q c) p cid w.
Proof.
  intros Hid Ha (n & E & Hi & Hw). destruct (decide (p = q)) as [->|Hne]; [|by apply node_ok_other; [|exists n]].
  exists (with_val f n). cbn. rewrite lookup_alter_eq, E, Hid, Ha. done.
Qed.

(** *** The circle *)
Lemma without_none x l : x ∉ l -> without x l = l.
Proof.
  induction l as [|y l IH]; intros Hx; [done|]. unfold without in *. rewrite filter_cons_True by set_solver.
  by rewrite IH by set_solver.
Qed.
Lemma without_app x l1 l2 : NoDup (l1 ++ x :: l2) -> without x (l1 ++ x :: l2) = l1 ++ l2.
Proof.
  intros (H1 & H12 & [Hx H2]%NoDup_cons)%NoDup_app. unfold without at 1.
  rewrite filter_app, filter_cons_False by tauto. change (without x l1 ++ without x l2 = l1 ++ l2).
  rewrite !without_none; [done|done|]. intros H. apply (H12 x H). set_solver.
Qed.
Lemma without_elem x y l : y ∈ without x l <-> y ∈ l /\ y <> x.
Proof. unfold without. rewrite list_elem_of_filter. tauto. Qed.

Lemma after_app x l1 l2 d : x ∉ l1 -> after x (l1 ++ x :: l2) d = hd d l2.
Proof.
  induction l1 as [|y l1 IH]; intros Hx; cbn; [by rewrite Z.eqb_refl|].
  destruct (Z.eqb_spec x y); [set_solver|]. apply IH. set_solver.
Qed.

(** Where the current coroutine stands. *)
Lemma current_split s a :
  related s a -> current a <> 0 -> exists l1 l2, runnable a = l1 ++ current a :: l2 /\ next_runnable a = hd 0 l2 /\
    current a ∉ l1 ++ l2.
Proof.
  intros [_ _ Hin Hd _ _ _ _ _ _ _ _ _] Hne. apply elem_of_cons in Hin as [?|Hin]; [done|].
  apply list_elem_of_split in Hin as (l1 & l2 & E). exists l1, l2.
  unfold live in Hd. rewrite E, <- app_assoc, app_comm_cons in Hd.
  apply NoDup_app in Hd as (H1 & H12 & [H2 _]%NoDup_cons).
  assert (Hc1 : current a ∉ 0 :: l1) by (intros H; apply (H12 _ H); set_solver).
  split_and!; [done| |set_solver]. unfold next_runnable. rewrite E, app_comm_cons. by apply after_app.
Qed.

Lemma succ_map s l2 : succ_of (ptr_of s 0) (map (ptr_of s) l2) = ptr_of s (hd 0 l2).
Proof. by destruct l2. Qed.

Lemma next_pointer s a :
  related s a -> nextof (nodes (routine_chain s)) (ptr_of s (current a)) = Some (ptr_of s (next_runnable a)).
Proof.
  intros Hr. pose proof Hr as [[_ _ Hp _ _] _ _ _ _ _ _ _ _ _ _ _ _]. destruct (decide (current a = 0)) as [E|Hne].
  - unfold next_runnable. rewrite E. cbn [after]. rewrite Z.eqb_refl, <- succ_map. by apply path_next.
  - destruct (current_split s a Hr Hne) as (l1 & l2 & E & -> & _). rewrite E, map_app in Hp. cbn [map] in Hp.
    apply path_app in Hp as (_ & _ & Hp). rewrite <- succ_map. by apply path_next.
Qed.

Lemma next_in s a : related s a -> next_runnable a ∈ 0 :: runnable a.
Proof.
  intros Hr. destruct (decide (current a = 0)) as [E|Hne].
  - unfold next_runnable. rewrite E. cbn [after]. rewrite Z.eqb_refl. destruct (runnable a); cbn; set_solver.
  - destruct (current_split s a Hr Hne) as (l1 & l2 & -> & -> & _). destruct l2; cbn; set_solver.
Qed.

(** Control passes to a coroutine that can run. *)
Lemma related_val s a f cid :
  related s a -> cid ∈ 0 :: runnable a -> (forall r, id (f r) = id r) ->
  related (set_chain (on_node (with_val f) (ptr_of s cid) (routine_chain s)) s) a.
Proof.
  intros [] Hc Hf. split; try done; [by apply ring_val|]. intros i Hi. specialize (x_node0 i Hi).
  destruct (decide (i = cid)) as [->|Hne].
  - eapply node_ok_set; [done| |exact x_node0]. intros Hw. exfalso.
    unfold live in x_live0. rewrite app_comm_cons in x_live0. apply NoDup_app in x_live0 as (_ & H12 & _). by apply (H12 cid).
  - apply node_ok_other; [|done]. intros E. apply Hne, x_inj0; [done|unfold live; set_solver|done].
Qed.

Lemma live_node s a cid : related s a -> cid ∈ live a -> is_Some (nodes (routine_chain s) !! ptr_of s cid).
Proof. intros [] Hc. destruct (x_node0 cid Hc) as (n & E & _). by exists n. Qed.

Lemma runnable_live a cid : cid ∈ 0 :: runnable a -> cid ∈ live a.
Proof. unfold live. set_solver. Qed.

Lemma yield_related s a : related s a -> wp yield_to_next s (fun _ s' => related s' (a_current (next_runnable a) a)).
Proof.
  intros Hr. pose proof (next_pointer s a Hr) as Hn. pose proof (next_in s a Hr) as Hin.
  pose proof Hr as [_ Hc Hcin _ _ _ _ _ _ _ _ _ _].
  unfold yield_to_next, cur. apply wp_bind, wp_bind, wp_state. rewrite Hc. wsteps. apply wp_on_chain.
  unfold nextof in Hn. destruct (nodes (routine_chain s) !! ptr_of s (current a)) as [nd|] eqn:E; [|done]. cbn in Hn.
  eapply wp_deref; [done|]. apply wp_bind, wp_upd. rewrite Hn.
  assert (Hr' : related (set_cur (Some (ptr_of s (next_runnable a))) (set_chain (routine_chain s) s)) (a_current (next_runnable a) a))
    by (destruct Hr; by split).
  case_bool_decide; wsteps; [done|]. apply wp_on_val; [apply (live_node _ _ _ Hr'), runnable_live, Hin|].
  by apply (related_val _ _ _ _ Hr').
Qed.

(** *** Leaving the circle *)
Lemma live_left l1 l2 x (w ws : list Z) :
  NoDup (0 :: (l1 ++ x :: l2) ++ w) -> ws = w \/ ws = x :: w ->
  NoDup (0 :: (l1 ++ l2) ++ ws) /\ (forall y, y ∈ 0 :: (l1 ++ l2) ++ ws -> y ∈ 0 :: (l1 ++ x :: l2) ++ w).
Proof.
  intros Hd Hws. assert (Hp : 0 :: (l1 ++ x :: l2) ++ w ≡ₚ 0 :: (l1 ++ l2) ++ x :: w).
  { constructor. rewrite <- !app_assoc. cbn. apply Permutation_app_head. apply Permutation_middle. }
  rewrite Hp in Hd. destruct Hws as [-> | ->].
  - split; [|intros y; set_solver]. rewrite app_comm_cons, <- Permutation_middle in Hd. by apply NoDup_cons in Hd as [_ Hd].
  - split; [done|]. intros y Hy. by rewrite Hp.
Qed.

Lemma related_left s a c' ws :
  related s a -> current a <> 0 -> ws = waiting a \/ ws = current a :: waiting a ->
  ring c' (ptr_of s 0) (map (ptr_of s) (without (current a) (runnable a))) ->
  (forall cid, cid ∈ 0 :: without (current a) (runnable a) ++ ws -> node_ok c' (ptr_of s cid) cid (cid ∈ ws)) ->
  related (set_cur (Some (ptr_of s (next_runnable a))) (set_chain c' s))
    (a_waiting ws (a_current (next_runnable a) (a_runnable (without (current a) (runnable a)) a))).
Proof.
  intros Hr Hne Hws Hring Hnodes. destruct (current_split s a Hr Hne) as (l1 & l2 & E & Hn & Hc). destruct Hr.
  assert (Hw : without (current a) (runnable a) = l1 ++ l2).
  { rewrite E. apply without_app. unfold live in x_live0. rewrite E in x_live0. apply NoDup_cons in x_live0 as [_ Hd].
    by apply NoDup_app in Hd as [Hd _]. }
  unfold live in *. rewrite Hw in *. rewrite E in x_live0.
  destruct (live_left l1 l2 (current a) (waiting a) ws x_live0 Hws) as [Hd Hsub]. rewrite <- E in Hsub.
  split; try done.
  - change (next_runnable a ∈ 0 :: l1 ++ l2). rewrite Hn. destruct l2; cbn; set_solver.
  - intros cid Hcid. by apply x_range0, Hsub.
  - intros i j Hi Hj. apply x_inj0; by apply Hsub.
Qed.

(** The chain without the current coroutine. *)
Lemma leave_current s a c (Q : option Z -> chain -> Prop) :
  related s a -> current a <> 0 -> ring c (ptr_of s 0) (map (ptr_of s) (runnable a)) ->
  (forall c', ring c' (ptr_of s 0) (map (ptr_of s) (without (current a) (runnable a))) ->
     same_vals (nodes c) (nodes c') -> Q (Some (ptr_of s (next_runnable a))) c') ->
  wp (leave_one (ptr_of s (current a))) c Q.
Proof.
  intros Hr Hne Hring HQ. destruct (current_split s a Hr Hne) as (l1 & l2 & E & Hn & Hc). destruct Hr.
  assert (Hw : without (current a) (runnable a) = l1 ++ l2).
  { rewrite E. apply without_app. unfold live in x_live0. rewrite E in x_live0. apply NoDup_cons in x_live0 as [_ Hd].
    by apply NoDup_app in Hd as [Hd _]. }
  rewrite E, map_app in Hring. cbn [map] in Hring. rewrite Hw in HQ. rewrite map_app in HQ.
  eapply wp_mono; [by apply leave_wp|]. intros r c' (-> & H1 & H2). rewrite succ_map, <- Hn. by apply HQ.
Qed.

Lemma next_left s a : related s a -> current a <> 0 -> next_runnable a ∈ 0 :: without (current a) (runnable a).
Proof.
  intros Hr Hne. pose proof (next_in s a Hr) as Hin. destruct (current_split s a Hr Hne) as (l1 & l2 & E & Hn & Hc).
  rewrite elem_of_cons, without_elem. apply elem_of_cons in Hin as [?|Hin]; [by left|].
  destruct (decide (next_runnable a = 0)); [by left|]. right. split; [done|]. intros E'. apply Hc. rewrite <- E', Hn.
  rewrite Hn in n. destruct l2; cbn in *; set_solver.
Qed.

Lemma pause_related s a a' :
  related s a -> asuspend a = Some a' -> wp pause_and_yield s (fun _ s' => related s' a').
Proof.
  intros Hr Ha. unfold asuspend, aleave in Ha. destruct (Z.eqb_spec (current a) 0) as [|Hne]; [done|]. injection Ha as <-.
  pose proof (x_in _ _ Hr) as Hin. pose proof (next_left s a Hr Hne) as Hnl.
  unfold pause_and_yield, cur. apply wp_bind, wp_bind, wp_state. rewrite (x_cur _ _ Hr). wsteps.
  apply wp_on_val; [apply (live_node _ _ _ Hr), runnable_live, Hin|]. wsteps. apply wp_on_chain. cbn [routine_chain set_chain].
  apply (leave_current s a); [done|done|by apply ring_val, Hr|]. intros c' Hring Hv. apply wp_bind, wp_upd. wsteps.
  assert (Hr' : related (set_cur (Some (ptr_of s (next_runnable a))) (set_chain c' s))
    (a_waiting (current a :: waiting a) (a_current (next_runnable a) (a_runnable (without (current a) (runnable a)) a)))).
  { apply related_left; [done|done|by right|done|]. intros cid Hcid. eapply node_ok_vals; [exact Hv|].
    assert (Hl : cid ∈ live a) by (unfold live; set_unfold; setoid_rewrite without_elem in Hcid; naive_solver set_solver).
    destruct (decide (cid = current a)) as [->|Hcne].
    - eapply node_ok_set; [done|done|]. apply (x_node _ _ Hr), Hl.
    - apply node_ok_other; [intros E; apply Hcne; apply (x_inj _ _ Hr); [done|by apply runnable_live|done]|].
      destruct (x_node _ _ Hr cid Hl) as (n & H1 & H2 & H3). exists n. split_and!; [done|done|]. set_solver. }
  apply wp_on_val; [apply (live_node _ _ _ Hr'), runnable_live, Hnl|]. by apply (related_val _ _ _ _ Hr').
Qed.

(** Changes of the memory outside of the circle. *)
Lemma ring_frame c h p l :
  (forall x, x ∈ p :: l -> h !! x = nodes c !! x) -> ring c p l -> ring (mkChain h (header_p c) (tailer_p c)) p l.
Proof.
  intros Hh []. split; try done; cbn.
  - eapply path_frame; [| |done]; intros x Hx; unfold nextof, prevof; rewrite Hh; [done|done|done|by right].
  - intros E. unfold prevof. rewrite Hh by by left. by apply r_alone0.
Qed.

Lemma exit_related s a a' : related s a -> aleave a = Some a' -> wp exit s (fun _ s' => related s' a').
Proof.
  intros Hr Ha. unfold aleave in Ha. destruct (Z.eqb_spec (current a) 0) as [|Hne]; [done|]. injection Ha as <-.
  pose proof (x_in _ _ Hr) as Hin. pose proof (next_left s a Hr Hne) as Hnl.
  assert (Hlive : forall cid, cid ∈ 0 :: without (current a) (runnable a) ++ waiting a ->
    cid ∈ live a /\ ptr_of s cid <> ptr_of s (current a)).
  { intros cid Hcid. assert (Hl : cid ∈ live a /\ cid <> current a).
    { unfold live. rewrite !elem_of_cons, !elem_of_app in Hcid |- *. rewrite without_elem in Hcid. split; [tauto|]. intros ->.
      destruct Hcid as [?|[[_ ?]|Hw]]; [done|done|]. pose proof (x_live _ _ Hr) as Hd. unfold live in Hd.
      rewrite app_comm_cons in Hd. apply NoDup_app in Hd as (_ & H12 & _). by apply (H12 (current a)). }
    split; [apply Hl|]. intros E. apply Hl. apply (x_inj _ _ Hr); [apply Hl|by apply runnable_live|done]. }
  unfold exit, cur. apply wp_bind, wp_bind, wp_state. rewrite (x_cur _ _ Hr). wsteps. apply wp_on_chain.
  apply (leave_current s a); [done|done|by apply Hr|]. intros c' Hring Hv. apply wp_bind, wp_upd, wp_bind, wp_on_chain, wp_modify.
  assert (Hr' : related (set_cur (Some (ptr_of s (next_runnable a)))
      (set_chain (mkChain (delete (ptr_of s (current a)) (nodes c')) (header_p c') (tailer_p c')) s))
    (a_waiting (waiting a) (a_current (next_runnable a) (a_runnable (without (current a) (runnable a)) a)))).
  { apply related_left; [done|done|by left| |].
    - apply ring_frame; [|done]. intros x Hx. apply lookup_delete_ne. intros <-.
      change (ptr_of s 0 :: map (ptr_of s) (without (current a) (runnable a)))
        with (map (ptr_of s) (0 :: without (current a) (runnable a))) in Hx.
      apply list_elem_of_fmap in Hx as (y & E & Hy). apply (Hlive y); [set_solver|done].
    - intros cid Hcid. destruct (Hlive cid Hcid) as [Hl Hp].
      destruct (node_ok_vals _ c' _ _ _ Hv (x_node _ _ Hr cid Hl)) as (n & H1 & H2).
      exists n. cbn. by rewrite lookup_delete_ne. }
  rewrite bool_decide_eq_false_2; [|intros [= E]; by apply (Hlive (next_runnable a)); [set_solver|]].
  wsteps. apply wp_on_val; [apply (live_node _ _ _ Hr'), runnable_live, Hnl|]. by apply (related_val _ _ _ _ Hr').
Qed.

(** *** Back into the circle *)
Lemma waiting_split a cid :
  NoDup (live a) -> cid ∈ waiting a -> live a ≡ₚ 0 :: (runnable a ++ [cid]) ++ without cid (waiting a).
Proof.
  intros Hd (w1 & w2 & E)%list_elem_of_split. unfold live in *. rewrite E in *.
  rewrite app_comm_cons in Hd. apply NoDup_app in Hd as (_ & _ & Hd). rewrite without_app by done.
  constructor. rewrite <- app_assoc. apply Permutation_app_head. cbn. symmetry. apply Permutation_middle.
Qed.

Lemma resume_related s a a' cid :
  related s a -> aresume cid a = Some a' -> wp (resume cid) s (fun _ s' => related s' a').
Proof.
  intros Hr Ha. unfold aresume in Ha. destruct (decide (cid ∈ waiting a)) as [Hw|]; [|done]. injection Ha as <-.
  pose proof Hr as [Hring Hcur Hin Hlive Hrange Hinj Hnode Hcount Hmax Hpend Hplen Hfuts Hrun].
  assert (Hl : cid ∈ live a) by (unfold live; set_solver). specialize (Hrange cid Hl) as Hrc.
  destruct (Hnode cid Hl) as (n & En & Hid & Hact).
  unfold resume. apply wp_bind, wp_routine_at; [rewrite Hcount; lia|]. unfold routine_of. wsteps. apply wp_on_chain.
  eapply wp_deref; [done|]. wsteps. rewrite (Hact Hw). cbn [negb assertS]. wsteps.
  unfold addback_coroutine. apply wp_bind, wp_routine_at; [cbn; rewrite Hcount; lia|]. wsteps. apply wp_on_chain.
  change (ptr_of (set_chain (routine_chain s) s)) with (ptr_of s). cbn [routine_chain set_chain].
  eapply wp_mono; [apply (add_wp _ _ _ _ Hring); [|by eexists]|].
  { change (ptr_of s 0 :: map (ptr_of s) (runnable a)) with (map (ptr_of s) (0 :: runnable a)).
    intros (y & E & Hy)%list_elem_of_fmap. assert (cid = y) as <- by (apply Hinj; [done|by apply runnable_live|done]).
    unfold live in Hlive. rewrite app_comm_cons in Hlive. apply NoDup_app in Hlive as (_ & H12 & _). by apply (H12 cid). }
  intros ? c2 (-> & Hring2 & Hv). wsteps.
  pose proof (waiting_split a cid Hlive Hw) as Hperm.
  assert (Hlv : forall i, i ∈ 0 :: (runnable a ++ [cid]) ++ without cid (waiting a) -> i ∈ live a)
    by (intros i Hi; by rewrite Hperm).
  split; try done.
  - cbn. rewrite map_app. exact Hring2.
  - cbn. set_solver.
  - unfold live at 1. cbn. by rewrite <- Hperm.
  - intros i Hi. by apply Hrange, Hlv.
  - intros i j Hi Hj. apply Hinj; by apply Hlv.
  - intros i Hi%Hlv. cbn. change (node_ok c2 (ptr_of s i) i (i ∈ without cid (waiting a))). eapply node_ok_vals; [exact Hv|].
    destruct (Hnode i Hi) as (n' & H1 & H2 & H3). exists n'. split_and!; [done|done|]. rewrite without_elem. naive_solver.
Qed.

(** *** Counters and futures *)
Lemma related_pend s a x :
  related s a -> length x = kMaxRoutineSupported -> related (set_pending x s) (a_pend x a).
Proof. intros [] Hx. by split. Qed.
Lemma related_futs s a x : related s a -> related (set_futures x s) (a_futs x a).
Proof. intros []. by split. Qed.

Lemma cur_id_wp s a (Q : Z -> SScheduler -> Prop) : related s a -> Q (current a) s -> wp cur_id s Q.
Proof.
  intros Hr HQ. destruct (x_node _ _ Hr (current a) (runnable_live _ _ (x_in _ _ Hr))) as (n & E & Hid & _).
  unfold cur_id, cur, routine_of. wsteps. apply wp_state. rewrite (x_cur _ _ Hr). wsteps. apply wp_on_chain.
  eapply wp_deref; [done|]. wsteps. rewrite Hid. by destruct s.
Qed.

Lemma wait_num_related s a a' num (Q : unit -> SScheduler -> Prop) :
  related s a -> await num a = Some a' -> (forall s', related s' a' -> Q () s') -> wp (wait_num (current a) num) s Q.
Proof.
  intros Hr Ha HQ. unfold await in Ha. destruct (pend a !! Z.to_nat (current a)) as [n|] eqn:E; [|done]. injection Ha as <-.
  unfold wait_num. apply wp_bind. eapply wp_pending_at; [by rewrite (x_pend _ _ Hr)|]. apply wp_upd, HQ.
  rewrite (x_pend _ _ Hr). apply related_pend; [done|]. by rewrite length_insert, (x_plen _ _ Hr).
Qed.

Lemma await_current num a a' : await num a = Some a' -> current a' = current a.
Proof. unfold await. destruct (pend a !! _); [|done]. by intros [= <-]. Qed.

Lemma poll_future_related s a a' code cid num :
  related s a -> apoll_future code cid num a = Some a' -> wp (poll_future code cid num) s (fun _ s' => related s' a').
Proof.
  intros Hr Ha. unfold apoll_future in Ha. unfold poll_future.
  apply wp_bind, (wp_mono _ _ (fun need s1 => exists a1, related s1 a1 /\
    (if (need || fails code) : bool then aresume cid a1 else Some a1) = Some a')).
  { destruct (counts code).
    - destruct (pend a !! Z.to_nat cid) as [n|] eqn:E; [|done]. cbn in Ha.
      destruct (num <=? n) eqn:Hle; [|done]. apply wp_bind. eapply wp_pending_at; [by rewrite (x_pend _ _ Hr)|].
      wsteps. rewrite Hle. cbn [assertS]. wsteps. apply wp_upd. wsteps. eexists. split; [|exact Ha].
      rewrite (x_pend _ _ Hr). apply related_pend; [done|]. by rewrite length_insert, (x_plen _ _ Hr).
    - wsteps. by exists a. }
  intros need s1 (a1 & Hr1 & Ha1). apply wp_bind. destruct (fails code).
  - rewrite orb_true_r in Ha1. pose proof Ha1 as Ha2. unfold aresume in Ha2. destruct (decide (cid ∈ waiting a1)) as [Hw|]; [|done].
    assert (Hl : cid ∈ live a1) by (unfold live; set_solver). pose proof (x_range _ _ Hr1 cid Hl).
    apply wp_bind, wp_routine_at; [rewrite (x_count _ _ Hr1); lia|]. wsteps. apply wp_on_val; [by eapply live_node|]. wsteps.
    eapply resume_related; [|exact Ha1]. destruct Hr1. split; try done; [by apply ring_val|].
    intros i Hi. by apply (node_ok_keep set_failed _ _ _ _ (i ∈ waiting a1)); [..|apply x_node0].
  - rewrite orb_false_r in Ha1. wsteps. destruct need; [by eapply resume_related|]. injection Ha1 as <-. by wsteps.
Qed.

Lemma poll_loop_related answer todo s a kept a' :
  related s a -> apoll_loop answer todo a = Some (kept, a') ->
  wp (poll_loop answer todo) s (fun k s' => k = kept /\ related s' a').
Proof.
  revert s a kept a'. induction todo as [|f todo IH]; intros s a kept a' Hr Ha; cbn [poll_loop apoll_loop] in *.
  { injection Ha as <- <-. by wsteps. }
  destruct (answer f) as [code [cid num]]. destruct (apoll_future code cid num a) as [a1|] eqn:E1; [|done]. cbn in Ha.
  destruct (apoll_loop answer todo a1) as [[k2 a2]|] eqn:E2; [|done]. injection Ha as <- <-.
  apply wp_bind. eapply wp_mono; [by eapply poll_future_related|]. intros [] s1 Hr1.
  apply wp_bind. eapply wp_mono; [by eapply IH|]. intros k s2 [-> Hr2]. by wsteps.
Qed.

Section alloc.
Context (alloc : heap -> Z) (alloc_fresh : forall h, h !! alloc h = None).

Lemma spawn_related s a :
  related s a -> (spawned a < kMaxRoutineSupported)%nat ->
  wp (spawn alloc) s (fun r s' => r = Some (Z.of_nat (spawned a)) /\
    related s' (a_spawned (1 + spawned a) (a_runnable (runnable a ++ [Z.of_nat (spawned a)]) a))).
Proof.
  intros Hr Hlt. pose proof Hr as [Hring Hcur Hin Hlive Hrange Hinj Hnode Hcount Hmax Hpend Hplen Hfuts Hrun].
  unfold spawn. apply wp_bind, wp_state. rewrite Hcount. unfold kMaxRoutineSupported in *.
  destruct (Z.leb_spec (Z.of_nat 64) (Z.of_nat (spawned a))); [lia|].
  set (p := alloc (nodes (routine_chain s))). set (cid := Z.of_nat (spawned a)).
  set (r := mkRoutine (u8 cid) true false).
  set (c1 := mkChain (<[p := mkNode None None r]> (nodes (routine_chain s))) (header_p (routine_chain s)) (tailer_p (routine_chain s))).
  set (s1 := set_routines (routines s ++ [p]) (set_chain c1 s)).
  assert (Hold : forall i, i ∈ live a -> ptr_of s1 i = ptr_of s i).
  { intros i Hi. specialize (Hrange i Hi). unfold ptr_of. cbn. rewrite lookup_app_l by lia. done. }
  assert (Hnew : ptr_of s1 cid = p).
  { unfold ptr_of, cid. cbn. rewrite Nat2Z.id, lookup_app_r, Hcount, Nat.sub_diag by lia. done. }
  assert (Hfresh : forall i, i ∈ live a -> ptr_of s i <> p).
  { intros i Hi E. destruct (Hnode i Hi) as (n & En & _). rewrite E in En. unfold p in En. by rewrite alloc_fresh in En. }
  assert (Hmap : map (ptr_of s1) (runnable a) = map (ptr_of s) (runnable a)).
  { apply map_ext_in. intros i Hi. apply Hold. unfold live. apply list_elem_of_In in Hi. set_solver. }
  assert (Hring1 : ring c1 (ptr_of s1 0) (map (ptr_of s1) (runnable a))).
  { rewrite Hmap, Hold by (unfold live; set_solver). apply ring_frame; [|done]. intros x Hx. apply lookup_insert_ne. intros <-.
    change (ptr_of s 0 :: map (ptr_of s) (runnable a)) with (map (ptr_of s) (0 :: runnable a)) in Hx.
    apply list_elem_of_fmap in Hx as (y & E & Hy). apply (Hfresh y); [unfold live; set_solver|done]. }
  apply wp_bind, wp_bind, wp_state, wp_bind, wp_upd, wp_ret, wp_bind, wp_upd, wp_bind.
  fold p c1 r cid. change (set_routines (routines (set_chain c1 s) ++ [p]) (set_chain c1 s)) with s1.
  apply wp_routine_at; [cbn; rewrite length_app, Hcount; unfold cid; cbn; lia|]. rewrite Hnew.
  apply wp_bind, wp_on_chain.
  eapply wp_mono; [apply (add_wp c1 _ _ p Hring1); [|by eexists; apply lookup_insert_eq]|].
  { change (ptr_of s1 0 :: map (ptr_of s1) (runnable a)) with (map (ptr_of s1) (0 :: runnable a)).
    intros (y & E & Hy)%list_elem_of_fmap. assert (y ∈ live a) by by apply runnable_live.
    apply (Hfresh y); [done|]. by rewrite <- (Hold y). }
  intros ? c2 (-> & Hring2 & Hv). apply wp_bind, wp_state. cbn [cur_routine_ptr set_chain s1 set_routines]. rewrite Hcur.
  rewrite bool_decide_eq_false_2 by done. wsteps. split; [done|].
  assert (Hlv : forall i, i ∈ live (a_spawned (1 + spawned a) (a_runnable (runnable a ++ [cid]) a)) -> i = cid \/ i ∈ live a)
    by (unfold live; cbn; intros i; set_solver).
  split; cbn.
  - rewrite map_app. cbn. change (ptr_of (set_chain c2 s1)) with (ptr_of s1). by rewrite Hnew.
  - rewrite Hcur. f_equal. symmetry. exact (Hold _ (runnable_live _ _ Hin)).
  - set_solver.
  - unfold live. cbn. rewrite <- app_assoc. cbn. rewrite app_comm_cons, <- Permutation_middle. apply NoDup_cons.
    split; [|exact Hlive]. intros Hc. specialize (Hrange cid Hc). lia.
  - intros i [Ei|Hi]%Hlv; [unfold cid in Ei; lia|]. specialize (Hrange i Hi). lia.
  - intros i j Hi%Hlv Hj%Hlv. change (ptr_of (set_chain c2 s1)) with (ptr_of s1).
    destruct Hi as [->|Hi], Hj as [->|Hj]; rewrite ?Hnew, ?Hold by done; [done|..|by apply Hinj].
    + intros E. by destruct (Hfresh j Hj).
    + intros E. by destruct (Hfresh i Hi).
  - intros i Hi%Hlv. change (node_ok c2 (ptr_of s1 i) i (i ∈ waiting a)). eapply node_ok_vals; [exact Hv|].
    destruct Hi as [->|Hi].
    + rewrite Hnew. eexists. split; [apply lookup_insert_eq|]. cbn. split; [|done]. unfold cid. by rewrite wrap_small by (unfold in_width; lia).
    + rewrite Hold by done. destruct (Hnode i Hi) as (n & En & H'). exists n. cbn. by rewrite lookup_insert_ne by (apply not_eq_sym, Hfresh, Hi).
  - by rewrite length_app, Hcount, Nat.add_comm.
  - unfold kMaxRoutineSupported. lia.
  - done.
  - done.
  - done.
  - done.
Qed.

(** *** Every call *)
Lemma run_op_related o s a a' :
  related s a -> astep o a = Some a' -> wp (run_op alloc o) s (fun _ s' => related s' a').
Proof.
  intros Hr Ha. destruct o as [| | | |num f|num| |num f|f|answer]; cbn [astep run_op] in *.
  - injection Ha as <-. by apply yield_related.
  - apply wp_bind. destruct (Nat.ltb_spec (spawned a) kMaxRoutineSupported).
    + injection Ha as <-. eapply wp_mono; [by apply spawn_related|]. intros r s' [_ Hr']. by wsteps.
    + injection Ha as <-. unfold spawn. apply wp_bind, wp_state. rewrite (x_count _ _ Hr).
      destruct (Z.leb_spec (Z.of_nat kMaxRoutineSupported) (Z.of_nat (spawned a))); [|lia]. by wsteps.
  - by eapply exit_related.
  - injection Ha as <-. apply wp_upd. destruct Hr. by split.
  - destruct (await num a) as [a1|] eqn:E; [|done]. apply wp_bind. eapply cur_id_wp; [done|]. unfold emplace_for_routine.
    apply wp_bind, wp_bind. eapply wait_num_related; [done|done|]. intros s1 Hr1. apply wp_upd.
    eapply pause_related; [|exact Ha]. rewrite (x_futs _ _ Hr1). by apply related_futs.
  - destruct (await num a) as [a1|] eqn:E; [|done]. apply wp_bind. eapply cur_id_wp; [done|].
    apply wp_bind. eapply wait_num_related; [done|done|]. intros s1 Hr1. by eapply pause_related.
  - destruct (pend a !! Z.to_nat (current a)) as [n|] eqn:E; [|done]. cbn in Ha. unfold pause.
    apply wp_bind. eapply cur_id_wp; [done|]. apply wp_bind. eapply wp_pending_at; [by rewrite (x_pend _ _ Hr)|].
    destruct (0 <? n); [by eapply pause_related|]. injection Ha as <-. by wsteps.
  - destruct (await num a) as [a1|] eqn:E; [|done]. injection Ha as <-. apply wp_bind. eapply cur_id_wp; [done|].
    apply wp_bind. eapply wait_num_related; [done|done|]. intros s1 Hr1. apply wp_upd. rewrite (x_futs _ _ Hr1). by apply related_futs.
  - injection Ha as <-. apply wp_upd. rewrite (x_futs _ _ Hr). by apply related_futs.
  - destruct (apoll_loop answer (futs a) a) as [[kept a1]|] eqn:E; [|done]. injection Ha as <-.
    apply wp_bind, wp_state. rewrite (x_futs _ _ Hr). apply wp_bind. eapply wp_mono; [by eapply poll_loop_related|].
    intros k s1 [-> Hr1]. apply wp_upd. by apply related_futs.
Qed.

Lemma run_ops_related os s a a' :
  related s a -> asteps os a = Some a' -> wp (run_ops alloc os) s (fun _ s' => related s' a').
Proof.
  revert s a. induction os as [|o os IH]; intros s a Hr Ha; cbn [asteps run_ops] in *; [injection Ha as <-; by wsteps|].
  destruct (astep o a) as [a1|] eqn:E; [|done]. apply wp_bind. eapply wp_mono; [by eapply run_op_related|].
  intros [] s1 Hr1. by eapply IH.
Qed.

Lemma create_related : wp (create alloc) no_sched (fun _ s => related s a_create).
Proof.
  unfold create, spawn, new_node. set (p := alloc ∅). set (n := mkNode None None (mkRoutine (u8 0) true false)).
  set (c1 := mkChain {[p := n]} None None). apply wp_bind, wp_bind, wp_state.
  change (Z.of_nat kMaxRoutineSupported <=? Z.of_nat (length (routines no_sched))) with false.
  apply wp_bind, wp_bind, wp_state, wp_bind, wp_upd, wp_ret, wp_bind, wp_upd, wp_bind, wp_routine_at; [cbn; lia|].
  apply wp_bind, wp_on_chain. eapply wp_mono.
  { apply (add_first c1 p); [done|]. eexists. apply lookup_singleton_eq. }
  intros ? c2 (-> & Hring & Hv). apply wp_bind, wp_state. cbn [cur_routine_ptr set_chain set_routines no_sched].
  change (bool_decide (None = None)) with true. wsteps. apply wp_upd. wsteps. apply wp_state. wsteps.
  split; cbn; try done.
  - by left.
  - apply NoDup_singleton.
  - intros cid Hc. unfold live in Hc. set_unfold in Hc. cbn. lia.
  - intros i j Hi Hj _. unfold live in *. set_unfold. lia.
  - intros cid Hc. assert (cid = 0) as -> by (unfold live in Hc; set_unfold in Hc; lia).
    apply (node_ok_vals c1 c2 p 0 (0 ∈ [])); [done|]. exists n. split; [apply lookup_singleton_eq|done].
  - unfold kMaxRoutineSupported. lia.
Qed.
End alloc.

(** *** Turns *)
Lemma after_lookup l i x :
  NoDup (0 :: l) -> (0 :: l) !! i = Some x -> (0 :: l) !! (Datatypes.S i mod Datatypes.S (length l))%nat = Some (after x (0 :: l) 0).
Proof.
  intros Hd Hx. pose proof (take_drop_middle _ _ _ Hx) as E. set (l1 := take i (0 :: l)) in *. set (l2 := drop (Datatypes.S i) (0 :: l)) in *.
  assert (Hl : length l1 = i) by (unfold l1; rewrite length_take; apply lookup_lt_Some in Hx; lia).
  assert (Hlen : length (0 :: l) = (i + Datatypes.S (length l2))%nat) by (rewrite <- E, length_app, Hl; done).
  rewrite <- E in Hd. apply NoDup_app in Hd as (_ & H12 & _). rewrite <- E at 2.
  rewrite after_app by (intros H; apply (H12 x H); set_solver).
  cbn [length] in Hlen. rewrite Hlen. clearbody l1 l2. destruct l2 as [|y l2]; cbn [length hd].
  - replace (i + 1)%nat with (Datatypes.S i) by lia. by rewrite Nat.Div0.mod_same.
  - rewrite Nat.mod_small by lia. rewrite <- E, lookup_app_r by lia. rewrite Hl. by replace (Datatypes.S i - i)%nat with 1%nat by lia.
Qed.

Lemma yields_turn a i k :
  NoDup (0 :: runnable a) -> (0 :: runnable a) !! i = Some (current a) ->
  exists c, asteps (replicate k Yield) a = Some (a_current c a) /\
    (0 :: runnable a) !! ((i + k) mod Datatypes.S (length (runnable a)))%nat = Some c.
Proof.
  intros Hd. revert a i Hd. induction k as [|k IH]; intros a i Hd Hi.
  - exists (current a). split; [by destruct a|]. pose proof (lookup_lt_Some _ _ _ Hi) as Hl. cbn in Hl.
    by rewrite Nat.add_0_r, Nat.mod_small.
  - cbn [replicate asteps astep]. pose proof (after_lookup _ _ _ Hd Hi) as Hn. fold (next_runnable a) in Hn.
    destruct (IH (a_current (next_runnable a) a) _ Hd Hn) as (c & E & Hc). exists c. split; [exact E|].
    cbn [runnable a_current] in Hc. rewrite Nat.Div0.add_mod_idemp_l in Hc.
    by replace (i + Datatypes.S k)%nat with (Datatypes.S i + k)%nat by lia.
Qed.

Lemma turn_comes s a cid :
  related s a -> cid ∈ 0 :: runnable a ->
  exists k, (k <= length (runnable a))%nat /\ asteps (replicate k Yield) a = Some (a_current cid a).
Proof.
  intros Hr [j Hj]%list_elem_of_lookup_1. destruct (list_elem_of_lookup_1 _ _ (x_in _ _ Hr)) as [i Hi].
  pose proof (x_live _ _ Hr) as Hd. unfold live in Hd. rewrite app_comm_cons in Hd. apply NoDup_app in Hd as [Hd _].
  pose proof (lookup_lt_Some _ _ _ Hi) as Hli. pose proof (lookup_lt_Some _ _ _ Hj) as Hlj. cbn [length] in Hli, Hlj.
  set (n := Datatypes.S (length (runnable a))) in *. exists ((j + n - i) mod n)%nat.
  pose proof (Nat.mod_upper_bound (j + n - i) n ltac:(lia)). split; [lia|].
  destruct (yields_turn a i ((j + n - i) mod n) Hd Hi) as (c & E & Hc). fold n in Hc.
  rewrite Nat.Div0.add_mod_idemp_r in Hc. replace (i + (j + n - i))%nat with (j + 1 * n)%nat in Hc by lia.
  rewrite Nat.Div0.mod_add, Nat.mod_small in Hc by lia. rewrite Hc in Hj. injection Hj as ->. done.
Qed.
End scheduler.
End SScheduler.



(** Two coroutines: the first waits for two replies, which come in two polls. *)
Definition sample : list (@SScheduler.op nat) :=
  [SScheduler.Spawn; SScheduler.Spawn; SScheduler.Yield; SScheduler.WaitFor 2 0%nat; SScheduler.Yield;
   SScheduler.Poll (fun _ => (SScheduler.NearOk, (1, 1))); SScheduler.Yield; SScheduler.Yield;
   SScheduler.Poll (fun _ => (SScheduler.Ok, (1, 1)))].

Definition heap_fresh (h : LinkedList.heap) : Z := fresh (dom h : gset Z).
Lemma heap_fresh_none h : h !! heap_fresh h = None.
Proof. apply (not_elem_of_dom (D := gset Z)). apply (is_fresh (dom h : gset Z)). Qed.


