(* ===== verification/RingMsg.v ===== *)
(** * Messages over rings of remote memory

    src/deps/r2/src/ring_msg: a sender writes its messages one behind the other into
    a ring in the memory of the receiver, with the identity of the session and the
    size of the message in the immediate data; the receiver polls one completion
    queue for all its sessions and finds the messages by adding up their sizes.

    The RDMA library under it (rlib) is a submodule that the repository does not
    contain: its operations are the interface [Rlib].  A session is named by its
    identity; the pointer to the session that an iterator keeps is that identity. *)

From S2P Require Import Prelude Bytes Guid IpAddr.

#[local] Open Scope Z_scope.

(** A registered memory region of the library, and a block of memory. *)
Record RegAttr := mkAttr { buf : Z; attr_sz : Z; key : Z }.
Record MemBlock := mkBlock { mem_ptr : Z; sz : Z }.

Definition kMagic : Z := 73.

(** [proto::RCReq], what the receiver's handler gets. *)
Record RCReq := mkReq {
  rq_name : list Z; rq_name_recv : list Z; whether_create : Z; whether_recv : Z; nic_id : Z; config : Z;
  rq_attr : Z; max_recv_sz : Z }.
Inductive CallbackStatus : Set := StOk | WrongArg | ConnectErr.
(** [RingReply] with the fields of its [RCReply] that are used. *)
Record RingReply := mkReply { status : CallbackStatus; rc_attr : Z; base_off : Z; mr : RegAttr }.

Class Rlib (W : Type) := {
  kMaxInlinSz : Z;
  kMaxQPNameLen : Z;
  reg_attr_size : nat;
  reg_attr_bytes : RegAttr -> list Z;
  reg_attr_of : list Z -> RegAttr;
  (* queue pairs *)
  send_normal : Z -> bool -> bool -> Z -> Z -> Z -> Z -> M W (Result Z unit);
  wait_one_comp : Z -> M W (Result Z unit);
  post_recvs : Z -> Z -> Z -> M W (Result Z unit);
  rc_connect : Z -> Z -> M W (Result Z unit);
  my_attr : W -> Z -> Z;
  max_send_sz : W -> Z -> Z;
  bind_local_mr : Z -> RegAttr -> M W unit;
  bind_remote_mr : Z -> RegAttr -> M W unit;
  local_mr : W -> Z -> option RegAttr;
  rc_create : Z -> Z -> option Z -> M W (option Z);
  (* completion queues; the status of a completion and its immediate data *)
  cqe : W -> Z -> Z;
  ibv_poll_cq : Z -> Z -> M W (list (bool * Z));
  (* receive entries and memory *)
  create_recv_entries : Z -> Z -> M W Z;
  alloc_one_for_remote : Z -> Z -> M W (option (Z * RegAttr));
  (* the control of the receiver *)
  query_nic : W -> Z -> option Z;
  reg_qp : list Z -> Z -> M W (option Z);
  dereg_qp : list Z -> Z -> M W unit;
  query_qp : W -> list Z -> option Z;
  fetch_qp_attr : W -> RCReq -> Z -> option (CallbackStatus * Z);
  (* the call to the control of the receiver *)
  rpc_call : RCReq -> M W bool;
  receive_reply : Z -> M W (option RingReply);
  (* the memory of the machine of a queue pair, and of the receiver *)
  qp_mem : W -> Z -> umem;
  recv_mem : W -> umem
}.

(** ** Immediate data (id_helper.hh) *)
Definition encode_id_sz (id sz : Z) : Z := Z.lor (u32 (Z.shiftl (u32 id) 16)) sz.
Definition bitmask (bits onecount : Z) : Z :=
  Z.land (wrap bits (if onecount =? 0 then 0 else -1)) (Z.shiftr (wrap bits (-1)) (bits - onecount)).
Definition decode (val : Z) : Z * Z :=
  let sz_mask := bitmask 32 16 in (u16 (Z.shiftr val 16), u16 (Z.land sz_mask val)).

Section ring.
(** [R], [kRingSz] and [kMaxMsg] are the parameters of the templates; [usize] has 32
    bits. *)
Context {W : Type} `{RL : !Rlib W} (R kRingSz kMaxMsg : Z).

(** ** Rings (ring.hh) *)
Record RemoteRing := mkRemote { r_tailer : Z; base_addr : Z; mem_key : Z }.
Definition no_remote : RemoteRing := mkRemote 0 0 0.
Definition next_addr (r : RemoteRing) (sz : Z) : Z * RemoteRing :=
  let ret := r_tailer r in
  (u32 (ret + base_addr r), mkRemote (Z.rem (u32 (ret + sz)) kRingSz) (base_addr r) (mem_key r)).

Record LocalRing := mkLocal { local_mem : MemBlock; l_tailer : Z }.
Definition local_ring_of (mem : MemBlock) : outcome LocalRing :=
  if kRingSz <=? sz mem then Done (mkLocal mem 0) else Panic.
Definition ring_cur_msg (r : LocalRing) (n : Z) : option (MemBlock * LocalRing) :=
  if sz (local_mem r) <? u32 (n + l_tailer r) then None
  else Some (mkBlock (mem_ptr (local_mem r) + l_tailer r) n,
             mkLocal (local_mem r) (Z.rem (u32 (l_tailer r + n)) kRingSz)).
Definition convert_to_rdma_addr (r : LocalRing) (attr : RegAttr) : outcome Z :=
  if (buf attr <=? mem_ptr (local_mem r)) &&
     (u64 (mem_ptr (local_mem r) + sz (local_mem r)) <=? u64 (buf attr + attr_sz attr))
  then Done (mem_ptr (local_mem r) - buf attr) else Panic.

(** ** Sessions (session.hh, recv_bundler.hh) *)
Record Session := mkSession {
  qp : Z; recv_entries : Z; idle_recv_entries : Z; remote_ring : RemoteRing; local_ring : LocalRing;
  send_depth : Z; pending_sends : Z; s_id : Z }.

Definition set_idle x s := mkSession (qp s) (recv_entries s) x (remote_ring s) (local_ring s) (send_depth s) (pending_sends s) (s_id s).
Definition set_remote x s := mkSession (qp s) (recv_entries s) (idle_recv_entries s) x (local_ring s) (send_depth s) (pending_sends s) (s_id s).
Definition set_local x s := mkSession (qp s) (recv_entries s) (idle_recv_entries s) (remote_ring s) x (send_depth s) (pending_sends s) (s_id s).
Definition set_pending x s := mkSession (qp s) (recv_entries s) (idle_recv_entries s) (remote_ring s) (local_ring s) (send_depth s) x (s_id s).

Abbreviation SM := (M (W * Session)).

(** The constructor of a sender. *)
Definition sender (id nic conf cq alloc : Z) : M W Session :=
  q ← rc_create nic conf (Some cq);
  q ← unwrap q;
  e ← create_recv_entries alloc 0;
  depth ← gets (fun w => max_send_sz w q);
  m ← alloc_one_for_remote alloc (u32 (kRingSz + kMaxMsg));
  '(p, _) ← unwrap m;
  ring ← lift (local_ring_of (mkBlock p (u32 (kRingSz + kMaxMsg))));
  m ← alloc_one_for_remote alloc 0;
  '(_, attr) ← unwrap m;
  _ ← bind_local_mr q attr;
  mret (mkSession q e 0 no_remote ring (depth / 2) 0 id).

(** The constructor of a receiver's session. *)
Definition receiver_session (id q entries addr : Z) (remote_mr : RegAttr) (local : LocalRing) : M W Session :=
  depth ← gets (fun w => max_send_sz w q);
  _ ← bind_remote_mr q remote_mr;
  mret (mkSession q entries 0 (mkRemote 0 (u32 addr) (key remote_mr)) local (depth / 2) 0 id).

Definition consume_one : SM unit :=
  s ← getX;
  let idle := u32 (idle_recv_entries s + 1) in
  _ ← onX (set_idle idle);
  if R / 2 <=? idle then
    r ← onW (post_recvs (qp s) (recv_entries s) idle);
    if is_Ok r then onX (set_idle 0) else panic
  else mret ().
Definition update_recv_meta : SM unit := consume_one.

Definition cur_msg (n : Z) : SM (option MemBlock) :=
  s ← getX;
  match ring_cur_msg (local_ring s) n with
  | Some (b, r) => _ ← onX (set_local r); mret (Some b)
  | None => mret None
  end.

(** Both ways to send write the message at the next place of the remote ring. *)
Definition post_message (msg : MemBlock) (signaled : bool) : SM (Result Z unit) :=
  s ← getX;
  let inline := sz msg <=? kMaxInlinSz in
  let imm_data := encode_id_sz (s_id s) (u16 (sz msg)) in
  let '(remote_addr, r) := next_addr (remote_ring s) (sz msg) in
  _ ← onX (set_remote r);
  onW (send_normal (qp s) inline signaled (sz msg) (mem_ptr msg) remote_addr imm_data).

Definition send_blocking (msg : MemBlock) : SM (Result Z unit) :=
  s ← getX;
  res_s ← post_message msg true;
  match res_s with
  | Err e => mret (Err e)
  | Ok _ => onW (wait_one_comp (qp s))
  end.

Definition send_unsignaled (msg : MemBlock) : SM (Result Z unit) :=
  s ← getX;
  res_s ← post_message msg (pending_sends s =? 0);
  _ ← (if send_depth s <=? pending_sends s then
         res_p ← onW (wait_one_comp (qp s));
         if is_Ok res_p then onX (set_pending 0) else panic
       else onX (set_pending (u32 (pending_sends s + 1))));
  mret res_s.

(** [RingBootstrap], packed: the offset, the memory region, the magic number. *)
Definition bootstrap_bytes (off : Z) (attr : RegAttr) : list Z := le 8 off ++ reg_attr_bytes attr ++ le 4 kMagic.
Definition bootstrap_size : Z := 12 + Z.of_nat reg_attr_size.

(** The message is a string on the heap; [tmp] is where it is. *)
Definition send_bootstrap (tmp : list Z -> M W Z) : SM (Result Z unit) :=
  s ← getX;
  attr ← onW (gets (fun w => local_mr w (qp s)));
  attr ← unwrap attr;
  base_addr ← lift (convert_to_rdma_addr (local_ring s) attr);
  p ← onW (tmp (bootstrap_bytes base_addr attr));
  send_blocking (mkBlock p bootstrap_size).

(** ** Connecting (cm.hh, session.hh) *)
Definition connect_for_ring (qp_name channel_name : list Z) (ring_sz q nic conf timeout : Z) : M W (option RingReply) :=
  if kMaxQPNameLen <? Z.of_nat (length qp_name) then mret None
  else
    attr ← gets (fun w => my_attr w q);
    sent ← rpc_call (mkReq qp_name channel_name 1 1 nic conf attr ring_sz);
    if negb sent then mret None
    else
      reply ← receive_reply timeout;
      match reply with
      | None => mret None
      | Some reply =>
          match status reply with
          | StOk => r ← rc_connect q (rc_attr reply); mret (if is_Ok r then Some reply else None)
          | _ => mret None
          end
      end.

Definition connect (channel_name : list Z) (nic conf timeout : Z) (tmp : list Z -> M W Z) : SM (Result Z unit) :=
  s ← getX;
  res ← onW (connect_for_ring (decimal (s_id s)) channel_name (u32 (kRingSz + kMaxMsg)) (qp s) nic conf timeout);
  match res with
  | None => mret (Err 0)
  | Some reply =>
      ret ← onW (rc_connect (qp s) (rc_attr reply));
      match ret with
      | Err e => mret (Err e)
      | Ok _ =>
          if (buf (mr reply) <=? base_off reply) &&
             (u64 (base_off reply + kRingSz + kMaxMsg) <=? u64 (buf (mr reply) + attr_sz (mr reply))) then
            _ ← onX (set_remote (mkRemote 0 (u32 (base_off reply - buf (mr reply))) (key (mr reply))));
            _ ← onW (bind_remote_mr (qp s) (mr reply));
            res_p ← onW (post_recvs (qp s) (recv_entries s) R);
            match res_p with
            | Err e => mret (Err e)
            | Ok _ => send_bootstrap tmp
            end
          else panic
      end
  end.

(** ** The manager of the receiver (manager.hh) *)
Record RingRecvCommon := mkCommon { rc_cq : Z; rc_alloc : Z }.
Record RingManager := mkManager {
  reg_comm : gmap (list Z) RingRecvCommon; reg_recv_entries : gmap (list Z) Z; reg_rings : gmap (list Z) MemBlock }.

Abbreviation MM := (M (W * RingManager)).

(** [Factory::reg] refuses a name that is taken. *)
Definition factory_reg {A} (name : list Z) (a : A) (m : gmap (list Z) A) : option (gmap (list Z) A) :=
  match m !! name with Some _ => None | None => Some (<[name := a]> m) end.

Definition set_entries x m := mkManager (reg_comm m) x (reg_rings m).
Definition set_rings x m := mkManager (reg_comm m) (reg_recv_entries m) x.

Definition wrong_arg : RingReply := mkReply WrongArg 0 0 (mkAttr 0 0 0).

(** A queue pair for the client with its receive entries and its ring. *)
Definition msg_ring_handler (req : RCReq) : MM RingReply :=
  if negb ((whether_create req =? 1) || negb (whether_create req =? 0)) then mret wrong_arg
  else
    nic ← onW (gets (fun w => query_nic w (nic_id req)));
    match nic with
    | None => mret wrong_arg
    | Some nic =>
        if negb ((whether_recv req =? 1) && (whether_create req =? 1)) then mret wrong_arg
        else
          m ← getX;
          let comm := reg_comm m !! rq_name_recv req in
          rc ← onW (rc_create nic (config req) (rc_cq <$> comm));
          rc ← unwrap rc;
          k ← onW (reg_qp (rq_name req) rc);
          match k with
          | None => mret wrong_arg
          | Some k =>
              r ← onW (rc_connect rc (rq_attr req));
              match r with
              | Err _ => _ ← onW (dereg_qp (rq_name req) k); mret wrong_arg
              | Ok _ =>
                  comm ← unwrap comm;
                  e ← onW (create_recv_entries (rc_alloc comm) 0);
                  es ← unwrap (factory_reg (rq_name req) e (reg_recv_entries m));
                  _ ← onX (set_entries es);
                  res ← onW (post_recvs rc e R);
                  if negb (is_Ok res) then panic
                  else
                    ring ← onW (alloc_one_for_remote (rc_alloc comm) (max_recv_sz req));
                    '(p, attr) ← unwrap ring;
                    m ← getX;
                    rs ← unwrap (factory_reg (rq_name req) (mkBlock p (u32 (max_recv_sz req))) (reg_rings m));
                    _ ← onX (set_rings rs);
                    _ ← onW (bind_local_mr rc attr);
                    reply ← onW (gets (fun w => fetch_qp_attr w req k));
                    '(st, a) ← unwrap reply;
                    mret (mkReply st a p attr)
              end
          end
    end.

(** ** The receiver (receiver.hh) *)
Record Receiver := mkReceiver { recv_cq : Z; num_wcs : Z; manager : RingManager; incoming_sessions : gmap Z Session }.
Abbreviation RM := (M (W * Receiver)).

Definition set_sessions x r := mkReceiver (recv_cq r) (num_wcs r) (manager r) x.

Definition new_receiver (cq : Z) (m : RingManager) : M W Receiver :=
  n ← gets (fun w => cqe w cq); if R <=? n then mret (mkReceiver cq n m ∅) else panic.

Definition reg_channel (s : Session) : RM bool :=
  r ← getX;
  match incoming_sessions r !! s_id s with
  | Some _ => mret false
  | None => _ ← onX (set_sessions (<[s_id s := s]> (incoming_sessions r))); mret true
  end.

(** [RecvFactory::create]. *)
Definition create_receiver (m : RingManager) (name : list Z) (cq alloc : Z) : M W (option Receiver) :=
  match factory_reg name (mkCommon cq alloc) (reg_comm m) with
  | None => mret None
  | Some comm => r ← new_receiver cq (mkManager comm (reg_recv_entries m) (reg_rings m)); mret (Some r)
  end.

(** Bytes of the receiver's memory. *)
Definition read_mem (a : Z) (n : nat) : M W (list Z) := fun w =>
  match copy_from_user (recv_mem w) a n with (l, 0) => Done (l, w) | _ => Panic end.

(** The session of a message; [None] when the message has created it. *)
Definition query_session (id n : Z) : RM (option Z) :=
  r ← getX;
  match incoming_sessions r !! id with
  | Some _ => mret (Some id)
  | None =>
      if negb (n =? bootstrap_size) then panic
      else
        mem ← unwrap (reg_rings (manager r) !! decimal id);
        ring ← lift (local_ring_of mem);
        '(m, temp_ring) ← unwrap (ring_cur_msg ring n);
        l ← onW (read_mem (mem_ptr m) (Z.to_nat bootstrap_size));
        let off := word_at 0 8 l in
        let attr := reg_attr_of (take reg_attr_size (skipn 8 l)) in
        if negb (word_at (8 + reg_attr_size) 4 l =? kMagic) then panic
        else
          q ← onW (gets (fun w => query_qp w (decimal id)));
          q ← unwrap q;
          e ← unwrap (reg_recv_entries (manager r) !! decimal id);
          s ← onW (receiver_session id q e off attr temp_ring);
          _ ← onX (set_sessions (<[id := s]> (incoming_sessions r)));
          mret None
  end.

(** A call of a session of the receiver. *)
Definition on_session {A} (id : Z) (m : SM A) : RM A := fun st =>
  match incoming_sessions (snd st) !! id with
  | None => Panic
  | Some s =>
      match m (fst st, s) with
      | Done (a, (w, s)) => Done (a, (w, set_sessions (<[id := s]> (incoming_sessions (snd st))) (snd st)))
      | Panic => Panic
      end
  end.

(** ** The iterator (mod.hh) *)
Record RingRecvIter := mkIter { wcs : list (bool * Z); idx : nat; s_ptr : option Z; msg_sz : Z }.
Abbreviation IM := (M (W * Receiver * RingRecvIter)).

Definition set_wcs x i := mkIter x (idx i) (s_ptr i) (msg_sz i).
Definition set_idx x i := mkIter (wcs i) x (s_ptr i) (msg_sz i).
Definition set_s_ptr x i := mkIter (wcs i) (idx i) x (msg_sz i).
Definition set_msg_sz x i := mkIter (wcs i) (idx i) (s_ptr i) x.

Definition has_msgs (i : RingRecvIter) : bool := (idx i <? length (wcs i))%nat.

(** [next] without the search for the following message. *)
Definition advance : IM unit :=
  i ← getX;
  s ← unwrap (s_ptr i);
  _ ← onW (on_session s update_recv_meta);
  onX (set_idx (idx i + 1)).

(** The loop of [fill_cur_msg].  For a message that has created its session, [next]
    runs, with a search of its own, and then the loop goes on; [None] is a loop that
    outlives its fuel. *)
Fixpoint fill_cur_msg (fuel : nat) : IM (option unit) :=
  match fuel with
  | O => mret None
  | S fuel =>
      i ← getX;
      if negb (has_msgs i) then mret (Some ())
      else
        wc ← unwrap (wcs i !! idx i);
        if negb (fst wc) then panic
        else
          let '(session_id, n) := decode (snd wc) in
          s ← onW (query_session session_id n);
          match s with
          | None =>
              s ← onW (query_session session_id n);
              s ← unwrap s;
              _ ← onX (set_s_ptr (Some s));
              _ ← advance;
              r ← fill_cur_msg fuel;
              match r with None => mret None | Some _ => fill_cur_msg fuel end
          | Some s =>
              _ ← onX (set_s_ptr (Some s));
              _ ← onX (set_msg_sz n);
              mret (Some ())
          end
  end.
Definition fill : IM unit := i ← getX; r ← fill_cur_msg (S (length (wcs i))); unwrap r.

Definition begin : IM unit :=
  r ← onW getX;
  l ← onW (onW (ibv_poll_cq (recv_cq r) (num_wcs r)));
  _ ← onX (fun i => set_wcs l (set_idx 0 i));
  fill.
Definition next : IM unit := _ ← advance; fill.
Definition iter_cur_msg : IM MemBlock :=
  i ← getX;
  s ← unwrap (s_ptr i);
  m ← onW (on_session s (cur_msg (msg_sz i)));
  unwrap m.
End ring.
