(* ===== verification/RingSafe.v ===== *)
(** * Delivery of ring messages

    What [RingMsg] promises its users: every message that is sent is received once,
    in order and as it was sent, as long as the bytes on the way fit the ring. *)

From S2P Require Import Prelude Bytes Guid IpAddr RingMsg.

#[local] Open Scope Z_scope.

(** ** Immediate data *)
Lemma bitmask_16 : bitmask 32 16 = Z.ones 16.
Proof. reflexivity. Qed.

Lemma decode_encode id n : in_width 16 id -> in_width 16 n -> decode (encode_id_sz id n) = (id, n).
Proof.
  intros Hid Hn. unfold decode, encode_id_sz. rewrite bitmask_16. unfold in_width in *.
  rewrite (wrap_small 32 id), Z.shiftl_mul_pow2 by (unfold in_width; lia). rewrite (wrap_small 32) by (unfold in_width; lia).
  rewrite Z.shiftr_lor, !Z.shiftr_div_pow2, Z.div_mul, (Z.div_small n), Z.lor_0_r by lia.
  rewrite Z.land_comm, Z.land_lor_distr_l, !Z.land_ones, Z.mod_mul, (Z.mod_small n), Z.lor_0_l by lia.
  by rewrite !wrap_small by (unfold in_width; lia).
Qed.

(** ** The wire

    What the sessions need of the library: [arrived] are the completions in a
    receive queue, [sq] tells for each post in a send queue whether it is signaled,
    [credit] counts the posted receive entries of a queue pair; the queue pair
    reaches the queue pair [peer], and in the receiver's memory the addresses from
    [base] on. *)
Class Wire (W : Type) `{RL : !Rlib W} := {
  arrived : W -> Z -> list Z;
  sq : W -> Z -> list bool;
  credit : W -> Z -> Z;
  base : W -> Z -> Z;
  peer : W -> Z -> Z;
  cq_of : W -> Z -> Z;
  recv_cap : W -> Z -> Z
}.

Section wire.
Context {W : Type} `{WI : Wire W}.

(** What no operation of a running session changes. *)
Record steady (w w' : W) : Prop := {
  st_peer q : peer w' q = peer w q;
  st_cq q : cq_of w' q = cq_of w q;
  st_cap q : recv_cap w' q = recv_cap w q;
  st_max q : max_send_sz w' q = max_send_sz w q;
  st_mr q : local_mr w' q = local_mr w q;
  st_qp n : query_qp w' n = query_qp w n;
  st_cqe c : cqe w' c = cqe w c }.

(** Only the send queue of [q], only the receive queue of [q], only what [q]
    reaches, or nothing of all that may change. *)
Record keeps (sends recvs bases : Z -> Prop) (w w' : W) : Prop := {
  kp_steady : steady w w';
  kp_mem : recv_mem w' = recv_mem w;
  kp_sq q : ~ sends q -> sq w' q = sq w q;
  kp_credit q : ~ recvs q -> credit w' q = credit w q;
  kp_base q : ~ bases q -> base w' q = base w q }.
Definition none (q : Z) : Prop := False.
Definition quiet (w w' : W) : Prop := keeps none none none w w' /\ forall c, arrived w' c = arrived w c.

(** A message [l] of queue pair [q] with the immediate data [imm] has come to [a]. *)
Record written (q : Z) (imm a : Z) (l : list Z) (w w' : W) : Prop := {
  wr_steady : steady w w';
  wr_mem : recv_mem w' = fst (copy_to_user (recv_mem w) a l);
  wr_arrived : arrived w' (cq_of w (peer w q)) = arrived w (cq_of w (peer w q)) ++ [imm];
  wr_sq q' : q' <> q -> sq w' q' = sq w q';
  wr_credit : credit w' (peer w q) = credit w (peer w q) - 1;
  wr_others q' : q' <> peer w q -> credit w' q' = credit w q';
  wr_base q' : base w' q' = base w q' }.
End wire.

(** The documented behaviour of the verbs: a write with immediate data needs a slot
    of the send queue, a receive entry at the peer, room in its completion queue and
    the memory; a completion frees the slots up to the first signaled post. *)
Class WireLaws (W : Type) `{WI : Wire W} : Prop := {
  send_law w q inl sg n p ra imm l :
    holds (qp_mem w q) p l -> n = Z.of_nat (length l) -> mapped (recv_mem w) (base w q + ra) (length l) ->
    Z.of_nat (length (sq w q)) < max_send_sz w q -> 0 < credit w (peer w q) ->
    Z.of_nat (length (arrived w (cq_of w (peer w q)))) < cqe w (cq_of w (peer w q)) ->
    wp (send_normal q inl sg n p ra imm) w (fun r w' =>
      r = Ok () /\ written q imm (base w q + ra) l w w' /\ sq w' q = sq w q ++ [sg]);
  wait_law w q f1 f2 :
    sq w q = f1 ++ true :: f2 -> Forall (eq false) f1 ->
    wp (wait_one_comp q) w (fun r w' =>
      r = Ok () /\ sq w' q = f2 /\ keeps (eq q) none none w w' /\ forall c, arrived w' c = arrived w c);
  post_recvs_law w q e n :
    0 <= n -> credit w q + n <= recv_cap w q ->
    wp (post_recvs q e n) w (fun r w' =>
      r = Ok () /\ credit w' q = credit w q + n /\ keeps none (eq q) none w w' /\ forall c, arrived w' c = arrived w c);
  bind_law w q attr :
    wp (bind_remote_mr q attr) w (fun _ w' => keeps none none (eq q) w w' /\ forall c, arrived w' c = arrived w c);
  poll_law w cq n :
    wp (ibv_poll_cq cq n) w (fun l w' => exists j,
      l = pair true <$> take j (arrived w cq) /\ arrived w' cq = drop j (arrived w cq) /\ keeps none none none w w');
  attr_law a : length (reg_attr_bytes a) = reg_attr_size
}.

Section deliver.
Context {W : Type} `{WL : WireLaws W} (R K Mx : Z).
Context (HR : 2 <= R < 2 ^ 32) (HK : 0 < Mx <= K) (HM : Mx < 65535) (HKM : K + Mx < 2 ^ 32) (Hboot : bootstrap_size <= Mx).

(** ** Messages on their way *)
Inductive entry :=
| Boot (id off : Z) (attr : RegAttr)
| Msg (id : Z) (l : list Z).

Definition e_id (e : entry) : Z := match e with Boot id _ _ | Msg id _ => id end.
Definition e_bytes (e : entry) : list Z := match e with Boot _ off attr => bootstrap_bytes off attr | Msg _ l => l end.
Definition e_len (e : entry) : Z := Z.of_nat (length (e_bytes e)).
Definition is_msg (e : entry) : Prop := match e with Msg _ _ => True | Boot _ _ _ => False end.
Definition imm_of (e : entry) : Z := encode_id_sz (e_id e) (e_len e).

Definition total (es : list entry) : Z := foldr (fun e n => e_len e + n) 0 es.

(** The entries in the ring at [p], the first at offset [t]. *)
Fixpoint placed (m : umem) (p t : Z) (es : list entry) : Prop :=
  match es with
  | [] => True
  | e :: es => holds m (p + t) (e_bytes e) /\ placed m p ((t + e_len e) mod K) es
  end.

Lemma e_len_nonneg e : 0 <= e_len e.
Proof. unfold e_len. lia. Qed.
Lemma total_nonneg es : 0 <= total es.
Proof. induction es as [|e es IH]; [done|]. cbn [total foldr]. fold (total es). pose proof (e_len_nonneg e). lia. Qed.
Lemma total_app es es' : total (es ++ es') = total es + total es'.
Proof. induction es as [|e es IH]; [done|]. cbn [total foldr app]. fold (total es) (total (es ++ es')). rewrite IH. lia. Qed.

(** The place behind the entries does not meet them. *)
Lemma placed_write m m' p t es n :
  0 <= t < K -> total es + Z.of_nat n <= K -> outside (p + (t + total es) mod K) n m m' ->
  placed m p t es -> placed m' p t es.
Proof.
  revert t. induction es as [|e es IH]; intros t Ht Hn Ho; [done|]. cbn [placed total foldr] in *.
  fold (total es) in *. pose proof (e_len_nonneg e). pose proof (total_nonneg es). intros [Hh Hp].
  set (x := e_len e + total es) in *. split.
  - eapply holds_outside; [exact Ho|exact Hh|]. fold (e_len e).
    destruct (Z_lt_le_dec (t + x) K) as [Hlt|Hge].
    + rewrite Z.mod_small by lia. left. unfold e_len in *. lia.
    + right. replace ((t + x) mod K) with (t + x - K); [lia|].
      apply Z.mod_unique with 1; lia.
  - apply IH; [apply Z.mod_pos_bound; lia|lia| |done]. rewrite Zplus_mod_idemp_l.
    replace (t + e_len e + total es) with (t + x) by lia. done.
Qed.

(** A write elsewhere. *)
Lemma placed_frame m m' p t es a n :
  0 <= t < K -> Forall (fun e => e_len e <= Mx) es -> outside a n m m' ->
  a + Z.of_nat n <= p \/ p + (K + Mx) <= a -> placed m p t es -> placed m' p t es.
Proof.
  intros Ht HF Ho Ha. revert t Ht. induction HF as [|e es He HF IH]; intros t Ht; [done|]. cbn [placed]. intros [Hh Hp].
  split; [|by apply IH; [apply Z.mod_pos_bound; lia|]]. eapply holds_outside; [exact Ho|exact Hh|]. unfold e_len in He. lia.
Qed.

Lemma placed_snoc m p t es e :
  0 <= t < K -> placed m p t es -> holds m (p + (t + total es) mod K) (e_bytes e) -> placed m p t (es ++ [e]).
Proof.
  revert t. induction es as [|e' es IH]; intros t Ht; cbn [placed app total foldr].
  - intros _. by rewrite Z.add_0_r, Z.mod_small.
  - fold (total es). intros [Hh Hp] He. split; [done|]. apply IH; [apply Z.mod_pos_bound; lia|done|].
    rewrite Zplus_mod_idemp_l. by replace (t + e_len e' + total es) with (t + (e_len e' + total es)) by lia.
Qed.
(** ** Sending *)
Definition falses : list bool -> Prop := Forall (eq false).

(** The send queue of a session of depth [d] with [p] sends since the signaled one:
    after a round it holds the unsignaled posts of that round at most. *)
Definition sq_ok (d p : Z) (l : list bool) : Prop :=
  (p = 0 /\ falses l /\ Z.of_nat (length l) <= d) \/
  (0 < p <= d /\ exists f1 f2, l = f1 ++ true :: f2 /\ falses f1 /\ falses f2 /\
     Z.of_nat (length f1) <= d /\ Z.of_nat (length f2) <= p - 1).

Lemma sq_ok_bound d p l : sq_ok d p l -> Z.of_nat (length l) <= 2 * d.
Proof. intros [(_ & _ & ?)|(? & f1 & f2 & -> & _ & _ & ? & ?)]; [lia|]. rewrite length_app. cbn. lia. Qed.

(** What a send of [e] needs, the next place being [a]. *)
Record sendable (w : W) (s : Session) (e : entry) (a p : Z) : Prop := {
  sd_id : s_id s = e_id e;
  sd_bytes : holds (qp_mem w (qp s)) p (e_bytes e);
  sd_len : e_len e <= Mx;
  sd_tail : 0 <= r_tailer (remote_ring s) < K;
  sd_base : 0 <= base_addr (remote_ring s) /\ base_addr (remote_ring s) + (K + Mx) < 2 ^ 32;
  sd_addr : base w (qp s) + base_addr (remote_ring s) + r_tailer (remote_ring s) = a;
  sd_mapped : mapped (recv_mem w) a (length (e_bytes e));
  sd_sq : sq_ok (send_depth s) (pending_sends s) (sq w (qp s));
  sd_depth : in_width 32 (send_depth s) /\ 2 * send_depth s < max_send_sz w (qp s);
  sd_credit : 0 < credit w (peer w (qp s));
  sd_room : Z.of_nat (length (arrived w (cq_of w (peer w (qp s))))) < cqe w (cq_of w (peer w (qp s))) }.

(** What it does. *)
Record sent_one (w : W) (s : Session) (e : entry) (a : Z) (w' : W) (s' : Session) : Prop := {
  sn_written : written (qp s) (imm_of e) a (e_bytes e) w w';
  sn_sq : sq_ok (send_depth s) (pending_sends s') (sq w' (qp s));
  sn_session : s' = set_pending (pending_sends s') (set_remote
    (mkRemote ((r_tailer (remote_ring s) + e_len e) mod K) (base_addr (remote_ring s)) (mem_key (remote_ring s))) s) }.

Lemma written_keeps q imm a l w w' w'' :
  written q imm a l w w' -> keeps (eq q) none none w' w'' -> (forall c, arrived w'' c = arrived w' c) -> written q imm a l w w''.
Proof.
  intros [[] ] [[] ] Ha. constructor; [constructor; congruence|congruence|by rewrite Ha| | |..].
  - intros q' Hq. rewrite kp_sq0 by congruence. auto.
  - by rewrite kp_credit0 by intros [].
  - intros q' Hq. rewrite kp_credit0 by intros []. auto.
  - intros q'. by rewrite kp_base0 by intros [].
Qed.

Lemma post_wp w s e a p sg :
  sendable w s e a p ->
  wp (post_message K (mkBlock p (e_len e)) sg) (w, s) (fun r ws =>
    r = Ok () /\ written (qp s) (imm_of e) a (e_bytes e) w (fst ws) /\ sq (fst ws) (qp s) = sq w (qp s) ++ [sg] /\
    snd ws = set_remote (mkRemote ((r_tailer (remote_ring s) + e_len e) mod K) (base_addr (remote_ring s)) (mem_key (remote_ring s))) s).
Proof.
  intros [Hid Hp Hl Ht [Hb Hb'] Ha Hm Hq [Hd Hd'] Hc Hr]. unfold post_message, next_addr. wsteps. cbn [sz mem_ptr].
  pose proof (e_len_nonneg e). rewrite !wrap_small by (unfold in_width; lia).
  wsteps. rewrite Z.rem_mod_nonneg by lia. cbn [qp set_remote].
  eapply wp_mono; [apply (send_law w (qp s) _ sg (e_len e) p _ _ (e_bytes e)); try done|].
  - by replace (base w (qp s) + (r_tailer (remote_ring s) + base_addr (remote_ring s))) with a by lia.
  - apply sq_ok_bound in Hq. lia.
  - intros r w' (-> & Hw & Hs). cbn [fst snd]. split_and!; [done| |done|done].
    replace (base w (qp s) + (r_tailer (remote_ring s) + base_addr (remote_ring s))) with a in Hw by lia.
    unfold imm_of. rewrite <- Hid. exact Hw.
Qed.

(** Both ways to send. *)
Lemma send_blocking_wp w s e a p :
  sendable w s e a p ->
  wp (send_blocking K (mkBlock p (e_len e))) (w, s) (fun r ws => r = Ok () /\ sent_one w s e a (fst ws) (snd ws)).
Proof.
  intros H. unfold send_blocking. wsteps. eapply wp_mono; [by apply post_wp|].
  intros r [w1 s1] (-> & Hw & Hs & Hs1). cbn [fst snd] in *. wsteps.
  assert (exists f1 f2, sq w1 (qp s) = f1 ++ true :: f2 /\ falses f1 /\ sq_ok (send_depth s) (pending_sends s) f2)
    as (f1 & f2 & Hq & Hf1 & Hf2).
  { rewrite Hs. destruct (sd_sq _ _ _ _ _ H) as [(Hp & Hf & Hl)|(Hp & f1 & f2 & -> & Hf1 & Hf2 & ? & ?)].
    - exists (sq w (qp s)), []. split_and!; [done|done|]. left. split_and!; [done|constructor|cbn; lia].
    - exists f1, (f2 ++ [true]). rewrite <- app_assoc. split_and!; [done|done|]. right. split; [done|].
      exists f2, []. split_and!; [done|done|constructor|lia|cbn; lia]. }
  eapply wp_mono; [by apply (wait_law w1 (qp s) f1 f2)|].
  intros r w2 (-> & Hq2 & Hk & Ha). subst s1. split; [done|]. constructor; cbn [fst snd pending_sends set_remote].
  - by eapply written_keeps.
  - by rewrite Hq2.
  - by destruct s.
Qed.

Lemma send_unsignaled_wp w s e a p :
  sendable w s e a p ->
  wp (send_unsignaled K (mkBlock p (e_len e))) (w, s) (fun r ws => r = Ok () /\ sent_one w s e a (fst ws) (snd ws)).
Proof.
  intros H. unfold send_unsignaled. wsteps. eapply wp_mono; [by apply post_wp|].
  intros r [w1 s1] (-> & Hw & Hs & Hs1). cbn [fst snd] in *. wsteps. pose proof (sd_depth _ _ _ _ _ H) as [Hd Hd'].
  destruct (sd_sq _ _ _ _ _ H) as [(Hp & Hf & Hl)|(Hp & f1 & f2 & Hq & Hf1 & Hf2 & Hl1 & Hl2)].
  - rewrite Hp in *. change (0 =? 0) with true in Hs. destruct (Z.leb_spec (send_depth s) 0); wsteps.
    + eapply wp_mono; [by apply (wait_law w1 (qp s) (sq w (qp s)) [])|].
      intros r w2 (-> & Hq2 & Hk & Ha). cbn [is_Ok]. wsteps. subst s1. split; [done|]. constructor; cbn [fst snd pending_sends set_pending].
      * by eapply written_keeps.
      * rewrite Hq2. left. split_and!; [done|constructor|cbn; unfold in_width in Hd; lia].
      * by destruct s.
    + subst s1. split; [done|]. constructor; cbn [fst snd pending_sends set_pending]; [done| |by destruct s].
      rewrite Hs. right. change (u32 (0 + 1)) with 1. split; [lia|]. exists (sq w (qp s)), []. split_and!; [done..|constructor|lia|cbn; lia].
  - replace (pending_sends s =? 0) with false in Hs by lia. rewrite Hq, <- app_assoc in Hs.
    destruct (Z.leb_spec (send_depth s) (pending_sends s)); wsteps.
    + eapply wp_mono; [by apply (wait_law w1 (qp s) f1 (f2 ++ [false]))|].
      intros r w2 (-> & Hq2 & Hk & Ha). cbn [is_Ok]. wsteps. subst s1. split; [done|]. constructor; cbn [fst snd pending_sends set_pending].
      * by eapply written_keeps.
      * rewrite Hq2. left. split_and!; [done| |rewrite length_app; cbn; lia]. apply Forall_app. split; [done|by repeat constructor].
      * by destruct s.
    + subst s1. split; [done|]. rewrite wrap_small by (unfold in_width in *; lia).
      constructor; cbn [fst snd pending_sends set_pending]; [done| |by destruct s].
      rewrite Hs. right. split; [lia|]. exists f1, (f2 ++ [false]). split_and!; [done|done| |lia|rewrite length_app; cbn; lia].
      apply Forall_app. split; [done|by repeat constructor].
Qed.
(** ** A session and its peer *)

(** What connecting a session has left behind: the queue pairs of the two ends, the
    receive entries and the ring of the receiver, and its offset in the region. *)
Record link := mkLink { sqp : Z; rqp : Z; rents : Z; ring_at : Z; off : Z }.

Context (CQ : Z) (MG : RingManager) (L : gmap Z link).

Record linked (w : W) (id : Z) (k : link) : Prop := {
  lk_id : in_width 16 id;
  lk_ring : reg_rings MG !! decimal id = Some (mkBlock (ring_at k) (K + Mx));
  lk_entries : reg_recv_entries MG !! decimal id = Some (rents k);
  lk_qp : query_qp w (decimal id) = Some (rqp k);
  lk_peer : peer w (sqp k) = rqp k;
  lk_cq : cq_of w (rqp k) = CQ;
  lk_off : 0 <= off k /\ off k + (K + Mx) < 2 ^ 32;
  lk_base : base w (sqp k) + off k = ring_at k;
  lk_mapped : mapped (recv_mem w) (ring_at k) (Z.to_nat (K + Mx));
  lk_cap : R <= recv_cap w (rqp k) }.

(** The sessions do not share queue pairs or memory. *)
Definition apart : Prop := forall id id' k k', L !! id = Some k -> L !! id' = Some k' ->
  rqp k <> sqp k' /\
  (id <> id' -> sqp k <> sqp k' /\ rqp k <> rqp k' /\
     (ring_at k + (K + Mx) <= ring_at k' \/ ring_at k' + (K + Mx) <= ring_at k)).

(** Where the receiver is in its ring. *)
Definition tail_of (o : option Session) : Z := match o with Some rs => l_tailer (local_ring rs) | None => 0 end.

Definition idle_ok (n : Z) : Prop := n = 0 \/ 0 < n < R / 2.

(** The receiver's session [o] with the entries [qs] on their way; without a session
    the first of them is the bootstrap message. *)
Definition received (w : W) (k : link) (qs : list entry) (o : option Session) : Prop :=
  match o with
  | Some rs =>
      qp rs = rqp k /\ recv_entries rs = rents k /\ local_mem (local_ring rs) = mkBlock (ring_at k) (K + Mx) /\
      0 <= l_tailer (local_ring rs) < K /\ idle_ok (idle_recv_entries rs) /\
      credit w (rqp k) + Z.of_nat (length qs) + idle_recv_entries rs = R /\ Forall is_msg qs
  | None =>
      credit w (rqp k) + Z.of_nat (length qs) = R /\
      match qs with [] => True | e :: qs => ~ is_msg e /\ Forall is_msg qs end
  end.

Record session_ok (w : W) (id : Z) (k : link) (s : Session) (o : option Session) (qs : list entry) : Prop := {
  so_link : linked w id k;
  so_sender : qp s = sqp k /\ s_id s = id /\ base_addr (remote_ring s) = off k;
  so_sq : sq_ok (send_depth s) (pending_sends s) (sq w (sqp k));
  so_depth : in_width 32 (send_depth s) /\ 2 * send_depth s < max_send_sz w (sqp k);
  so_mr : exists attr x, local_mr w (sqp k) = Some attr /\ convert_to_rdma_addr (local_ring s) attr = Done x;
  so_tail : r_tailer (remote_ring s) = (tail_of o + total qs) mod K;
  so_total : total qs <= K;
  so_lens : Forall (fun e => e_len e <= Mx) qs;
  so_placed : placed (recv_mem w) (ring_at k) (tail_of o) qs;
  so_received : received w k qs o }.

Lemma tail_of_range w k qs o : received w k qs o -> 0 <= tail_of o < K.
Proof. destruct o as [rs|]; cbn; [tauto|lia]. Qed.

Lemma linked_steady w w' id k :
  steady w w' -> base w' (sqp k) = base w (sqp k) -> dom (recv_mem w') = dom (recv_mem w) -> linked w id k -> linked w' id k.
Proof. intros [] Hb Hd []. constructor; try congruence. by eapply mapped_dom. Qed.

Lemma received_credit w w' k qs o : credit w' (rqp k) = credit w (rqp k) -> received w k qs o -> received w' k qs o.
Proof. unfold received. by intros ->. Qed.

(** A change that spares the session. *)
Lemma session_frame w w' id k s o qs :
  steady w w' -> base w' (sqp k) = base w (sqp k) -> dom (recv_mem w') = dom (recv_mem w) ->
  sq w' (sqp k) = sq w (sqp k) -> credit w' (rqp k) = credit w (rqp k) ->
  (placed (recv_mem w) (ring_at k) (tail_of o) qs -> placed (recv_mem w') (ring_at k) (tail_of o) qs) ->
  session_ok w id k s o qs -> session_ok w' id k s o qs.
Proof.
  intros Hs Hb Hd Hq Hc Hp []. constructor; try done.
  - by eapply linked_steady.
  - by rewrite Hq.
  - by rewrite (st_max _ _ Hs).
  - by rewrite (st_mr _ _ Hs).
  - auto.
  - by eapply received_credit.
Qed.

Lemma session_keeps a b c w w' id k s o qs :
  keeps a b c w w' -> ~ a (sqp k) -> ~ b (rqp k) -> ~ c (sqp k) -> session_ok w id k s o qs -> session_ok w' id k s o qs.
Proof. intros [] ? ? ?. apply session_frame; auto; by rewrite kp_mem0. Qed.

(** The next place of the ring. *)
Lemma place_mapped w id k t n :
  linked w id k -> 0 <= t < K -> Z.of_nat n <= Mx -> mapped (recv_mem w) (ring_at k + t) n.
Proof. intros [] ? ?. eapply mapped_sub; [done|lia..]. Qed.

(** The entry [e] may follow: its bytes fit, and a receive entry is left. *)
Definition fits (qs : list entry) (o : option Session) (e : entry) : Prop :=
  total qs + e_len e <= K /\ e_len e <= Mx /\ Z.of_nat (length qs) <= R - R / 2 /\
  match o, qs with
  | None, [] => ~ is_msg e
  | _, _ => is_msg e
  end.

Lemma fits_credit w k qs o e : received w k qs o -> fits qs o e -> 0 < credit w (rqp k).
Proof.
  intros Hr (_ & _ & Hn & _). assert (1 <= R / 2) by (apply Z.div_le_lower_bound; lia).
  assert (R / 2 < R) by (apply Z.div_lt; lia).
  destruct o as [rs|]; cbn in Hr; destruct Hr as (Hr & Hr').
  - destruct Hr' as (_ & _ & _ & Hi & Hc & _). unfold idle_ok in Hi. lia.
  - lia.
Qed.

Lemma session_push w w' id k s s' o qs e a :
  session_ok w id k s o qs -> fits qs o e -> a = ring_at k + r_tailer (remote_ring s) ->
  sent_one w s e a w' s' -> session_ok w' id k s' o (qs ++ [e]).
Proof.
  intros [] (Hf & Hl & Hn & Ho) -> [[] Hq Hs]. destruct so_sender0 as (Hqp & Hid & Hb).
  pose proof (tail_of_range _ _ _ _ so_received0) as Ht.
  assert (0 <= r_tailer (remote_ring s) < K) by (rewrite so_tail0; apply Z.mod_pos_bound; lia).
  destruct (copy_to_user_mapped (recv_mem w) (ring_at k + r_tailer (remote_ring s)) (e_bytes e)) as (m' & Hm & Hh & Hout & Hd).
  { by eapply place_mapped. }
  rewrite Hm in wr_mem0. cbn [fst] in wr_mem0. rewrite so_tail0 in Hout, Hh.
  constructor.
  - eapply linked_steady; [done|auto|by rewrite wr_mem0|done].
  - rewrite Hs. by destruct s.
  - rewrite Hs at 1. cbn. by rewrite <- Hqp.
  - rewrite Hs, (st_max _ _ wr_steady0). by destruct s.
  - rewrite Hs, (st_mr _ _ wr_steady0). by destruct s.
  - rewrite Hs. cbn. rewrite so_tail0, Zplus_mod_idemp_l, total_app. cbn. f_equal. lia.
  - rewrite total_app. cbn. lia.
  - apply Forall_app. split; [done|by constructor].
  - rewrite wr_mem0. apply placed_snoc; [done| |done]. by eapply placed_write.
  - unfold received in *. rewrite length_app. cbn [length]. rewrite Hqp, (lk_peer _ _ _ so_link0) in wr_credit0.
    destruct o as [rs|]; [|destruct qs as [|e' qs]].
    + destruct so_received0 as (? & ? & ? & ? & ? & ? & ?). split_and!; try (done || lia). apply Forall_app. split; [done|by constructor].
    + destruct so_received0. split; [lia|done].
    + destruct so_received0 as (? & ? & ?). split; [lia|]. cbn. split; [done|]. apply Forall_app. split; [done|by constructor].
Qed.

(** The sends of another session. *)
Lemma session_other w w' id id' k k' s s1 s' o qs e a :
  apart -> L !! id = Some k -> L !! id' = Some k' -> id <> id' -> e_len e <= Mx ->
  0 <= r_tailer (remote_ring s1) < K -> qp s1 = sqp k' -> linked w id' k' -> a = ring_at k' + r_tailer (remote_ring s1) ->
  sent_one w s1 e a w' s' -> session_ok w id k s o qs -> session_ok w' id k s o qs.
Proof.
  intros HA Hk Hk' Hne Hl Ht Hqp Hlk -> [[] _ _] Hok. destruct (HA _ _ _ _ Hk Hk') as [_ Hx]. destruct (Hx Hne) as (Hs & Hr & Hd).
  destruct (copy_to_user_mapped (recv_mem w) (ring_at k' + r_tailer (remote_ring s1)) (e_bytes e)) as (m' & Hm & _ & Hout & Hdom).
  { by eapply place_mapped. }
  rewrite Hm in wr_mem0. cbn [fst] in wr_mem0. rewrite Hqp, (lk_peer _ _ _ Hlk) in *.
  apply (session_frame w); auto; rewrite wr_mem0; [done|].
  destruct Hok. apply (placed_frame _ _ _ _ _ _ _ ltac:(by eapply tail_of_range) so_lens0 Hout).
  unfold e_len in Hl. lia.
Qed.
(** ** Receiving *)

(** A session of the receiver that has read [e] and not yet given back its entry. *)
Definition past (w : W) (k : link) (o : option Session) (e : entry) (qs : list entry) (rs : Session) : Prop :=
  qp rs = rqp k /\ recv_entries rs = rents k /\
  local_ring rs = mkLocal (mkBlock (ring_at k) (K + Mx)) ((tail_of o + e_len e) mod K) /\ idle_ok (idle_recv_entries rs) /\
  credit w (rqp k) + Z.of_nat (length (e :: qs)) + idle_recv_entries rs = R /\ Forall is_msg qs.

Definition undisturbed (w w' : W) : Prop := forall c, arrived w' c = arrived w c.

Lemma keeps_refl a b c w : keeps a b c w w.
Proof. constructor; auto. by constructor. Qed.

Lemma session_retire w w' id k s o e qs rs :
  session_ok w id k s o (e :: qs) -> keeps none (eq (rqp k)) none w w' ->
  tail_of (Some rs) = (tail_of o + e_len e) mod K -> received w' k qs (Some rs) -> session_ok w' id k s (Some rs) qs.
Proof.
  intros [] [Hst Hm Hsq _ Hb] Ht Hr. apply Forall_cons in so_lens0 as [? ?]. destruct so_placed0 as [_ Hp].
  pose proof (e_len_nonneg e). change (total (e :: qs)) with (e_len e + total qs) in *.
  rewrite <- (Hsq (sqp k)) in so_sq0 by by intros []. constructor; try done.
  - apply (linked_steady w); [done|by apply Hb; intros []|by rewrite Hm|done].
  - by rewrite (st_max _ _ Hst).
  - by rewrite (st_mr _ _ Hst).
  - rewrite so_tail0, Ht, Zplus_mod_idemp_l. f_equal. lia.
  - lia.
  - by rewrite Hm, Ht.
Qed.

Lemma consume_wp w id k s o e qs rs :
  session_ok w id k s o (e :: qs) -> past w k o e qs rs ->
  wp (update_recv_meta R) (w, rs) (fun _ wr =>
    session_ok (fst wr) id k s (Some (snd wr)) qs /\ keeps none (eq (rqp k)) none w (fst wr) /\ undisturbed w (fst wr)).
Proof.
  intros Hok (Hq & He & Hl & Hi & Hc & Hm). pose proof (tail_of_range _ _ _ _ (so_received _ _ _ _ _ _ Hok)) as Ht.
  assert (R / 2 < R) by (apply Z.div_lt; lia). cbn [length] in Hc. unfold idle_ok in Hi.
  assert (0 <= (tail_of o + e_len e) mod K < K) by (apply Z.mod_pos_bound; lia).
  unfold update_recv_meta, consume_one. wsteps. rewrite (wrap_small 32) by (unfold in_width; lia).
  destruct (Z.leb_spec (R / 2) (idle_recv_entries rs + 1)); wsteps; cbn [fst snd].
  - rewrite Hq, He. eapply wp_mono.
    { apply post_recvs_law; [lia|]. pose proof (lk_cap _ _ _ (so_link _ _ _ _ _ _ Hok)). lia. }
    intros r w' (-> & Hc' & Hk & Ha). cbn [is_Ok]. wsteps. split_and!; [|done|done].
    apply (session_retire _ _ _ _ _ _ _ _ _ Hok Hk); [cbn; by rewrite Hl|].
    cbn. rewrite Hl. cbn. split_and!; try (done || lia). by left.
  - split_and!; [|apply keeps_refl|done]. apply (session_retire _ _ _ _ _ _ _ _ _ Hok (keeps_refl _ _ _ _)); [cbn; by rewrite Hl|].
    cbn. rewrite Hl. cbn. split_and!; try (done || lia). right. lia.
Qed.

(** ** The receiver *)
Definition of_id (id : Z) : list entry -> list entry := filter (fun e => e_id e = id).
Definition msgs : list entry -> list (Z * list Z) := omap (fun e => match e with Msg id l => Some (id, l) | Boot _ _ _ => None end).
Definition boots : list entry -> list Z := omap (fun e => match e with Boot id _ _ => Some id | Msg _ _ => None end).

Lemma of_id_here e Q : of_id (e_id e) (e :: Q) = e :: of_id (e_id e) Q.
Proof. unfold of_id. by rewrite filter_cons_True. Qed.
Lemma of_id_other id e Q : e_id e <> id -> of_id id (e :: Q) = of_id id Q.
Proof. intros H. unfold of_id. by rewrite filter_cons_False. Qed.

(** The receiver [r] with the iterator [it] and the entries [Q] in the order of their
    arrival; [ss] are the sessions of the senders, [B] those that are bootstrapped. *)
Record core (ss : gmap Z Session) (B : gset Z) (Q : list entry) (w : W) (r : Receiver) (it : RingRecvIter) : Prop := {
  co_cq : recv_cq r = CQ;
  co_mg : manager r = MG;
  co_dom : Forall (fun e => is_Some (L !! e_id e)) Q;
  co_sessions id k : L !! id = Some k ->
    exists s, ss !! id = Some s /\ session_ok w id k s (incoming_sessions r !! id) (of_id id Q);
  co_booted id : id ∈ B <-> is_Some (incoming_sessions r !! id) \/ of_id id Q <> [];
  co_boots : NoDup (boots Q);
  co_status : Forall (fun c => fst c = true) (drop (idx it) (wcs it));
  co_imms : (snd <$> drop (idx it) (wcs it)) ++ arrived w CQ = imm_of <$> Q }.

Lemma wp_on_session {A} id (m : M (W * Session) A) w r s Q :
  incoming_sessions r !! id = Some s ->
  wp m (w, s) (fun a ws => Q a (fst ws, set_sessions (<[id := snd ws]> (incoming_sessions r)) r)) -> wp (on_session id m) (w, r) Q.
Proof. intros Hs. unfold wp, on_session. cbn [fst snd]. rewrite Hs. by destruct (m (w, s)) as [[a [w' s']]|]. Qed.

(** The completion the iterator is at. *)
Lemma core_head ss B Q w r it :
  core ss B Q w r it -> has_msgs it = true ->
  exists e Q' c rest, Q = e :: Q' /\ wcs it !! idx it = Some c /\ drop (idx it) (wcs it) = c :: rest /\
    fst c = true /\ decode (snd c) = (e_id e, e_len e).
Proof.
  intros [] Hh. apply Nat.ltb_lt in Hh. destruct (lookup_lt_is_Some_2 _ _ Hh) as [c Hc].
  rewrite (drop_S _ _ _ Hc) in co_status0, co_imms0. destruct Q as [|e Q]; [done|]. injection co_imms0 as Hi _.
  apply Forall_cons in co_status0 as [Hs _]. apply Forall_cons in co_dom0 as [[k Hk] _].
  destruct (co_sessions0 _ _ Hk) as (s & _ & Hok). rewrite of_id_here in Hok. destruct Hok.
  apply Forall_cons in so_lens0 as [Hl _]. pose proof (e_len_nonneg e).
  exists e, Q, c, (drop (S (idx it)) (wcs it)). split_and!; [done|done|by apply drop_S|done|].
  rewrite Hi. unfold imm_of. rewrite decode_encode; [done|by destruct so_link0|unfold in_width; lia].
Qed.

(** Giving back the receive entry of the first entry. *)
Lemma advance_wp ss B e Q w r it rs k :
  apart -> core ss B (e :: Q) w r it -> has_msgs it = true -> L !! e_id e = Some k -> s_ptr it = Some (e_id e) ->
  past w k (incoming_sessions r !! e_id e) e (of_id (e_id e) Q) rs ->
  wp (advance R) ((w, set_sessions (<[e_id e := rs]> (incoming_sessions r)) r), it) (fun _ st =>
    core ss B Q (fst (fst st)) (snd (fst st)) (snd st) /\ wcs (snd st) = wcs it /\ idx (snd st) = S (idx it)).
Proof.
  intros HA Hco Hh Hk Hs Hp. destruct (core_head _ _ _ _ _ _ Hco Hh) as (e' & Q' & c & rest & [= <- <-] & Hc & Hd & _ & _).
  destruct Hco. apply Forall_cons in co_dom0 as [_ Hdom]. destruct (co_sessions0 _ _ Hk) as (s & Hss & Hok).
  rewrite of_id_here in Hok. unfold advance. wsteps. rewrite Hs. wsteps.
  eapply wp_on_session; [apply lookup_insert_eq|]. eapply wp_mono; [exact (consume_wp _ _ _ _ _ _ _ _ Hok Hp)|].
  intros [] [w' rs'] (Hok' & Hkp & Hq). wsteps. cbn [fst snd incoming_sessions set_sessions recv_cq num_wcs manager] in *.
  split_and!; [|by destruct it|destruct it; cbn; lia]. rewrite Hd in co_status0, co_imms0.
  rewrite insert_insert_eq. constructor; cbn [recv_cq manager incoming_sessions set_sessions idx wcs set_idx]; try done.
  - intros id k' Hk'. destruct (decide (id = e_id e)) as [->|Hne].
    + exists s. simplify_eq. rewrite lookup_insert_eq. done.
    + destruct (co_sessions0 _ _ Hk') as (s' & Hss' & Hok2). exists s'. rewrite lookup_insert_ne by done.
      rewrite of_id_other in Hok2 by done. split; [done|]. eapply session_keeps; [exact Hkp|by intros []| |by intros []|done].
      destruct (HA _ _ _ _ Hk Hk') as [_ Hx]. destruct Hx as (_ & ? & _); done.
  - intros id. rewrite co_booted0. destruct (decide (id = e_id e)) as [->|Hne].
    + rewrite lookup_insert_eq, of_id_here. naive_solver.
    + by rewrite lookup_insert_ne, of_id_other.
  - unfold boots in *. destruct e; [by apply NoDup_cons in co_boots0 as []|done].
  - rewrite <- drop_drop, Hd. by apply Forall_cons in co_status0 as [_ ?].
  - rewrite <- drop_drop, Hd, Hq. by injection co_imms0.
Qed.
(** The bootstrap message. *)
Lemma boot_len id x attr : e_len (Boot id x attr) = bootstrap_size.
Proof. unfold e_len. cbn [e_bytes]. unfold bootstrap_bytes. rewrite !length_app, !le_length, attr_law. unfold bootstrap_size. lia. Qed.

Lemma boot_magic x attr : word_at (8 + reg_attr_size) 4 (bootstrap_bytes x attr) = kMagic.
Proof.
  unfold bootstrap_bytes. rewrite <- (app_nil_r (le 4 kMagic)), app_assoc.
  replace (8 + reg_attr_size)%nat with (length (le 8 x ++ reg_attr_bytes attr)) by by rewrite length_app, le_length, attr_law.
  by rewrite word_at_le.
Qed.

Lemma core_keeps ss B Q w w' r it c :
  core ss B Q w r it -> keeps none none c w w' -> undisturbed w w' -> (forall id k, L !! id = Some k -> ~ c (sqp k)) -> core ss B Q w' r it.
Proof.
  intros [] Hk Hu Hc. constructor; try done.
  - intros id k HL. destruct (co_sessions0 _ _ HL) as (s & Hs & Hok). exists s. split; [done|].
    eapply session_keeps; [exact Hk|by intros []|by intros []|by eapply Hc|done].
  - by rewrite Hu.
Qed.

(** The session is created from its bootstrap message. *)
Lemma open_wp ss B e Q w r it k :
  apart -> core ss B (e :: Q) w r it -> L !! e_id e = Some k -> incoming_sessions r !! e_id e = None ->
  wp (query_session K (e_id e) (e_len e)) (w, r) (fun o wr => o = None /\ exists rs,
    snd wr = set_sessions (<[e_id e := rs]> (incoming_sessions r)) r /\
    past (fst wr) k None e (of_id (e_id e) Q) rs /\ core ss B (e :: Q) (fst wr) r it).
Proof.
  intros HA Hco Hk Hn. destruct (co_sessions _ _ _ _ _ _ Hco _ _ Hk) as (s & Hs & Hok). rewrite Hn, of_id_here in Hok.
  destruct Hok. destruct so_received0 as (Hc & He & Hm). destruct so_placed0 as [Hh _]. cbn [tail_of] in Hh.
  destruct e as [id x attr|]; [clear He|by destruct He]. rewrite boot_len. cbn [e_id] in *.
  pose proof (boot_len id x attr) as Hbl. unfold e_len in Hbl. pose proof (e_len_nonneg (Boot id x attr)) as Hz. rewrite boot_len in Hz.
  unfold query_session. wsteps. rewrite Hn, Z.eqb_refl. cbn [negb]. rewrite (co_mg _ _ _ _ _ _ Hco), (lk_ring _ _ _ so_link0).
  wsteps. unfold local_ring_of. cbn [sz]. rewrite (proj2 (Z.leb_le K (K + Mx))) by lia. wsteps.
  unfold ring_cur_msg. cbn [local_mem l_tailer sz mem_ptr]. rewrite Z.add_0_r, Z.add_0_l, !(wrap_small 32) by (unfold in_width; lia).
  rewrite (proj2 (Z.ltb_ge (K + Mx) bootstrap_size)) by lia. wsteps. unfold wp at 1, read_mem. cbn [mem_ptr e_bytes] in *.
  replace (Z.to_nat bootstrap_size) with (length (bootstrap_bytes x attr)) by lia. rewrite (copy_from_user_holds _ _ _ Hh).
  rewrite boot_magic, Z.eqb_refl. cbn [negb]. wsteps. rewrite (lk_qp _ _ _ so_link0). wsteps.
  rewrite (lk_entries _ _ _ so_link0). wsteps. unfold receiver_session. wsteps.
  eapply wp_mono; [apply bind_law|]. intros [] w' [Hkp Hu]. wsteps. split; [done|]. eexists. split; [done|]. cbn [fst snd]. split.
  - unfold past. cbn [qp recv_entries local_ring idle_recv_entries tail_of]. rewrite Z.add_0_l, boot_len, Z.rem_mod_nonneg by lia.
    rewrite (kp_credit _ _ _ _ _ Hkp) by intros []. split_and!; try done; [by left|lia].
  - eapply core_keeps; [done..|]. intros id' k' Hk' Hx. by destruct (HA _ _ _ _ Hk Hk').
Qed.

(** The iterator is at a message of a session it knows, if at any. *)
Definition ready (Q : list entry) (r : Receiver) (it : RingRecvIter) : Prop :=
  has_msgs it = true -> exists id l Q', Q = Msg id l :: Q' /\ s_ptr it = Some id /\ msg_sz it = e_len (Msg id l) /\
    is_Some (incoming_sessions r !! id).

Lemma known_msg ss B e Q w r it : core ss B (e :: Q) w r it -> is_Some (incoming_sessions r !! e_id e) -> is_msg e.
Proof.
  intros [] [rs Hrs]. apply Forall_cons in co_dom0 as [[k Hk] _]. destruct (co_sessions0 _ _ Hk) as (s & _ & Hok).
  rewrite of_id_here, Hrs in Hok. destruct Hok. destruct so_received0 as (_ & _ & _ & _ & _ & _ & Hm). by apply Forall_cons in Hm as [].
Qed.

Lemma core_ptr ss B Q w r it it' : wcs it' = wcs it -> idx it' = idx it -> core ss B Q w r it -> core ss B Q w r it'.
Proof. intros Hw Hi []. constructor; try done; by rewrite Hw, Hi. Qed.

Lemma known_wp id n w r Q : is_Some (incoming_sessions r !! id) -> Q (Some id) (w, r) -> wp (query_session K id n) (w, r) Q.
Proof. intros [rs Hrs] HQ. unfold query_session. wsteps. rewrite Hrs. by wsteps. Qed.

Lemma fill_wp fuel ss B Q w r it :
  apart -> core ss B Q w r it -> (length (wcs it) - idx it < fuel)%nat ->
  wp (fill_cur_msg R K fuel) ((w, r), it) (fun res st => res = Some () /\ wcs (snd st) = wcs it /\ (idx it <= idx (snd st))%nat /\
    exists Q', core ss B Q' (fst (fst st)) (snd (fst st)) (snd st) /\ ready Q' (snd (fst st)) (snd st) /\ msgs Q' = msgs Q).
Proof.
  intros HA. revert Q w r it. induction fuel as [|fuel IH]; intros Q w r it Hco Hf; [lia|]. cbn [fill_cur_msg]. wsteps.
  destruct (has_msgs it) eqn:Hh; cbn [negb]; wsteps; cbn [fst snd].
  2: { split_and!; [done..|]. exists Q. split_and!; [done| |done]. intros ?. congruence. }
  destruct (core_head _ _ _ _ _ _ Hco Hh) as (e & Q' & c & rest & -> & Hc & _ & Hs & Hd). rewrite Hc. wsteps.
  rewrite Hs. cbn [negb]. rewrite Hd. wsteps.
  destruct (incoming_sessions r !! e_id e) as [rs|] eqn:Hr.
  - apply known_wp; [by eexists|]. wsteps. split_and!; [done|by destruct it|by destruct it|]. exists (e :: Q').
    split_and!; [by apply (core_ptr ss B _ w r it); destruct it| |done]. intros _.
    pose proof (known_msg _ _ _ _ _ _ _ Hco ltac:(by eexists)) as Hm. destruct e as [|id l]; [by destruct Hm|].
    exists id, l, Q'. cbn [fst snd]. split_and!; [done|by destruct it..|by eexists].
  - pose proof (proj1 (proj1 (Forall_cons _ _ _) (co_dom _ _ _ _ _ _ Hco))) as [k Hk].
    eapply wp_mono; [exact (open_wp _ _ _ _ _ _ _ _ HA Hco Hk Hr)|]. intros o [w1 r1] (-> & rs & Hr1 & Hp & Hco1). cbn [fst snd] in *.
    subst r1. wsteps. apply known_wp; [cbn; rewrite lookup_insert_eq; by eexists|]. wsteps. rewrite <- Hr in Hp.
    assert (Hb : ~ is_msg e).
    { destruct (co_sessions _ _ _ _ _ _ Hco _ _ Hk) as (s & _ & Hok). rewrite Hr, of_id_here in Hok. by destruct Hok as [_ _ _ _ _ _ _ _ _ (_ & ? & _)]. }
    eapply wp_mono; [apply (advance_wp ss B e Q' _ _ (set_s_ptr (Some (e_id e)) it) rs k HA)|]; [|by destruct it|done..|].
    { by apply (core_ptr ss B _ w1 r it); destruct it. }
    intros [] [[w2 r2] it2] (Hco2 & Hw2 & Hi2). cbn [fst snd wcs idx set_s_ptr] in *. wsteps. apply Nat.ltb_lt in Hh.
    eapply wp_mono; [apply (IH _ _ _ _ Hco2); rewrite Hw2, Hi2; lia|].
    intros o [[w3 r3] it3] (-> & Hw3 & Hi3 & Q3 & Hco3 & _ & Hm3). cbn [fst snd] in *.
    eapply wp_mono; [apply (IH _ _ _ _ Hco3); rewrite Hw3, Hw2; lia|].
    intros o [[w4 r4] it4] (-> & Hw4 & Hi4 & Q4 & Hco4 & Hrd & Hm4). cbn [fst snd] in *.
    split_and!; [done|congruence|lia|]. exists Q4. split_and!; [done..|]. rewrite Hm4, Hm3. by destruct e.
Qed.
(** ** The sessions together *)
Lemma of_id_snoc id e Q : of_id id (Q ++ [e]) = of_id id Q ++ (if decide (e_id e = id) then [e] else []).
Proof. unfold of_id. rewrite filter_app, filter_cons, filter_nil. by destruct (decide _). Qed.

Lemma boots_in id Q : id ∈ boots Q -> of_id id Q <> [].
Proof.
  induction Q as [|e Q IH]; [by intros ?%not_elem_of_nil|]. intros Hin. destruct (decide (e_id e = id)) as [<-|Hne].
  { by rewrite of_id_here. }
  rewrite of_id_other by done. apply IH. destruct e; [|done]. by apply elem_of_cons in Hin as [->|?].
Qed.

Lemma core_push ss B Q w r it id k s e w' s' a :
  apart -> core ss B Q w r it -> L !! id = Some k -> ss !! id = Some s -> e_id e = id ->
  fits (of_id id Q) (incoming_sessions r !! id) e -> a = ring_at k + r_tailer (remote_ring s) ->
  sent_one w s e a w' s' -> core (<[id := s']> ss) ({[id]} ∪ B) (Q ++ [e]) w' r it.
Proof.
  intros HA [] Hk Hs Hid Hf Ha Hsn. destruct (co_sessions0 _ _ Hk) as (s0 & Hs0 & Hok). simplify_eq.
  pose proof Hok as [Hlk (Hqp & _) _ _ _ Ht _ _ _ _]. constructor; try done.
  - apply Forall_app. split; [done|]. by repeat econstructor.
  - intros id k' Hk'. rewrite of_id_snoc. destruct (decide (e_id e = id)) as [<-|Hne].
    + exists s'. rewrite lookup_insert_eq. split; [done|]. simplify_eq. by eapply session_push.
    + destruct (co_sessions0 _ _ Hk') as (s2 & Hs2 & Hok2). exists s2. rewrite lookup_insert_ne, app_nil_r by done. split; [done|].
      eapply (session_other w w' id (e_id e)); try done; [by destruct Hf as (_ & ? & _)|]. rewrite Ht. apply Z.mod_pos_bound. lia.
  - intros id. rewrite of_id_snoc, elem_of_union, elem_of_singleton, co_booted0.
    destruct (decide (e_id e = id)) as [->|]; [|rewrite app_nil_r; naive_solver]. split; [|by left]. intros _. right. by destruct (of_id id Q).
  - unfold boots. rewrite omap_app. fold (boots Q). apply NoDup_app. split_and!; [done| |by destruct e; repeat constructor; intros ?%not_elem_of_nil].
    intros x Hx%boots_in Hin. destruct e as [id x' attr|]; [|by apply not_elem_of_nil in Hin]. apply list_elem_of_singleton in Hin as ->.
    destruct Hf as (_ & _ & _ & Hf). cbn [e_id] in *. destruct (of_id id Q); [done|]. by destruct (incoming_sessions r !! id).
  - destruct Hsn as [Hw _ _]. destruct Hw as [_ _ Harr _ _ _ _]. rewrite Hqp, (lk_peer _ _ _ Hlk), (lk_cq _ _ _ Hlk) in Harr.
    rewrite Harr, app_assoc, co_imms0, fmap_app. done.
Qed.

(** What is on its way is what the history says and one bootstrap message at most. *)
Definition as_entries : list (Z * list Z) -> list entry := fmap (fun x => Msg (fst x) (snd x)).

Lemma of_id_msgs id Q : of_id id (as_entries (msgs Q)) = as_entries (msgs (of_id id Q)).
Proof.
  induction Q as [|e Q IH]; [done|]. destruct (decide (e_id e = id)) as [<-|Hne].
  - rewrite of_id_here. destruct e; [done|]. cbn [msgs omap list_omap as_entries fmap list_fmap fst snd e_id] in *.
    rewrite (of_id_here (Msg id l)). f_equal. apply IH.
  - rewrite (of_id_other _ _ _ Hne). destruct e; [done|]. change (msgs (Msg id0 l :: Q)) with ((id0, l) :: msgs Q).
    cbn [as_entries fmap list_fmap fst snd]. by rewrite of_id_other.
Qed.

Lemma all_msgs qs : Forall is_msg qs -> as_entries (msgs qs) = qs.
Proof. induction 1 as [|e qs He _ IH]; [done|]. destruct e; [by destruct He|]. cbn. by f_equal. Qed.

Lemma received_bound w k qs o :
  received w k qs o -> total qs <= bootstrap_size + total (as_entries (msgs qs)) /\
    Z.of_nat (length qs) <= 1 + Z.of_nat (length (as_entries (msgs qs))).
Proof.
  assert (0 <= bootstrap_size) by (unfold bootstrap_size; lia).
  assert (Hm : forall l, Forall is_msg l -> total l <= bootstrap_size + total (as_entries (msgs l)) /\
    Z.of_nat (length l) <= 1 + Z.of_nat (length (as_entries (msgs l)))) by (intros l ->%all_msgs; lia).
  destruct o as [rs|]; intros Hr; [by apply Hm; destruct Hr as (_ & _ & _ & _ & _ & _ & ?)|].
  destruct Hr as (_ & Hr). destruct qs as [|e qs]; [by apply Hm|]. destruct Hr as [He Hq].
  destruct e as [id x attr|]; [|by destruct He]. change (msgs (Boot id x attr :: qs)) with (msgs qs). rewrite (all_msgs qs) by done.
  change (total (Boot id x attr :: qs)) with (e_len (Boot id x attr) + total qs). rewrite boot_len. cbn [length]. lia.
Qed.
(** ** The system

    The senders, the receiver and the user of its iterator. *)
Record sys := mkSys { world : W; senders : gmap Z Session; recvr : Receiver; iter : RingRecvIter }.

Inductive op :=
| OBoot (id : Z)
| OSend (blocking : bool) (id p : Z) (l : list Z)
| OBegin
| OTake.

Inductive event :=
| Booted (id : Z)
| Sent (id : Z) (l : list Z)
| Began
| Took (id : Z) (l : list Z)
| Refused.

(** [tmp] puts a string on the heap of the machine of a queue pair. *)
Context (tmp : Z -> list Z -> M W Z).
Context (Htmp : forall w q l, wp (tmp q l) w (fun p w' => holds (qp_mem w' q) p l /\ quiet w w')).

Definition on_sender (id : Z) (m : Session -> M (W * Session) (Result Z unit)) (ev : event) (st : sys) : outcome (event * sys) :=
  match senders st !! id with
  | None => Panic
  | Some s =>
      match m s (world st, s) with
      | Panic => Panic
      | Done (r, (w, s)) => Done (if is_Ok r then ev else Refused, mkSys w (<[id := s]> (senders st)) (recvr st) (iter st))
      end
  end.

Definition on_iter (m : M (W * Receiver * RingRecvIter) event) (st : sys) : outcome (event * sys) :=
  match m ((world st, recvr st), iter st) with
  | Panic => Panic
  | Done (ev, ((w, r), it)) => Done (ev, mkSys w (senders st) r it)
  end.

(** The body of the receiver's loop: the message of the iterator is read, and the
    iterator moves on. *)
Definition take_one : M (W * Receiver * RingRecvIter) event :=
  m ← iter_cur_msg K;
  l ← onW (onW (read_mem (mem_ptr m) (Z.to_nat (sz m))));
  i ← getX;
  id ← unwrap (s_ptr i);
  _ ← next R K;
  mret (Took id l).

Definition begin_all : M (W * Receiver * RingRecvIter) event :=
  _ ← begin R K;
  mret Began.

Definition exec (o : op) : sys -> outcome (event * sys) :=
  match o with
  | OBoot id => on_sender id (fun s => send_bootstrap K (tmp (qp s))) (Booted id)
  | OSend true id p l => on_sender id (fun _ => send_blocking K (mkBlock p (Z.of_nat (length l)))) (Sent id l)
  | OSend false id p l => on_sender id (fun _ => send_unsignaled K (mkBlock p (Z.of_nat (length l)))) (Sent id l)
  | OBegin => on_iter begin_all
  | OTake => on_iter take_one
  end.

(** What has been sent and taken. *)
Definition sends : list event -> list (Z * list Z) := omap (fun e => match e with Sent id l => Some (id, l) | _ => None end).
Definition takes : list event -> list (Z * list Z) := omap (fun e => match e with Took id l => Some (id, l) | _ => None end).
Definition booted (h : list event) : gset Z :=
  foldr (fun e s => match e with Booted id => {[id]} ∪ s | _ => s end) ∅ h.
Definition unread (h : list event) : list entry := as_entries (drop (length (takes h)) (sends h)).

(** The contract of the users.  Each session is bootstrapped once.  A message fits
    [kMaxMsg], and with the unread messages and the bootstrap message it fits the
    ring; half of the receive entries bound the number of unread messages of a
    session, and the completion queue all of them.  The iterator begins when it has
    no messages, and is read when it has one. *)
Definition cq_room (h : list event) (st : sys) : Prop :=
  Z.of_nat (length (unread h)) + Z.of_nat (size L) < cqe (world st) CQ.

Definition legal (h : list event) (st : sys) (o : op) : Prop :=
  match o with
  | OBoot id => is_Some (L !! id) /\ (id ∉ booted h) /\ cq_room h st
  | OSend _ id p l =>
      is_Some (L !! id) /\ id ∈ booted h /\ cq_room h st /\
      (forall s, senders st !! id = Some s -> holds (qp_mem (world st) (qp s)) p l) /\
      Z.of_nat (length l) <= Mx /\ bootstrap_size + total (of_id id (unread h)) + Z.of_nat (length l) <= K /\
      Z.of_nat (length (of_id id (unread h))) < R - R / 2
  | OBegin => has_msgs (iter st) = false
  | OTake => has_msgs (iter st) = true
  end.

(** What an operation is expected to do. *)
Definition answers (o : op) (e : event) : Prop :=
  match o, e with
  | OBoot id, Booted id' => id' = id
  | OSend _ id _ l, Sent id' l' => id' = id /\ l' = l
  | OBegin, Began | OTake, Took _ _ => True
  | _, _ => False
  end.

(** All sessions connected, nothing sent. *)
Record connected (st : sys) : Prop := {
  cn_cq : recv_cq (recvr st) = CQ;
  cn_mg : manager (recvr st) = MG;
  cn_new : incoming_sessions (recvr st) = ∅;
  cn_iter : wcs (iter st) = [];
  cn_arrived : arrived (world st) CQ = [];
  cn_sessions id k : L !! id = Some k -> exists s, senders st !! id = Some s /\ session_ok (world st) id k s None [] }.

(** Legal operations, and the users' own work between them. *)
Inductive reach : list event -> sys -> Prop :=
| reach_connected st : connected st -> reach [] st
| reach_exec h st o e st' : reach h st -> legal h st o -> exec o st = Done (e, st') -> reach (h ++ [e]) st'
| reach_quiet h st w : reach h st -> quiet (world st) w -> reach h (mkSys w (senders st) (recvr st) (iter st)).

Definition inv (h : list event) (st : sys) : Prop := exists Q,
  core (senders st) (booted h) Q (world st) (recvr st) (iter st) /\ ready Q (recvr st) (iter st) /\ sends h = takes h ++ msgs Q.

Lemma inv_connected st : connected st -> inv [] st.
Proof.
  intros []. exists []. split_and!; [|intros Hh; unfold has_msgs in Hh; by rewrite cn_iter0 in Hh|done].
  constructor; try done; rewrite ?cn_new0, ?cn_iter0, ?drop_nil, ?cn_arrived0; try done; [|by constructor..].
  intros id. rewrite lookup_empty. cbn. split; [by intros ?%elem_of_empty|]. intros [[? ?]|?]; done.
Qed.

Lemma inv_quiet h st w : inv h st -> quiet (world st) w -> inv h (mkSys w (senders st) (recvr st) (iter st)).
Proof.
  intros (Q & Hco & Hr & Hs) [Hk Hu]. exists Q. split_and!; [|done..]. cbn. eapply core_keeps; [done..|]. by intros ? ? _ [].
Qed.

Lemma booted_snoc h e : booted (h ++ [e]) = match e with Booted id => {[id]} ∪ booted h | _ => booted h end.
Proof.
  unfold booted. rewrite foldr_app. cbn [foldr]. induction h as [|e' h IH]; cbn [foldr].
  - by destruct e.
  - rewrite IH. destruct e', e; try done. set_solver.
Qed.

Lemma arrived_room h st Q :
  core (senders st) (booted h) Q (world st) (recvr st) (iter st) -> sends h = takes h ++ msgs Q -> cq_room h st ->
  Z.of_nat (length (arrived (world st) CQ)) < cqe (world st) CQ.
Proof.
  intros [] Hs Hc. unfold cq_room, unread in Hc. rewrite Hs, drop_app_length in Hc.
  assert (length (arrived (world st) CQ) <= length Q)%nat.
  { rewrite <- (length_fmap imm_of Q), <- co_imms0, length_app. lia. }
  assert (length Q = length (as_entries (msgs Q)) + length (boots Q))%nat.
  { clear. induction Q as [|e Q IH]; [done|]. destruct e; cbn in *; lia. }
  assert (length (boots Q) <= size L)%nat; [|lia].
  rewrite <- size_dom, <- (size_list_to_set (C := gset Z) (boots Q)) by done. apply subseteq_size. intros id Hid.
  apply elem_of_list_to_set, boots_in in Hid. apply elem_of_dom.
  destruct (of_id id Q) as [|e qs] eqn:E; [done|]. assert (He : e ∈ of_id id Q) by (rewrite E; left).
  apply list_elem_of_filter in He as [<- He]. by apply (proj1 (Forall_forall _ _) co_dom0).
Qed.
(** *** The senders *)
Lemma sendable_of h st Q id k s e p :
  core (senders st) (booted h) Q (world st) (recvr st) (iter st) -> sends h = takes h ++ msgs Q -> cq_room h st ->
  L !! id = Some k -> senders st !! id = Some s -> e_id e = id ->
  fits (of_id id Q) (incoming_sessions (recvr st) !! id) e -> holds (qp_mem (world st) (qp s)) p (e_bytes e) ->
  sendable (world st) s e (ring_at k + r_tailer (remote_ring s)) p.
Proof.
  intros Hco Hs Hc Hk Hss Hid Hf Hp. pose proof (arrived_room _ _ _ Hco Hs Hc) as Hr.
  destruct (co_sessions _ _ _ _ _ _ Hco _ _ Hk) as (s0 & Hs0 & Hok). simplify_eq.
  pose proof (fits_credit _ _ _ _ _ (so_received _ _ _ _ _ _ Hok) Hf) as Hcr. destruct Hok. destruct Hf as (_ & Hl & _).
  destruct so_sender0 as (Hq & Hsid & Hb). pose proof so_link0 as []. rewrite Hq in *.
  assert (0 <= r_tailer (remote_ring s) < K) by (rewrite so_tail0; apply Z.mod_pos_bound; lia).
  constructor; rewrite ?Hq, ?lk_peer0, ?lk_cq0, ?Hb; try done; [lia|]. by eapply place_mapped.
Qed.

Lemma sender_exec st id s m ev (P : W -> Session -> Prop) :
  senders st !! id = Some s -> wp (m s) (world st, s) (fun r ws => r = Ok () /\ P (fst ws) (snd ws)) ->
  exists w s', on_sender id m ev st = Done (ev, mkSys w (<[id := s']> (senders st)) (recvr st) (iter st)) /\ P w s'.
Proof.
  intros Hs Hw. unfold on_sender. rewrite Hs. apply wp_done in Hw as (r & [w s'] & -> & -> & HP). by exists w, s'.
Qed.

(** An entry more on its way. *)
Lemma inv_pushed h st Q id k s e ev w' s' :
  apart -> core (senders st) (booted h) Q (world st) (recvr st) (iter st) -> ready Q (recvr st) (iter st) ->
  sends h = takes h ++ msgs Q -> L !! id = Some k -> senders st !! id = Some s -> e_id e = id ->
  fits (of_id id Q) (incoming_sessions (recvr st) !! id) e ->
  booted (h ++ [ev]) = {[id]} ∪ booted h -> sends (h ++ [ev]) = sends h ++ msgs [e] -> takes (h ++ [ev]) = takes h ->
  sent_one (world st) s e (ring_at k + r_tailer (remote_ring s)) w' s' ->
  inv (h ++ [ev]) (mkSys w' (<[id := s']> (senders st)) (recvr st) (iter st)).
Proof.
  intros HA Hco Hr Hs Hk Hss Hid Hf Hbt Hsn Htk H1. exists (Q ++ [e]). split_and!.
  - rewrite Hbt. by eapply core_push.
  - intros Hh. destruct (Hr Hh) as (x & l & Q' & -> & Hx). by exists x, l, (Q' ++ [e]).
  - unfold msgs in *. by rewrite Hsn, Htk, Hs, omap_app, app_assoc.
Qed.

Lemma exec_send h st b id p l :
  apart -> inv h st -> legal h st (OSend b id p l) -> exists st', exec (OSend b id p l) st = Done (Sent id l, st') /\ inv (h ++ [Sent id l]) st'.
Proof.
  intros HA (Q & Hco & Hr & Hs) ([k Hk] & Hb & Hc & Hp & Hl & Hrm & Hn).
  destruct (co_sessions _ _ _ _ _ _ Hco _ _ Hk) as (s & Hss & Hok). pose proof (Hp _ Hss) as Hh.
  assert (Hf : fits (of_id id Q) (incoming_sessions (recvr st) !! id) (Msg id l)).
  { destruct (received_bound _ _ _ _ (so_received _ _ _ _ _ _ Hok)) as [Ht Hlen]. unfold unread in *.
    rewrite Hs, drop_app_length, of_id_msgs in *. unfold fits, e_len. cbn [e_bytes].
    split_and!; [lia|done|lia|]. apply (co_booted _ _ _ _ _ _ Hco) in Hb as [[rs ->]|Hne]; [done|].
    by destruct (incoming_sessions (recvr st) !! id), (of_id id Q). }
  pose proof (sendable_of h st Q id k s (Msg id l) p Hco Hs Hc Hk Hss eq_refl Hf Hh) as Hsd.
  destruct (sender_exec st id s (fun _ => if b then send_blocking K (mkBlock p (e_len (Msg id l))) else send_unsignaled K (mkBlock p (e_len (Msg id l))))
    (Sent id l) (sent_one (world st) s (Msg id l) (ring_at k + r_tailer (remote_ring s))) Hss) as (w' & s' & He & H1).
  { destruct b; [by apply (send_blocking_wp _ _ (Msg id l))|by apply (send_unsignaled_wp _ _ (Msg id l))]. }
  eexists. split; [by destruct b; exact He|]. eapply (inv_pushed h st Q id k s (Msg id l)); try done.
  - rewrite booted_snoc. set_solver.
  - unfold sends. by rewrite omap_app.
  - unfold takes. by rewrite omap_app, app_nil_r.
Qed.

Lemma exec_boot h st id :
  apart -> inv h st -> legal h st (OBoot id) -> exists st', exec (OBoot id) st = Done (Booted id, st') /\ inv (h ++ [Booted id]) st'.
Proof.
  intros HA (Q & Hco & Hr & Hs) ([k Hk] & Hb & Hc).
  destruct (co_sessions _ _ _ _ _ _ Hco _ _ Hk) as (s & Hss & Hok).
  assert (HQ : incoming_sessions (recvr st) !! id = None /\ of_id id Q = []).
  { rewrite (co_booted _ _ _ _ _ _ Hco) in Hb. split.
    - destruct (incoming_sessions (recvr st) !! id); [|done]. destruct Hb. by left.
    - destruct (of_id id Q); [done|]. destruct Hb. by right. }
  destruct (so_mr _ _ _ _ _ _ Hok) as (attr & x & Hmr & Hx). pose proof (so_sender _ _ _ _ _ _ Hok) as (Hq & _).
  assert (Hf : fits (of_id id Q) (incoming_sessions (recvr st) !! id) (Boot id x attr)).
  { destruct HQ as [-> ->]. unfold fits. rewrite boot_len. assert (R / 2 < R) by (apply Z.div_lt; lia). split_and!; [cbn; lia|done|cbn; lia|tauto]. }
  destruct (sender_exec st id s (fun s => send_bootstrap K (tmp (qp s))) (Booted id)
    (fun w' s' => exists w1, quiet (world st) w1 /\ sent_one w1 s (Boot id x attr) (ring_at k + r_tailer (remote_ring s)) w' s') Hss)
    as (w' & s' & He & w1 & Hq1 & H1).
  { unfold send_bootstrap. wsteps. rewrite Hq, Hmr. wsteps. rewrite Hx. wsteps. eapply wp_mono; [apply Htmp|].
    intros p w1 [Hh Hq1]. wsteps. rewrite <- (boot_len id x attr). eapply wp_mono; [apply (send_blocking_wp w1 s (Boot id x attr) (ring_at k + r_tailer (remote_ring s)) p)|].
    - apply (sendable_of h (mkSys w1 (senders st) (recvr st) (iter st)) Q id); try done.
      + eapply core_keeps; [done|exact (proj1 Hq1)|exact (proj2 Hq1)|]. by intros ? ? _ [].
      + unfold cq_room in *. cbn. by rewrite (st_cqe _ _ (kp_steady _ _ _ _ _ (proj1 Hq1))).
      + cbn. by rewrite Hq.
    - intros r ws [-> H1]. split; [done|]. by exists w1. }
  eexists. split; [exact He|].
  eapply (inv_pushed h (mkSys w1 (senders st) (recvr st) (iter st)) Q id k s (Boot id x attr)); try done.
  - eapply core_keeps; [done|exact (proj1 Hq1)|exact (proj2 Hq1)|]. by intros ? ? _ [].
  - by rewrite booted_snoc.
  - unfold sends. by rewrite omap_app.
  - unfold takes. by rewrite omap_app, app_nil_r.
Qed.
(** *** The receiver *)
Lemma iter_exec st m ev (P : W -> Receiver -> RingRecvIter -> Prop) :
  wp m ((world st, recvr st), iter st) (fun e s => e = ev /\ P (fst (fst s)) (snd (fst s)) (snd s)) ->
  exists w r it, on_iter m st = Done (ev, mkSys w (senders st) r it) /\ P w r it.
Proof. intros Hw. unfold on_iter. apply wp_done in Hw as (e & [[w r] it] & -> & -> & HP). by exists w, r, it. Qed.

Lemma fill_all_wp ss B Q w r it :
  apart -> core ss B Q w r it ->
  wp (fill R K) ((w, r), it) (fun _ st => exists Q', core ss B Q' (fst (fst st)) (snd (fst st)) (snd st) /\
    ready Q' (snd (fst st)) (snd st) /\ msgs Q' = msgs Q).
Proof.
  intros HA Hco. unfold fill. wsteps. eapply wp_mono; [apply (fill_wp _ _ _ _ _ _ _ HA Hco); lia|].
  intros o st (-> & _ & _ & HQ). by wsteps.
Qed.

Lemma exec_begin h st :
  apart -> inv h st -> legal h st OBegin -> exists st', exec OBegin st = Done (Began, st') /\ inv (h ++ [Began]) st'.
Proof.
  intros HA (Q & Hco & _ & Hs) Hl. cbn [legal] in Hl. apply Nat.ltb_ge in Hl.
  destruct (iter_exec st begin_all Began (fun w r it => exists Q', core (senders st) (booted h) Q' w r it /\ ready Q' r it /\ msgs Q' = msgs Q))
    as (w' & r' & it' & He & Q' & Hco' & Hr & Hm).
  { unfold begin_all, begin. wsteps. rewrite (co_cq _ _ _ _ _ _ Hco). eapply wp_mono; [apply poll_law|].
    intros l w (j & -> & Ha & Hk). wsteps. eapply wp_mono; [eapply (fill_all_wp _ _ Q); [done|]|intros [] x Hx; by wsteps].
    destruct Hco. rewrite drop_ge in co_imms0 by done. constructor; try done; cbn [wcs idx set_wcs set_idx]; rewrite ?drop_0.
    - intros id k HL. destruct (co_sessions0 _ _ HL) as (s & Hss & Hok). exists s. split; [done|].
      eapply session_keeps; [exact Hk|by intros []..|done].
    - apply Forall_fmap, Forall_true. done.
    - rewrite <- list_fmap_compose, Ha. rewrite <- co_imms0 at 1. cbn [fmap list_fmap app].
      replace (snd ∘ pair true <$> take j (arrived (world st) CQ)) with (take j (arrived (world st) CQ)) by (symmetry; apply list_fmap_id).
      apply take_drop. }
  eexists. split; [exact He|]. exists Q'. cbn. rewrite booted_snoc. split_and!; [done..|].
  unfold sends, takes in *. rewrite !omap_app, !app_nil_r. by rewrite Hm.
Qed.

(** The message of the iterator. *)
Lemma cur_msg_wp ss B id l Q w r it k :
  core ss B (Msg id l :: Q) w r it -> L !! id = Some k -> is_Some (incoming_sessions r !! id) -> s_ptr it = Some id -> msg_sz it = e_len (Msg id l) ->
  wp (iter_cur_msg K) ((w, r), it) (fun m st => exists rs, st = ((w, set_sessions (<[id := rs]> (incoming_sessions r)) r), it) /\
    holds (recv_mem w) (mem_ptr m) l /\ sz m = Z.of_nat (length l) /\ past w k (incoming_sessions r !! id) (Msg id l) (of_id id Q) rs).
Proof.
  intros Hco Hk [rs Hrs] Hp Hn. destruct (co_sessions _ _ _ _ _ _ Hco _ _ Hk) as (s & _ & Hok).
  rewrite (of_id_here (Msg id l)), Hrs in Hok. cbn [e_id] in Hok. destruct Hok. destruct so_placed0 as [Hh _]. cbn [e_id e_bytes tail_of] in *.
  destruct so_received0 as (Hq & He & Hmem & Ht & Hi & Hc & Hm). apply Forall_cons in so_lens0 as [Hlen _]. apply Forall_cons in Hm as [_ Hm].
  pose proof (e_len_nonneg (Msg id l)). unfold iter_cur_msg. wsteps. rewrite Hp. wsteps. eapply wp_on_session; [exact Hrs|].
  unfold cur_msg. wsteps. unfold ring_cur_msg. rewrite Hmem, Hn. cbn [sz mem_ptr]. rewrite !(wrap_small 32) by (unfold in_width; lia).
  rewrite (proj2 (Z.ltb_ge _ _)) by lia. wsteps. eexists. split; [done|]. cbn [mem_ptr sz]. split_and!; [done..|].
  unfold past. rewrite Hrs. cbn [qp recv_entries local_ring idle_recv_entries set_local tail_of].
  rewrite Z.rem_mod_nonneg by lia. by split_and!.
Qed.

Lemma exec_take h st :
  apart -> inv h st -> legal h st OTake -> exists id l st', exec OTake st = Done (Took id l, st') /\ inv (h ++ [Took id l]) st'.
Proof.
  intros HA (Q & Hco & Hr & Hs) Hl. destruct (Hr Hl) as (id & l & Q' & -> & Hp & Hn & Hrs).
  pose proof (proj1 (proj1 (Forall_cons _ _ _) (co_dom _ _ _ _ _ _ Hco))) as [k Hk]. cbn [e_id] in Hk.
  destruct (iter_exec st take_one (Took id l) (fun w r it => exists Q2, core (senders st) (booted h) Q2 w r it /\ ready Q2 r it /\ msgs Q2 = msgs Q'))
    as (w' & r' & it' & He & Q2 & Hco' & Hr2 & Hm).
  { unfold take_one. wsteps. eapply wp_mono; [exact (cur_msg_wp _ _ _ _ _ _ _ _ _ Hco Hk Hrs Hp Hn)|].
    intros m st1 (rs & -> & Hh & Hsz & Hpast). wsteps. unfold wp at 1, read_mem. rewrite Hsz, Nat2Z.id, (copy_from_user_holds _ _ _ Hh).
    wsteps. rewrite Hp. wsteps. unfold next. wsteps.
    eapply wp_mono; [exact (advance_wp _ _ (Msg id l) _ _ _ _ _ _ HA Hco Hl Hk Hp Hpast)|].
    intros [] [[w1 r1] it1] (Hco1 & _ & _). eapply wp_mono; [exact (fill_all_wp _ _ _ _ _ _ HA Hco1)|]. intros [] x Hx. by wsteps. }
  exists id, l. eexists. split; [exact He|]. exists Q2. cbn. rewrite booted_snoc. split_and!; [done..|].
  unfold sends, takes in *. rewrite !omap_app, app_nil_r, Hs, Hm, <- app_assoc. done.
Qed.

Lemma exec_legal h st o : apart -> inv h st -> legal h st o -> exists e st', exec o st = Done (e, st') /\ answers o e /\ inv (h ++ [e]) st'.
Proof.
  intros HA Hi Hl. destruct o as [id|b id p l| |].
  - destruct (exec_boot _ _ _ HA Hi Hl) as (st' & He & Hi'). by exists (Booted id), st'.
  - destruct (exec_send _ _ _ _ _ _ HA Hi Hl) as (st' & He & Hi'). by exists (Sent id l), st'.
  - destruct (exec_begin _ _ HA Hi Hl) as (st' & He & Hi'). by exists Began, st'.
  - destruct (exec_take _ _ HA Hi Hl) as (id & l & st' & He & Hi'). by exists (Took id l), st'.
Qed.

End deliver.
