(* ===== verification/RingSim.v ===== *)
(** * A wire for ring messages

    A concrete machine under [RingMsg]: the memories of the two sides, the send
    queues with their limit, the posted receive entries and the completion queue.  It
    keeps the laws that [RingSafe] states, and shows that they can hold. *)

From S2P Require Import Prelude Bytes Guid IpAddr RingMsg RingSafe.

#[local] Open Scope Z_scope.

Record wire := mkWire {
  local_bytes : umem; remote_bytes : umem; in_cq : list Z; in_sq : gmap Z (list bool); posted : gmap Z Z; limit : Z }.

Definition set_local_bytes x w := mkWire x (remote_bytes w) (in_cq w) (in_sq w) (posted w) (limit w).
Definition set_in_cq x w := mkWire (local_bytes w) (remote_bytes w) x (in_sq w) (posted w) (limit w).
Definition set_in_sq x w := mkWire (local_bytes w) (remote_bytes w) (in_cq w) x (posted w) (limit w).
Definition set_posted x w := mkWire (local_bytes w) (remote_bytes w) (in_cq w) (in_sq w) x (limit w).

(** Queue pair [q] is connected to [q + 100]; what it reaches starts at [1000 * q]. *)
Definition far (q : Z) : Z := q + 100.
Definition start_of (q : Z) : Z := 1000 * q.
Definition depth_of_cq : Z := 16.
Definition queue (w : wire) (q : Z) : list bool := default [] (in_sq w !! q).
Definition entries_of (w : wire) (q : Z) : Z := default 0 (posted w !! q).

Definition write_imm (q : Z) (_ sg : bool) (n p ra imm : Z) : M wire (Result Z unit) := fun w =>
  if (Z.of_nat (length (queue w q)) <? limit w) && (0 <? entries_of w (far q)) && (Z.of_nat (length (in_cq w)) <? depth_of_cq) then
    Done (Ok (), mkWire (local_bytes w)
      (fst (copy_to_user (remote_bytes w) (start_of q + ra) (fst (copy_from_user (local_bytes w) p (Z.to_nat n)))))
      (in_cq w ++ [imm]) (<[q := queue w q ++ [sg]]> (in_sq w)) (<[far q := entries_of w (far q) - 1]> (posted w)) (limit w))
  else Done (Err 12, w).

(** The posts up to the first signaled one are over. *)
Fixpoint complete (l : list bool) : option (list bool) :=
  match l with [] => None | true :: l => Some l | false :: l => complete l end.
Definition wait (q : Z) : M wire (Result Z unit) := fun w =>
  match complete (queue w q) with Some l => Done (Ok (), set_in_sq (<[q := l]> (in_sq w)) w) | None => Done (Err 110, w) end.

Definition posts (q _ n : Z) : M wire (Result Z unit) := fun w =>
  Done (Ok (), set_posted (<[q := entries_of w q + n]> (posted w)) w).
Definition poll (_ n : Z) : M wire (list (bool * Z)) := fun w =>
  Done (pair true <$> take (Z.to_nat n) (in_cq w), set_in_cq (drop (Z.to_nat n) (in_cq w)) w).

Definition attr0 : RegAttr := mkAttr 0 4096 7.
(** The queue pairs of the receiver under the names of the sessions 1 and 2. *)
Definition known_qps : gmap (list Z) Z := {[ decimal 1 := far 1; decimal 2 := far 2 ]}.

#[export] Instance wire_lib : Rlib wire := {|
  kMaxInlinSz := 64; kMaxQPNameLen := 63; reg_attr_size := 20;
  reg_attr_bytes := fun a => le 8 (buf a) ++ le 8 (attr_sz a) ++ le 4 (key a);
  reg_attr_of := fun l => mkAttr (word_at 0 8 l) (word_at 8 8 l) (word_at 16 4 l);
  send_normal := write_imm; wait_one_comp := wait; post_recvs := posts;
  rc_connect := fun _ _ => mret (Ok ()); my_attr := fun _ q => q; max_send_sz := fun w _ => limit w;
  bind_local_mr := fun _ _ => mret (); bind_remote_mr := fun _ _ => mret (); local_mr := fun _ _ => Some attr0;
  rc_create := fun _ _ _ => mret None; cqe := fun _ _ => depth_of_cq; ibv_poll_cq := poll;
  create_recv_entries := fun _ _ => mret 0; alloc_one_for_remote := fun _ _ => mret None;
  query_nic := fun _ _ => None; reg_qp := fun _ _ => mret None; dereg_qp := fun _ _ => mret ();
  query_qp := fun _ n => known_qps !! n; fetch_qp_attr := fun _ _ _ => None;
  rpc_call := fun _ => mret false; receive_reply := fun _ => mret None;
  qp_mem := fun w _ => local_bytes w; recv_mem := remote_bytes
|}.

#[export] Instance wire_obs : Wire wire := {|
  arrived := fun w _ => in_cq w; sq := queue; credit := entries_of; base := fun _ => start_of;
  peer := fun _ => far; cq_of := fun _ _ => 0; recv_cap := fun _ _ => 16
|}.

Lemma same_steady w w' : limit w' = limit w -> steady w w'.
Proof. by constructor. Qed.

Lemma complete_first f1 f2 : Forall (eq false) f1 -> complete (f1 ++ true :: f2) = Some f2.
Proof. by induction 1 as [|? f1 <- _ IH]. Qed.

Lemma queue_eq m l q : default [] ((<[q := l]> m : gmap Z (list bool)) !! q) = l.
Proof. by rewrite lookup_insert_eq. Qed.
Lemma queue_ne m l q q' : q' <> q -> default [] ((<[q := l]> m : gmap Z (list bool)) !! q') = default [] (m !! q').
Proof. intros. by rewrite lookup_insert_ne. Qed.
Lemma entries_eq m n q : default 0 ((<[q := n]> m : gmap Z Z) !! q) = n.
Proof. by rewrite lookup_insert_eq. Qed.
Lemma entries_ne m n q q' : q' <> q -> default 0 ((<[q := n]> m : gmap Z Z) !! q') = default 0 (m !! q').
Proof. intros. by rewrite lookup_insert_ne. Qed.

#[export] Instance wire_laws : WireLaws wire.
Proof.
  constructor.
  - intros w q inl sg n p ra imm l Hp -> _ Hq Hc Hr. cbn in *. unfold wp, write_imm.
    rewrite !(proj2 (Z.ltb_lt _ _)) by done. cbn [andb]. rewrite Nat2Z.id, (copy_from_user_holds _ _ _ Hp).
    split_and!; [done| |apply queue_eq]. constructor; cbn; try done.
    + intros q' ?. by apply queue_ne.
    + apply entries_eq.
    + intros q' ?. by apply entries_ne.
  - intros w q f1 f2 Hq Hf. cbn in *. unfold wp, wait. rewrite Hq, complete_first by done.
    split_and!; [done|apply queue_eq| |done]. constructor; cbn; try done. intros q' ?. apply queue_ne. congruence.
  - intros w q e n _ _. unfold wp. cbn. split_and!; [done|apply entries_eq| |done].
    constructor; cbn; try done. intros q' ?. apply entries_ne. congruence.
  - intros w q attr. split; [apply keeps_refl|done].
  - intros w cq n. exists (Z.to_nat n). by split_and!.
  - done.
Qed.

(** The heap of the senders. *)
Definition heap_put (_ : Z) (l : list Z) : M wire Z := fun w => Done (9000, set_local_bytes (block 9000 l ∪ local_bytes w) w).

Lemma heap_law w q l : wp (heap_put q l) w (fun p w' => holds (qp_mem w' q) p l /\ quiet w w').
Proof.
  split; [|by repeat constructor]. intros i b Hi. cbn. apply lookup_union_Some_l, block_holds, Hi.
Qed.

(** ** Two sessions *)
Definition Rn : Z := 8.
Definition Kn : Z := 64.
Definition Mn : Z := 40.
Definition links : gmap Z link := {[ 1 := mkLink 1 (far 1) 11 (start_of 1 + 16) 16; 2 := mkLink 2 (far 2) 12 (start_of 2 + 16) 16 ]}.
Definition mg : RingManager := mkManager ∅
  {[ decimal 1 := 11; decimal 2 := 12 ]}
  {[ decimal 1 := mkBlock (start_of 1 + 16) (Kn + Mn); decimal 2 := mkBlock (start_of 2 + 16) (Kn + Mn) ]}.
Definition zero_bytes : list Z := replicate (Z.to_nat (Kn + Mn)) 0.
Definition hello : list Z := [104; 101; 108; 108; 111].
Definition wire0 (lim : Z) : wire :=
  mkWire (block 500 hello) (block (start_of 1 + 16) zero_bytes ∪ block (start_of 2 + 16) zero_bytes) [] ∅ {[ far 1 := Rn; far 2 := Rn ]} lim.
Definition sender0 (id lim : Z) : Session :=
  mkSession id 0 0 (mkRemote 0 16 7) (mkLocal (mkBlock 0 (Kn + Mn)) 0) (lim / 2) 0 id.
Definition sys0 (lim : Z) : sys :=
  mkSys (wire0 lim) {[ 1 := sender0 1 lim; 2 := sender0 2 lim ]} (mkReceiver 0 depth_of_cq mg ∅) (mkIter [] 0 None 0).

Lemma links_cases (P : Z -> link -> Prop) :
  P 1 (mkLink 1 (far 1) 11 (start_of 1 + 16) 16) -> P 2 (mkLink 2 (far 2) 12 (start_of 2 + 16) 16) ->
  forall id k, links !! id = Some k -> P id k.
Proof.
  intros H1 H2 id k Hk. unfold links in Hk. apply lookup_insert_Some in Hk as [[<- <-]|[_ Hk]]; [done|]. by apply lookup_singleton_Some in Hk as [<- <-].
Qed.

Lemma links_apart : apart Kn Mn links.
Proof.
  intros id id' k k' Hk. revert id' k'. revert id k Hk.
  apply (links_cases (fun id k => forall id' k', links !! id' = Some k' -> _)).
  - apply links_cases; (split; [done|intros Hne]); [done|]. cbn. unfold far, start_of, Kn, Mn. lia.
  - apply links_cases; (split; [done|intros Hne]); [|done]. cbn. unfold far, start_of, Kn, Mn. lia.
Qed.

Lemma ring_mapped id : id = 1 \/ id = 2 -> mapped (remote_bytes (wire0 9)) (start_of id + 16) (Z.to_nat (Kn + Mn)).
Proof.
  intros Hid i Hi. destruct (holds_mapped _ _ _ (block_holds (start_of id + 16) zero_bytes) i) as [b Hb]; [by unfold zero_bytes; rewrite length_replicate|].
  cbn. apply elem_of_dom. rewrite dom_union. apply elem_of_union. destruct Hid as [-> | ->]; [left|right]; by apply elem_of_dom; exists b.
Qed.

Lemma sys0_connected : connected Rn Kn Mn 0 mg links (sys0 9).
Proof.
  constructor; try done. apply links_cases.
  - exists (sender0 1 9). split; [done|]. constructor; try done; [|by left; repeat constructor|by exists attr0, 0].
    constructor; try done. apply ring_mapped. by left.
  - exists (sender0 2 9). split; [done|]. constructor; try done; [|by left; repeat constructor|by exists attr0, 0].
    constructor; try done. apply ring_mapped. by right.
Qed.

(** ** A run *)
Definition do_op (o : op) (st : sys) : sys := match exec Rn Kn heap_put o st with Done (_, st) => st | Panic => st end.
Definition ran (os : list op) : sys := foldl (fun st o => do_op o st) (sys0 9) os.

Lemma ran_snoc os o : ran (os ++ [o]) = do_op o (ran os).
Proof. unfold ran. by rewrite foldl_app. Qed.

Definition reached : list event -> sys -> Prop := reach Rn Kn Mn 0 mg links heap_put.
Lemma reached_step h os o e :
  reached h (ran os) -> legal Rn Kn Mn 0 links h (ran os) o ->
  match exec Rn Kn heap_put o (ran os) with Done (e', _) => e' = e | Panic => False end -> reached (h ++ [e]) (ran (os ++ [o])).
Proof.
  intros Hr Hl He. destruct (exec Rn Kn heap_put o (ran os)) as [[e' st]|] eqn:E; [|done]. subst e'.
  eapply reach_exec; [exact Hr|exact Hl|]. rewrite ran_snoc. unfold do_op. by rewrite E.
Qed.

Definition script : list op := [OBoot 1; OBoot 2; OSend false 2 500 hello; OSend true 1 500 hello; OBegin].
Definition story : list event := [Booted 1; Booted 2; Sent 2 hello; Sent 1 hello; Began].

Ltac computed := apply (bool_decide_unpack _); by vm_compute.
Ltac legal_send :=
  split_and!; [by eexists|computed|by vm_compute| |by vm_compute..];
  intros s _; unfold hello; repeat (apply holds_cons; split; [by vm_compute|]); by intros [].

Lemma script_reached : reached story (ran script).
Proof.
  apply (reached_step [Booted 1; Booted 2; Sent 2 hello; Sent 1 hello] [OBoot 1; OBoot 2; OSend false 2 500 hello; OSend true 1 500 hello]);
    [|by vm_compute..].
  apply (reached_step [Booted 1; Booted 2; Sent 2 hello] [OBoot 1; OBoot 2; OSend false 2 500 hello]); [|legal_send|by vm_compute].
  apply (reached_step [Booted 1; Booted 2] [OBoot 1; OBoot 2]); [|legal_send|by vm_compute].
  apply (reached_step [Booted 1] [OBoot 1]); [|split_and!; [by eexists|computed|by vm_compute]|by vm_compute].
  apply (reached_step [] []); [|split_and!; [by eexists|computed|by vm_compute]|by vm_compute].
  apply reach_connected, sys0_connected.
Qed.


(** ** The depth of the send queue

    A session takes half of the send queue as its depth, and waits once in a round of
    one more than the depth.  A round that has ended leaves the posts behind the
    signaled one in the queue, so that before the wait of the next round twice the
    depth and one are in it: with an even limit, here 8, one send is refused. *)
Fixpoint sends_only (n : nat) : M (wire * Session) (list bool) :=
  match n with
  | O => mret []
  | S n => r ← send_unsignaled Kn (mkBlock 500 0); l ← sends_only n; mret (is_Ok r :: l)
  end.

Lemma even_queue_refuses :
  match sends_only 10 (set_posted {[ far 1 := 100 ]} (wire0 8), sender0 1 8) with
  | Done (l, _) => l = replicate 9 true ++ [false]
  | Panic => False
  end.
Proof. by vm_compute. Qed.
