(* ===== verification/Verbs.v ===== *)
(** * The verbs interface

    The RDMA driver (libibverbs in user space, the kernel's ib_core with the
    vendor driver in kernel space) is not part of the repository.  This file
    states what the library sees of it: the data it exchanges, the operations
    as a type class over an abstract world [W], and, in separate classes, the
    documented behaviour that theorems rely on.  Bit masks and enumerations of
    the C headers are symbolic: a mask is the list of its flags. *)

From S2P Require Import Prelude Errors.

(** ** Data *)

(** A GID as its two 64-bit words, [global.subnet_prefix] and
    [global.interface_id]. *)
Record ib_gid := mkGid { subnet_prefix : Z; interface_id : Z }.
Definition default_gid : ib_gid := mkGid 0 0.

Inductive ib_qp_state : Set :=
| IB_QPS_RESET | IB_QPS_INIT | IB_QPS_RTR | IB_QPS_RTS | IB_QPS_SQD | IB_QPS_SQE | IB_QPS_ERR.

Inductive ib_qp_type : Set := IB_QPT_RC | IB_QPT_UD | IB_EXP_QPT_DC_INI.

Inductive ib_mtu : Set := IB_MTU_NONE | IB_MTU_256 | IB_MTU_512 | IB_MTU_1024 | IB_MTU_2048 | IB_MTU_4096.

Inductive ib_access_flag : Set :=
| IB_ACCESS_LOCAL_WRITE | IB_ACCESS_REMOTE_WRITE | IB_ACCESS_REMOTE_READ
| IB_ACCESS_REMOTE_ATOMIC | IB_ACCESS_MW_BIND.

Inductive ib_qp_attr_mask : Set :=
| IB_QP_STATE | IB_QP_ACCESS_FLAGS | IB_QP_PKEY_INDEX | IB_QP_PORT | IB_QP_QKEY | IB_QP_AV
| IB_QP_PATH_MTU | IB_QP_TIMEOUT | IB_QP_RETRY_CNT | IB_QP_RNR_RETRY | IB_QP_RQ_PSN
| IB_QP_MAX_QP_RD_ATOMIC | IB_QP_ALT_PATH | IB_QP_MIN_RNR_TIMER | IB_QP_SQ_PSN
| IB_QP_MAX_DEST_RD_ATOMIC | IB_QP_DEST_QPN | IB_QP_DC_KEY.

Inductive ib_wr_opcode : Set :=
| IB_WR_RDMA_WRITE | IB_WR_RDMA_WRITE_WITH_IMM | IB_WR_SEND | IB_WR_SEND_WITH_IMM | IB_WR_RDMA_READ
| IB_WR_ATOMIC_CMP_AND_SWP | IB_WR_ATOMIC_FETCH_AND_ADD.

Inductive ib_send_flag : Set := IB_SEND_SIGNALED | IB_SEND_INLINE | IB_SEND_FENCE | IB_SEND_SOLICITED.

Inductive ib_port_state : Set := IB_PORT_NOP | IB_PORT_DOWN | IB_PORT_INIT | IB_PORT_ARMED | IB_PORT_ACTIVE.

#[export] Instance ib_gid_eq_dec : EqDecision ib_gid.
Proof. solve_decision. Defined.
#[export] Instance ib_qp_state_eq_dec : EqDecision ib_qp_state.
Proof. solve_decision. Defined.
#[export] Instance ib_qp_type_eq_dec : EqDecision ib_qp_type.
Proof. solve_decision. Defined.
#[export] Instance ib_qp_attr_mask_eq_dec : EqDecision ib_qp_attr_mask.
Proof. solve_decision. Defined.
#[export] Instance ib_access_flag_eq_dec : EqDecision ib_access_flag.
Proof. solve_decision. Defined.
#[export] Instance ib_wr_opcode_eq_dec : EqDecision ib_wr_opcode.
Proof. solve_decision. Defined.
#[export] Instance ib_send_flag_eq_dec : EqDecision ib_send_flag.
Proof. solve_decision. Defined.
#[export] Instance ib_port_state_eq_dec : EqDecision ib_port_state.
Proof. solve_decision. Defined.

Record ib_port_attr := mkPortAttr { port_state : ib_port_state; port_lid : Z }.

(** Address vectors; the fields neither build sets are left out. *)
Record ah_attr := mkAh {
  ah_port_num : Z; ah_dlid : Z; ah_sl : Z; ah_is_global : Z;
  ah_dgid : ib_gid; ah_sgid_index : Z; ah_flow_label : Z; ah_hop_limit : Z }.
Definition default_ah : ah_attr := mkAh 0 0 0 0 default_gid 0 0 0.

Record ib_qp_attr := mkQpAttr {
  qp_state : ib_qp_state; path_mtu : ib_mtu; qkey : Z; rq_psn : Z; sq_psn : Z; dest_qp_num : Z;
  qp_access_flags : list ib_access_flag; pkey_index : Z; port_num : Z; timeout : Z;
  retry_cnt : Z; rnr_retry : Z; max_rd_atomic : Z; max_dest_rd_atomic : Z; min_rnr_timer : Z;
  av : ah_attr }.

(** [..Default::default()]: the zeroed structure. *)
Definition default_qp_attr : ib_qp_attr :=
  mkQpAttr IB_QPS_RESET IB_MTU_NONE 0 0 0 0 [] 0 0 0 0 0 0 0 0 default_ah.

(** Struct update syntax, one field at a time. *)
Definition with_qp_state x a := let '(mkQpAttr _ b c d e f g h i j k l m n o p) := a in mkQpAttr x b c d e f g h i j k l m n o p.
Definition with_path_mtu x a := let '(mkQpAttr a b c d e f g h i j k l m n o p) := a in mkQpAttr a x c d e f g h i j k l m n o p.
Definition with_qkey x a := let '(mkQpAttr a b c d e f g h i j k l m n o p) := a in mkQpAttr a b x d e f g h i j k l m n o p.
Definition with_rq_psn x a := let '(mkQpAttr a b c d e f g h i j k l m n o p) := a in mkQpAttr a b c x e f g h i j k l m n o p.
Definition with_sq_psn x a := let '(mkQpAttr a b c d e f g h i j k l m n o p) := a in mkQpAttr a b c d x f g h i j k l m n o p.
Definition with_dest_qp_num x a := let '(mkQpAttr a b c d e f g h i j k l m n o p) := a in mkQpAttr a b c d e x g h i j k l m n o p.
Definition with_access x a := let '(mkQpAttr a b c d e f g h i j k l m n o p) := a in mkQpAttr a b c d e f x h i j k l m n o p.
Definition with_pkey_index x a := let '(mkQpAttr a b c d e f g h i j k l m n o p) := a in mkQpAttr a b c d e f g x i j k l m n o p.
Definition with_port_num x a := let '(mkQpAttr a b c d e f g h i j k l m n o p) := a in mkQpAttr a b c d e f g h x j k l m n o p.
Definition with_timeout x a := let '(mkQpAttr a b c d e f g h i j k l m n o p) := a in mkQpAttr a b c d e f g h i x k l m n o p.
Definition with_retry_cnt x a := let '(mkQpAttr a b c d e f g h i j k l m n o p) := a in mkQpAttr a b c d e f g h i j x l m n o p.
Definition with_rnr_retry x a := let '(mkQpAttr a b c d e f g h i j k l m n o p) := a in mkQpAttr a b c d e f g h i j k x m n o p.
Definition with_max_rd_atomic x a := let '(mkQpAttr a b c d e f g h i j k l m n o p) := a in mkQpAttr a b c d e f g h i j k l x n o p.
Definition with_max_dest_rd_atomic x a := let '(mkQpAttr a b c d e f g h i j k l m n o p) := a in mkQpAttr a b c d e f g h i j k l m x o p.
Definition with_min_rnr_timer x a := let '(mkQpAttr a b c d e f g h i j k l m n o p) := a in mkQpAttr a b c d e f g h i j k l m n x p.
Definition with_av x a := let '(mkQpAttr a b c d e f g h i j k l m n o p) := a in mkQpAttr a b c d e f g h i j k l m n o x.

Notation "a |> f" := (f a) (at level 40, left associativity, only parsing) : krdma_scope.

Record ib_qp_cap := mkCap {
  cap_max_send_wr : Z; cap_max_recv_wr : Z; cap_max_send_sge : Z; cap_max_recv_sge : Z;
  cap_max_inline_data : Z }.

Record ib_qp_init_attr := mkQpInit {
  init_cap : ib_qp_cap; init_qp_type : ib_qp_type; init_send_cq : ptr; init_recv_cq : ptr;
  init_srq : ptr }.

Record ib_dct_init_attr := mkDctInit {
  dct_pd : ptr; dct_cq : ptr; dct_srq : ptr; dct_dc_key : Z; dct_port : Z;
  dct_access_flags : list ib_access_flag; dct_min_rnr_timer : Z; dct_inline_size : Z;
  dct_hop_limit : Z; dct_mtu : ib_mtu }.

Record ib_sge := mkSge { sge_addr : Z; sge_length : Z; sge_lkey : Z }.

(** The part of a work request that depends on its opcode. *)
Inductive wr_body : Set :=
| WrNone
| WrRdma (remote_addr rkey : Z)
| WrAtomic (remote_addr compare_add swap rkey : Z)
| WrUd (ah remote_qpn remote_qkey : Z)
| WrDc (remote_addr rkey ah dct_access_key dct_number : Z).

Record send_wr := mkSendWr {
  wr_id : Z; wr_opcode : ib_wr_opcode; wr_flags : list ib_send_flag; wr_imm : Z;
  wr_sges : list ib_sge; wr_ext : wr_body }.

Record recv_wr := mkRecvWr { rwr_id : Z; rwr_sges : list ib_sge }.

Record ib_wc := mkWc { wc_wr_id : Z; wc_status : Z; wc_opcode : Z; wc_byte_len : Z; wc_imm : Z }.

Inductive mw_type : Set := IBV_MW_TYPE_1 | IBV_MW_TYPE_2.
Record mw_bind := mkMwBind {
  bind_wr_id : Z; bind_flags : list ib_send_flag; bind_mr : ptr; bind_addr : Z; bind_length : Z;
  bind_access : list ib_access_flag }.

#[export] Instance ib_sge_eq_dec : EqDecision ib_sge.
Proof. solve_decision. Defined.
#[export] Instance wr_body_eq_dec : EqDecision wr_body.
Proof. solve_decision. Defined.
#[export] Instance send_wr_eq_dec : EqDecision send_wr.
Proof. solve_decision. Defined.

(** ** Configuration

    Cargo features select the kernel or the user build of the library; the
    profile decides whether integer overflow is checked. *)
Inductive feature : Set := kernel | user.

Class Cfg := { feat : feature; overflow_checks : bool }.
Definition kernel_cfg : Cfg := {| feat := kernel; overflow_checks := true |}.
Definition user_cfg : Cfg := {| feat := user; overflow_checks := true |}.

(** ** Operations *)

(** Device, protection domain, memory registration, address handles. *)
Class DeviceOps (W : Type) := {
  ibv_open_device : ptr -> W -> ptr * W;
  ib_alloc_pd : ptr -> W -> ptr * W;
  ib_dealloc_pd : ptr -> W -> Z * W;
  ib_get_dma_mr : ptr -> list ib_access_flag -> W -> ptr * W;
  ibv_reg_mr : ptr -> ptr -> Z -> list ib_access_flag -> W -> ptr * W;
  ib_dereg_mr : ptr -> W -> Z * W;
  mr_lkey : W -> ptr -> Z;
  mr_rkey : W -> ptr -> Z;
  virt_to_phys : ptr -> Z;
  rdma_create_ah : ptr -> ah_attr -> W -> ptr * W;
  ptr_is_err : ptr -> bool;
  rdma_destroy_ah : ptr -> W -> Z * W;
  ib_query_port : ptr -> Z -> W -> (Z * ib_port_attr) * W;
  ib_query_gid : ptr -> Z -> Z -> W -> (Z * ib_gid) * W;
  (* memory of the process: the global allocator and mmap *)
  alloc_zeroed : Z -> W -> ptr * W;
  dealloc : ptr -> Z -> W -> unit * W;
  mmap : Z -> W -> ptr * W;
  munmap : ptr -> Z -> W -> Z * W
}.

(** Completion queues, queue pairs and their relatives. *)
Class QueueOps (W : Type) := {
  ib_create_cq : ptr -> Z -> W -> ptr * W;
  ib_free_cq : ptr -> W -> Z * W;
  ib_create_srq : ptr -> Z -> Z -> W -> ptr * W;
  ib_destroy_srq : ptr -> W -> Z * W;
  ib_create_qp : ptr -> ib_qp_init_attr -> W -> ptr * W;
  ib_destroy_qp : ptr -> W -> Z * W;
  ib_create_dct : ptr -> ib_dct_init_attr -> W -> ptr * W;
  ib_destroy_dct : ptr -> W -> Z * W;
  ib_query_qp : ptr -> W -> (Z * ib_qp_state) * W;
  ib_modify_qp : ptr -> ib_qp_attr -> list ib_qp_attr_mask -> W -> Z * W;
  qp_num : W -> ptr -> Z;
  dct_num : W -> ptr -> Z;
  (* the operation table of the device context; [None] entries make [unwrap] panic *)
  has_post_send : W -> ptr -> bool;
  has_post_recv : W -> ptr -> bool;
  has_poll_cq : W -> ptr -> bool
}.

(** The data path. *)
Class DataOps (W : Type) := {
  ib_post_send : ptr -> list send_wr -> W -> Z * W;
  ib_post_recv : ptr -> list recv_wr -> W -> Z * W;
  ib_poll_cq : ptr -> Z -> W -> (Z * list ib_wc) * W;
  ibv_alloc_mw : ptr -> mw_type -> W -> ptr * W;
  ibv_dealloc_mw : ptr -> W -> Z * W;
  mw_type_of : W -> ptr -> mw_type;
  ibv_bind_mw : ptr -> ptr -> mw_bind -> W -> Z * W;
  has_mw_ops : W -> ptr -> bool
}.

(** ** Documented behaviour *)

(** Resources a driver hands out, by kind and pointer. *)
Inductive res_kind : Set := RCtx | RPd | RMr | RAh | RCq | RSrq | RQp | RDct | RMw | RMem | RMap.
Abbreviation res := (res_kind * Z)%type.

#[export] Instance res_kind_eq_dec : EqDecision res_kind.
Proof. solve_decision. Defined.
#[export] Instance res_kind_countable : Countable res_kind.
Proof.
  refine (inj_countable'
    (fun k => match k with RCtx => 0 | RPd => 1 | RMr => 2 | RAh => 3 | RCq => 4 | RSrq => 5
              | RQp => 6 | RDct => 7 | RMw => 8 | RMem => 9 | RMap => 10 end)
    (fun z => match z with 0 => RCtx | 1 => RPd | 2 => RMr | 3 => RAh | 4 => RCq | 5 => RSrq
              | 6 => RQp | 7 => RDct | 8 => RMw | 9 => RMem | _ => RMap end) _).
  by intros [].
Defined.

(** What the driver keeps of a queue pair. *)
Record qp_info := mkQpInfo { qi_init : ib_qp_init_attr; qi_attr : ib_qp_attr }.

(** [ibv_modify_qp]: the attributes named by the mask are replaced. *)
Definition apply_attr (mask : list ib_qp_attr_mask) (a old : ib_qp_attr) : ib_qp_attr :=
  let pick {A} (m : ib_qp_attr_mask) (f : ib_qp_attr -> A) : A :=
    if decide (m ∈ mask) then f a else f old in
  mkQpAttr (pick IB_QP_STATE qp_state) (pick IB_QP_PATH_MTU path_mtu) (pick IB_QP_QKEY qkey)
    (pick IB_QP_RQ_PSN rq_psn) (pick IB_QP_SQ_PSN sq_psn) (pick IB_QP_DEST_QPN dest_qp_num)
    (pick IB_QP_ACCESS_FLAGS qp_access_flags) (pick IB_QP_PKEY_INDEX pkey_index)
    (pick IB_QP_PORT port_num) (pick IB_QP_TIMEOUT timeout) (pick IB_QP_RETRY_CNT retry_cnt)
    (pick IB_QP_RNR_RETRY rnr_retry) (pick IB_QP_MAX_QP_RD_ATOMIC max_rd_atomic)
    (pick IB_QP_MAX_DEST_RD_ATOMIC max_dest_rd_atomic) (pick IB_QP_MIN_RNR_TIMER min_rnr_timer)
    (pick IB_QP_AV av).

(** The table of the ibv_modify_qp manual page: for a transition of a queue
    pair type, the attributes that are required and those that are allowed. *)
Definition transition (t : ib_qp_type) (cur next : ib_qp_state) :
  option (list ib_qp_attr_mask * list ib_qp_attr_mask) :=
  match t, cur, next with
  | IB_QPT_UD, IB_QPS_RESET, IB_QPS_INIT => Some ([IB_QP_PKEY_INDEX; IB_QP_PORT; IB_QP_QKEY], [])
  | IB_QPT_UD, IB_QPS_INIT, IB_QPS_RTR => Some ([], [IB_QP_PKEY_INDEX; IB_QP_QKEY])
  | IB_QPT_UD, IB_QPS_RTR, IB_QPS_RTS => Some ([IB_QP_SQ_PSN], [IB_QP_QKEY])
  | IB_QPT_RC, IB_QPS_RESET, IB_QPS_INIT =>
      Some ([IB_QP_PKEY_INDEX; IB_QP_PORT; IB_QP_ACCESS_FLAGS], [])
  | IB_QPT_RC, IB_QPS_INIT, IB_QPS_RTR =>
      Some ([IB_QP_AV; IB_QP_PATH_MTU; IB_QP_DEST_QPN; IB_QP_RQ_PSN; IB_QP_MAX_DEST_RD_ATOMIC;
             IB_QP_MIN_RNR_TIMER], [IB_QP_ALT_PATH; IB_QP_ACCESS_FLAGS; IB_QP_PKEY_INDEX])
  | IB_QPT_RC, IB_QPS_RTR, IB_QPS_RTS =>
      Some ([IB_QP_TIMEOUT; IB_QP_RETRY_CNT; IB_QP_RNR_RETRY; IB_QP_SQ_PSN; IB_QP_MAX_QP_RD_ATOMIC],
            [IB_QP_ALT_PATH; IB_QP_ACCESS_FLAGS; IB_QP_MIN_RNR_TIMER])
  | _, _, _ => None
  end.

Definition legal_modify (t : ib_qp_type) (cur : ib_qp_state) (mask : list ib_qp_attr_mask)
  (a : ib_qp_attr) : bool :=
  match transition t cur (qp_state a) with
  | Some (required, optional) =>
      bool_decide (IB_QP_STATE ∈ mask) && bool_decide (required ⊆ mask) &&
      bool_decide (mask ⊆ IB_QP_STATE :: required ++ optional)
  | None => false
  end.

(** The initial attributes of a new queue pair. *)
Definition reset_info (init : ib_qp_init_attr) : qp_info := mkQpInfo init default_qp_attr.

Section views.
Context {W : Type} (live : W -> gset res) (qp_view : W -> ptr -> option qp_info).

(** A creation call returned [p]: null and nothing changed, or a new resource. *)
Definition created (k : res_kind) (w : W) (p : ptr) (w' : W) : Prop :=
  if decide (p = null) then live w' = live w
  else ((k, p) ∉ live w) /\ live w' = {[(k, p)]} ∪ live w.

Definition same_qps (w w' : W) : Prop := forall q, qp_view w' q = qp_view w q.

(** A completion queue, or a shared receive queue, some queue pair refers to. *)
Definition refers (v : qp_info) (r : res) : Prop :=
  r = (RCq, init_send_cq (qi_init v)) \/ r = (RCq, init_recv_cq (qi_init v)) \/
  r = (RSrq, init_srq (qi_init v)).
Definition in_use (w : W) (r : res) : Prop := exists q v, qp_view w q = Some v /\ refers v r.

End views.

(** The laws theorems about the control path use.  [live] is the set of
    resources the driver has handed out, [qp_view] what it knows of each queue
    pair, [healthy] says that it accepts every legal request from now on. *)
Class VerbsLaws (W : Type) `{!QueueOps W} := {
  live : W -> gset res;
  qp_view : W -> ptr -> option qp_info;
  healthy : W -> Prop;
  ops_law w p : has_post_send w p = true /\ has_post_recv w p = true /\ has_poll_cq w p = true;
  create_cq_law dev n w p w' :
    ib_create_cq dev n w = (p, w') ->
    created live RCq w p w' /\ same_qps qp_view w w' /\ (p <> null -> ~ in_use qp_view w' (RCq, p)) /\
    (healthy w -> p <> null /\ healthy w');
  create_srq_law pd n m w p w' :
    ib_create_srq pd n m w = (p, w') ->
    created live RSrq w p w' /\ same_qps qp_view w w' /\ (p <> null -> ~ in_use qp_view w' (RSrq, p)) /\
    (healthy w -> p <> null /\ healthy w');
  create_qp_law pd init w p w' :
    ib_create_qp pd init w = (p, w') ->
    created live RQp w p w' /\
    (p = null -> same_qps qp_view w w') /\
    (p <> null -> qp_view w p = None /\ qp_view w' p = Some (reset_info init) /\
                  forall q, q <> p -> qp_view w' q = qp_view w q) /\
    (healthy w -> p <> null /\ healthy w');
  create_dct_law pd init w p w' :
    ib_create_dct pd init w = (p, w') ->
    created live RDct w p w' /\ same_qps qp_view w w' /\ (healthy w -> p <> null /\ healthy w');
  free_cq_law p w r w' :
    ib_free_cq p w = (r, w') -> ~ in_use qp_view w (RCq, p) ->
    live w' = live w ∖ {[(RCq, p)]} /\ same_qps qp_view w w' /\ (healthy w -> healthy w');
  destroy_srq_law p w r w' :
    ib_destroy_srq p w = (r, w') -> ~ in_use qp_view w (RSrq, p) ->
    live w' = live w ∖ {[(RSrq, p)]} /\ same_qps qp_view w w' /\ (healthy w -> healthy w');
  destroy_qp_law p w r w' :
    ib_destroy_qp p w = (r, w') ->
    live w' = live w ∖ {[(RQp, p)]} /\ qp_view w' p = None /\
    (forall q, q <> p -> qp_view w' q = qp_view w q) /\ (healthy w -> healthy w');
  destroy_dct_law p w r w' :
    ib_destroy_dct p w = (r, w') ->
    live w' = live w ∖ {[(RDct, p)]} /\ same_qps qp_view w w' /\ (healthy w -> healthy w');
  query_qp_law q w r s w' :
    ib_query_qp q w = ((r, s), w') ->
    live w' = live w /\ same_qps qp_view w w' /\ qp_num w' q = qp_num w q /\
    (forall v, r = 0 -> qp_view w q = Some v -> s = qp_state (qi_attr v)) /\
    (forall v, healthy w -> qp_view w q = Some v -> r = 0 /\ healthy w');
  modify_qp_law q a m w r w' :
    ib_modify_qp q a m w = (r, w') ->
    live w' = live w /\ qp_num w' q = qp_num w q /\
    (forall q', q' <> q -> qp_view w' q' = qp_view w q') /\
    (r <> 0 -> qp_view w' q = qp_view w q) /\
    (forall v, r = 0 -> qp_view w q = Some v ->
       qp_view w' q = Some (mkQpInfo (qi_init v) (apply_attr m a (qi_attr v)))) /\
    (forall v, healthy w -> qp_view w q = Some v ->
       legal_modify (init_qp_type (qi_init v)) (qp_state (qi_attr v)) m a = true ->
       r = 0 /\ healthy w')
}.

(** What the driver does with contexts, protection domains, memory
    registrations and memory.  No object lies at an error pointer.  [alloc_size]
    is the size a block of memory was allocated with. *)
Class DeviceLaws (W : Type) `{!QueueOps W, !VerbsLaws W, !DeviceOps W} := {
  created_not_err pd init w p w' :
    ib_create_qp pd init w = (p, w') -> p <> null -> ptr_is_err p = false;
  open_device_law d w p w' : ibv_open_device d w = (p, w') -> created live RCtx w p w';
  alloc_pd_law c w p w' : ib_alloc_pd c w = (p, w') -> created live RPd w p w';
  dealloc_pd_law p w r w' : ib_dealloc_pd p w = (r, w') -> live w' = live w ∖ {[(RPd, p)]};
  get_dma_mr_law p f w m w' : ib_get_dma_mr p f w = (m, w') -> created live RMr w m w';
  reg_mr_law pd a n f w m w' : ibv_reg_mr pd a n f w = (m, w') -> created live RMr w m w';
  dereg_mr_law m w r w' : ib_dereg_mr m w = (r, w') -> live w' = live w ∖ {[(RMr, m)]};
  mmap_law n w p w' :
    mmap n w = (p, w') ->
    if decide (p = 2 ^ 64 - 1) then live w' = live w
    else ((RMap, p) ∉ live w) /\ live w' = {[(RMap, p)]} ∪ live w;
  munmap_law p n w r w' : munmap p n w = (r, w') -> live w' = live w ∖ {[(RMap, p)]};
  alloc_size : W -> ptr -> option Z;
  alloc_zeroed_law n w p w' :
    alloc_zeroed n w = (p, w') ->
    p <> null /\ ((RMem, p) ∉ live w) /\ live w' = {[(RMem, p)]} ∪ live w /\
    alloc_size w' p = Some n;
  reg_mr_size pd a n f w m w' q :
    ibv_reg_mr pd a n f w = (m, w') -> alloc_size w' q = alloc_size w q;
  dealloc_law p n w u w' :
    dealloc p n w = (u, w') -> alloc_size w p = Some n -> live w' = live w ∖ {[(RMem, p)]}
}.

(** Address handles.  In the kernel an error is an error pointer. *)
Class AddressLaws (W : Type) `{!QueueOps W, !VerbsLaws W, !DeviceOps W} := {
  create_ah_law pd a w p w' :
    rdma_create_ah pd a w = (p, w') ->
    same_qps qp_view w w' /\ (healthy w -> ptr_is_err p = false /\ healthy w') /\
    if ptr_is_err p then live w' = live w
    else ((RAh, p) ∉ live w) /\ live w' = {[(RAh, p)]} ∪ live w;
  destroy_ah_law p w r w' :
    rdma_destroy_ah p w = (r, w') ->
    same_qps qp_view w w' /\ (healthy w -> healthy w') /\ live w' = live w ∖ {[(RAh, p)]}
}.

(** A call that concerns neither resources nor queue pairs. *)
Definition quiet {W} `{!QueueOps W, !VerbsLaws W} (w w' : W) : Prop :=
  live w' = live w /\ same_qps qp_view w w' /\ (forall q, qp_num w' q = qp_num w q) /\
  (healthy w -> healthy w').

(** Port queries.  The attributes of a port do not change while the library
    runs. *)
Class PortLaws (W : Type) `{!QueueOps W, !VerbsLaws W, !DeviceOps W} := {
  port_info : ptr -> Z -> ib_port_attr;
  gid_info : ptr -> Z -> Z -> ib_gid;
  query_port_law c p w r a w' :
    ib_query_port c p w = ((r, a), w') ->
    quiet w w' /\ (r = 0 -> a = port_info c p) /\ (healthy w -> r = 0);
  query_gid_law c p i w r g w' :
    ib_query_gid c p i w = ((r, g), w') ->
    quiet w w' /\ (r = 0 -> g = gid_info c p i) /\ (healthy w -> r = 0)
}.

Section accounting.
Context {W : Type} `{!QueueOps W, !VerbsLaws W}.

Lemma quiet_refl (w : W) : quiet w w.
Proof. by split_and!. Qed.

Lemma quiet_trans (w1 w2 w3 : W) : quiet w1 w2 -> quiet w2 w3 -> quiet w1 w3.
Proof.
  intros (Hl & Hs & Hn & Hh) (Hl' & Hs' & Hn' & Hh'). split_and!; [congruence| | |auto].
  - intros q. by rewrite Hs', Hs.
  - intros q. by rewrite Hn', Hn.
Qed.

Lemma created_nonnull k w p w' :
  is_null p = false -> created live k w p w' ->
  ((k, p) ∉ live w) /\ live w' = {[(k, p)]} ∪ live w.
Proof.
  unfold created, is_null. intros ?%Z.eqb_neq. by rewrite decide_False by done.
Qed.

Lemma created_null k w p w' : is_null p = true -> created live k w p w' -> live w' = live w.
Proof. unfold created, is_null. intros ->%Z.eqb_eq. by rewrite decide_True by done. Qed.

Lemma in_use_same w w' r : same_qps qp_view w w' -> ~ in_use qp_view w r -> ~ in_use qp_view w' r.
Proof. intros Hs Hn (q & v & Hv & Hr). apply Hn. exists q, v. by rewrite <-Hs. Qed.

End accounting.

(** Equalities between resource sets, from the effects of the calls before. *)
Ltac ledger :=
  repeat match goal with
  | H : live ?w = _ |- _ => rewrite H in *; clear H
  end;
  repeat match goal with H : _ ∉ _ |- _ => revert H end;
  clear; intros; set_solver.

(** ** Chains of work requests

    [post_send] takes a pointer to a work request and follows the [next]
    pointers.  A request here sits in an array and [next] is an index; a chain
    that leaves the array or never ends has no list. *)
Fixpoint wr_chain {A} (wrs : list (A * option nat)) (fuel : nat) (i : nat) : option (list A) :=
  match fuel with
  | O => None
  | S fuel =>
      '(wr, next) ← wrs !! i;
      match next with
      | None => Some [wr]
      | Some j => l ← wr_chain wrs fuel j; Some (wr :: l)
      end
  end.

(** A chain without a cycle visits each element of the array at most once. *)
Definition post_chain {W} `{!DataOps W} (qp : ptr) (wrs : list (send_wr * option nat)) (i : nat) :
  M W Z :=
  match wr_chain wrs (length wrs) i with
  | Some l => call (ib_post_send qp l)
  | None => panic
  end.

(** A chain whose elements are at the indices [f 0, f 1, ...], each linked to the
    next one, up to the last. *)
Lemma wr_chain_path {A} (wrs : list (A * option nat)) l (f : nat -> nat) fuel :
  (forall k wr, l !! k = Some wr ->
     wrs !! f k = Some (wr, if Nat.eqb (S k) (length l) then None else Some (f (S k)))) ->
  l <> [] -> (length l <= fuel)%nat -> wr_chain wrs fuel (f 0%nat) = Some l.
Proof.
  revert f fuel. induction l as [|wr l IH]; intros f fuel Hl Hne Hf; [done|].
  destruct fuel as [|fuel]; [simpl in Hf; lia|]. simpl.
  rewrite (Hl 0%nat wr eq_refl). simpl. destruct l as [|wr' l]; [done|]. simpl.
  rewrite (IH (fun k => f (S k)) fuel); [done| |done|simpl in *; lia].
  intros k x Hx. exact (Hl (S k) x Hx).
Qed.

(** Consecutive entries. *)
Lemma wr_chain_run {A} (wrs : list (A * option nat)) l i fuel :
  (forall k wr, l !! k = Some wr ->
     wrs !! (i + k)%nat = Some (wr, if Nat.eqb (S k) (length l) then None else Some (i + S k)%nat)) ->
  l <> [] -> (length l <= fuel)%nat -> wr_chain wrs fuel i = Some l.
Proof.
  intros Hl Hne Hf. pose proof (wr_chain_path wrs l (fun k => i + k)%nat fuel Hl Hne Hf) as H.
  cbn beta in H. by rewrite Nat.add_0_r in H.
Qed.
