(* ===== verification/ChrDev.v ===== *)
(** * Character devices, and the entry points of a module

    src/rust-kernel-rdma/deps/rust-kernel-module/src/chrdev.rs (the registration of
    the devices of a module) and lib.rs (what [kernel_module!] expands to).

    The calls of the kernel are the operations of [ChrOps]; [ChrLaws] is what is
    documented of them over the objects the kernel has. Functions that return a
    pointer report an error with an error pointer, never with a null pointer. The
    static [CL] is the state beside the kernel. *)

From S2P Require Import Prelude Errors Verbs.

#[local] Open Scope Z_scope.

Inductive chr_res : Set := Region (dev n : Z) | Class_ (c : Z) | Cdev (dev : Z) | Dev (c dev : Z).
#[export] Instance chr_res_eq_dec : EqDecision chr_res.
Proof. solve_decision. Defined.
#[export] Instance chr_res_countable : Countable chr_res.
Proof.
  refine (inj_countable'
    (fun r => match r with Region d n => (0, d, n) | Class_ c => (1, c, 0) | Cdev d => (2, d, 0) | Dev c d => (3, c, d) end)
    (fun '(k, a, b) => match k with 0 => Region a b | 1 => Class_ a | 2 => Cdev a | _ => Dev a b end) _).
  by intros [].
Defined.

(** A [cdev] of the slice of a registration is named by its device number. *)
Class ChrOps (W : Type) := {
  err_ptr : ptr -> bool;
  alloc_chrdev_region : Z -> Z -> W -> (Z * Z) * W;
  class_create : W -> ptr * W;
  set_devnode : ptr -> W -> unit * W;
  cdev_add : Z -> W -> Z * W;
  device_create : ptr -> Z -> list Z -> W -> ptr * W;
  class_destroy : ptr -> W -> unit * W;
  cdev_del : Z -> W -> unit * W;
  device_destroy : ptr -> Z -> W -> unit * W;
  unregister_chrdev_region : Z -> Z -> W -> unit * W
}.

Class ChrLaws (W : Type) `{!ChrOps W} := {
  clive : W -> gset chr_res;
  err_ptr_law p : err_ptr p = true -> p <> null;
  alloc_region_law start n w r dev w' :
    alloc_chrdev_region start n w = ((r, dev), w') ->
    if r =? 0 then
      0 <= dev /\ dev + n <= 2 ^ 32 /\ clive w' = {[Region dev n]} ∪ clive w /\ (Region dev n ∉ clive w) /\
      forall i, 0 <= i < n -> Cdev (dev + i) ∉ clive w
    else clive w' = clive w;
  class_create_law w p w' :
    class_create w = (p, w') ->
    if err_ptr p then clive w' = clive w
    else p <> null /\ clive w' = {[Class_ p]} ∪ clive w /\ (Class_ p ∉ clive w) /\ forall d, Dev p d ∉ clive w;
  set_devnode_law p w u w' : set_devnode p w = (u, w') -> clive w' = clive w;
  cdev_add_law d w r w' :
    cdev_add d w = (r, w') -> clive w' = if r =? 0 then {[Cdev d]} ∪ clive w else clive w;
  device_create_law c d name w p w' :
    device_create c d name w = (p, w') -> p <> null /\ clive w' = if err_ptr p then clive w else {[Dev c d]} ∪ clive w;
  class_destroy_law c w u w' : class_destroy c w = (u, w') -> clive w' = clive w ∖ {[Class_ c]};
  cdev_del_law d w u w' : cdev_del d w = (u, w') -> clive w' = clive w ∖ {[Cdev d]};
  device_destroy_law c d w u w' : device_destroy c d w = (u, w') -> clive w' = clive w ∖ {[Dev c d]};
  unregister_law d n w u w' : unregister_chrdev_region d n w = (u, w') -> clive w' = clive w ∖ {[Region d n]}
}.

Section chrdev.
Context {W : Type} `{!ChrOps W} {O : Type}.

(** [O] are the tables of functions. *)
Record Builder := mkBuilder { name : list Z; first : Z; last : Z; file_ops : list O; file_names : list (list Z) }.
Record Registration := mkRegistration { dev : Z; count : Z; cdevs : nat }.

Definition minors_len (b : Builder) : Z := Z.max 0 (last b - first b).

Definition builder (name : list Z) (lo hi : Z) : Result Error Builder := Ok (mkBuilder name lo hi [] []).

Definition register_device (ops : O) (nm : list Z) (b : Builder) : outcome Builder :=
  if minors_len b <=? Z.of_nat (length (file_ops b)) then Panic
  else Done (mkBuilder (name b) (first b) (last b) (file_ops b ++ [ops]) (file_names b ++ [nm])).

Fixpoint cdev_dels (dev : Z) (js : list nat) : M W unit :=
  match js with
  | [] => mret ()
  | j :: js => _ ← call (cdev_del (u32 (dev + Z.of_nat j))); cdev_dels dev js
  end.

(** The loop of [build] from the [i]-th device on. *)
Fixpoint build_loop (dev n : Z) (names : list (list Z)) (i : nat) : M (W * ptr) (Result Error unit) :=
  match names with
  | [] => mret (Ok ())
  | nm :: names =>
      rc ← onW (call (cdev_add (u32 (dev + Z.of_nat i))));
      rc ← (if rc =? 0 then
              CL ← getX;
              dev_ret ← onW (call (device_create CL (u32 (dev + Z.of_nat i)) nm));
              if is_null dev_ret then _ ← onW (call (class_destroy CL)); mret (-1) else mret rc
            else mret rc);
      if negb (rc =? 0) then
        _ ← onW (cdev_dels dev (seq 0 (S i)));
        _ ← onW (call (unregister_chrdev_region dev n));
        mret (Err (from_kernel_errno rc))
      else build_loop dev n names (S i)
  end.

(** A store through an error pointer is a crash. *)
Definition build (b : Builder) : M (W * ptr) (Result Error Registration) :=
  let n := minors_len b in
  '(res, dev) ← onW (call (alloc_chrdev_region (first b) n));
  if negb (res =? 0) then mret (Err (from_kernel_errno res))
  else
    cl ← onW (call class_create);
    _ ← (if is_null cl then mret ()
         else if err_ptr cl then panic
         else _ ← onW (call (set_devnode cl)); onX (fun _ => cl));
    r ← build_loop dev n (file_names b) 0;
    match r with
    | Err e => mret (Err e)
    | Ok _ => mret (Ok (mkRegistration dev n (length (file_ops b))))
    end.

Fixpoint drop_devices (dev : Z) (is_ : list nat) : M (W * ptr) unit :=
  match is_ with
  | [] => mret ()
  | i :: is_ =>
      CL ← getX;
      _ ← onW (call (device_destroy CL (u32 (dev + Z.of_nat i))));
      _ ← onW (call (cdev_del (u32 (dev + Z.of_nat i))));
      drop_devices dev is_
  end.
Definition drop_registration (r : Registration) : M (W * ptr) unit :=
  _ ← drop_devices (dev r) (seq 0 (cdevs r));
  CL ← getX;
  _ ← (if negb (is_null CL) then onW (call (class_destroy CL)) else mret ());
  onW (call (unregister_chrdev_region (dev r) (count r))).

(** The mode of the node of a device: every permission, when there is a place for it. *)
Definition S_IALLUGO : Z := 4095.
Definition dev_set_user (mode : option Z) : option Z := (fun _ => u16 S_IALLUGO) <$> mode.

End chrdev.
Arguments Builder : clear implicits.

(** ** The entry points of a module (lib.rs): [__MOD] is the state beside the world *)
Section kernel_module.
Context {W T : Type} (init : M W (Result Error T)) (drop_module : T -> M W unit).

(** An assignment drops the value it replaces. *)
Definition set_MOD (m : option T) : M (W * option T) unit :=
  old ← getX;
  _ ← onX (fun _ => m);
  match old with Some t => onW (drop_module t) | None => mret () end.

Definition init_module : M (W * option T) Z :=
  r ← onW init;
  match r with
  | Ok m => _ ← set_MOD (Some m); mret 0
  | Err e => mret (to_kernel_errno e)
  end.
Definition cleanup_module : M (W * option T) unit := set_MOD None.
End kernel_module.

(** ** File systems (filesystem.rs)

    [mount_nodev] calls the function that fills the super block. *)
Class FsOps (W : Type) := {
  register_filesystem : Z -> W -> Z * W;
  unregister_filesystem : W -> Z * W;
  mount_nodev : Z -> M W Z -> M W ptr
}.

Section filesystem.
Context {W : Type} `{!FsOps W}.

Definition fs_drop : M W unit := _ ← call unregister_filesystem; mret ().
(** The registration that is returned, or dropped when the kernel refuses it. *)
Definition fs_register (FLAGS : Z) : M W (Result Error unit) :=
  result ← call (register_filesystem FLAGS);
  if negb (result =? 0) then _ ← fs_drop; mret (Err (from_kernel_errno result)) else mret (Ok ()).
Definition fill_super_callback : M W Z := panic.
Definition mount_callback (flags : Z) : M W ptr := mount_nodev flags fill_super_callback.
End filesystem.

(** ** What a registration leaves in the kernel *)
Section registration.
Context {W : Type} `{!ChrOps W, !ChrLaws W} {O : Type}.
Implicit Types (w : W) (b : Builder O) (L D : gset chr_res).

Definition cdev_set (dv : Z) (k : nat) : gset chr_res := list_to_set ((fun i => Cdev (dv + Z.of_nat i)) <$> seq 0 k).
Definition device_set (c dv : Z) (k : nat) : gset chr_res := list_to_set ((fun i => Dev c (dv + Z.of_nat i)) <$> seq 0 k).

Lemma elem_cdev_set dv k r : r ∈ cdev_set dv k <-> exists i, (i < k)%nat /\ r = Cdev (dv + Z.of_nat i).
Proof. unfold cdev_set. rewrite elem_of_list_to_set, list_elem_of_fmap. setoid_rewrite elem_of_seq. naive_solver lia. Qed.
Lemma elem_device_set c dv k r : r ∈ device_set c dv k <-> exists i, (i < k)%nat /\ r = Dev c (dv + Z.of_nat i).
Proof. unfold device_set. rewrite elem_of_list_to_set, list_elem_of_fmap. setoid_rewrite elem_of_seq. naive_solver lia. Qed.

Lemma cdev_set_S dv k : cdev_set dv (S k) = {[Cdev (dv + Z.of_nat k)]} ∪ cdev_set dv k.
Proof.
  apply set_eq. intros r. rewrite elem_of_union, elem_of_singleton, !elem_cdev_set. split.
  - intros (i & Hi & ->). destruct (decide (i = k)) as [->|]; [by left|right; exists i; split; [lia|done]].
  - intros [->|(i & Hi & ->)]; eexists; split; [|reflexivity| |reflexivity]; lia.
Qed.

Lemma device_set_mono c dv k k' : (k <= k')%nat -> device_set c dv k ⊆ device_set c dv k'.
Proof. intros Hk r. rewrite !elem_device_set. intros (i & Hi & ->). exists i. split; [lia|done]. Qed.

Lemma cdev_dels_spec dv k js w :
  0 <= dv -> dv + Z.of_nat k <= 2 ^ 32 -> Forall (fun j => j < k)%nat js ->
  wp (cdev_dels dv js) w (fun _ w' => clive w' = clive w ∖ list_to_set ((fun i => Cdev (dv + Z.of_nat i)) <$> js)).
Proof.
  intros H0 Hk HF. revert w. induction HF as [|j js Hj HF IH]; intros w; cbn [cdev_dels]; wsteps; [set_solver|].
  rewrite wrap_small by (unfold in_width; lia). unfold call at 1. destruct (cdev_del (dv + Z.of_nat j) w) as [[] w1] eqn:E.
  apply wp_done. do 2 eexists. split; [cbn; by rewrite E|]. eapply wp_mono; [apply IH|]. intros [] w2 ->.
  apply cdev_del_law in E as ->. rewrite fmap_cons, list_to_set_cons. set_solver.
Qed.

(** The kernel while the [i]-th device is registered: [L] is what was there before,
    [D] the devices that were created. *)
Definition during (L : gset chr_res) (c dv n : Z) (i : nat) (D : gset chr_res) w : Prop :=
  D ⊆ device_set c dv i /\ clive w = {[Region dv n; Class_ c]} ∪ cdev_set dv i ∪ D ∪ L.

Lemma wp_call {A} (f : W -> A * W) w (Q : A -> W -> Prop) : (forall a w', f w = (a, w') -> Q a w') -> wp (call f) w Q.
Proof. intros H. unfold wp, call. destruct (f w) as [a w'] eqn:E. auto. Qed.

(** What an error leaves: the class, and the devices. *)
Definition leaked (L : gset chr_res) (c dv : Z) (k : nat) w : Prop :=
  exists D, D ⊆ device_set c dv k /\ clive w = {[Class_ c]} ∪ D ∪ L.

Lemma build_fails L c dv n i D w rc :
  0 <= dv -> dv + Z.of_nat (S i) <= 2 ^ 32 ->
  Region dv n ∉ L -> (forall j, (j < S i)%nat -> Cdev (dv + Z.of_nat j) ∉ L) -> during L c dv n i D w ->
  wp (_ ← onW (cdev_dels dv (seq 0 (S i))); _ ← onW (call (unregister_chrdev_region dv n)); mret (Err (from_kernel_errno rc))) (w, c)
    (fun (r : Result Error unit) '(w', CL) => CL = c /\ r = Err (from_kernel_errno rc) /\ leaked L c dv i w').
Proof.
  intros H0 Hi HR HC [HD Hw]. wsteps. eapply wp_mono; [apply (cdev_dels_spec dv (S i)); [done|done|]|].
  { apply Forall_seq. lia. }
  intros [] w1 H1. wsteps. apply wp_call. intros [] w2 H2%unregister_law. wsteps. split; [done|]. split; [done|]. exists D. split; [done|].
  fold (cdev_set dv (S i)) in H1. rewrite H2, H1, Hw, cdev_set_S.
  assert (HDR : forall r, r ∈ D -> exists j, r = Dev c (dv + Z.of_nat j)) by (intros r Hr; apply HD, elem_device_set in Hr; naive_solver).
  assert (HL : forall r, r ∈ L -> r <> Region dv n /\ r ∉ cdev_set dv (S i)).
  { intros r Hr. split; [by intros ->|]. rewrite elem_cdev_set. intros (j & Hj & ->). by eapply HC. }
  assert (HS : forall r, r ∈ cdev_set dv (S i) -> exists j, r = Cdev (dv + Z.of_nat j)) by (intros r; rewrite elem_cdev_set; naive_solver).
  rewrite cdev_set_S in HL, HS. apply set_eq. intros r. rewrite !elem_of_difference, !elem_of_union, !elem_of_singleton.
  specialize (HDR r). specialize (HL r). specialize (HS r). rewrite !elem_of_union, !elem_of_singleton in HL, HS.
  split; [naive_solver|]. intros [[->|Hr]|Hr].
  - split; [split; [naive_solver|]|done]. intros [?|?]; [done|]. destruct HS as [? ?]; [by right|done].
  - destruct (HDR Hr) as [j ->]. split; [split; [naive_solver|]|done]. intros [?|?]; [done|]. destruct HS as [? ?]; [by right|done].
  - destruct (HL Hr). split; [split; [naive_solver|done]|done].
Qed.

Lemma build_loop_spec L c dv n names i D w :
  0 <= dv -> dv + Z.of_nat (i + length names) <= 2 ^ 32 ->
  Region dv n ∉ L -> (forall j, (j < i + length names)%nat -> Cdev (dv + Z.of_nat j) ∉ L) -> during L c dv n i D w ->
  wp (build_loop dv n names i) (w, c) (fun r '(w', CL) => CL = c /\
    match r with
    | Ok _ => exists D', during L c dv n (i + length names) D' w'
    | Err e => to_kernel_errno e <> 0 /\ exists k, (k < i + length names)%nat /\ leaked L c dv k w'
    end).
Proof.
  intros H0. revert i D w. induction names as [|nm names IH]; intros i D w Hn HR HC Hd; cbn [build_loop length] in *; wsteps.
  { split; [done|]. exists D. by rewrite Nat.add_0_r. }
  rewrite wrap_small by (unfold in_width; lia). apply wp_call. intros rc w1 H1%cdev_add_law. destruct Hd as [HD Hw].
  destruct (Z.eqb_spec rc 0) as [->|Hrc]; wsteps.
  - apply wp_call. intros p w2 [Hp H2]%device_create_law. unfold is_null. rewrite (proj2 (Z.eqb_neq p null) Hp). wsteps. cbn [negb Z.eqb].
    rewrite <- Nat.add_succ_comm in *. eapply (IH (S i) (if err_ptr p then D else {[Dev c (dv + Z.of_nat i)]} ∪ D)); [done..|].
    split.
    + assert (D ⊆ device_set c dv (S i)) by (etransitivity; [exact HD|apply device_set_mono; lia]). destruct (err_ptr p); [done|].
      apply union_subseteq. split; [|done]. apply singleton_subseteq_l, elem_device_set. exists i. split; [lia|done].
    + rewrite H2, H1, Hw, cdev_set_S. destruct (err_ptr p); set_solver.
  - rewrite (proj2 (Z.eqb_neq rc 0) Hrc). cbn [negb]. cbv iota. eapply wp_mono.
    { apply (build_fails L c dv n i D w1 rc); [done|lia|done|intros j Hj; apply HC; lia|]. split; [done|]. by rewrite H1. }
    intros r [w2 CL] (-> & -> & Hl). split; [done|]. split; [done|]. exists i. split; [lia|done].
Qed.

Definition builder_ok b : Prop :=
  length (file_names b) = length (file_ops b) /\ Z.of_nat (length (file_ops b)) <= minors_len b.

(** Builders are made by [builder] and [register_device]. *)
Lemma builder_builder_ok nm lo hi b : builder nm lo hi = Ok b -> builder_ok b.
Proof. intros [= <-]. split; [done|]. unfold minors_len. cbn. lia. Qed.
Lemma register_device_ok (ops : O) nm b b' : builder_ok b -> register_device ops nm b = Done b' -> builder_ok b'.
Proof.
  intros [H1 H2]. unfold register_device. destruct (Z.leb_spec (minors_len b) (Z.of_nat (length (file_ops b)))); [done|].
  intros [= <-]. unfold builder_ok, minors_len in *. cbn. rewrite !length_app. cbn. lia.
Qed.

(** The kernel with a registration, over what was there before. *)
Definition registered L (b : Builder O) (r : Registration) CL w' : Prop :=
  CL <> null /\ count r = minors_len b /\ cdevs r = length (file_ops b) /\ 0 <= dev r /\ dev r + count r <= 2 ^ 32 /\
  (Region (dev r) (count r) ∉ L) /\ (Class_ CL ∉ L) /\ (forall d, Dev CL d ∉ L) /\
  (forall i, 0 <= i < count r -> Cdev (dev r + i) ∉ L) /\ exists D, during L CL (dev r) (count r) (cdevs r) D w'.

(** A region is allocated and then the class is refused. *)
Definition class_refused b w : Prop := exists dv w1 p w2,
  alloc_chrdev_region (first b) (minors_len b) w = ((0, dv), w1) /\ class_create w1 = (p, w2) /\ err_ptr p = true.

Lemma build_spec b w cl0 :
  builder_ok b ->
  match build b (w, cl0) with
  | Panic => class_refused b w
  | Done (Ok r, (w', CL)) => registered (clive w) b r CL w'
  | Done (Err e, (w', CL)) => to_kernel_errno e <> 0 /\
      (clive w' = clive w /\ CL = cl0 \/ exists dv k, (k < length (file_ops b))%nat /\ leaked (clive w) CL dv k w')
  end.
Proof.
  intros [Hn Hm]. unfold build. rewrite bind_onW. unfold call at 1.
  destruct (alloc_chrdev_region (first b) (minors_len b) w) as [[res dv] w1] eqn:E. pose proof (alloc_region_law _ _ _ _ _ _ E) as H1.
  destruct (Z.eqb_spec res 0) as [->|Hres]; cbn [negb]; cbv iota; [|split; [done|by left]].
  destruct H1 as (H0 & Hle & H1 & HR & HC). rewrite bind_onW. unfold call at 1.
  destruct (class_create w1) as [cl w2] eqn:E2. pose proof (class_create_law _ _ _ E2) as H2.
  destruct (err_ptr cl) eqn:Ee.
  { unfold is_null. rewrite (proj2 (Z.eqb_neq cl null) (err_ptr_law _ Ee)). by exists dv, w1, cl, w2. }
  destruct H2 as (Hcl & H2 & HCl & HDv). unfold is_null. rewrite (proj2 (Z.eqb_neq cl null) Hcl).
  rewrite bind_run, bind_onW. unfold call at 1. destruct (set_devnode cl w2) as [[] w3] eqn:E3. pose proof (set_devnode_law _ _ _ _ E3) as H3. cbn [onX fst snd].
  assert (Hd : during (clive w) cl dv (minors_len b) 0 ∅ w3) by (split; [set_solver|]; rewrite H3, H2, H1; unfold cdev_set; cbn; set_solver).
  assert (HC' : forall j, (j < 0 + length (file_names b))%nat -> Cdev (dv + Z.of_nat j) ∉ clive w) by (intros j Hj; apply HC; lia).
  pose proof (build_loop_spec (clive w) cl dv (minors_len b) (file_names b) 0 ∅ w3 H0 ltac:(cbn; lia) HR HC' Hd) as Hl.
  apply wp_done in Hl as (r & [w4 CL] & Hl & -> & Hr). rewrite bind_run, Hl. destruct r as [[]|e]; cbn.
  - rewrite H1 in HCl, HDv. unfold registered. cbn. split_and!; try done; [set_solver|intros d; specialize (HDv d); set_solver|]. by rewrite <- Hn.
  - destruct Hr as (He & k & Hk & Hr). split; [done|]. right. exists dv, k. split; [by rewrite <- Hn|done].
Qed.

Lemma drop_devices_spec c dv k is_ w :
  0 <= dv -> dv + Z.of_nat k <= 2 ^ 32 -> Forall (fun j => j < k)%nat is_ ->
  wp (drop_devices dv is_) (w, c) (fun _ '(w', CL) => CL = c /\ clive w' = clive w ∖
    (list_to_set ((fun i => Cdev (dv + Z.of_nat i)) <$> is_) ∪ list_to_set ((fun i => Dev c (dv + Z.of_nat i)) <$> is_))).
Proof.
  intros H0 Hk HF. revert w. induction HF as [|j js Hj HF IH]; intros w; cbn [drop_devices]; wsteps; [set_solver|].
  rewrite wrap_small by (unfold in_width; lia). apply wp_call. intros [] w1 H1%device_destroy_law. wsteps.
  apply wp_call. intros [] w2 H2%cdev_del_law. eapply wp_mono; [apply IH|]. intros [] [w3 CL] [-> ->]. split; [done|].
  rewrite H2, H1, !fmap_cons, !list_to_set_cons. set_solver.
Qed.

Lemma drop_registration_spec b L r w' CL :
  builder_ok b -> registered L b r CL w' ->
  wp (drop_registration r) (w', CL) (fun _ '(w'', CL') => CL' = CL /\ clive w'' = L).
Proof.
  intros Hb (Hnn & Hcn & Hc & H0 & Hle & HR & HCl & HDv & HC & D & HD & Hw).
  assert (Hcnt : Z.of_nat (cdevs r) <= count r) by (rewrite Hc, Hcn; apply Hb).
  unfold drop_registration. wsteps. eapply wp_mono; [apply (drop_devices_spec CL (dev r) (cdevs r)); [done|lia|apply Forall_seq; lia]|].
  intros [] [w1 ?] [-> H1]. wsteps. unfold is_null. rewrite (proj2 (Z.eqb_neq CL null) Hnn). cbn [negb]. wsteps.
  apply wp_call. intros [] w2 H2%class_destroy_law. wsteps. apply wp_call. intros [] w3 H3%unregister_law. split; [done|].
  fold (cdev_set (dev r) (cdevs r)) (device_set CL (dev r) (cdevs r)) in H1. rewrite H3, H2, H1, Hw.
  assert (HX : forall x, x ∈ L -> x ∉ cdev_set (dev r) (cdevs r) ∪ device_set CL (dev r) (cdevs r)).
  { intros x Hx. rewrite elem_of_union, elem_cdev_set, elem_device_set.
    intros [(j & Hj & ->)|(j & Hj & ->)]; [eapply HC; [|exact Hx]; lia|by eapply HDv]. }
  apply set_eq. intros x. specialize (HX x). specialize (HD x). rewrite !elem_of_difference, !elem_of_union, !elem_of_singleton in *.
  split; [naive_solver|]. intros Hx. split_and!; [by right|by apply HX|by intros ->|by intros ->].
Qed.

(** C22. Registering devices, errors included. [build] crashes exactly when the kernel
    refuses the class, whose error pointer it writes through. When it returns a
    registration, the kernel has the region, the class and every character device; of
    the nodes it has those whose creation did not fail, a failure going unnoticed. An
    error is an error of the kernel, and leaves what was there before or, when it
    comes from [cdev_add], the class and the nodes created so far as well. *)
Theorem chrdev_build_outcomes b w cl0 :
  builder_ok b ->
  match build b (w, cl0) with
  | Panic => class_refused b w
  | Done (Ok r, (w', CL)) => count r = minors_len b /\ cdevs r = length (file_ops b) /\
      exists D, D ⊆ device_set CL (dev r) (cdevs r) /\
        clive w' = {[Region (dev r) (count r); Class_ CL]} ∪ cdev_set (dev r) (cdevs r) ∪ D ∪ clive w
  | Done (Err e, (w', CL)) => to_kernel_errno e <> 0 /\
      (clive w' = clive w /\ CL = cl0 \/
       exists dv k D, (k < length (file_ops b))%nat /\ D ⊆ device_set CL dv k /\ clive w' = {[Class_ CL]} ∪ D ∪ clive w)
  end.
Proof.
  intros Hb. pose proof (build_spec b w cl0 Hb) as H. destruct (build b (w, cl0)) as [[[r|e] [w' CL]]|]; [| |done].
  - destruct H as (_ & Hn & Hc & _ & _ & _ & _ & _ & _ & D & H). by eauto.
  - destruct H as [He [H|(dv & k & Hk & D & H1 & H2)]]; (split; [done|]); [by left|right]. by exists dv, k, D.
Qed.

(** A registration is undone: dropping it, with the class it made still in [CL],
    leaves the kernel with what it had before, whether or not all the nodes could be
    created. *)
Theorem chrdev_lifecycle b w cl0 r w' CL :
  builder_ok b -> build b (w, cl0) = Done (Ok r, (w', CL)) ->
  exists w'', drop_registration r (w', CL) = Done ((), (w'', CL)) /\ clive w'' = clive w.
Proof.
  intros Hb Hr. pose proof (build_spec b w cl0 Hb) as H. rewrite Hr in H.
  apply (drop_registration_spec b) in H; [|done]. apply wp_done in H as ([] & [w'' ?] & ? & -> & ?). by exists w''.
Qed.
End registration.

(** ** A kernel for the examples: [adds] and [nodes] say which calls fail *)
Module ChrSim.
Record kernel := mkKernel { objs : gset chr_res; next_dev : Z; next_class : Z; adds : list Z; nodes : list bool }.
Definition with_objs (o : gset chr_res) (k : kernel) : kernel := mkKernel o (next_dev k) (next_class k) (adds k) (nodes k).

Definition region_free (n : Z) (k : kernel) : Prop :=
  0 <= next_dev k /\ next_dev k + n <= 2 ^ 32 /\ (Region (next_dev k) n ∉ objs k) /\
  Forall (fun i => Cdev (next_dev k + i) ∉ objs k) (seqZ 0 n).
Definition class_free (k : kernel) : Prop :=
  0 < next_class k /\ (Class_ (next_class k) ∉ objs k) /\
  set_Forall (fun r => match r with Dev c _ => c <> next_class k | _ => True end) (objs k).
#[export] Instance class_free_dec k : Decision (class_free k).
Proof.
  unfold class_free. repeat (apply and_dec; [apply _|]). apply set_Forall_dec. intros []; apply _.
Defined.

#[export] Instance ops : ChrOps kernel := {
  err_ptr p := p <? 0;
  alloc_chrdev_region _ n k := if bool_decide (region_free n k) then ((0, next_dev k), with_objs ({[Region (next_dev k) n]} ∪ objs k) k) else ((-16, 0), k);
  class_create k := if bool_decide (class_free k)
    then (next_class k, mkKernel ({[Class_ (next_class k)]} ∪ objs k) (next_dev k) (next_class k + 1) (adds k) (nodes k)) else (-12, k);
  set_devnode _ k := ((), k);
  cdev_add d k := let r := default 0 (head (adds k)) in
    (r, mkKernel (if r =? 0 then {[Cdev d]} ∪ objs k else objs k) (next_dev k) (next_class k) (tail (adds k)) (nodes k));
  device_create c d _ k := let ok := default true (head (nodes k)) in
    (if ok then 1 else -12, mkKernel (if ok then {[Dev c d]} ∪ objs k else objs k) (next_dev k) (next_class k) (adds k) (tail (nodes k)));
  class_destroy c k := ((), with_objs (objs k ∖ {[Class_ c]}) k);
  cdev_del d k := ((), with_objs (objs k ∖ {[Cdev d]}) k);
  device_destroy c d k := ((), with_objs (objs k ∖ {[Dev c d]}) k);
  unregister_chrdev_region d n k := ((), with_objs (objs k ∖ {[Region d n]}) k)
}.

#[export] Program Instance laws : ChrLaws kernel := { clive := objs }.
Next Obligation. intros p. cbn. unfold null. lia. Qed.
Next Obligation.
  intros start n w r dv w'. cbn. case_bool_decide as H; intros [= <- <- <-]; cbn; [|done]. destruct H as (? & ? & ? & HF).
  split_and!; try done. intros i Hi. rewrite Forall_forall in HF. apply HF, elem_of_seqZ. lia.
Qed.
Next Obligation.
  intros w p w'. cbn. case_bool_decide as H; intros [= <- <-]; [|done]. destruct H as (? & ? & HF). rewrite (proj2 (Z.ltb_ge _ _)) by lia.
  cbn. split_and!; [unfold null; lia|done|done|]. intros d Hd. by apply (HF _ Hd).
Qed.
Next Obligation. by intros p w u w' [= _ <-]. Qed.
Next Obligation. intros d w r w'. cbn. by intros [= <- <-]. Qed.
Next Obligation. intros c d nm w p w'. cbn. intros [= <- <-]. by destruct (default true (head (nodes w))). Qed.
Next Obligation. by intros c w u w' [= _ <-]. Qed.
Next Obligation. by intros d w u w' [= _ <-]. Qed.
Next Obligation. by intros c d w u w' [= _ <-]. Qed.
Next Obligation. by intros d n w u w' [= _ <-]. Qed.

Definition empty (adds : list Z) (nodes : list bool) : kernel := mkKernel ∅ 1048576 7 adds nodes.
Definition two : Builder unit := mkBuilder [] 0 2 [(); ()] [[107]; [108]].
Lemma two_ok : builder_ok two.
Proof. split; [done|]. vm_compute. discriminate. Qed.
End ChrSim.
Import ChrSim.

(** The second [cdev_add] fails: the class and the first node stay. *)
Example chrdev_build_outcomes_witness : exists e w',
  build two (ChrSim.empty [0; -12] [], null) = Done (Err e, (w', 7)) /\ to_kernel_errno e = -12 /\
  objs w' = {[Class_ 7; Dev 7 1048576]}.
Proof.
  pose proof (chrdev_build_outcomes two (ChrSim.empty [0; -12] []) null two_ok) as H.
  destruct (build two (ChrSim.empty [0; -12] [], null)) as [[[r|e] [w' CL]]|] eqn:E; [by vm_compute in E| |by vm_compute in E].
  clear H. exists e, w'. vm_compute in E. injection E as <- <- <-. split; [reflexivity|]. split; [reflexivity|by vm_compute].
Defined.

Example chrdev_lifecycle_witness : exists r w' w'',
  build two (ChrSim.empty [] [true; false], null) = Done (Ok r, (w', 7)) /\
  drop_registration r (w', 7) = Done ((), (w'', 7)) /\ objs w'' = ∅.
Proof.
  destruct (build two (ChrSim.empty [] [true; false], null)) as [[[r|e] [w' CL]]|] eqn:E; [|by vm_compute in E..].
  pose proof E as E'. vm_compute in E'. injection E' as _ _ <-.
  destruct (chrdev_lifecycle two (ChrSim.empty [] [true; false]) null r w' 7 two_ok E) as (w'' & H & Hl).
  exists r, w', w''. by split_and!.
Defined.
