(* ===== verification/LinuxUtil.v ===== *)
(** * Utilities of the kernel build

    src/rust-kernel-rdma/rust-kernel-linux-util/src: log levels and the test of the
    [log!] macros (level.rs, lib.rs, macros.rs), timers (timer.rs), kernel threads
    (kthread.rs), C strings (string.rs); and of rust-kernel-module/src the lines that
    [println!] writes (printk.rs) and random bytes (random.rs).

    Texts are lists of bytes. *)

From S2P Require Import Prelude Bytes Errors Verbs.

#[local] Open Scope Z_scope.

(** ** Levels (level.rs) *)
Module Level.

Inductive Level : Set := LError | LWarn | LInfo | LDebug | LTrace.
Inductive LevelFilter : Set := FOff | FError | FWarn | FInfo | FDebug | FTrace.

#[export] Instance level_eq_dec : EqDecision Level.
Proof. solve_decision. Defined.
#[export] Instance filter_eq_dec : EqDecision LevelFilter.
Proof. solve_decision. Defined.

(** [as usize]. *)
Definition level_usize (l : Level) : Z := match l with LError => 1 | LWarn => 2 | LInfo => 3 | LDebug => 4 | LTrace => 5 end.
Definition filter_usize (f : LevelFilter) : Z :=
  match f with FOff => 0 | FError => 1 | FWarn => 2 | FInfo => 3 | FDebug => 4 | FTrace => 5 end.

Definition level_from_usize (u : Z) : option Level :=
  match u with 1 => Some LError | 2 => Some LWarn | 3 => Some LInfo | 4 => Some LDebug | 5 => Some LTrace | _ => None end.
Definition filter_from_usize (u : Z) : option LevelFilter :=
  match u with
  | 0 => Some FOff | 1 => Some FError | 2 => Some FWarn | 3 => Some FInfo | 4 => Some FDebug | 5 => Some FTrace | _ => None end.

Definition LOG_LEVEL_NAMES : list (list Z) :=
  [[79; 70; 70]; [69; 82; 82; 79; 82]; [87; 65; 82; 78]; [73; 78; 70; 79]; [68; 69; 66; 85; 71]; [84; 82; 65; 67; 69]].

(** The traits [PartialEq] and [PartialOrd], and the four pairs of levels and filters. *)
Class PartialEq (A B : Type) := eq_ : A -> B -> bool.
Class PartialOrd (A B : Type) := {
  partial_cmp : A -> B -> option comparison;
  lt_ : A -> B -> bool; le_ : A -> B -> bool; gt_ : A -> B -> bool; ge_ : A -> B -> bool }.

Definition level_cmp (a b : Level) : comparison := level_usize a ?= level_usize b.
Definition filter_cmp (a b : LevelFilter) : comparison := filter_usize a ?= filter_usize b.

#[export] Instance level_eq : PartialEq Level Level := fun a b => level_usize a =? level_usize b.
#[export] Instance level_filter_eq : PartialEq Level LevelFilter := fun a b => level_usize a =? filter_usize b.
#[export] Instance filter_eq : PartialEq LevelFilter LevelFilter := fun a b => filter_usize a =? filter_usize b.
#[export] Instance filter_level_eq : PartialEq LevelFilter Level := fun a b => level_filter_eq b a.

#[export] Instance level_ord : PartialOrd Level Level := {|
  partial_cmp a b := Some (level_cmp a b);
  lt_ a b := level_usize a <? level_usize b; le_ a b := level_usize a <=? level_usize b;
  gt_ a b := level_usize b <? level_usize a; ge_ a b := level_usize b <=? level_usize a |}.
#[export] Instance level_filter_ord : PartialOrd Level LevelFilter := {|
  partial_cmp a b := Some (level_usize a ?= filter_usize b);
  lt_ a b := level_usize a <? filter_usize b; le_ a b := level_usize a <=? filter_usize b;
  gt_ a b := filter_usize b <? level_usize a; ge_ a b := filter_usize b <=? level_usize a |}.
#[export] Instance filter_ord : PartialOrd LevelFilter LevelFilter := {|
  partial_cmp a b := Some (filter_cmp a b);
  lt_ a b := filter_usize a <? filter_usize b; le_ a b := filter_usize a <=? filter_usize b;
  gt_ a b := filter_usize b <? filter_usize a; ge_ a b := filter_usize b <=? filter_usize a |}.
#[export] Instance filter_level_ord : PartialOrd LevelFilter Level := {|
  partial_cmp a b := Some (filter_usize a ?= level_usize b);
  lt_ a b := filter_usize a <? level_usize b; le_ a b := filter_usize a <=? level_usize b;
  gt_ a b := level_usize b <? filter_usize a; ge_ a b := level_usize b <=? filter_usize a |}.

(** What the documentation of [PartialOrd] requires: the operators are the ones of
    [partial_cmp], and [==] is [Some(Equal)]. *)
Class OrdLaws (A B : Type) `{!PartialEq A B, !PartialOrd A B} : Prop := {
  eq_cmp a b : eq_ a b = bool_decide (partial_cmp a b = Some Eq);
  lt_cmp a b : lt_ a b = bool_decide (partial_cmp a b = Some Lt);
  gt_cmp a b : gt_ a b = bool_decide (partial_cmp a b = Some Gt);
  le_cmp a b : le_ a b = lt_ a b || eq_ a b;
  ge_cmp a b : ge_ a b = gt_ a b || eq_ a b }.

#[export] Instance level_ord_laws : OrdLaws Level Level.
Proof. split; by intros [] []. Qed.
#[export] Instance level_filter_ord_laws : OrdLaws Level LevelFilter.
Proof. split; by intros [] []. Qed.
#[export] Instance filter_ord_laws : OrdLaws LevelFilter LevelFilter.
Proof. split; by intros [] []. Qed.
#[export] Instance filter_level_ord_laws : OrdLaws LevelFilter Level.
Proof. split; by intros [] []. Qed.

Definition to_ascii_uppercase (c : Z) : Z := if (97 <=? c) && (c <=? 122) then c - 97 + 65 else c.
Definition eq_ignore_ascii_case (a b : list Z) : bool :=
  if (length a =? length b)%nat
  then forallb (fun '(a, b) => to_ascii_uppercase a =? to_ascii_uppercase b) (combine a b)
  else false.

(** [position]. *)
Fixpoint position (p : list Z -> bool) (l : list (list Z)) (i : Z) : option Z :=
  match l with [] => None | x :: l => if p x then Some i else position p l (i + 1) end.

Definition ok_or {T E} (t : option T) (e : E) : Result E T := match t with Some t => Ok t | None => Err e end.

Definition level_from_str (level : list Z) : outcome (Result unit Level) :=
  match position (fun name => eq_ignore_ascii_case name level) LOG_LEVEL_NAMES 0 with
  | Some idx =>
      if negb (idx =? 0) then match level_from_usize idx with Some l => Done (ok_or (Some l) ()) | None => Panic end
      else Done (ok_or None ())
  | None => Done (ok_or None ())
  end.
Definition filter_from_str (level : list Z) : outcome (Result unit LevelFilter) :=
  match position (fun name => eq_ignore_ascii_case name level) LOG_LEVEL_NAMES 0 with
  | Some p => match filter_from_usize p with Some l => Done (ok_or (Some l) ()) | None => Panic end
  | None => Done (ok_or None ())
  end.

Definition level_max : Level := LTrace.
Definition filter_max : LevelFilter := FTrace.
Definition to_level_filter (l : Level) : outcome LevelFilter :=
  match filter_from_usize (level_usize l) with Some f => Done f | None => Panic end.
Definition to_level (f : LevelFilter) : option Level := level_from_usize (filter_usize f).

(** [as_str]: an index out of the table would be a panic. *)
Definition level_as_str (l : Level) : outcome (list Z) :=
  match LOG_LEVEL_NAMES !! Z.to_nat (level_usize l) with Some s => Done s | None => Panic end.
Definition filter_as_str (f : LevelFilter) : outcome (list Z) :=
  match LOG_LEVEL_NAMES !! Z.to_nat (filter_usize f) with Some s => Done s | None => Panic end.

Definition level_iter : list (option Level) := level_from_usize <$> seqZ 1 5.
Definition filter_iter : list (option LevelFilter) := filter_from_usize <$> seqZ 0 6.

(** ** The level of the module (lib.rs, macros.rs)

    The state is the atomic [MAX_LOG_LEVEL_FILTER]; reading it transmutes the number. *)
Definition set_max_level (level : LevelFilter) : M Z unit := fun _ => Done ((), filter_usize level).
Definition max_level : M Z LevelFilter := fun n =>
  match filter_from_usize n with Some f => Done (f, n) | None => Panic end.

(** The test of [log!]; the first comparison is with a constant of the build. *)
Definition log_enabled (STATIC_MAX_LEVEL : LevelFilter) (lvl : Level) : M Z bool :=
  if le_ lvl STATIC_MAX_LEVEL then f ← max_level; mret (le_ lvl f) else mret false.

End Level.

(** ** Lines (printk.rs) *)
Module Printk.

Definition LOG_LINE_MAX : nat := 992.

Record LogLineWriter := mkWriter { data : list Z; pos : nat }.
Definition new : LogLineWriter := mkWriter (replicate LOG_LINE_MAX 0) 0.
Definition as_bytes (w : LogLineWriter) : list Z := take (pos w) (data w).

(** [copy_from_slice] into the range, which is in the array. *)
Definition write_str (s : list Z) (w : LogLineWriter) : LogLineWriter :=
  let copy_len := Nat.min (LOG_LINE_MAX - pos w) (length s) in
  mkWriter (take (pos w) (data w) ++ take copy_len s ++ drop (pos w + copy_len) (data w)) (pos w + copy_len).

(** [println!] with arguments: the pieces of the format one after the other. *)
Definition println (pieces : list (list Z)) : list Z := as_bytes (foldl (fun w s => write_str s w) new pieces).

(** [printk]: the format, the KERN_INFO prefix with its NUL replaced. *)
Definition KERN_INFO : list Z := [1; 54; 0].
Definition fmt_str : list Z := take 2 KERN_INFO ++ [37; 46; 42; 115; 0].
Definition printk (s : list Z) : list Z * Z * list Z := (fmt_str, swrap 32 (Z.of_nat (length s)), s).

End Printk.

(** ** Timers (timer.rs) *)
Module Timer.

(** The counter of the processor is the environment: two reads in [passed]. *)
Record RTimer := mkRTimer { start : Z }.
Definition rtimer_new (ts : Z) : RTimer := mkRTimer ts.
Definition rtimer_reset (ts : Z) (_ : RTimer) : RTimer := mkRTimer ts.
Definition passed (ts1 ts2 : Z) (t : RTimer) : Z := if ts1 <? start t then 0 else ts2 - start t.

Record timeval := mkTv { tv_sec : Z; tv_usec : Z }.

(** [sub]; the divisions are of numbers that are not negative. *)
Definition sub (x y : timeval) : timeval :=
  let y :=
    if tv_usec x <? tv_usec y then
      let nsec := Z.quot (tv_usec y - tv_usec x) 1000000 + 1 in
      mkTv (tv_sec y + nsec) (tv_usec y - 1000000 * nsec)
    else y in
  let y :=
    if 1000000 <? tv_usec x - tv_usec y then
      let nsec := Z.quot (tv_usec x - tv_usec y) 1000000 in
      mkTv (tv_sec y - nsec) (tv_usec y + 1000000 * nsec)
    else y in
  mkTv (tv_sec x - tv_sec y) (tv_usec x - tv_usec y).

Record KTimer := mkKTimer { cur : timeval }.
Definition ktimer_new (now : timeval) : KTimer := mkKTimer now.
Definition get_cur_timeval (now : timeval) : timeval := cur (ktimer_new now).
Definition get_passed_usec (now : timeval) (t : KTimer) : Z :=
  let passed := sub (get_cur_timeval now) (cur t) in
  tv_sec passed * 1000000 + tv_usec passed.
Definition ktimer_reset (now : timeval) (_ : KTimer) : KTimer := mkKTimer now.

End Timer.

(** ** C strings (string.rs): the first NUL ends the text *)
Fixpoint strlen (m : umem) (p : Z) (fuel : nat) : option Z :=
  match fuel with
  | O => None
  | S fuel =>
      match m !! p with
      | None => None
      | Some b => if b =? 0 then Some 0 else n ← strlen m (p + 1) fuel; Some (n + 1)
      end
  end.
Definition ptr2string (m : umem) (p : Z) (fuel : nat) : option (list Z) :=
  n ← strlen m p fuel; Some (fst (copy_from_user m p (Z.to_nat n))).

(** ** Random bytes (random.rs) *)
Class RandomOps (W : Type) := {
  wait_for_random_bytes : W -> Z * W;
  rng_is_initialized : W -> bool * W;
  get_random_bytes : Z -> W -> list Z * W;
  add_device_randomness : list Z -> W -> unit * W }.

Section random.
Context {W : Type} `{!RandomOps W}.
Definition i32_MAX : Z := 2 ^ 31 - 1.

(** What is left in the buffer [dest] with the result. *)
Definition getrandom (dest : list Z) : M W (Result Error unit * list Z) :=
  res ← call wait_for_random_bytes;
  if negb (res =? 0) then mret (Err (from_kernel_errno res), dest)
  else if i32_MAX <? Z.of_nat (length dest) then mret (Err EINVAL, dest)
  else l ← call (get_random_bytes (Z.of_nat (length dest))); mret (Ok (), l).
Definition getrandom_nonblock (dest : list Z) : M W (Result Error unit * list Z) :=
  ok ← call rng_is_initialized;
  if negb ok then mret (Err EAGAIN, dest) else getrandom dest.
Definition add_randomness (data : list Z) : M W unit :=
  if 2 ^ 32 <=? Z.of_nat (length data) then panic else call (add_device_randomness data).
End random.

(** ** Kernel threads (kthread.rs)

    The name is the format of the kernel's printf; what it says of names with a
    percent sign is left open. A failure is an error pointer, which [kthread_bind] and
    [wake_up_process] crash on. *)
Module Kthread.

Record task := mkTask { t_body : ptr; t_param : ptr; t_name : list Z; t_cpu : option Z; t_running : bool }.

Class KthreadOps (W : Type) := {
  err_task : ptr -> bool;
  kthread_run : ptr -> ptr -> list Z -> W -> ptr * W;
  kthread_create : ptr -> ptr -> list Z -> W -> ptr * W;
  kthread_bind : ptr -> Z -> M W unit;
  wake_up_process : ptr -> M W unit;
  kthread_stop : ptr -> W -> Z * W }.

(** A C string is the bytes before the first NUL. *)
Fixpoint c_str (l : list Z) : list Z := match l with [] => [] | b :: l => if b =? 0 then [] else b :: c_str l end.

Class KthreadLaws (W : Type) `{!KthreadOps W} := {
  tasks : W -> gmap Z task;
  run_law body param name w p w' :
    kthread_run body param name w = (p, w') ->
    p <> null /\
    if err_task p then tasks w' = tasks w
    else tasks w !! p = None /\ (37 ∉ name -> tasks w' = <[p := mkTask body param (c_str name) None true]> (tasks w));
  create_law body param name w p w' :
    kthread_create body param name w = (p, w') ->
    p <> null /\
    if err_task p then tasks w' = tasks w /\ tasks w !! p = None
    else tasks w !! p = None /\ (37 ∉ name -> tasks w' = <[p := mkTask body param (c_str name) None false]> (tasks w)) /\
      is_Some (tasks w' !! p);
  bind_law p cpu w :
    match tasks w !! p with
    | None => kthread_bind p cpu w = Panic
    | Some t => exists w', kthread_bind p cpu w = Done ((), w') /\
        tasks w' = <[p := mkTask (t_body t) (t_param t) (t_name t) (Some cpu) (t_running t)]> (tasks w)
    end;
  wake_law p w :
    match tasks w !! p with
    | None => wake_up_process p w = Panic
    | Some t => exists w', wake_up_process p w = Done ((), w') /\
        tasks w' = <[p := mkTask (t_body t) (t_param t) (t_name t) (t_cpu t) true]> (tasks w)
    end }.

Record JoinHandler := mkHandler { task_ptr : ptr }.
Record Builder := mkBuilder { name : list Z; parameter : ptr; cpu_binding : option Z }.

Definition default : Builder := mkBuilder [0] 0 None.
Definition new : Builder := default.
Definition set_name (n : list Z) (b : Builder) : Builder := mkBuilder (n ++ [0]) (parameter b) (cpu_binding b).
Definition set_parameter (p : ptr) (b : Builder) : Builder := mkBuilder (name b) p (cpu_binding b).
Definition bind (cpu : Z) (b : Builder) : Builder := mkBuilder (name b) (parameter b) (Some cpu).

Section kthread.
Context {W : Type} `{!KthreadOps W}.

Definition join (h : JoinHandler) : M W Z := call (kthread_stop (task_ptr h)).

Definition spawn_wo_bind (body : ptr) (b : Builder) : M W (Result Error JoinHandler) :=
  t ← call (kthread_run body (parameter b) (name b));
  if is_null t then mret (Err (from_kernel_errno 0)) else mret (Ok (mkHandler t)).
Definition spawn_and_bind (body : ptr) (cpu : Z) (b : Builder) : M W (Result Error JoinHandler) :=
  t ← call (kthread_create body (parameter b) (name b));
  if is_null t then mret (Err (from_kernel_errno 0))
  else
    _ ← kthread_bind t cpu;
    _ ← wake_up_process t;
    mret (Ok (mkHandler t)).
Definition spawn (body : ptr) (b : Builder) : M W (Result Error JoinHandler) :=
  match cpu_binding b with None => spawn_wo_bind body b | Some cpu => spawn_and_bind body cpu b end.

Context `{!KthreadLaws W}.

Lemma wake_bound p t cpu w :
  tasks w !! p = Some t ->
  exists w', (_ ← kthread_bind p cpu; _ ← wake_up_process p; mret (Ok (mkHandler p) : Result Error JoinHandler)) w = Done (Ok (mkHandler p), w') /\
    tasks w' = <[p := mkTask (t_body t) (t_param t) (t_name t) (Some cpu) true]> (tasks w).
Proof.
  intros Ht. pose proof (bind_law p cpu w) as Hb. rewrite Ht in Hb. destruct Hb as (w1 & Hb & H1).
  pose proof (wake_law p w1) as Hw. rewrite H1, lookup_insert_eq in Hw. destruct Hw as (w2 & Hw & H2).
  exists w2. rewrite (bind_done _ _ _ _ _ Hb), (bind_done _ _ _ _ _ Hw). split; [done|]. rewrite H2, insert_insert_eq. done.
Qed.

(** Starting a kernel thread. When the kernel makes the thread, [spawn] returns
    its handle, and the thread runs the body with the parameter, under the name up to
    its first NUL, and, if one was given, on its processor only, which it was bound to
    before it could run. When the kernel does not make it, [spawn] does not notice: it
    returns a handle of no thread, or crashes when a processor was given. *)
Theorem spawn_outcomes body b w :
  37 ∉ name b ->
  match spawn body b w with
  | Done (Ok h, w') =>
      err_task (task_ptr h) = true /\ cpu_binding b = None /\ tasks w' = tasks w \/
      err_task (task_ptr h) = false /\ tasks w !! task_ptr h = None /\
      tasks w' = <[task_ptr h := mkTask body (parameter b) (c_str (name b)) (cpu_binding b) true]> (tasks w)
  | Done (Err _, _) => False
  | Panic => is_Some (cpu_binding b)
  end.
Proof.
  intros Hn. unfold spawn. destruct (cpu_binding b) as [cpu|].
  - unfold spawn_and_bind. rewrite bind_call. destruct (kthread_create _ _ _ w) as [p w1] eqn:E.
    apply create_law in E as [Hp E]. unfold is_null. rewrite (proj2 (Z.eqb_neq p null) Hp). cbv iota. destruct (err_task p) eqn:Ee.
    + destruct E as [E1 E2]. pose proof (bind_law p cpu w1) as Hb. rewrite E1, E2 in Hb. by rewrite bind_run, Hb.
    + destruct E as (E1 & E2 & _). specialize (E2 Hn). destruct (wake_bound p (mkTask body (parameter b) (c_str (name b)) None false) cpu w1)
        as (w2 & -> & H2); [by rewrite E2, lookup_insert_eq|]. right. cbn. split_and!; [done..|]. rewrite H2, E2, insert_insert_eq. done.
  - unfold spawn_wo_bind. rewrite bind_call. destruct (kthread_run _ _ _ w) as [p w1] eqn:E. apply run_law in E as [Hp E].
    unfold is_null. rewrite (proj2 (Z.eqb_neq p null) Hp). cbn. destruct (err_task p) eqn:Ee; [left; done|right].
    destruct E as [E1 E2]. by rewrite E2.
Qed.
End kthread.
End Kthread.

(** ** Levels, lines and times are what they say *)
Section facts.
Import Level.

Lemma upper_eq (a b : list Z) : eq_ignore_ascii_case a b = true <-> to_ascii_uppercase <$> a = to_ascii_uppercase <$> b.
Proof.
  unfold eq_ignore_ascii_case. revert b. induction a as [|x a IH]; intros [|y b]; cbn; try done.
  specialize (IH b). destruct (length a =? length b)%nat; cbn in *.
  - rewrite andb_true_iff, Z.eqb_eq, IH. split; [intros [E F]; by rewrite E, F|intros E; injection E; done].
  - split; [done|]. intros E. apply IH. by injection E.
Qed.

Lemma level_names l : exists s, level_as_str l = Done s /\ to_ascii_uppercase <$> s = s /\ LOG_LEVEL_NAMES !! Z.to_nat (level_usize l) = Some s.
Proof. destruct l; eexists; (split; [reflexivity|]); by vm_compute. Qed.

(** Levels are read by their names in any case of the letters, and by nothing else:
    a text is read as a level, without a panic, exactly when its letters in upper case
    are the name the level prints as. *)
Theorem level_from_str_correct (s : list Z) l :
  level_from_str s = Done (Ok l) <-> level_as_str l = Done (to_ascii_uppercase <$> s).
Proof.
  assert (Hp : forall name, eq_ignore_ascii_case name s = true <-> to_ascii_uppercase <$> name = to_ascii_uppercase <$> s) by (intros; apply upper_eq).
  unfold level_from_str, LOG_LEVEL_NAMES. set (p := fun name => eq_ignore_ascii_case name s) in *.
  change (forall name, p name = true <-> to_ascii_uppercase <$> name = to_ascii_uppercase <$> s) in Hp. clearbody p.
  cbn [position]. revert Hp. generalize (to_ascii_uppercase <$> s). intros u Hp.
  repeat match goal with
  | |- context [p ?x] => let E := fresh in destruct (p x) eqn:E;
      [apply Hp in E; cbn in E; subst u; cbn; destruct l; cbn; split; (discriminate || reflexivity)|]
  end.
  split; [done|]. destruct l; cbn; intros [= <-]; exfalso;
    match goal with H : p ?x = false |- _ => apply not_true_iff_false in H; apply H, Hp; reflexivity end.
Qed.

(** A message is printed exactly when its level is at most the level of the build and
    the one last set; nothing is before a level is set. *)
Lemma log_enabled_correct STATIC f l n :
  (_ ← set_max_level f; log_enabled STATIC l) n = Done (le_ l STATIC && le_ l f, filter_usize f) /\ log_enabled STATIC l 0 = Done (false, 0).
Proof. split; unfold log_enabled; [rewrite bind_run; cbn [set_max_level]|]; destruct (le_ l STATIC); try done; [by destruct f|by destruct l]. Qed.

Import Printk.

Lemma write_str_spec s w out :
  length (data w) = LOG_LINE_MAX -> (pos w <= LOG_LINE_MAX)%nat -> as_bytes w = out ->
  let w' := write_str s w in
  length (data w') = LOG_LINE_MAX /\ (pos w' <= LOG_LINE_MAX)%nat /\ as_bytes w' = out ++ take (LOG_LINE_MAX - length out) s.
Proof.
  intros Hd Hp <-. cbv zeta. unfold as_bytes, write_str. cbn [data pos]. rewrite length_take_le by lia.
  set (n := Nat.min (LOG_LINE_MAX - pos w) (length s)). assert (n <= length s)%nat by (unfold n; lia).
  assert (Hl : length (take n s) = n) by (apply length_take_le; done).
  split_and!; [rewrite !length_app, Hl, length_take_le, length_drop by lia; lia|lia|].
  rewrite app_assoc, take_app_length'; [|rewrite length_app, Hl, length_take_le by lia; lia].
  f_equal. unfold n. destruct (Nat.min_spec (LOG_LINE_MAX - pos w) (length s)) as [[? ->]|[? ->]]; [done|].
  rewrite !take_ge by lia. done.
Qed.

(** [println!] prints the text up to the length of a line of the kernel: however
    the text comes in pieces, the line is its first 992 bytes. *)
Theorem println_correct (pieces : list (list Z)) : println pieces = take LOG_LINE_MAX (concat pieces).
Proof.
  unfold println.
  enough (H : forall w out, length (data w) = LOG_LINE_MAX -> (pos w <= LOG_LINE_MAX)%nat -> as_bytes w = take LOG_LINE_MAX out ->
    as_bytes (foldl (fun w s => write_str s w) w pieces) = take LOG_LINE_MAX (out ++ concat pieces)) by (apply (H new []); [reflexivity|cbn; lia|reflexivity]).
  induction pieces as [|s l IH]; intros w out Hd Hp Hw; cbn [foldl concat]; [by rewrite app_nil_r|].
  destruct (write_str_spec s w _ Hd Hp Hw) as (H1 & H2 & H3). rewrite app_assoc. apply IH; [done..|].
  rewrite H3, take_app, length_take. f_equal. f_equal. lia.
Qed.

Import Timer.

(** The time a timer reports is the difference of the two times, whatever their
    microseconds are; and of two proper times the parts are proper. *)
Theorem get_passed_usec_correct now t :
  get_passed_usec now t = (tv_sec now - tv_sec (cur t)) * 1000000 + (tv_usec now - tv_usec (cur t)) /\
  (0 <= tv_usec now < 1000000 /\ 0 <= tv_usec (cur t) < 1000000 -> 0 <= tv_usec (sub now (cur t)) < 1000000).
Proof.
  unfold get_passed_usec, get_cur_timeval, sub. cbn [cur ktimer_new]. destruct t as [[s u]], now as [s' u']. cbn [cur tv_sec tv_usec].
  destruct (Z.ltb_spec u' u); cbn [tv_sec tv_usec];
    (match goal with |- context [if ?b then _ else _] => destruct b eqn:E end); cbn [tv_sec tv_usec];
    apply Z.ltb_lt in E || apply Z.ltb_ge in E; (split; [lia|intros ?]); Z.to_euclidean_division_equations; lia.
Qed.
End facts.

(** ** Threads for the examples: the pointer -12 is the error, and names no task *)
Module KthreadSim.
Import Kthread.
Record sched := mkSched { table : gmap Z task; next_task : Z }.
Definition live_tasks (w : sched) : gmap Z task := delete (-12) (table w).
Definition put (p : Z) (t : task) (w : sched) : sched := mkSched (<[p := t]> (table w)) (next_task w).
Definition is_free (w : sched) : bool := bool_decide (table w !! next_task w = None) && (0 <? next_task w).
Definition make (run : bool) (body param : ptr) (name : list Z) (w : sched) : ptr * sched :=
  if is_free w then (next_task w, put (next_task w) (mkTask body param (c_str name) None run) w) else (-12, w).
Definition update (f : task -> task) (p : ptr) : M sched unit := fun w =>
  match live_tasks w !! p with Some t => Done ((), put p (f t) w) | None => Panic end.

#[export] Instance ops : KthreadOps sched := {
  err_task p := p =? -12;
  kthread_run := make true;
  kthread_create := make false;
  kthread_bind p cpu := update (fun t => mkTask (t_body t) (t_param t) (t_name t) (Some cpu) (t_running t)) p;
  wake_up_process p := update (fun t => mkTask (t_body t) (t_param t) (t_name t) (t_cpu t) true) p;
  kthread_stop _ w := (0, w) }.

Lemma put_live p t w : p <> -12 -> live_tasks (put p t w) = <[p := t]> (live_tasks w).
Proof. intros Hp. unfold live_tasks, put. cbn. apply delete_insert_ne. done. Qed.

Lemma make_law run body param name w p w' :
  make run body param name w = (p, w') ->
  p <> null /\ if p =? -12 then live_tasks w' = live_tasks w /\ live_tasks w !! p = None
  else live_tasks w !! p = None /\ live_tasks w' = <[p := mkTask body param (c_str name) None run]> (live_tasks w).
Proof.
  unfold make, is_free. destruct (bool_decide _ && _) eqn:E; intros [= <- <-].
  - apply andb_prop in E as [E1%bool_decide_eq_true E2%Z.ltb_lt]. split; [unfold null; lia|].
    rewrite (proj2 (Z.eqb_neq _ _)) by lia. split; [|apply put_live; lia]. unfold live_tasks. by rewrite lookup_delete_ne by lia.
  - split; [done|]. cbn. split; [done|]. apply lookup_delete_eq.
Qed.

Lemma update_law f p w :
  match live_tasks w !! p with
  | None => update f p w = Panic
  | Some t => exists w', update f p w = Done ((), w') /\ live_tasks w' = <[p := f t]> (live_tasks w)
  end.
Proof.
  unfold update. destruct (live_tasks w !! p) as [t|] eqn:E; [|done]. eexists. split; [done|]. apply put_live. intros ->.
  unfold live_tasks in E. by rewrite lookup_delete_eq in E.
Qed.

#[export] Program Instance laws : KthreadLaws sched := { tasks := live_tasks }.
Next Obligation.
  intros body param name w p w' [Hp H]%make_law. split; [done|]. cbn. destruct (p =? -12); [apply H|]. split; [apply H|]. intros _. apply H.
Qed.
Next Obligation.
  intros body param name w p w' [Hp H]%make_law. split; [done|]. cbn. destruct (p =? -12); [done|]. destruct H as [H1 H2].
  split_and!; [done|done|]. rewrite H2, lookup_insert_eq. eauto.
Qed.
Next Obligation. intros p cpu w. apply (update_law _ p w). Qed.
Next Obligation. intros p w. apply (update_law _ p w). Qed.
End KthreadSim.
#[local] Existing Instance KthreadSim.ops.
#[local] Existing Instance KthreadSim.laws.

Example spawn_outcomes_witness : exists w',
  Kthread.spawn 5 (Kthread.bind 3 (Kthread.set_name [104; 105] Kthread.new)) (KthreadSim.mkSched ∅ 9) = Done (Ok (Kthread.mkHandler 9), w') /\
  Kthread.tasks w' = {[9 := Kthread.mkTask 5 0 [104; 105] (Some 3) true]}.
Proof.
  pose proof (Kthread.spawn_outcomes 5 (Kthread.bind 3 (Kthread.set_name [104; 105] Kthread.new)) (KthreadSim.mkSched ∅ 9)) as H.
  destruct (Kthread.spawn 5 _ _) as [[[h|e] w']|] eqn:E; [|by vm_compute in E..]. exists w'.
  destruct H as [(_ & H & _)|(_ & _ & H)]; [|done|].
  { cbn. rewrite !not_elem_of_cons. split_and!; try done. apply not_elem_of_nil. }
  rewrite H. vm_compute in E. injection E as <- <-. by vm_compute.
Defined.

Example get_passed_usec_correct_witness :
  Timer.get_passed_usec (Timer.mkTv 12 100) (Timer.mkKTimer (Timer.mkTv 10 999999)) = 1000101 /\
  0 <= Timer.tv_usec (Timer.sub (Timer.mkTv 12 100) (Timer.mkTv 10 999999)) < 1000000.
Proof.
  destruct (get_passed_usec_correct (Timer.mkTv 12 100) (Timer.mkKTimer (Timer.mkTv 10 999999))) as [H1 H2].
  split; [rewrite H1; reflexivity|]. apply H2. cbn. lia.
Defined.

(** ** Pseudo-random numbers (src/KRdmaKit/src/random.rs) *)
Module FastRandom.

Record FastRandom := mkRandom { seed : Z }.
Definition MASK48 : Z := Z.shiftl 1 48 - 1.

Definition set_seed0 (s : Z) : Z := Z.land (Z.lxor s 25214903917) MASK48.
Definition new (s : Z) : FastRandom := mkRandom (set_seed0 s).
Definition get_cur_seed (r : FastRandom) : Z := seed r.

(** [next]: the value and the generator after it; the shift is masked to six bits. *)
Definition next (bits : Z) (r : FastRandom) : Z * FastRandom :=
  let s := Z.land (u64 (u64 (seed r * 25214903917) + 11)) MASK48 in
  (Z.shiftr s (Z.land (u32 (48 - bits)) 63), mkRandom s).
Definition get_next (r : FastRandom) : Z * FastRandom :=
  let '(a, r) := next 32 r in
  let '(b, r) := next 32 r in
  (u64 (u64 (Z.shiftl a 32) + b), r).

Definition seed_ok (r : FastRandom) : Prop := in_width 48 (seed r).

Lemma land_mask z : Z.land z MASK48 = z mod 2 ^ 48.
Proof. change MASK48 with (Z.ones 48). by apply Z.land_ones. Qed.

Lemma next_seed bits r : seed (snd (next bits r)) = (seed r * 25214903917 + 11) mod 2 ^ 48.
Proof.
  assert (Hd : (2 ^ 48 | 2 ^ 64)) by (by exists (2 ^ 16)). unfold next. cbn [snd seed]. rewrite land_mask. unfold wrap.
  rewrite Z.mod_mod_divide, Z.add_mod, Z.mod_mod_divide, <- Z.add_mod by done. done.
Qed.

Lemma seed_ok_new s : seed_ok (new s).
Proof. unfold seed_ok, new, set_seed0, in_width. cbn [seed]. rewrite land_mask. apply Z.mod_pos_bound. lia. Qed.

(** A step of the generator is a bijection of the seeds, so that it never falls into a
    shorter cycle: every seed has one that comes before it. *)
Lemma next_bijective bits r r' :
  seed_ok r -> seed_ok r' ->
  seed_ok (snd (next bits r)) /\ (seed (snd (next bits r)) = seed (snd (next bits r')) -> r = r') /\
  exists r0, seed_ok r0 /\ seed (snd (next bits r0)) = seed r.
Proof.
  intros Hr Hr'. unfold seed_ok, in_width in *. rewrite !next_seed. split; [apply Z.mod_pos_bound; lia|]. split.
  - intros E. destruct r as [a], r' as [b]. cbn [seed] in *. f_equal.
    assert (Hd : ((a - b) * 25214903917) mod 2 ^ 48 = 0).
    { replace ((a - b) * 25214903917) with (a * 25214903917 + 11 - (b * 25214903917 + 11)) by ring. by rewrite Zminus_mod, E, Z.sub_diag. }
    apply (f_equal (fun z => (z * 246154705703781) mod 2 ^ 48)) in Hd. rewrite Zmult_mod_idemp_l in Hd.
    replace ((a - b) * 25214903917 * 246154705703781) with (a - b + (a - b) * 22050866921 * 2 ^ 48) in Hd by ring.
    rewrite Z.mod_add in Hd by done.
    apply Z.mod_divide in Hd as [k Hk]; [|done]. nia.
  - exists (mkRandom (((seed r - 11) * 246154705703781) mod 2 ^ 48)). cbn [seed]. split; [apply Z.mod_pos_bound; lia|].
    rewrite next_seed. cbn [seed]. rewrite Z.add_mod, Zmult_mod, Zmod_mod, <- Zmult_mod, <- Z.add_mod by lia.
    replace ((seed r - 11) * 246154705703781 * 25214903917 + 11) with (seed r + (seed r - 11) * 22050866921 * 2 ^ 48) by ring.
    rewrite Z.mod_add by done. apply Z.mod_small. lia.
Qed.
End FastRandom.

(** ** Profiles (src/KRdmaKit/src/lib.rs)

    The counters are 64-bit and wrap in a release build. *)
Module Profile.
Import Timer.

Record Profile := mkProfile { timer : KTimer; total_op : Z; total_time_usec : list Z }.
Definition new (now : timeval) : Profile := mkProfile (ktimer_new now) 0 (replicate 10 0).
Definition append_profile (p self : Profile) : Profile :=
  mkProfile (timer self) (u64 (total_op self + total_op p))
    (zip_with (fun a b => u64 (a + b)) (total_time_usec self) (total_time_usec p)).
Definition reset_timer (now : timeval) (self : Profile) : Profile :=
  mkProfile (ktimer_reset now (timer self)) (total_op self) (total_time_usec self).
Definition increase_op (op_cnt : Z) (self : Profile) : Profile :=
  mkProfile (timer self) (u64 (total_op self + op_cnt)) (total_time_usec self).
Definition tick_record (tick_idx : nat) (now : timeval) (self : Profile) : Profile :=
  mkProfile (timer self) (total_op self)
    (alter (fun t => u64 (t + u64 (get_passed_usec now (timer self)))) (tick_idx mod 10)%nat (total_time_usec self)).
Definition get_total_op_count (self : Profile) : Z := total_op self.

Definition profile_ok (p : Profile) : Prop := length (total_time_usec p) = 10%nat.

(** Every operation keeps the ten counters; a tick adds the time since the timer was
    set, which it does not set again, to one of them. *)
Lemma tick_record_spec i now p :
  profile_ok p -> 0 <= get_passed_usec now (timer p) < 2 ^ 64 ->
  profile_ok (tick_record i now p) /\ timer (tick_record i now p) = timer p /\
  forall j t, total_time_usec p !! j = Some t ->
    total_time_usec (tick_record i now p) !! j = Some (if decide (j = i mod 10)%nat then u64 (t + get_passed_usec now (timer p)) else t).
Proof.
  intros Hp Ht. unfold profile_ok, tick_record. cbn [total_time_usec timer]. rewrite length_alter. split_and!; [done|done|].
  intros j t Hj. destruct (decide (j = i mod 10)%nat) as [->|].
  - rewrite list_lookup_alter_eq, Hj. cbn. by rewrite (wrap_small 64 (get_passed_usec now (timer p))).
  - by rewrite list_lookup_alter_ne by done.
Qed.

Lemma append_profile_ok p q : profile_ok p -> profile_ok q -> profile_ok (append_profile p q).
Proof. unfold profile_ok, append_profile. cbn. rewrite length_zip_with. lia. Qed.
End Profile.
