(* ===== verification/Drivers.v ===== *)
(** * Drivers and their devices

    src/KRdmaKit/src/kdriver.rs and src/KRdmaKit/src/udriver.rs (the list of the devices
    of the host) with [Device::new] of src/KRdmaKit/src/device.rs.

    A driver owns its devices and each device keeps a reference to its driver, so that
    who drops what is a matter of the reference counts of [Arc]s: they are the state
    here. The registration of a client announces the devices; the client and the list
    of the user build are what a driver gives back when it is dropped. *)

From S2P Require Import Prelude Errors Verbs.

#[local] Open Scope Z_scope.

Class DriverOps (W : Type) := {
  ib_register_client : W -> (Z * list ptr) * W;
  ib_unregister_client : W -> unit * W;
  ibv_get_device_list : W -> option (list ptr) * W;
  ibv_free_device_list : W -> unit * W
}.

(** The contents of an [Arc]: a driver with its devices, or a device with its driver. *)
Inductive content : Set := Driver (rnics : list Z) | Dev (inner : ptr) (driver : Z).
Record arc := mkArc { strong : Z; value : content }.
Record heap := mkHeap { arcs : gmap Z arc; free : Z }.

Section drivers.
Context {W : Type} `{!DriverOps W}.
Implicit Types (w : W) (h : heap).

(** ** Reference counts *)
Definition arc_new (c : content) : M (W * heap) Z :=
  h ← getX; _ ← onX (fun h => mkHeap (<[free h := mkArc 1 c]> (arcs h)) (free h + 1)); mret (free h).
Definition put (a : Z) (x : arc) : M (W * heap) unit := onX (fun h => mkHeap (<[a := x]> (arcs h)) (free h)).
Definition get (a : Z) : M (W * heap) arc := h ← getX; unwrap (arcs h !! a).
Definition arc_clone (a : Z) : M (W * heap) unit := x ← get a; put a (mkArc (strong x + 1) (value x)).

(** The last reference drops the value: [Drop::drop] of a driver, which is [release],
    and then the fields. *)
Fixpoint drop_all (drop1 : Z -> M (W * heap) unit) (l : list Z) : M (W * heap) unit :=
  match l with [] => mret () | a :: l => _ ← drop1 a; drop_all drop1 l end.
Fixpoint arc_drop (fuel : nat) (release : M W unit) (a : Z) : M (W * heap) unit :=
  match fuel with
  | O => panic
  | S fuel =>
      x ← get a;
      if strong x =? 1 then
        _ ← onX (fun h => mkHeap (delete a (arcs h)) (free h));
        match value x with
        | Driver rnics => _ ← onW release; drop_all (arc_drop fuel release) rnics
        | Dev _ d => arc_drop fuel release d
        end
      else put a (mkArc (strong x - 1) (value x))
  end.

(** ** [Device::new] *)
Definition device_new (dev : ptr) (driver : Z) : M (W * heap) (option Z) :=
  if is_null dev then mret None
  else _ ← arc_clone driver; a ← arc_new (Dev dev driver); mret (Some a).

(** ** The kernel build *)
Definition k_release : M W unit := call ib_unregister_client.

(** The devices of the list; a null one is a panic. *)
Fixpoint k_devices (driver : Z) (devs : list ptr) : M (W * heap) (list Z) :=
  match devs with
  | [] => mret []
  | dev :: devs => a ← device_new dev driver; a ← unwrap a; l ← k_devices driver devs; mret (a :: l)
  end.

Definition k_create (fuel : nat) : M (W * heap) (option Z) :=
  temp ← arc_new (Driver []);
  '(err, nics) ← onW (call ib_register_client);
  if negb (err =? 0) then _ ← arc_drop fuel k_release temp; mret None
  else
    rnics ← k_devices temp nics;
    x ← get temp;
    _ ← put temp (mkArc (strong x) (Driver rnics));
    mret (Some temp).

(** ** The user build *)
Definition u_release : M W unit := call ibv_free_device_list.

(** The loop: [inl] are the devices made before one that is null. *)
Fixpoint u_devices (driver : Z) (devs : list ptr) (made : list Z) : M (W * heap) (list Z + list Z) :=
  match devs with
  | [] => mret (inr made)
  | dev :: devs =>
      a ← device_new dev driver;
      match a with None => mret (inl made) | Some a => u_devices driver devs (made ++ [a]) end
  end.

Definition u_create (fuel : nat) : M (W * heap) (option Z) :=
  devices ← onW (call ibv_get_device_list);
  match devices with
  | None => mret None
  | Some devices =>
      ret ← arc_new (Driver []);
      r ← u_devices ret devices [];
      match r with
      | inl made => _ ← drop_all (arc_drop fuel u_release) made; _ ← arc_drop fuel u_release ret; mret None
      | inr rnics =>
          x ← get ret;
          _ ← put ret (mkArc (strong x) (Driver rnics));
          mret (Some ret)
      end
  end.

Definition devices (d : Z) : M (W * heap) (list Z) :=
  x ← get d; match value x with Driver rnics => mret rnics | Dev _ _ => panic end.
Definition get_dev (d : Z) (index : nat) : M (W * heap) (option Z) := l ← devices d; mret (l !! index).

(** ** What a driver holds *)

(** The addresses of [n] devices of the driver at [d], from the [k]-th on. *)
Definition addrs (d : Z) (k n : nat) : list Z := (fun i => d + 1 + Z.of_nat i) <$> seq k n.

(** A new driver at [d] with the devices [devs]: the caller's reference to it and one
    of each device, one reference to each device. *)
Record holds (h0 : heap) (devs : list ptr) (rn : list Z) h : Prop := {
  h_free : free h = free h0 + 1 + Z.of_nat (length devs);
  h_driver : arcs h !! free h0 = Some (mkArc (1 + Z.of_nat (length devs)) (Driver rn));
  h_device i dev : devs !! i = Some dev -> arcs h !! (free h0 + 1 + Z.of_nat i) = Some (mkArc 1 (Dev dev (free h0)));
  h_rest a : a < free h0 -> arcs h !! a = arcs h0 !! a;
  h_none a : free h <= a -> arcs h !! a = None }.

Definition heap_ok h : Prop := forall a, free h <= a -> arcs h !! a = None.

Lemma new_holds h : heap_ok h -> holds h [] [] (mkHeap (<[free h := mkArc 1 (Driver [])]> (arcs h)) (free h + 1)).
Proof.
  intros Hok. split; cbn; [lia|apply lookup_insert_eq|done|intros a Ha; apply lookup_insert_ne; lia|].
  intros a Ha. rewrite lookup_insert_ne by lia. apply Hok. lia.
Qed.

Lemma device_new_holds h0 devs rn dev w h :
  holds h0 devs rn h -> dev <> null ->
  exists h', device_new dev (free h0) (w, h) = Done (Some (free h0 + 1 + Z.of_nat (length devs)), (w, h')) /\ holds h0 (devs ++ [dev]) rn h'.
Proof.
  intros [H1 H2 H3 H4 H5] Hd. unfold device_new, is_null. rewrite (proj2 (Z.eqb_neq dev null) Hd).
  unfold arc_clone, get. rewrite bind_run, bind_run, bind_run. cbn. rewrite H2. cbn. rewrite <- H1. eexists. split; [reflexivity|].
  split; cbn.
  - rewrite H1, length_app. cbn. lia.
  - rewrite lookup_insert_ne, lookup_insert_eq by lia. rewrite length_app. cbn. do 2 f_equal. lia.
  - intros i d Hi. apply lookup_app_Some in Hi as [Hi|[Hle Hi]].
    + apply lookup_lt_Some in Hi as Hlt. rewrite !lookup_insert_ne by lia. by apply H3.
    + apply list_lookup_singleton_Some in Hi as [Hz <-]. replace (free h0 + 1 + Z.of_nat i) with (free h) by lia. apply lookup_insert_eq.
  - intros a Ha. rewrite !lookup_insert_ne by lia. by apply H4.
  - intros a Ha. rewrite !lookup_insert_ne by lia. apply H5. lia.
Qed.

Lemma k_devices_holds h0 more devs rn w h :
  holds h0 devs rn h -> Forall (fun d => d <> null) more ->
  exists h', k_devices (free h0) more (w, h) = Done (addrs (free h0) (length devs) (length more), (w, h')) /\ holds h0 (devs ++ more) rn h'.
Proof.
  intros Hh HF. revert devs h Hh. induction HF as [|dev more Hd HF IH]; intros devs h Hh; cbn [k_devices].
  { exists h. by rewrite app_nil_r. }
  destruct (device_new_holds h0 devs rn dev w h Hh Hd) as (h1 & E1 & Hh1). rewrite (bind_done _ _ _ _ _ E1). cbn [unwrap]. rewrite bind_ret.
  destruct (IH (devs ++ [dev]) h1 Hh1) as (h2 & E2 & Hh2). rewrite (bind_done _ _ _ _ _ E2). exists h2. rewrite <- app_assoc in Hh2.
  split; [|done]. rewrite length_app, Nat.add_1_r. done.
Qed.

Lemma u_devices_holds h0 more devs rn w h made :
  holds h0 devs rn h -> Forall (fun d => d <> null) more ->
  exists h', u_devices (free h0) more made (w, h) = Done (inr (made ++ addrs (free h0) (length devs) (length more)), (w, h')) /\ holds h0 (devs ++ more) rn h'.
Proof.
  intros Hh HF. revert devs h made Hh. induction HF as [|dev more Hd HF IH]; intros devs h made Hh; cbn [u_devices].
  { exists h. by rewrite !app_nil_r. }
  destruct (device_new_holds h0 devs rn dev w h Hh Hd) as (h1 & E1 & Hh1). rewrite (bind_done _ _ _ _ _ E1).
  destruct (IH (devs ++ [dev]) h1 (made ++ [free h0 + 1 + Z.of_nat (length devs)]) Hh1) as (h2 & E2 & Hh2). rewrite E2. exists h2.
  rewrite <- app_assoc in Hh2 |- *. split; [|done]. rewrite length_app, Nat.add_1_r. done.
Qed.

(** The list of the devices is stored. *)
Lemma store_holds h0 devs rn rn' w h :
  holds h0 devs rn h ->
  exists h', (x ← get (free h0); _ ← put (free h0) (mkArc (strong x) (Driver rn')); mret (Some (free h0))) (w, h) = Done (Some (free h0), (w, h')) /\
    holds h0 devs rn' h'.
Proof.
  intros [H1 H2 H3 H4 H5]. unfold get. rewrite bind_run, bind_run. cbn. rewrite H2. cbn. eexists. split; [reflexivity|]. split; cbn.
  - done.
  - apply lookup_insert_eq.
  - intros i dev Hi. rewrite lookup_insert_ne by lia. by apply H3.
  - intros a Ha. rewrite lookup_insert_ne by lia. by apply H4.
  - intros a Ha. rewrite lookup_insert_ne by lia. by apply H5.
Qed.

(** The caller drops its reference. *)
Lemma drop_driver release h0 devs w h fuel :
  heap_ok h0 -> holds h0 devs (addrs (free h0) 0 (length devs)) h ->
  match devs with
  | [] => forall w', release w = Done ((), w') ->
      exists h', arc_drop (S fuel) release (free h0) (w, h) = Done ((), (w', h')) /\ arcs h' = arcs h0
  | _ => exists h', arc_drop (S fuel) release (free h0) (w, h) = Done ((), (w, h')) /\
      (forall i dev, devs !! i = Some dev -> arcs h' !! (free h0 + 1 + Z.of_nat i) = Some (mkArc 1 (Dev dev (free h0)))) /\
      arcs h' !! free h0 = Some (mkArc (Z.of_nat (length devs)) (Driver (addrs (free h0) 0 (length devs))))
  end.
Proof.
  intros Hok [H1 H2 H3 H4 H5]. cbn [arc_drop].
  assert (Hg : forall w, get (free h0) (w, h) = Done (mkArc (1 + Z.of_nat (length devs)) (Driver (addrs (free h0) 0 (length devs))), (w, h)))
    by (intros w0; unfold get; by rewrite bind_getX, H2).
  destruct devs as [|d0 devs].
  - intros w' Hr. rewrite (bind_done _ _ _ _ _ (Hg w)). cbn [strong value length addrs]. change (1 + Z.of_nat 0 =? 1) with true. cbv iota.
    rewrite bind_onX, bind_onW, Hr. eexists. split; [reflexivity|].
    cbn. apply map_eq. intros a. destruct (Z.lt_trichotomy a (free h0)) as [?|[->|?]].
    + rewrite lookup_delete_ne by lia. by apply H4.
    + rewrite lookup_delete_eq. symmetry. apply Hok. lia.
    + rewrite lookup_delete_ne, H5, Hok by (cbn in H1; lia). done.
  - rewrite (bind_done _ _ _ _ _ (Hg w)). cbn [strong value]. rewrite (proj2 (Z.eqb_neq _ 1)) by (cbn [length]; lia).
    eexists. split; [reflexivity|]. split; cbn [arcs].
    + intros i dev Hi. rewrite lookup_insert_ne by lia. by apply H3.
    + rewrite lookup_insert_eq. do 2 f_equal. lia.
Qed.

Lemma release_total (kernel_build : bool) w : exists w', (if kernel_build then k_release else u_release) w = Done ((), w').
Proof.
  destruct kernel_build; unfold k_release, u_release, call;
    [destruct (ib_unregister_client w) as [[] w']|destruct (ibv_free_device_list w) as [[] w']]; by exists w'.
Qed.

(** C40. Creating a driver of the kernel build and of the user build. When the core or
    the library has the devices [devs], the driver has a device for each, in order, and
    is referenced by the caller and by each of its devices. For this reason the caller
    that drops its reference drops a driver without devices, and the client or the list
    is given back; a driver with devices stays, with all of them. *)
Theorem driver_lifecycle (kernel_build : bool) devs w w1 h fuel :
  heap_ok h -> Forall (fun d => d <> null) devs ->
  (if kernel_build then ib_register_client w = ((0, devs), w1) else ibv_get_device_list w = (Some devs, w1)) ->
  let release := if kernel_build then k_release else u_release in
  exists h1, (if kernel_build then k_create fuel else u_create fuel) (w, h) = Done (Some (free h), (w1, h1)) /\
    devices (free h) (w1, h1) = Done (addrs (free h) 0 (length devs), (w1, h1)) /\
    (forall i dev, devs !! i = Some dev -> arcs h1 !! (free h + 1 + Z.of_nat i) = Some (mkArc 1 (Dev dev (free h)))) /\
    exists w2 h2, arc_drop (S fuel) release (free h) (w1, h1) = Done ((), (w2, h2)) /\
      match devs with
      | [] => release w1 = Done ((), w2) /\ arcs h2 = arcs h
      | _ => w2 = w1 /\ is_Some (arcs h2 !! free h) /\ forall i, is_Some (devs !! i) -> is_Some (arcs h2 !! (free h + 1 + Z.of_nat i))
      end.
Proof.
  intros Hok HF Hc. cbv zeta. set (h0 := mkHeap (<[free h := mkArc 1 (Driver [])]> (arcs h)) (free h + 1)).
  assert (Hcr : exists h1, (if kernel_build then k_create fuel else u_create fuel) (w, h) = Done (Some (free h), (w1, h1)) /\
    holds h devs (addrs (free h) 0 (length devs)) h1).
  { destruct kernel_build.
    - destruct (k_devices_holds h devs [] [] w1 h0 (new_holds h Hok) HF) as (h1 & E1 & Hh1). cbn [app] in Hh1.
      destruct (store_holds h devs [] (addrs (free h) 0 (length devs)) w1 h1 Hh1) as (h2 & E2 & Hh2). exists h2. split; [|done].
      unfold k_create. rewrite (bind_done _ _ (w, h) (free h) (w, h0)) by done. rewrite bind_onW. unfold call. rewrite Hc. cbn [negb Z.eqb].
      rewrite (bind_done _ _ _ _ _ E1). exact E2.
    - destruct (u_devices_holds h devs [] [] w1 h0 [] (new_holds h Hok) HF) as (h1 & E1 & Hh1). cbn [app] in Hh1, E1.
      destruct (store_holds h devs [] (addrs (free h) 0 (length devs)) w1 h1 Hh1) as (h2 & E2 & Hh2). exists h2. split; [|done].
      unfold u_create. rewrite bind_onW. unfold call. rewrite Hc. rewrite (bind_done _ _ (w1, h) (free h) (w1, h0)) by done.
      rewrite (bind_done _ _ _ _ _ E1). exact E2. }
  destruct Hcr as (h1 & Hcr & Hh). exists h1. split; [done|]. split; [unfold devices, get; by rewrite bind_run, bind_getX, (h_driver _ _ _ _ Hh)|].
  split; [apply Hh|]. pose proof (drop_driver (if kernel_build then k_release else u_release) h devs w1 h1 fuel Hok Hh) as Hd.
  destruct devs as [|d0 devs].
  - destruct (release_total kernel_build w1) as [w2 Hr]. destruct (Hd w2 Hr) as (h2 & ? & ?). by exists w2, h2.
  - destruct Hd as (h2 & E2 & H3 & H4). exists w1, h2. split_and!; [done|done|by rewrite H4|]. intros i [dev Hi]. by rewrite (H3 i dev Hi).
Qed.
End drivers.

(** A host with two devices: the world counts the clients or lists that are held. *)
Module HostSample.
#[export] Instance ops : DriverOps Z := {|
  ib_register_client n := ((0, [11; 22]), n + 1); ib_unregister_client n := ((), n - 1);
  ibv_get_device_list n := (Some [], n + 1); ibv_free_device_list n := ((), n - 1) |}.
Definition fresh : heap := mkHeap ∅ 1000.
End HostSample.
#[local] Existing Instance HostSample.ops.

Example driver_lifecycle_witness :
  (exists h1 h2, k_create 9 (0, HostSample.fresh) = Done (Some 1000, (1, h1)) /\ arc_drop 10 k_release 1000 (1, h1) = Done ((), (1, h2))) /\
  (exists h1 h2, u_create 9 (0, HostSample.fresh) = Done (Some 1000, (1, h1)) /\ arc_drop 10 u_release 1000 (1, h1) = Done ((), (0, h2))).
Proof.
  split.
  - destruct (driver_lifecycle true [11; 22] 0 1 HostSample.fresh 9) as (h1 & H1 & _ & _ & w2 & h2 & H2 & -> & _);
      [by intros a _|by repeat constructor|reflexivity|]. exists h1, h2. exact (conj H1 H2).
  - destruct (driver_lifecycle false [] 0 1 HostSample.fresh 9) as (h1 & H1 & _ & _ & w2 & h2 & H2 & Hr & _);
      [by intros a _|by repeat constructor|reflexivity|]. exists h1, h2. injection Hr as <-. exact (conj H1 H2).
Defined.
