(* ===== verification/CmVerbs.v ===== *)
(** * The interface of the kernel's connection manager

    The part of the Linux ib_cm and ib_sa modules that
    src/KRdmaKit/src/comm_manager and src/KRdmaKit/src/services use: parameters
    of the messages, events, and the calls as a class over the world.  Structures
    have the fields the library sets or reads. *)

From S2P Require Import Prelude Errors Verbs.

(** A path record; the fields the library does not set travel with it. *)
Record sa_path_rec := mkPath {
  dgid : ib_gid; sgid : ib_gid; numb_path : Z; path_service_id : Z; path_rest : list Z }.

Record ib_cm_req_param := mkReq {
  req_primary_path : sa_path_rec; req_service_id : Z; req_qp_num : Z; req_qp_type : ib_qp_type;
  req_starting_psn : Z; req_private_data : list Z; req_private_data_len : Z;
  req_responder_resources : Z; req_initiator_depth : Z; req_remote_cm_response_timeout : Z;
  req_flow_control : Z; req_local_cm_response_timeout : Z; req_retry_count : Z;
  req_rnr_retry_count : Z; req_max_cm_retries : Z }.

Record ib_cm_rep_param := mkRep {
  rep_qp_num : Z; rep_starting_psn : Z; rep_private_data : list Z; rep_private_data_len : Z;
  rep_responder_resources : Z; rep_initiator_depth : Z; rep_flow_control : Z;
  rep_rnr_retry_count : Z }.

Record ib_cm_sidr_req_param := mkSidrReq {
  sreq_path : sa_path_rec; sreq_service_id : Z; sreq_timeout_ms : Z;
  sreq_private_data : list Z; sreq_private_data_len : Z; sreq_max_cm_retries : Z }.

Inductive ib_cm_sidr_status : Set := IB_SIDR_SUCCESS | IB_SIDR_NO_QP | IB_SIDR_OTHER (n : Z).

Record ib_cm_sidr_rep_param := mkSidrRep {
  srep_qp_num : Z; srep_qkey : Z; srep_status : ib_cm_sidr_status;
  srep_info : list Z; srep_info_length : Z }.

(** The messages a connection identifier has sent. *)
Inductive cm_mad :=
| MReq (p : ib_cm_req_param)
| MRep (p : ib_cm_rep_param)
| MRej (reason : Z) (private_data : list Z)
| MRtu (private_data : list Z)
| MDreq (private_data : list Z)
| MDrep (private_data : list Z)
| MSidrReq (p : ib_cm_sidr_req_param)
| MSidrRep (p : ib_cm_sidr_rep_param).

(** Events; those the library has no handler for are [IB_CM_OTHER]. *)
Inductive ib_cm_event_type : Set :=
| IB_CM_REQ_RECEIVED | IB_CM_REP_RECEIVED | IB_CM_REJ_RECEIVED | IB_CM_RTU_RECEIVED
| IB_CM_DREQ_RECEIVED | IB_CM_SIDR_REQ_RECEIVED | IB_CM_SIDR_REP_RECEIVED | IB_CM_OTHER (n : Z).

Record ib_cm_req_event_param := mkReqEvent {
  rq_remote_qpn : Z; rq_starting_psn : Z; rq_responder_resources : Z; rq_initiator_depth : Z;
  rq_flow_control : Z; rq_rnr_retry_count : Z }.
Record ib_cm_rep_event_param := mkRepEvent { rp_remote_qpn : Z; rp_starting_psn : Z }.
Record ib_cm_sidr_rep_event_param := mkSidrRepEvent {
  sr_status : ib_cm_sidr_status; sr_qkey : Z; sr_qpn : Z; sr_info : list Z }.

(** The union [param] of an event. *)
Inductive event_param :=
| ReqRcvd (p : ib_cm_req_event_param)
| RepRcvd (p : ib_cm_rep_event_param)
| SidrRepRcvd (p : ib_cm_sidr_rep_event_param)
| NoParam.

Record ib_cm_event := mkEvent {
  event : ib_cm_event_type; private_data : list Z; param : event_param }.

(** The connection manager fills the member of the union its event type calls
    for. *)
Definition well_formed (ev : ib_cm_event) : bool :=
  match event ev, param ev with
  | IB_CM_REQ_RECEIVED, ReqRcvd _ | IB_CM_REP_RECEIVED, RepRcvd _
  | IB_CM_SIDR_REP_RECEIVED, SidrRepRcvd _ => true
  | IB_CM_REQ_RECEIVED, _ | IB_CM_REP_RECEIVED, _ | IB_CM_SIDR_REP_RECEIVED, _ => false
  | _, _ => true
  end.

(** The event a message causes at the other end.  Queue pair numbers, sequence
    numbers and the retry counts the library uses fit the fields of the messages. *)
Definition as_event (m : cm_mad) : ib_cm_event :=
  match m with
  | MReq p => mkEvent IB_CM_REQ_RECEIVED (req_private_data p)
      (ReqRcvd (mkReqEvent (req_qp_num p) (req_starting_psn p) (req_responder_resources p)
         (req_initiator_depth p) (req_flow_control p) (req_rnr_retry_count p)))
  | MRep p => mkEvent IB_CM_REP_RECEIVED (rep_private_data p)
      (RepRcvd (mkRepEvent (rep_qp_num p) (rep_starting_psn p)))
  | MRej _ d => mkEvent IB_CM_REJ_RECEIVED d NoParam
  | MRtu d => mkEvent IB_CM_RTU_RECEIVED d NoParam
  | MDreq d => mkEvent IB_CM_DREQ_RECEIVED d NoParam
  | MDrep d => mkEvent (IB_CM_OTHER 8) d NoParam
  | MSidrReq p => mkEvent IB_CM_SIDR_REQ_RECEIVED (sreq_private_data p) NoParam
  | MSidrRep p => mkEvent IB_CM_SIDR_REP_RECEIVED []
      (SidrRepRcvd (mkSidrRepEvent (srep_status p) (srep_qkey p) (srep_qp_num p) (srep_info p)))
  end.

(** A connection identifier is memory of the connection manager: [cm_context] is
    its field [context], [None] once the identifier is freed.  [cm_incoming] is
    the identifier the connection manager makes for a request to a listening one. *)
Class CmOps (W : Type) := {
  ib_create_cm_id : ptr -> ptr -> W -> ptr * W;
  ib_destroy_cm_id : ptr -> W -> unit * W;
  cm_incoming : ptr -> W -> ptr * W;
  cm_context : W -> ptr -> option ptr;
  cm_set_context : ptr -> ptr -> W -> unit * W;
  ib_cm_listen : ptr -> Z -> W -> Z * W;
  ib_send_cm : ptr -> cm_mad -> W -> Z * W
}.

(** The subnet administrator: the call that starts a query. *)
Inductive sa_mask : Set := path_rec_service_id | path_rec_dgid | path_rec_sgid | path_rec_numb_path.
Class SaOps (W : Type) := {
  ib_sa_register_client : W -> ptr * W;
  ib_sa_unregister_client : ptr -> W -> unit * W;
  ib_sa_path_rec_get : ptr -> ptr -> Z -> sa_path_rec -> list sa_mask -> Z -> W -> Z * W
}.
