(* ===== verification/Sim.v ===== *)
(** * A simulated driver

    A concrete instance of the verbs interface, used to show that the laws of
    [Verbs] can be met together and to evaluate the library on concrete runs.
    Every call that can fail takes its error code from a list of injected
    faults (zero, or an empty list, is success). *)

From S2P Require Import Prelude Errors Verbs CmVerbs.

Record sim := mkSim {
  s_live : gset res;
  s_qps : gmap Z qp_info;
  s_faults : list Z;
  s_sent : list (Z * list send_wr);
  s_received : list (Z * list recv_wr);
  s_mem : gmap Z Z;
  s_mail : list Z;
  s_cm : gmap Z (Z * list cm_mad);
  s_wcs : gmap Z (list ib_wc);
  s_links : gmap Z (Z * Z) }.

Definition sim_init : sim := mkSim ∅ ∅ [] [] [] ∅ [] ∅ ∅ ∅.
Definition sim_faulty (faults : list Z) : sim := mkSim ∅ ∅ faults [] [] ∅ [] ∅ ∅ ∅.

(** The next injected fault. *)
Definition fault (s : sim) : Z * sim :=
  match s_faults s with
  | [] => (0, s)
  | e :: l => (e, mkSim (s_live s) (s_qps s) l (s_sent s) (s_received s) (s_mem s) (s_mail s) (s_cm s) (s_wcs s) (s_links s))
  end.

(** Every pointer the state mentions. *)
Definition info_ptrs (v : qp_info) : gset Z :=
  {[init_send_cq (qi_init v); init_recv_cq (qi_init v); init_srq (qi_init v)]}.
Definition ptrs (s : sim) : gset Z :=
  {[null]} ∪ set_map snd (s_live s) ∪ dom (s_qps s) ∪ ⋃ (info_ptrs <$> (map_to_list (s_qps s)).*2).

Definition set_live (l : gset res) (s : sim) : sim :=
  mkSim l (s_qps s) (s_faults s) (s_sent s) (s_received s) (s_mem s) (s_mail s) (s_cm s) (s_wcs s) (s_links s).
Definition set_qps (q : gmap Z qp_info) (s : sim) : sim :=
  mkSim (s_live s) q (s_faults s) (s_sent s) (s_received s) (s_mem s) (s_mail s) (s_cm s) (s_wcs s) (s_links s).

Definition alloc (k : res_kind) (s : sim) : ptr * sim :=
  let '(e, s) := fault s in
  if e =? 0 then let p := fresh (ptrs s) in (p, set_live ({[(k, p)]} ∪ s_live s) s) else (null, s).
Definition release (r : res) (s : sim) : Z * sim := (0, set_live (s_live s ∖ {[r]}) s).

Definition sim_create_qp (init : ib_qp_init_attr) (s : sim) : ptr * sim :=
  let '(p, s) := alloc RQp s in
  (p, if p =? null then s else set_qps (<[p := reset_info init]> (s_qps s)) s).
Definition sim_destroy_qp (p : ptr) (s : sim) : Z * sim :=
  let '(r, s) := release (RQp, p) s in (r, set_qps (delete p (s_qps s)) s).

Definition sim_query_qp (q : ptr) (s : sim) : (Z * ib_qp_state) * sim :=
  let '(e, s) := fault s in
  match s_qps s !! q with
  | Some v => ((e, qp_state (qi_attr v)), s)
  | None => ((libc_EINVAL, IB_QPS_RESET), s)
  end.

Definition sim_modify_qp (q : ptr) (a : ib_qp_attr) (m : list ib_qp_attr_mask) (s : sim) : Z * sim :=
  let '(e, s) := fault s in
  match s_qps s !! q with
  | Some v =>
      if legal_modify (init_qp_type (qi_init v)) (qp_state (qi_attr v)) m a then
        if e =? 0 then
          (0, set_qps (<[q := mkQpInfo (qi_init v) (apply_attr m a (qi_attr v))]> (s_qps s)) s)
        else (e, s)
      else (libc_EINVAL, s)
  | None => (libc_EINVAL, s)
  end.

#[export] Instance sim_queue_ops : QueueOps sim := {|
  ib_create_cq _ _ := alloc RCq;
  ib_free_cq p := release (RCq, p);
  ib_create_srq _ _ _ := alloc RSrq;
  ib_destroy_srq p := release (RSrq, p);
  ib_create_qp _ init := sim_create_qp init;
  ib_destroy_qp := sim_destroy_qp;
  ib_create_dct _ _ := alloc RDct;
  ib_destroy_dct p := release (RDct, p);
  ib_query_qp := sim_query_qp;
  ib_modify_qp := sim_modify_qp;
  qp_num _ q := 1000 + q;
  dct_num _ d := 2000 + d;
  has_post_send _ _ := true;
  has_post_recv _ _ := true;
  has_poll_cq _ _ := true
|}.

Definition sim_post_send (q : ptr) (wrs : list send_wr) (s : sim) : Z * sim :=
  let '(e, s) := fault s in
  if e =? 0
  then (0, mkSim (s_live s) (s_qps s) (s_faults s) (s_sent s ++ [(q, wrs)]) (s_received s) (s_mem s) (s_mail s) (s_cm s) (s_wcs s) (s_links s))
  else (e, s).
Definition sim_post_recv (q : ptr) (wrs : list recv_wr) (s : sim) : Z * sim :=
  let '(e, s) := fault s in
  if e =? 0
  then (0, mkSim (s_live s) (s_qps s) (s_faults s) (s_sent s) (s_received s ++ [(q, wrs)]) (s_mem s) (s_mail s) (s_cm s) (s_wcs s) (s_links s))
  else (e, s).

(** The completions of a queue are handed out in order. *)
Definition set_wcs (m : gmap Z (list ib_wc)) (s : sim) : sim :=
  mkSim (s_live s) (s_qps s) (s_faults s) (s_sent s) (s_received s) (s_mem s) (s_mail s) (s_cm s) m (s_links s).
Definition sim_poll (cq : ptr) (n : Z) (s : sim) : (Z * list ib_wc) * sim :=
  let wcs := default [] (s_wcs s !! cq) in
  let now := take (Z.to_nat n) wcs in
  ((Z.of_nat (length now), now), set_wcs (<[cq := drop (Z.to_nat n) wcs]> (s_wcs s)) s).

#[export] Instance sim_data_ops : DataOps sim := {|
  ib_post_send := sim_post_send;
  ib_post_recv := sim_post_recv;
  ib_poll_cq := sim_poll;
  ibv_alloc_mw _ _ := alloc RMw;
  ibv_dealloc_mw p := release (RMw, p);
  mw_type_of _ _ := IBV_MW_TYPE_1;
  ibv_bind_mw _ _ _ s := fault s;
  has_mw_ops _ _ := true
|}.

(** Memory: allocation does not fail (it aborts), a mapping can. *)
Definition sim_alloc_zeroed (n : Z) (s : sim) : ptr * sim :=
  let p := fresh (ptrs s) in
  (p, mkSim ({[(RMem, p)]} ∪ s_live s) (s_qps s) (s_faults s) (s_sent s) (s_received s)
        (<[p := n]> (s_mem s)) (s_mail s) (s_cm s) (s_wcs s) (s_links s)).
Definition sim_mmap (s : sim) : ptr * sim :=
  let '(e, s) := fault s in
  if e =? 0 then
    let p := fresh ({[2 ^ 64 - 1]} ∪ ptrs s) in (p, set_live ({[(RMap, p)]} ∪ s_live s) s)
  else (2 ^ 64 - 1, s).

#[export] Instance sim_device_ops : DeviceOps sim := {|
  ibv_open_device _ := alloc RCtx;
  ib_alloc_pd _ := alloc RPd;
  ib_dealloc_pd p := release (RPd, p);
  ib_get_dma_mr _ _ := alloc RMr;
  ibv_reg_mr _ _ _ _ := alloc RMr;
  ib_dereg_mr m := release (RMr, m);
  mr_lkey _ m := 3000 + m;
  mr_rkey _ m := 4000 + m;
  virt_to_phys p := p;
  rdma_create_ah _ _ := alloc RAh;
  ptr_is_err p := p =? 0;
  rdma_destroy_ah p := release (RAh, p);
  ib_query_port _ _ s := let '(e, s) := fault s in ((e, mkPortAttr IB_PORT_ACTIVE 7), s);
  ib_query_gid _ _ _ s := let '(e, s) := fault s in ((e, mkGid 1 2), s);
  alloc_zeroed := sim_alloc_zeroed;
  dealloc p _ s := ((), snd (release (RMem, p) s));
  mmap _ := sim_mmap;
  munmap p _ := release (RMap, p)
|}.

Lemma fault_spec s e s' :
  fault s = (e, s') ->
  s_live s' = s_live s /\ s_qps s' = s_qps s /\ (s_faults s = [] -> e = 0 /\ s_faults s' = []).
Proof. unfold fault. destruct (s_faults s) eqn:?; intros [= <- <-]; done. Qed.

Lemma elem_of_ptrs_ref s q v p :
  s_qps s !! q = Some v -> p ∈ info_ptrs v -> p ∈ ptrs s.
Proof.
  intros Hq Hp. unfold ptrs. apply elem_of_union_r, elem_of_union_list.
  exists (info_ptrs v). split; [|done]. apply list_elem_of_fmap_2.
  apply list_elem_of_fmap. exists (q, v). split; [done|]. by apply elem_of_map_to_list.
Qed.

(** What an allocation does: nothing, or a pointer that nothing refers to. *)
Lemma alloc_spec k s p s' :
  alloc k s = (p, s') ->
  created s_live k s p s' /\ s_qps s' = s_qps s /\ (s_faults s = [] -> p <> null /\ s_faults s' = []) /\
  (p <> null -> s_qps s !! p = None /\
     forall q v, s_qps s !! q = Some v -> p ∉ info_ptrs v).
Proof.
  unfold alloc. destruct (fault s) as [e s1] eqn:Hf. apply fault_spec in Hf as (Hl & Hq & Hh).
  destruct (Z.eqb_spec e 0) as [->|He].
  - intros [= <- <-]. pose proof (is_fresh (ptrs s1)) as Hfresh.
    set (p := fresh (ptrs s1)) in *.
    assert (Hn : p <> null). { intros Hp. apply Hfresh. rewrite Hp. unfold ptrs. set_solver. }
    unfold created. rewrite decide_False by done. simpl. rewrite Hl. split_and!; try done.
    + intros Hin. apply Hfresh. unfold ptrs. rewrite Hl.
      do 2 apply elem_of_union_l. apply elem_of_union_r.
      apply elem_of_map. by exists (k, p).
    + intros Hs. split; [done|]. by apply Hh.
    + intros _. split.
      * rewrite <-Hq. apply not_elem_of_dom. intros Hin. apply Hfresh. unfold ptrs. set_solver.
      * intros q v Hv Hp. apply Hfresh. rewrite <-Hq in Hv. by eapply elem_of_ptrs_ref.
  - intros [= <- <-]. unfold created. rewrite decide_True by done.
    split_and!; [done|done| |done]. intros Hs. by destruct (Hh Hs).
Qed.

Definition sim_view (s : sim) (q : ptr) : option qp_info := s_qps s !! q.
Definition sim_healthy (s : sim) : Prop := s_faults s = [].

Lemma alloc_law k s p s' :
  alloc k s = (p, s') ->
  created s_live k s p s' /\ same_qps sim_view s s' /\
  (p <> null -> ~ in_use sim_view s' (RCq, p) /\ ~ in_use sim_view s' (RSrq, p)) /\
  (sim_healthy s -> p <> null /\ sim_healthy s').
Proof.
  intros (Hc & Hq & Hh & Hf)%alloc_spec. split_and!; [done| | |done].
  - intros q. unfold sim_view. by rewrite Hq.
  - intros Hp. destruct (Hf Hp) as [_ Href].
    split; intros (q & v & Hv & Hr); unfold sim_view in Hv; rewrite Hq in Hv;
      apply (Href q v Hv); unfold info_ptrs; clear -Hr;
      destruct Hr as [Hr|[Hr|Hr]]; simplify_eq; set_solver.
Qed.

Lemma release_law r s e s' :
  release r s = (e, s') ->
  s_live s' = s_live s ∖ {[r]} /\ same_qps sim_view s s' /\ (sim_healthy s -> sim_healthy s').
Proof. by intros [= <- <-]. Qed.

Lemma sim_create_qp_law init s p s' :
  sim_create_qp init s = (p, s') ->
  created s_live RQp s p s' /\ (p = null -> same_qps sim_view s s') /\
  (p <> null -> sim_view s p = None /\ sim_view s' p = Some (reset_info init) /\
     forall q, q <> p -> sim_view s' q = sim_view s q) /\
  (sim_healthy s -> p <> null /\ sim_healthy s').
Proof.
  unfold sim_create_qp. destruct (alloc RQp s) as [p1 s1] eqn:Ha.
  apply alloc_spec in Ha as (Hc & Hq & Hh & Hf). unfold sim_view, sim_healthy.
  destruct (Z.eqb_spec p1 null) as [->|Hp]; intros [= <- <-].
  - split_and!; [done| |done|done]. intros _ q. unfold sim_view. by rewrite Hq.
  - split_and!; [done|done| |done]. intros _. simpl. split_and!.
    + by apply Hf.
    + by rewrite lookup_insert_eq.
    + intros q Hne. by rewrite lookup_insert_ne, Hq by done.
Qed.

Lemma sim_query_qp_law q s r st s' :
  sim_query_qp q s = ((r, st), s') ->
  s_live s' = s_live s /\ same_qps sim_view s s' /\
  (forall v, r = 0 -> sim_view s q = Some v -> st = qp_state (qi_attr v)) /\
  (forall v, sim_healthy s -> sim_view s q = Some v -> r = 0 /\ sim_healthy s').
Proof.
  unfold sim_query_qp, sim_view, sim_healthy. destruct (fault s) as [e s1] eqn:Hf.
  apply fault_spec in Hf as (Hl & Hq & Hh). rewrite Hq.
  destruct (s_qps s !! q) as [v|] eqn:Hv; intros [= <- <- <-];
    (split_and!; [done|intros x; unfold sim_view; by rewrite Hq| |]);
    intros v'; try intros H1 [= <-]; auto; by intros ?.
Qed.

Lemma sim_modify_qp_law q a m s r s' :
  sim_modify_qp q a m s = (r, s') ->
  s_live s' = s_live s /\ (forall q', q' <> q -> sim_view s' q' = sim_view s q') /\
  (r <> 0 -> sim_view s' q = sim_view s q) /\
  (forall v, r = 0 -> sim_view s q = Some v ->
     sim_view s' q = Some (mkQpInfo (qi_init v) (apply_attr m a (qi_attr v)))) /\
  (forall v, sim_healthy s -> sim_view s q = Some v ->
     legal_modify (init_qp_type (qi_init v)) (qp_state (qi_attr v)) m a = true ->
     r = 0 /\ sim_healthy s').
Proof.
  unfold sim_modify_qp, sim_view, sim_healthy. destruct (fault s) as [e s1] eqn:Hf.
  apply fault_spec in Hf as (Hl & Hq & Hh). rewrite Hq.
  destruct (s_qps s !! q) as [v|] eqn:Hv;
    [destruct (legal_modify _ _ _ _) eqn:Hleg; [destruct (Z.eqb_spec e 0) as [->|He]|]|];
    intros [= <- <-]; rewrite ?Hq; split_and!; try done.
  - intros q' Hne. simpl. by rewrite lookup_insert_ne by done.
  - intros v' _ [= <-]. simpl. by rewrite lookup_insert_eq.
  - intros v' H [= <-] _. simpl. by split; [|apply Hh].
  - intros v' H. by destruct (Hh H).
  - intros v' H [= <-] Hl'. congruence.
Qed.

#[export] Instance sim_laws : VerbsLaws sim.
Proof.
  refine {| live := s_live; qp_view := sim_view; healthy := sim_healthy |}; simpl.
  - done.
  - intros ????? (?&?&H&?)%alloc_law. split_and!; [done..| |done]. apply H.
  - intros ?????? (?&?&H&?)%alloc_law. split_and!; [done..| |done]. apply H.
  - intros _. apply sim_create_qp_law.
  - intros ????? (?&?&_&?)%alloc_law. done.
  - intros ???? ?%release_law _. done.
  - intros ???? ?%release_law _. done.
  - intros p w r w'. unfold sim_destroy_qp, release. intros [= <- <-]. unfold sim_view. simpl.
    split_and!; [done|by rewrite lookup_delete_eq| |done]. intros q Hq. by rewrite lookup_delete_ne.
  - intros ???? ?%release_law. done.
  - intros ????? (?&?&?&?)%sim_query_qp_law. done.
  - intros ?????? (?&?&?&?&?)%sim_modify_qp_law. done.
Defined.

Lemma fresh_ptr_live k (X : gset Z) s : ptrs s ⊆ X -> (k, fresh X) ∉ s_live s.
Proof.
  intros HX Hin. apply (is_fresh X). apply HX. unfold ptrs.
  do 2 apply elem_of_union_l. apply elem_of_union_r. apply elem_of_map. by exists (k, fresh X).
Qed.

Lemma fault_mem s e s' : fault s = (e, s') -> s_mem s' = s_mem s.
Proof. unfold fault. by destruct (s_faults s); intros [= <- <-]. Qed.

Lemma alloc_mem k s p s' : alloc k s = (p, s') -> s_mem s' = s_mem s.
Proof.
  unfold alloc. destruct (fault s) as [e s1] eqn:Hf. apply fault_mem in Hf.
  by destruct (e =? 0); intros [= <- <-].
Qed.

Lemma fault_quiet s e s' : fault s = (e, s') -> quiet s s' /\ (healthy s -> e = 0).
Proof.
  intros (Hl & Hq & Hh)%fault_spec. split.
  - split_and!; [done| |done|apply Hh]. intros q. unfold sim_view. cbn. unfold sim_view. by rewrite Hq.
  - apply Hh.
Qed.

#[export] Instance sim_port_laws : PortLaws sim.
Proof.
  refine {| port_info := fun _ _ => mkPortAttr IB_PORT_ACTIVE 7; gid_info := fun _ _ _ => mkGid 1 2 |}; simpl.
  - intros c p w r a w'. destruct (fault w) as [e s] eqn:Hf. intros [= <- <- <-].
    apply fault_quiet in Hf as [? ?]. by split_and!.
  - intros c p i w r g w'. destruct (fault w) as [e s] eqn:Hf. intros [= <- <- <-].
    apply fault_quiet in Hf as [? ?]. by split_and!.
Defined.

#[export] Instance sim_device_laws : DeviceLaws sim.
Proof.
  refine {| alloc_size := fun s p => s_mem s !! p |}; simpl.
  - by intros ????? _ ?%Z.eqb_neq.
  - by intros ???? (?&_)%alloc_law.
  - by intros ???? (?&_)%alloc_law.
  - by intros ???? (?&_)%release_law.
  - by intros ????? (?&_)%alloc_law.
  - by intros ??????? (?&_)%alloc_law.
  - by intros ???? (?&_)%release_law.
  - intros n w p w'. unfold sim_mmap. destruct (fault w) as [e s1] eqn:Hf.
    apply fault_spec in Hf as (Hl & _).
    destruct (e =? 0); intros [= <- <-]; [|by rewrite decide_True].
    set (X := {[2 ^ 64 - 1]} ∪ ptrs s1). pose proof (is_fresh X) as Hfr.
    rewrite decide_False by set_solver. simpl. rewrite <-Hl.
    split; [|done]. apply fresh_ptr_live. set_solver.
  - by intros ????? (?&_)%release_law.
  - intros n w p w' [= <- <-]. simpl. split_and!; [| |done|by rewrite lookup_insert_eq].
    + intros Hp. apply (is_fresh (ptrs w)). rewrite Hp. unfold ptrs. set_solver.
    + by apply fresh_ptr_live.
  - intros ???????? H%alloc_mem. by rewrite H.
  - by intros ????? [= <- <-] _.
Defined.

#[export] Instance sim_address_laws : AddressLaws sim.
Proof.
  constructor; simpl.
  - intros _ _ w p w' (Hc & Hs & _ & Hh)%alloc_law. split; [done|]. split.
    + intros Hw. destruct (Hh Hw) as [Hp ?]. split; [by apply Z.eqb_neq|done].
    + unfold created in Hc. destruct (Z.eqb_spec p 0) as [->|Hp]; by case_decide.
  - by intros p w r w' (? & ? & ?)%release_law.
Qed.
