(* ===== verification/Context.v ===== *)
(** * Devices and contexts

    src/KRdmaKit/src/device.rs and src/KRdmaKit/src/context.rs: queries of a
    device, the context (a protection domain with, in the kernel, a global
    memory region), address handles, and what is released when they are
    dropped.  Reference counts are not part of the model: a [drop] here is the
    destructor that runs when the last reference goes away. *)

From S2P Require Import Prelude Errors Verbs Sim.

Module Device.
Section device.
Context {W : Type} `{!DeviceOps W}.

Record Device := mkDevice { inner : ptr }.

Definition new (dev : ptr) : option Device :=
  if is_null dev then None else Some (mkDevice dev).

Definition raw_ptr (self : Device) : ptr := inner self.

Definition get_port_attr (self : Device) (port_id : Z) : M W (Result Error ib_port_attr) :=
  '(err, port_attr) ← call (ib_query_port (raw_ptr self) port_id);
  mret (if negb (err =? 0) then Err (from_kernel_errno err) else Ok port_attr).

Definition port_status (self : Device) (port_id : Z) : M W (Result Error ib_port_state) :=
  attr ←? get_port_attr self port_id;
  mret (Ok (port_state attr)).

Definition query_gid (self : Device) (port_id gid_idx : Z) : M W (Result Error ib_gid) :=
  '(err, gid) ← call (ib_query_gid (inner self) port_id gid_idx);
  mret (if negb (err =? 0) then Err (from_kernel_errno err) else Ok gid).

(** The [for i in range] loop over the ports that are left. *)
Fixpoint first_valid_port_loop (self : Device) (ports : list Z) : M W (option Z) :=
  match ports with
  | [] => mret None
  | i :: ports =>
      st ← port_status self i;
      match st with
      | Ok status =>
          if bool_decide (status <> IB_PORT_ACTIVE) then first_valid_port_loop self ports
          else
            g ← query_gid self i 0;
            match g with
            | Ok _ => mret (Some i)
            | Err _ => first_valid_port_loop self ports
            end
      | Err _ => first_valid_port_loop self ports
      end
  end.

Definition first_valid_port (self : Device) (start stop : Z) : M W (option Z) :=
  first_valid_port_loop self (seqZ start (stop - start)).

End device.
End Device.

Module Context.
Section context.
Context {W : Type} `{!Cfg, !DeviceOps W}.

(** [kmr] exists in the kernel build, [ctx] in the user build; the other one is
    null. *)
Record Context := mkContext { inner_device : Device.Device; kmr : ptr; ctx : ptr; pd : ptr }.

Definition get_dev_ref (self : Context) : Device.Device := inner_device self.
Definition get_pd (self : Context) : ptr := pd self.

Definition raw_ptr (self : Context) : ptr :=
  match feat with user => ctx self | kernel => Device.raw_ptr (get_dev_ref self) end.

Definition new_from_flags (dev : Device.Device) (mr_flags : list ib_access_flag) :
  M W (Result ControlpathError Context) :=
  match feat with
  | kernel =>
      pd ← call (ib_alloc_pd (Device.raw_ptr dev));
      if is_null pd then mret (Err (ContextError "pd" EAGAIN)) else
      kmr ← call (ib_get_dma_mr pd mr_flags);
      if is_null kmr then mret (Err (ContextError "mr" EAGAIN)) else
      mret (Ok (mkContext dev kmr null pd))
  | user =>
      ctx ← call (ibv_open_device (Device.raw_ptr dev));
      if is_null ctx then mret (Err (ContextError "ibv_context" EAGAIN)) else
      pd ← call (ib_alloc_pd ctx);
      if is_null pd then mret (Err (ContextError "pd" EAGAIN)) else
      mret (Ok (mkContext dev null ctx pd))
  end.

Definition new (dev : Device.Device) : M W (Result ControlpathError Context) :=
  match feat with
  | kernel =>
      new_from_flags dev [IB_ACCESS_LOCAL_WRITE; IB_ACCESS_REMOTE_READ; IB_ACCESS_REMOTE_WRITE;
                          IB_ACCESS_REMOTE_ATOMIC]
  | user => new_from_flags dev []
  end.

(** [Device::open_context]. *)
Definition open_context (dev : Device.Device) : M W (Result ControlpathError Context) := new dev.

Definition lkey (self : Context) : M W Z := gets (fun w => mr_lkey w (kmr self)).
Definition rkey (self : Context) : M W Z := gets (fun w => mr_rkey w (kmr self)).

Record AddressHandler := mkAddressHandler { ah_ctx : Context; ah_inner : ptr }.

(** In the kernel the GID index is not used; in user space [lid as _] is a cast
    to the [u16] field [dlid] and [gid_idx as _] one to a [u8]. *)
Definition create_address_handler (self : Context) (port_num gid_idx lid : Z) (gid : ib_gid) :
  M W (Result ControlpathError AddressHandler) :=
  let ah_attr :=
    match feat with
    | kernel =>
        mkAh port_num lid 0 0 (mkGid (subnet_prefix gid) (interface_id gid)) 0 0 0
    | user => mkAh port_num (u16 lid) 0 1 gid (u8 gid_idx) 0 255
    end in
  ptr ← call (rdma_create_ah (get_pd self) ah_attr);
  if ptr_is_err ptr then mret (Err (CreationError "AddressHandler" EAGAIN))
  else mret (Ok (mkAddressHandler self ptr)).

Definition get_port_attr (self : Context) (port_id : Z) : M W (Result Error ib_port_attr) :=
  match feat with
  | kernel => Device.get_port_attr (inner_device self) port_id
  | user =>
      '(err, port_attr) ← call (ib_query_port (ctx self) port_id);
      mret (if negb (err =? 0) then Err (from_kernel_errno err) else Ok port_attr)
  end.

Definition query_gid (self : Context) (port_id gid_idx : Z) : M W (Result Error ib_gid) :=
  match feat with
  | kernel => Device.query_gid (inner_device self) port_id gid_idx
  | user =>
      '(err, gid) ← call (ib_query_gid (ctx self) port_id gid_idx);
      mret (if negb (err =? 0) then Err (from_kernel_errno err) else Ok gid)
  end.

(** [Drop for AddressHandler] and [Drop for Context]. *)
Definition drop_address_handler (self : AddressHandler) : M W unit :=
  _ ← call (rdma_destroy_ah (ah_inner self)); mret ().

Definition drop (self : Context) : M W unit :=
  _ ← (match feat with
       | kernel => _ ← call (ib_dereg_mr (kmr self)); mret ()
       | user => mret ()
       end);
  _ ← call (ib_dealloc_pd (pd self)); mret ().

End context.
End Context.


(** ** Resource accounting *)
Section accounting.
Context {W : Type} `{!Cfg, !QueueOps W, !VerbsLaws W, !DeviceOps W, !DeviceLaws W}.

(** The resource a context does not give back: in user space the device context
    returned by [ibv_open_device]. *)
Definition never_closed (c : Context.Context) : gset res :=
  match feat with kernel => ∅ | user => {[(RCtx, Context.ctx c)]} end.

(** What the first step of [new_from_flags] allocates, and the error of its
    second step. *)
Definition first_step : res_kind := match feat with kernel => RPd | user => RCtx end.
Definition second_error : ControlpathError :=
  ContextError (match feat with kernel => "mr" | user => "pd" end) EAGAIN.

End accounting.

(** The life cycle of a context: creating one and dropping it gives every
    resource back except, in user space, the opened device; a creation that
    fails in its first step changes nothing, and one that fails in its second
    step leaves behind what the first step allocated. *)
Theorem context_lifecycle {W : Type} `{!Cfg, !QueueOps W, !VerbsLaws W, !DeviceOps W, !DeviceLaws W}
  (dev : Device.Device) (w w' : W) r :
  Context.new dev w = Done (r, w') ->
  match r with
  | Ok c => exists w'', Context.drop c w' = Done ((), w'') /\ live w'' = never_closed c ∪ live w
  | Err e =>
      if decide (e = second_error) then
        exists p, ((first_step, p) ∉ live w) /\ live w' = {[(first_step, p)]} ∪ live w
      else live w' = live w
  end.
Proof.
  unfold Context.new, Context.new_from_flags, Context.drop, never_closed, first_step, second_error.
  destruct feat; intros Hrun; msteps Hrun.
  - apply alloc_pd_law in E. destruct (is_null z) eqn:Hp; msteps Hrun.
    { rewrite decide_False by done. by eapply created_null. }
    apply get_dma_mr_law in E0. apply created_nonnull in E as [? Hl1]; [|done].
    destruct (is_null z0) eqn:Hm; msteps Hrun.
    { rewrite decide_True by done. exists z. apply created_null in E0; [|done]. by rewrite E0. }
    apply created_nonnull in E0 as [? Hl2]; [|done]. mgoals. simpl in *.
    apply dereg_mr_law in E. apply dealloc_pd_law in E0. eexists. split; [done|]. ledger.
  - apply open_device_law in E. destruct (is_null z) eqn:Hp; msteps Hrun.
    { rewrite decide_False by done. by eapply created_null. }
    apply alloc_pd_law in E0. apply created_nonnull in E as [? Hl1]; [|done].
    destruct (is_null z0) eqn:Hm; msteps Hrun.
    { rewrite decide_True by done. exists z. apply created_null in E0; [|done]. by rewrite E0. }
    apply created_nonnull in E0 as [? Hl2]; [|done]. mgoals. simpl in *.
    apply dealloc_pd_law in E. eexists. split; [done|]. ledger.
Qed.

(** The second call fails: the opened device stays behind. *)
Lemma context_lifecycle_witness :
  exists p, ((RCtx, p) ∉ live sim_init) /\
    live (snd (alloc RPd (snd (alloc RCtx (sim_faulty [0; 12]))))) = {[(RCtx, p)]} ∪ live sim_init.
Proof.
  exact (@context_lifecycle sim user_cfg _ _ _ _ (Device.mkDevice 9) (sim_faulty [0; 12])
    (snd (alloc RPd (snd (alloc RCtx (sim_faulty [0; 12])))))
    (Err (ContextError "pd" EAGAIN)) eq_refl).
Defined.
