(* ===== verification/MemoryRegion.v ===== *)
(** * Memory regions and memory windows

    src/KRdmaKit/src/memory_region.rs and src/KRdmaKit/src/memory_window.rs:
    the four ways to make a memory region, its addresses and keys, what its
    destructor gives back, and type 1/2 memory windows. *)

From S2P Require Import Prelude Errors Verbs Sim Context.

Module MemoryRegion.
Section mr.
Context {W : Type} `{!Cfg, !DeviceOps W}.

Definition MAX_CAPACITY : Z := 4 * 1024 * 1024.

Record MemoryRegion := mkMR {
  ctx : Context.Context; data : ptr; capacity : Z; is_raw_ptr : bool; is_huge_page : bool;
  mr : ptr }.

(** The access rights every registered region gets. *)
Definition default_access : list ib_access_flag :=
  [IB_ACCESS_LOCAL_WRITE; IB_ACCESS_REMOTE_READ; IB_ACCESS_REMOTE_WRITE; IB_ACCESS_REMOTE_ATOMIC;
   IB_ACCESS_MW_BIND].

(** [Box::<[u8]>::new_zeroed_slice]: a length above [isize::MAX] panics, an empty
    slice does not allocate and has a dangling pointer. *)
Definition dangling : ptr := 1.
Definition new_zeroed_slice (len : Z) : M W ptr :=
  if 2 ^ 63 <=? len then panic
  else if len =? 0 then mret dangling
  else call (alloc_zeroed len).

(** Dropping that box before it became a raw pointer. *)
Definition drop_slice (data : ptr) (len : Z) : M W unit :=
  if len =? 0 then mret () else call (dealloc data len).

Definition new (context : Context.Context) (cap : Z) : M W (Result ControlpathError MemoryRegion) :=
  match feat with
  | kernel =>
      if MAX_CAPACITY <? cap then mret (Err (InvalidArg "MR size"))
      else
        data ← new_zeroed_slice cap;
        mret (Ok (mkMR context data cap false false null))
  | user =>
      data ← new_zeroed_slice cap;
      mr ← call (ibv_reg_mr (Context.get_pd context) data cap default_access);
      if is_null mr then
        _ ← drop_slice data cap;
        mret (Err (CreationError "Failed to create MR" EFAULT))
      else mret (Ok (mkMR context data cap false false mr))
  end.

(** [((x) + a - 1) / a * a] on [usize]. *)
Definition align_to_hugepage_sz (x a : Z) : outcome Z :=
  match add_u64 overflow_checks x a with
  | Done s =>
      if s =? 0 then (if overflow_checks then Panic else Done (u64 (u64 (s - 1) / a * a)))
      else Done (u64 ((s - 1) / a * a))
  | Panic => Panic
  end.

Definition MAP_FAILED : ptr := 2 ^ 64 - 1.
Definition HUGE_PAGE : Z := Z.shiftl 2 20.

Definition new_huge_page (context : Context.Context) (cap : Z) :
  M W (Result ControlpathError MemoryRegion) :=
  cap ← lift (align_to_hugepage_sz cap HUGE_PAGE);
  data ← call (mmap cap);
  if data =? MAP_FAILED then mret (Err (CreationError "Failed to create huge-page MR" EFAULT)) else
  mr ← call (ibv_reg_mr (Context.get_pd context) data cap default_access);
  if is_null mr then mret (Err (CreationError "Failed to create MR" EFAULT))
  else mret (Ok (mkMR context data cap false true mr)).

Definition new_from_raw_user (context : Context.Context) (ptr cap : Z)
  (mr_flags : list ib_access_flag) : M W (Result ControlpathError MemoryRegion) :=
  mr ← call (ibv_reg_mr (Context.get_pd context) ptr cap mr_flags);
  if is_null mr then mret (Err (CreationError "Failed to create MR" EFAULT))
  else mret (Ok (mkMR context ptr cap true false mr)).

Definition new_from_raw_kernel (context : Context.Context) (ptr cap : Z) :
  M W (Result ControlpathError MemoryRegion) :=
  mret (Ok (mkMR context ptr cap true false null)).

Definition get_virt_addr (self : MemoryRegion) : Z := data self.

Definition get_rdma_addr (self : MemoryRegion) : Z :=
  match feat with kernel => virt_to_phys (data self) | user => get_virt_addr self end.

Definition rkey (self : MemoryRegion) : M W Z :=
  match feat with
  | kernel => Context.rkey (ctx self)
  | user => gets (fun w => mr_rkey w (mr self))
  end.

Definition lkey (self : MemoryRegion) : M W Z :=
  match feat with
  | kernel => Context.lkey (ctx self)
  | user => gets (fun w => mr_lkey w (mr self))
  end.

(** [Box::from_raw(self.data)] is a box of a [c_void], whose size is one byte. *)
Definition size_of_c_void : Z := 1.

Definition drop (self : MemoryRegion) : M W unit :=
  _ ← (match feat with
       | user => _ ← call (ib_dereg_mr (mr self)); mret ()
       | kernel => mret ()
       end);
  if is_raw_ptr self then mret ()
  else if (match feat with user => is_huge_page self | kernel => false end) then
    _ ← call (munmap (data self) (capacity self)); mret ()
  else call (dealloc (data self) size_of_c_void).

End mr.
End MemoryRegion.

Module MemoryWindow.
Section mw.
Context {W : Type} `{!Cfg, !DataOps W}.

Inductive MWType : Set := Type1 | Type2.

Record MemoryWindow := mkMW { ctx : Context.Context; inner_mw : ptr }.

Definition new (context : Context.Context) (t : MWType) :
  M W (Result ControlpathError MemoryWindow) :=
  has ← gets (fun w => has_mw_ops w (Context.raw_ptr context));
  if negb has then panic else
  let t := match t with Type1 => IBV_MW_TYPE_1 | Type2 => IBV_MW_TYPE_2 end in
  mw ← call (ibv_alloc_mw (Context.get_pd context) t);
  if is_null mw then mret (Err (CreationError "Failed to create MR" EFAULT))
  else mret (Ok (mkMW context mw)).

Definition is_type_1 (self : MemoryWindow) : M W bool :=
  gets (fun w => match mw_type_of w (inner_mw self) with IBV_MW_TYPE_1 => true | _ => false end).
Definition is_type_2 (self : MemoryWindow) : M W bool :=
  gets (fun w => match mw_type_of w (inner_mw self) with IBV_MW_TYPE_2 => true | _ => false end).

Definition drop (self : MemoryWindow) : M W unit :=
  has ← gets (fun w => has_mw_ops w (Context.raw_ptr (ctx self)));
  if negb has then panic else
  _ ← call (ibv_dealloc_mw (inner_mw self)); mret ().

End mw.
End MemoryWindow.

(** ** Alignment *)
Section align.
Context `{!Cfg}.

Lemma align_up x a : 0 < a -> 0 <= x -> (x + a - 1) / a * a = if x mod a =? 0 then x else x - x mod a + a.
Proof.
  intros Ha Hx. pose proof (Z.div_mod x a ltac:(lia)) as Hdm.
  pose proof (Z.mod_pos_bound x a Ha) as Hm.
  destruct (Z.eqb_spec (x mod a) 0) as [Hz|Hz].
  - replace (x + a - 1) with ((x / a) * a + (a - 1)) by lia.
    rewrite Z.div_add_l, (Z.div_small (a - 1)) by lia. lia.
  - replace (x + a - 1) with ((x / a + 1) * a + (x mod a - 1)) by lia.
    rewrite Z.div_add_l, (Z.div_small (x mod a - 1)) by lia. lia.
Qed.

Lemma align_spec x a :
  0 < a -> 0 <= x -> x + a < 2 ^ 64 ->
  exists y, MemoryRegion.align_to_hugepage_sz x a = Done y /\ y mod a = 0 /\ x <= y < x + a.
Proof.
  intros Ha Hx Hw. unfold MemoryRegion.align_to_hugepage_sz.
  rewrite add_u64_small by (unfold in_width; lia).
  destruct (Z.eqb_spec (x + a) 0); [lia|]. eexists. split; [done|].
  pose proof (Z.mod_pos_bound x a Ha) as Hm. pose proof (align_up x a Ha Hx) as Hal.
  rewrite wrap_small by (unfold in_width; rewrite Hal; destruct (x mod a =? 0); lia).
  split; [apply Z.mod_mul; lia|]. rewrite Hal. destruct (Z.eqb_spec (x mod a) 0); lia.
Qed.

End align.

Section lifecycle.
Context {W : Type} `{!Cfg, !QueueOps W, !VerbsLaws W, !DeviceOps W, !DeviceLaws W}.

Lemma new_zeroed_slice_spec len w p w' :
  len <> 0 -> MemoryRegion.new_zeroed_slice len w = Done (p, w') ->
  p <> null /\ ((RMem, p) ∉ live w) /\ live w' = {[(RMem, p)]} ∪ live w /\
  alloc_size w' p = Some len.
Proof.
  unfold MemoryRegion.new_zeroed_slice. intros Hlen Hrun.
  destruct (2 ^ 63 <=? len); [done|]. destruct (Z.eqb_spec len 0); [done|].
  unfold call in Hrun. destruct (alloc_zeroed len w) as [p1 w1] eqn:E. injection Hrun as <- <-.
  by apply alloc_zeroed_law.
Qed.

End lifecycle.

(** A huge-page region (user build) of any size that can be rounded up has a
    capacity that is a multiple of the 2 MB page, at least the size asked for
    and less than a page more; dropping it gives everything back.  A failed
    mapping changes nothing; a failed registration leaves the mapping behind. *)
Theorem huge_page_lifecycle {W : Type}
  `{!Cfg, !QueueOps W, !VerbsLaws W, !DeviceOps W, !DeviceLaws W}
  (c : Context.Context) (cap : Z) (w : W) :
  feat = user -> 0 <= cap -> cap + MemoryRegion.HUGE_PAGE < 2 ^ 64 ->
  exists r w', MemoryRegion.new_huge_page c cap w = Done (r, w') /\
  match r with
  | Ok m =>
      MemoryRegion.capacity m mod MemoryRegion.HUGE_PAGE = 0 /\
      cap <= MemoryRegion.capacity m < cap + MemoryRegion.HUGE_PAGE /\
      exists w'', MemoryRegion.drop m w' = Done ((), w'') /\ live w'' = live w
  | Err e =>
      if decide (e = CreationError "Failed to create MR" EFAULT) then
        exists p, ((RMap, p) ∉ live w) /\ live w' = {[(RMap, p)]} ∪ live w
      else live w' = live w
  end.
Proof.
  intros Hf Hc Hw.
  destruct (align_spec cap MemoryRegion.HUGE_PAGE ltac:(done) Hc Hw) as (y & Hy & Hmod & Hle).
  unfold MemoryRegion.new_huge_page, MemoryRegion.drop. rewrite bind_run. unfold lift. rewrite Hy.
  mgoal. apply mmap_law in E. destruct (Z.eqb_spec z MemoryRegion.MAP_FAILED) as [->|Hz].
  { eexists _, _. split; [done|]. cbv beta iota. rewrite decide_False by done. by rewrite decide_True in E. }
  rewrite decide_False in E by done. destruct E as [Hnew El]. mgoal. apply reg_mr_law in E.
  destruct (is_null z0) eqn:Hn; eexists _, _; (split; [done|]); cbv beta iota.
  { rewrite decide_True by done. exists z. apply created_null in E; [|done]. by rewrite E. }
  apply created_nonnull in E as [? El2]; [|done]. cbn [MemoryRegion.capacity]. split_and!; [done|lia|lia|].
  rewrite Hf. mgoals. simpl. mgoals. apply dereg_mr_law in E. apply munmap_law in E0.
  eexists. split; [done|]. simpl in *. ledger.
Qed.

Definition sample_context : Context.Context :=
  Context.mkContext (Device.mkDevice 9) null 5 6.

Lemma huge_page_lifecycle_witness :
  exists r w', @MemoryRegion.new_huge_page sim user_cfg _ sample_context 3000000 (sim_faulty [0; 12])
    = Done (r, w') /\
  match r with
  | Ok m =>
      MemoryRegion.capacity m mod MemoryRegion.HUGE_PAGE = 0 /\
      3000000 <= MemoryRegion.capacity m < 3000000 + MemoryRegion.HUGE_PAGE /\
      exists w'', @MemoryRegion.drop sim user_cfg _ m w' = Done ((), w'') /\
        live w'' = live (sim_faulty [0; 12])
  | Err e =>
      if decide (e = CreationError "Failed to create MR" EFAULT) then
        exists p, ((RMap, p) ∉ live (sim_faulty [0; 12])) /\
          live w' = {[(RMap, p)]} ∪ live (sim_faulty [0; 12])
      else live w' = live (sim_faulty [0; 12])
  end.
Proof.
  exact (@huge_page_lifecycle sim user_cfg _ _ _ _ sample_context 3000000 (sim_faulty [0; 12])
    eq_refl ltac:(lia) eq_refl).
Defined.

(** A region in its own memory (user build): a failed registration gives the
    memory back; a successful one owns a block of exactly its capacity, and its
    destructor deregisters it and then frees the block as if it were one byte
    long. *)
Theorem boxed_region_lifecycle {W : Type}
  `{!Cfg, !QueueOps W, !VerbsLaws W, !DeviceOps W, !DeviceLaws W}
  (c : Context.Context) (cap : Z) (w w' : W) r :
  feat = user -> cap <> 0 -> MemoryRegion.new c cap w = Done (r, w') ->
  match r with
  | Ok m =>
      let p := MemoryRegion.data m in
      alloc_size w' p = Some cap /\
      live w' = {[(RMr, MemoryRegion.mr m); (RMem, p)]} ∪ live w /\
      exists w1, live w1 = {[(RMem, p)]} ∪ live w /\
        MemoryRegion.drop m w' = Done (dealloc p 1 w1)
  | Err _ => live w' = live w
  end.
Proof.
  intros Hf Hcap Hrun. unfold MemoryRegion.new in Hrun. rewrite Hf in Hrun.
  apply bind_done_inv in Hrun as (p & w1 & Hbox & Hrun).
  apply new_zeroed_slice_spec in Hbox as (Hp & Hnew & Hl1 & Hsz); [|done].
  msteps Hrun. pose proof E as Esz. apply reg_mr_law in E.
  destruct (is_null z) eqn:Hn.
  - apply bind_done_inv in Hrun as ([] & w2 & Hd & Hrun). msteps Hrun.
    unfold MemoryRegion.drop_slice in Hd. destruct (Z.eqb_spec cap 0); [done|].
    injection Hd as Hd. apply dealloc_law in Hd; [|by rewrite (reg_mr_size _ _ _ _ _ _ _ _ Esz)].
    apply created_null in E; [|done]. ledger.
  - msteps Hrun. cbn. apply created_nonnull in E as [? Hl2]; [|done]. split_and!.
    + by rewrite (reg_mr_size _ _ _ _ _ _ _ _ Esz).
    + ledger.
    + unfold MemoryRegion.drop. rewrite Hf. mgoals. apply dereg_mr_law in E.
      eexists. split; [|done]. simpl in *. ledger.
Qed.

Lemma boxed_region_lifecycle_witness :
  exists m w', @MemoryRegion.new sim user_cfg _ sample_context 1024 sim_init = Done (Ok m, w') /\
  (let p := MemoryRegion.data m in
   alloc_size w' p = Some 1024 /\
   live w' = {[(RMr, MemoryRegion.mr m); (RMem, p)]} ∪ live sim_init /\
   exists w1, live w1 = {[(RMem, p)]} ∪ live sim_init /\
     @MemoryRegion.drop sim user_cfg _ m w' = Done (dealloc p 1 w1)).
Proof.
  eexists _, _. split; [reflexivity|].
  exact (@boxed_region_lifecycle sim user_cfg _ _ _ _ sample_context 1024 sim_init _ (Ok _)
    eq_refl ltac:(lia) eq_refl).
Defined.
