(* ===== verification/CompletionQueue.v ===== *)
(** * Completion queues and shared receive queues

    src/KRdmaKit/src/completion_queue.rs. *)

From S2P Require Import Prelude Errors Verbs Context.

Module CompletionQueue.
Section cq.
Context {W : Type} `{!Cfg, !QueueOps W, !DataOps W}.

Record CompletionQueue := mkCQ { ctx : Context.Context; cq : ptr }.

(** [ops.poll_cq.unwrap()] panics when the driver has no such operation. *)
Definition create (context : Context.Context) (max_cq_entries : Z) :
  M W (Result ControlpathError CompletionQueue) :=
  cq_raw_ptr ← call (ib_create_cq (Context.raw_ptr context) max_cq_entries);
  if is_null cq_raw_ptr then mret (Err (CreationError "CQ" EINVAL))
  else
    has ← gets (fun w => has_poll_cq w (Context.raw_ptr context));
    if negb has then panic else mret (Ok (mkCQ context cq_raw_ptr)).

(** The driver fills the caller's array and returns how many entries it wrote;
    [completions] is the array, the result the slice of the new entries. *)
Definition poll (self : CompletionQueue) (completions : list ib_wc) :
  M W (Result DatapathError (list ib_wc)) :=
  '(n, completions) ← call (ib_poll_cq (cq self) (i32 (Z.of_nat (length completions))));
  if n <? 0 then mret (Err (PollCQError EINVAL))
  else if Z.of_nat (length completions) <? n then panic
  else mret (Ok (take (Z.to_nat n) completions)).

Definition drop (self : CompletionQueue) : M W unit := _ ← call (ib_free_cq (cq self)); mret ().

End cq.
End CompletionQueue.

Module SharedReceiveQueue.
Section srq.
Context {W : Type} `{!QueueOps W}.

Record SharedReceiveQueue := mkSRQ { ctx : Context.Context; srq : ptr }.

Definition create (context : Context.Context) (max_wr max_sge : Z) :
  M W (Result ControlpathError SharedReceiveQueue) :=
  raw_ptr ← call (ib_create_srq (Context.get_pd context) max_wr max_sge);
  if is_null raw_ptr then mret (Err (CreationError "SRQ" EINVAL))
  else mret (Ok (mkSRQ context raw_ptr)).

Definition drop (self : SharedReceiveQueue) : M W unit :=
  _ ← call (ib_destroy_srq (srq self)); mret ().

End srq.
End SharedReceiveQueue.
