(* ===== verification/QueuePair.v ===== *)
(** * Queue pairs and their builder

    src/KRdmaKit/src/queue_pairs/mod.rs (the queue pair, its status, its
    destructor), src/KRdmaKit/src/queue_pairs/builder.rs and the builders of
    src/KRdmaKit/src/queue_pairs/dynamic_connected_transport.rs.  What a queue
    pair keeps of its peer ([rc_comm] in the kernel build, [comm] in the user
    build) and how that is given up when it is dropped is a parameter here; the
    handshakes provide it. *)

From S2P Require Import Prelude Errors Verbs Context CompletionQueue.

Inductive QPType : Set := RC | UD | WC | DC.
Inductive QueuePairStatus : Set := Reset | Init | ReadyToSend | ReadyToRecv | StatusError.

#[export] Instance QPType_eq_dec : EqDecision QPType.
Proof. solve_decision. Defined.
#[export] Instance QueuePairStatus_eq_dec : EqDecision QueuePairStatus.
Proof. solve_decision. Defined.

(** The peer of a queue pair, and the end of that relation. *)
Class Peer (W C : Type) := { release_peer : C -> M W unit }.

Definition MAX_RD_ATOMIC : Z := 16.

Module QueuePair.

Record QueuePair (C : Type) := mkQP {
  ctx : Context.Context;
  inner_qp : ptr;
  comm : option C;
  send_cq : CompletionQueue.CompletionQueue;
  recv_cq : CompletionQueue.CompletionQueue;
  srq : option SharedReceiveQueue.SharedReceiveQueue;
  mode : QPType;
  port_num : Z;
  qkey : Z;
  access : list ib_access_flag;
  timeout : Z;
  retry_count : Z;
  rnr_retry : Z;
  max_rd_atomic : Z;
  min_rnr_timer : Z;
  pkey_index : Z;
  path_mtu : ib_mtu }.
Arguments mkQP {C}.
Arguments ctx {C}.
Arguments inner_qp {C}.
Arguments comm {C}.
Arguments send_cq {C}.
Arguments recv_cq {C}.
Arguments srq {C}.
Arguments mode {C}.
Arguments port_num {C}.
Arguments qkey {C}.
Arguments access {C}.
Arguments timeout {C}.
Arguments retry_count {C}.
Arguments rnr_retry {C}.
Arguments max_rd_atomic {C}.
Arguments min_rnr_timer {C}.
Arguments pkey_index {C}.
Arguments path_mtu {C}.

(** The same queue pair, connected. *)
Definition with_comm {C} (c : C) (qp : QueuePair C) : QueuePair C :=
  mkQP (ctx qp) (inner_qp qp) (Some c) (send_cq qp) (recv_cq qp) (srq qp) (mode qp) (port_num qp)
    (qkey qp) (access qp) (timeout qp) (retry_count qp) (rnr_retry qp) (max_rd_atomic qp)
    (min_rnr_timer qp) (pkey_index qp) (path_mtu qp).

Section qp.
Context {W C : Type} `{!Cfg, !DeviceOps W, !QueueOps W, !DataOps W, !Peer W C}.

Definition status (self : QueuePair C) : M W (Result ControlpathError QueuePairStatus) :=
  '(ret, qp_state) ← call (ib_query_qp (inner_qp self));
  mret (if negb (ret =? 0) then Err (QueryError "QP status" (from_kernel_errno ret))
        else Ok match qp_state with
                | IB_QPS_RESET => Reset
                | IB_QPS_INIT => Init
                | IB_QPS_RTS => ReadyToSend
                | IB_QPS_RTR => ReadyToRecv
                | _ => StatusError
                end).

Definition qp_num (self : QueuePair C) : M W Z := gets (fun w => Verbs.qp_num w (inner_qp self)).

Definition lid (self : QueuePair C) : M W (Result Error Z) :=
  attr ←? Context.get_port_attr (ctx self) (port_num self); mret (Ok (port_lid attr)).

(** The GID with index 0. *)
Definition gid (self : QueuePair C) : M W (Result Error ib_gid) :=
  gid ←? Context.query_gid (ctx self) (port_num self) 0; mret (Ok gid).

Definition poll_send_cq (self : QueuePair C) (completions : list ib_wc) :=
  CompletionQueue.poll (send_cq self) completions.
Definition poll_recv_cq (self : QueuePair C) (completions : list ib_wc) :=
  CompletionQueue.poll (recv_cq self) completions.

(** [Drop for QueuePair], then the fields that own resources in the order of
    their declaration. *)
Definition drop (self : QueuePair C) : M W unit :=
  _ ← call (ib_destroy_qp (inner_qp self));
  _ ← (match comm self with Some c => release_peer c | None => mret () end);
  _ ← CompletionQueue.drop (send_cq self);
  _ ← CompletionQueue.drop (recv_cq self);
  match srq self with Some s => SharedReceiveQueue.drop s | None => mret () end.

End qp.
End QueuePair.

Module Builder.

Record QueuePairBuilder := mkBuilder {
  ctx : Context.Context;
  max_send_wr : Z; max_recv_wr : Z; max_cq_entries : Z; max_send_sge : Z; max_recv_sge : Z;
  max_inline_data : Z; access : list ib_access_flag; path_mtu : ib_mtu; timeout : Z;
  retry_count : Z; rnr_retry : Z; min_rnr_timer : Z; max_rd_atomic : Z; pkey_index : Z;
  port_num : Z; qkey : Z }.

Definition new (ctx : Context.Context) : QueuePairBuilder :=
  mkBuilder ctx 128 2048 128 1 1 64 [IB_ACCESS_LOCAL_WRITE] IB_MTU_4096 20 7 7 20
    (u8 MAX_RD_ATOMIC) 0 1 73.

Definition clone (self : QueuePairBuilder) : QueuePairBuilder :=
  mkBuilder (ctx self) (max_send_wr self) (max_recv_wr self) (max_cq_entries self)
    (max_send_sge self) (max_recv_sge self) (max_inline_data self) (access self) (path_mtu self)
    (timeout self) (retry_count self) (rnr_retry self) (min_rnr_timer self) (max_rd_atomic self)
    (pkey_index self) (port_num self) (qkey self).

Definition set_max_send_wr (x : Z) (self : QueuePairBuilder) := let '(mkBuilder c a b d e f g h i j k l m n o p q) := self in mkBuilder c x b d e f g h i j k l m n o p q.
Definition set_max_recv_wr (x : Z) (self : QueuePairBuilder) := let '(mkBuilder c a b d e f g h i j k l m n o p q) := self in mkBuilder c a x d e f g h i j k l m n o p q.
Definition set_max_cq_entries (x : Z) (self : QueuePairBuilder) := let '(mkBuilder c a b d e f g h i j k l m n o p q) := self in mkBuilder c a b x e f g h i j k l m n o p q.
Definition set_max_send_sge (x : Z) (self : QueuePairBuilder) := let '(mkBuilder c a b d e f g h i j k l m n o p q) := self in mkBuilder c a b d x f g h i j k l m n o p q.
Definition set_max_recv_sge (x : Z) (self : QueuePairBuilder) := let '(mkBuilder c a b d e f g h i j k l m n o p q) := self in mkBuilder c a b d e x g h i j k l m n o p q.
Definition set_max_inline_data (x : Z) (self : QueuePairBuilder) := let '(mkBuilder c a b d e f g h i j k l m n o p q) := self in mkBuilder c a b d e f x h i j k l m n o p q.
Definition set_access (x : list ib_access_flag) (self : QueuePairBuilder) := let '(mkBuilder c a b d e f g h i j k l m n o p q) := self in mkBuilder c a b d e f g x i j k l m n o p q.
Definition set_path_mtu (x : ib_mtu) (self : QueuePairBuilder) := let '(mkBuilder c a b d e f g h i j k l m n o p q) := self in mkBuilder c a b d e f g h x j k l m n o p q.
Definition set_timeout (x : Z) (self : QueuePairBuilder) := let '(mkBuilder c a b d e f g h i j k l m n o p q) := self in mkBuilder c a b d e f g h i x k l m n o p q.
Definition set_retry_count (x : Z) (self : QueuePairBuilder) := let '(mkBuilder c a b d e f g h i j k l m n o p q) := self in mkBuilder c a b d e f g h i j x l m n o p q.
Definition set_rnr_retry (x : Z) (self : QueuePairBuilder) := let '(mkBuilder c a b d e f g h i j k l m n o p q) := self in mkBuilder c a b d e f g h i j k x m n o p q.
Definition set_min_rnr_timer (x : Z) (self : QueuePairBuilder) := let '(mkBuilder c a b d e f g h i j k l m n o p q) := self in mkBuilder c a b d e f g h i j k l x n o p q.
Definition set_max_rd_atomic (x : Z) (self : QueuePairBuilder) := let '(mkBuilder c a b d e f g h i j k l m n o p q) := self in mkBuilder c a b d e f g h i j k l m x o p q.
Definition set_pkey_index (x : Z) (self : QueuePairBuilder) := let '(mkBuilder c a b d e f g h i j k l m n o p q) := self in mkBuilder c a b d e f g h i j k l m n x p q.
Definition set_port_num (x : Z) (self : QueuePairBuilder) := let '(mkBuilder c a b d e f g h i j k l m n o p q) := self in mkBuilder c a b d e f g h i j k l m n o x q.
Definition set_qkey (x : Z) (self : QueuePairBuilder) := let '(mkBuilder c a b d e f g h i j k l m n o p q) := self in mkBuilder c a b d e f g h i j k l m n o p x.

Definition allow_remote_rw (self : QueuePairBuilder) : QueuePairBuilder :=
  set_access (access self ++ [IB_ACCESS_REMOTE_WRITE; IB_ACCESS_REMOTE_READ]) self.
Definition allow_remote_atomic (self : QueuePairBuilder) : QueuePairBuilder :=
  set_access (access self ++ [IB_ACCESS_REMOTE_ATOMIC]) self.

(** [PreparedQueuePair]: a queue pair that has not been brought up. *)
Record PreparedQueuePair (C : Type) := mkPrepared {
  inner : QueuePair.QueuePair C;
  p_retry_count : Z; p_rnr_retry : Z; p_pkey_index : Z; p_port_num : Z; p_qkey : Z }.
Arguments mkPrepared {C}.
Arguments inner {C}.
Arguments p_retry_count {C}.
Arguments p_rnr_retry {C}.
Arguments p_pkey_index {C}.
Arguments p_port_num {C}.
Arguments p_qkey {C}.

Section build.
Context {W C : Type} `{!Cfg, !DeviceOps W, !QueueOps W, !DataOps W}.

(** [?] in a scope that owns resources: they are dropped on the way out. *)
Definition try_or {E A B} (m : M W (Result E A)) (cleanup : M W unit) (k : A -> M W (Result E B)) :
  M W (Result E B) :=
  r ← m;
  match r with
  | Ok a => k a
  | Err e => _ ← cleanup; mret (Err e)
  end.

Definition drop_srq (srq : option SharedReceiveQueue.SharedReceiveQueue) : M W unit :=
  match srq with Some s => SharedReceiveQueue.drop s | None => mret () end.

Definition build_inner (self : QueuePairBuilder) (qp_ptr : ptr)
  (send recv : CompletionQueue.CompletionQueue) (qp_type : QPType)
  (srq : option SharedReceiveQueue.SharedReceiveQueue) :
  M W (Result ControlpathError (PreparedQueuePair C)) :=
  has ← gets (fun w => match feat with
                       | user => has_post_send w (Context.raw_ptr (CompletionQueue.ctx send)) &&
                                 has_post_recv w (Context.raw_ptr (CompletionQueue.ctx send))
                       | kernel => true
                       end);
  if negb has then panic
  else if is_null qp_ptr then
    _ ← drop_srq srq;
    _ ← CompletionQueue.drop recv;
    _ ← CompletionQueue.drop send;
    mret (Err (CreationError "QP" EAGAIN))
  else
    mret (Ok (mkPrepared
      (QueuePair.mkQP (ctx self) qp_ptr None send recv srq qp_type (port_num self) (qkey self)
         (access self) (timeout self) (retry_count self) (rnr_retry self) (max_rd_atomic self)
         (min_rnr_timer self) (pkey_index self) (path_mtu self))
      (retry_count self) (rnr_retry self) (pkey_index self) (port_num self) (qkey self))).

Definition build_ud (self : QueuePairBuilder) : M W (Result ControlpathError (PreparedQueuePair C)) :=
  send ←? CompletionQueue.create (ctx self) (max_cq_entries self);
  try_or (CompletionQueue.create (ctx self) (max_cq_entries self)) (CompletionQueue.drop send)
    (fun recv =>
  let qp_attr := mkQpInit (mkCap (max_send_wr self) (max_recv_wr self) (max_send_sge self)
                             (max_recv_sge self) (max_inline_data self))
                   IB_QPT_UD (CompletionQueue.cq send) (CompletionQueue.cq recv) null in
  ib_qp ← call (ib_create_qp (Context.get_pd (ctx self)) qp_attr);
  build_inner self ib_qp send recv UD None).

Definition build_rc (self : QueuePairBuilder) : M W (Result ControlpathError (PreparedQueuePair C)) :=
  send ←? CompletionQueue.create (ctx self) (max_cq_entries self);
  try_or (CompletionQueue.create (ctx self) (max_cq_entries self)) (CompletionQueue.drop send)
    (fun recv =>
  let qp_attr := mkQpInit (mkCap (max_send_wr self) (max_recv_wr self) (max_send_sge self)
                             (max_recv_sge self) (max_inline_data self))
                   IB_QPT_RC (CompletionQueue.cq send) (CompletionQueue.cq recv) null in
  ib_qp ← call (ib_create_qp (Context.get_pd (ctx self)) qp_attr);
  build_inner self ib_qp send recv RC None).

(** The wrapper of the kernel bindings: an error pointer becomes null. *)
Definition ib_create_qp_dct (pd : ptr) (attr : ib_qp_init_attr) : M W ptr :=
  qp ← call (ib_create_qp pd attr);
  mret (if ptr_is_err qp then null else qp).

(** The shared receive queue is created before the queue pair and owned by it. *)
Definition build_dc (self : QueuePairBuilder) : M W (Result ControlpathError (PreparedQueuePair C)) :=
  send ←? CompletionQueue.create (ctx self) (max_cq_entries self);
  try_or (CompletionQueue.create (ctx self) (max_cq_entries self)) (CompletionQueue.drop send)
    (fun recv =>
  try_or (SharedReceiveQueue.create (ctx self) (max_recv_wr self) (max_recv_sge self))
    (_ ← CompletionQueue.drop recv; CompletionQueue.drop send)
    (fun shared_receive_queue =>
  let qp_attr := mkQpInit (mkCap (max_send_wr self) 0 (max_send_sge self)
                             (max_recv_sge self) (max_inline_data self))
                   IB_EXP_QPT_DC_INI (CompletionQueue.cq send) (CompletionQueue.cq recv)
                   (SharedReceiveQueue.srq shared_receive_queue) in
  qp ← ib_create_qp_dct (Context.get_pd (ctx self)) qp_attr;
  build_inner self qp send recv DC (Some shared_receive_queue))).

End build.
End Builder.

Module DynamicConnectedTarget.
Section dct.
Context {W : Type} `{!Cfg, !DeviceOps W, !QueueOps W, !DataOps W}.

Record DynamicConnectedTarget := mkDCT {
  ctx : Context.Context; inner_target : ptr;
  send_cq : CompletionQueue.CompletionQueue; recv_cq : CompletionQueue.CompletionQueue;
  shared_receive_queue : SharedReceiveQueue.SharedReceiveQueue; key : Z; port_num : Z }.

Definition dct_num (self : DynamicConnectedTarget) : M W Z :=
  gets (fun w => Verbs.dct_num w (inner_target self)).

(** The wrapper of the kernel bindings: an error pointer becomes null. *)
Definition safe_ib_create_dct (pd : ptr) (attr : ib_dct_init_attr) : M W ptr :=
  dct ← call (ib_create_dct pd attr);
  mret (if ptr_is_err dct then null else dct).

Definition build_dynamic_connected_target (self : Builder.QueuePairBuilder) (dc_key : Z) :
  M W (Result ControlpathError DynamicConnectedTarget) :=
  send ←? CompletionQueue.create (Builder.ctx self) (Builder.max_cq_entries self);
  Builder.try_or (CompletionQueue.create (Builder.ctx self) (Builder.max_cq_entries self))
    (CompletionQueue.drop send) (fun recv =>
  Builder.try_or
    (SharedReceiveQueue.create (Builder.ctx self) (Builder.max_recv_wr self)
       (Builder.max_recv_sge self))
    (_ ← CompletionQueue.drop recv; CompletionQueue.drop send) (fun srq =>
  let dc_attr :=
    mkDctInit (Context.get_pd (Builder.ctx self)) (CompletionQueue.cq send)
      (SharedReceiveQueue.srq srq) dc_key (Builder.port_num self) (Builder.access self)
      (Builder.min_rnr_timer self) (Builder.max_inline_data self) 1 (Builder.path_mtu self) in
  dct ← safe_ib_create_dct (Context.get_pd (Builder.ctx self)) dc_attr;
  if is_null dct then
    _ ← SharedReceiveQueue.drop srq;
    _ ← CompletionQueue.drop recv;
    _ ← CompletionQueue.drop send;
    mret (Err (CreationError "DCT" EAGAIN))
  else
    mret (Ok (mkDCT (Builder.ctx self) dct send recv srq dc_key (Builder.port_num self))))).

(** [Drop], then the fields that own resources. *)
Definition drop (self : DynamicConnectedTarget) : M W unit :=
  _ ← call (ib_destroy_dct (inner_target self));
  _ ← CompletionQueue.drop (send_cq self);
  _ ← CompletionQueue.drop (recv_cq self);
  SharedReceiveQueue.drop (shared_receive_queue self).

End dct.
End DynamicConnectedTarget.

(** ** Resource accounting *)
Section accounting.
Context {W C : Type} `{!Cfg, !DeviceOps W, !QueueOps W, !DataOps W, !VerbsLaws W, !Peer W C}.

Lemma cq_create_spec c n (w : W) :
  exists r w', CompletionQueue.create c n w = Done (r, w') /\ same_qps qp_view w w' /\
  (healthy w -> healthy w' /\ is_Ok r = true) /\
  match r with
  | Ok q => ((RCq, CompletionQueue.cq q) ∉ live w) /\
            live w' = {[(RCq, CompletionQueue.cq q)]} ∪ live w /\
            ~ in_use qp_view w' (RCq, CompletionQueue.cq q)
  | Err _ => live w' = live w
  end.
Proof.
  unfold CompletionQueue.create. mgoal. apply create_cq_law in E as (Hc & Hs & Hu & Hh).
  destruct (is_null z) eqn:Hz.
  - eexists _, _. split_and!; [done|done| |by apply (created_null RCq w z)].
    apply Z.eqb_eq in Hz. intros Hw. by destruct (Hh Hw).
  - mgoal. destruct (ops_law w0 (Context.raw_ptr c)) as (_ & _ & ->). simpl.
    eexists _, _. apply created_nonnull in Hc as [? ?]; [|done].
    split_and!; [done|done| |]. { intros Hw. by destruct (Hh Hw). }
    split_and!; [done|done|]. apply Hu. by apply Z.eqb_neq in Hz.
Qed.

Lemma cq_drop_spec q (w : W) :
  ~ in_use qp_view w (RCq, CompletionQueue.cq q) ->
  exists w', CompletionQueue.drop q w = Done ((), w') /\ same_qps qp_view w w' /\
    live w' = live w ∖ {[(RCq, CompletionQueue.cq q)]} /\ (healthy w -> healthy w').
Proof.
  intros Hu. unfold CompletionQueue.drop. mgoal. apply free_cq_law in E as (?&?&?); [|done].
  by eexists.
Qed.

Lemma srq_create_spec c n m (w : W) :
  exists r w', SharedReceiveQueue.create c n m w = Done (r, w') /\ same_qps qp_view w w' /\
  (healthy w -> healthy w' /\ is_Ok r = true) /\
  match r with
  | Ok q => ((RSrq, SharedReceiveQueue.srq q) ∉ live w) /\
            live w' = {[(RSrq, SharedReceiveQueue.srq q)]} ∪ live w /\
            ~ in_use qp_view w' (RSrq, SharedReceiveQueue.srq q)
  | Err _ => live w' = live w
  end.
Proof.
  unfold SharedReceiveQueue.create. mgoal. apply create_srq_law in E as (Hc & Hs & Hu & Hh).
  destruct (is_null z) eqn:Hz.
  - eexists _, _. split_and!; [done|done| |by apply (created_null RSrq w z)].
    apply Z.eqb_eq in Hz. intros Hw. by destruct (Hh Hw).
  - eexists _, _. apply created_nonnull in Hc as [? ?]; [|done].
    split_and!; [done|done| |]. { intros Hw. by destruct (Hh Hw). }
    split_and!; [done|done|]. apply Hu. by apply Z.eqb_neq in Hz.
Qed.

Lemma srq_drop_spec q (w : W) :
  ~ in_use qp_view w (RSrq, SharedReceiveQueue.srq q) ->
  exists w', SharedReceiveQueue.drop q w = Done ((), w') /\ same_qps qp_view w w' /\
    live w' = live w ∖ {[(RSrq, SharedReceiveQueue.srq q)]} /\ (healthy w -> healthy w').
Proof.
  intros Hu. unfold SharedReceiveQueue.drop. mgoal.
  apply destroy_srq_law in E as (?&?&?); [|done]. by eexists.
Qed.

(** The queues a queue pair refers to, and everything it owns. *)
Definition queues (qp : QueuePair.QueuePair C) : gset res :=
  {[(RCq, CompletionQueue.cq (QueuePair.send_cq qp)); (RCq, CompletionQueue.cq (QueuePair.recv_cq qp))]} ∪
  match QueuePair.srq qp with
  | Some s => {[(RSrq, SharedReceiveQueue.srq s)]} | None => ∅
  end.
Definition owned (qp : QueuePair.QueuePair C) : gset res :=
  {[(RQp, QueuePair.inner_qp qp)]} ∪ queues qp.

(** No other queue pair refers to the queues of this one. *)
Definition exclusive (w : W) (qp : QueuePair.QueuePair C) : Prop :=
  forall r q v, r ∈ queues qp -> q <> QueuePair.inner_qp qp -> qp_view w q = Some v -> ~ refers v r.

Lemma exclusive_frame w w' qp :
  (forall q, q <> QueuePair.inner_qp qp -> qp_view w' q = qp_view w q) ->
  exclusive w qp -> exclusive w' qp.
Proof. intros Hs He r q v Hr Hq Hv. rewrite Hs in Hv by done. by apply (He r q v). Qed.

(** The last part of a drop: the queues, which no queue pair uses any more. *)
Definition drop_queues (qp : QueuePair.QueuePair C) : M W unit :=
  _ ← CompletionQueue.drop (QueuePair.send_cq qp);
  _ ← CompletionQueue.drop (QueuePair.recv_cq qp);
  match QueuePair.srq qp with Some s => SharedReceiveQueue.drop s | None => mret () end.

Lemma drop_queues_spec qp (w : W) :
  (forall r, r ∈ queues qp -> ~ in_use qp_view w r) ->
  exists w', drop_queues qp w = Done ((), w') /\ live w' = live w ∖ queues qp /\
    (healthy w -> healthy w') /\ same_qps qp_view w w'.
Proof.
  intros Hnu. unfold drop_queues.
  destruct (cq_drop_spec (QueuePair.send_cq qp) w) as (w1 & H1 & Hs1 & Hl1 & Hh1).
  { apply Hnu. unfold queues. clear. set_solver. }
  rewrite (bind_done _ _ _ _ _ H1).
  destruct (cq_drop_spec (QueuePair.recv_cq qp) w1) as (w2 & H2 & Hs2 & Hl2 & Hh2).
  { eapply in_use_same; [exact Hs1|]. apply Hnu. unfold queues. clear. set_solver. }
  rewrite (bind_done _ _ _ _ _ H2). unfold queues in *.
  destruct (QueuePair.srq qp) as [s|].
  - destruct (srq_drop_spec s w2) as (w3 & H3 & Hs3 & Hl3 & Hh3).
    { eapply in_use_same; [exact Hs2|]. eapply in_use_same; [exact Hs1|]. apply Hnu. clear. set_solver. }
    exists w3. split_and!; [done|ledger|auto|]. intros q. by rewrite Hs3, Hs2, Hs1.
  - exists w2. split_and!; [done|ledger|auto|]. intros q. by rewrite Hs2, Hs1.
Qed.

(** Dropping a queue pair gives back all it owns, if letting its peer go
    concerns neither resources nor queue pairs. *)
Lemma qp_drop_peer qp (w : W) :
  exclusive w qp ->
  (forall r w1, ib_destroy_qp (QueuePair.inner_qp qp) w = (r, w1) ->
     exists w2, (match QueuePair.comm qp with Some c => release_peer c | None => mret () end) w1 =
         Done ((), w2) /\ quiet w1 w2) ->
  exists w1 w2 w', ib_destroy_qp (QueuePair.inner_qp qp) w = w1 /\
    (match QueuePair.comm qp with Some c => release_peer c | None => mret () end) w1.2 = Done ((), w2) /\
    drop_queues qp w2 = Done ((), w') /\
    QueuePair.drop qp w = Done ((), w') /\ live w' = live w ∖ owned qp /\
    (healthy w -> healthy w') /\ qp_view w' (QueuePair.inner_qp qp) = None /\
    (forall q, q <> QueuePair.inner_qp qp -> qp_view w' q = qp_view w q).
Proof.
  intros He Hp. unfold QueuePair.drop. mgoal. destruct (Hp _ _ eq_refl) as (w2 & Hr & Hl2 & Hs2 & _ & Hh2).
  apply destroy_qp_law in E as (Hl & Hq & Ho & Hh). rewrite (bind_done _ _ _ _ _ Hr).
  destruct (drop_queues_spec qp w2) as (w' & Hd & Hl' & Hh' & Hs').
  { intros r Hr' (q & v & Hv & Href). rewrite Hs2 in Hv.
    destruct (decide (q = QueuePair.inner_qp qp)) as [->|Hne]; [congruence|].
    rewrite Ho in Hv by done. by apply (He r q v). }
  exists (z, w0), w2, w'. split_and!; try done; [unfold owned; ledger|auto|by rewrite Hs', Hs2|].
  intros q Hne. by rewrite Hs', Hs2, Ho.
Qed.

(** Dropping a queue pair that was never connected. *)
Lemma qp_drop_spec qp (w : W) :
  exclusive w qp -> QueuePair.comm qp = None ->
  exists w', QueuePair.drop qp w = Done ((), w') /\ live w' = live w ∖ owned qp /\
    (healthy w -> healthy w') /\ qp_view w' (QueuePair.inner_qp qp) = None /\
    (forall q, q <> QueuePair.inner_qp qp -> qp_view w' q = qp_view w q).
Proof.
  intros He Hc. destruct (qp_drop_peer qp w He) as (_ & _ & w' & _ & _ & _ & Hd); [|by exists w'].
  intros r w1 _. rewrite Hc. exists w1. split; [done|apply quiet_refl].
Qed.

(** The queue pair a builder makes of its parts. *)
Definition built (b : Builder.QueuePairBuilder) (p : ptr) send recv (t : QPType) srq :
  Builder.PreparedQueuePair C :=
  Builder.mkPrepared
    (QueuePair.mkQP (Builder.ctx b) p None send recv srq t (Builder.port_num b) (Builder.qkey b)
       (Builder.access b) (Builder.timeout b) (Builder.retry_count b) (Builder.rnr_retry b)
       (Builder.max_rd_atomic b) (Builder.min_rnr_timer b) (Builder.pkey_index b)
       (Builder.path_mtu b))
    (Builder.retry_count b) (Builder.rnr_retry b) (Builder.pkey_index b) (Builder.port_num b)
    (Builder.qkey b).

(** The queues a queue pair was created with are its own. *)
Definition refers_own (init : ib_qp_init_attr) (qp : QueuePair.QueuePair C) : Prop :=
  forall r, refers (reset_info init) r -> r ∈ queues qp \/ r = (RSrq, null).

(** What a builder leaves behind: nothing on an error; on success exactly the
    new queue pair with its queues, in the reset state, shared with no other. *)
Definition build_post (w w' : W) (t : ib_qp_type) (m : QPType) (b : Builder.QueuePairBuilder)
  (r : Result ControlpathError (Builder.PreparedQueuePair C)) : Prop :=
  match r with
  | Err _ => live w' = live w /\ same_qps qp_view w w'
  | Ok pq =>
      let qp := Builder.inner pq in
      (exists p send recv srq, pq = built b p send recv m srq) /\
      (m <> DC -> QueuePair.srq qp = None) /\
      owned qp ## live w /\ live w' = owned qp ∪ live w /\ exclusive w' qp /\
      qp_view w (QueuePair.inner_qp qp) = None /\
      (forall q, q <> QueuePair.inner_qp qp -> qp_view w' q = qp_view w q) /\
      exists init, init_qp_type init = t /\ refers_own init qp /\
        qp_view w' (QueuePair.inner_qp qp) = Some (reset_info init)
  end.

Lemma create_qp_build self send recv m srq cap t (w w0 : W) :
  let init := mkQpInit cap t (CompletionQueue.cq send) (CompletionQueue.cq recv)
                match srq with Some s => SharedReceiveQueue.srq s | None => null end in
  let qs := queues (Builder.inner (built self 0 send recv m srq)) in
  (forall r, r ∈ qs -> ~ in_use qp_view w r) -> qs ## live w0 -> live w = qs ∪ live w0 ->
  same_qps qp_view w0 w -> (m <> DC -> srq = None) ->
  exists r w',
    (p ← call (ib_create_qp (Context.get_pd (Builder.ctx self)) init);
     Builder.build_inner self p send recv m srq) w = Done (r, w') /\
    (healthy w -> healthy w' /\ is_Ok r = true) /\ build_post w0 w' t m self r.
Proof.
  intros init qs Hnu Hdis Hlive Hsame Hnosrq. mgoal. unfold Builder.build_inner.
  apply create_qp_law in E as (Hc & Hnull & Hview & Hh). mgoal.
  assert ((match feat with
           | kernel => true
           | user => has_post_send w1 (Context.raw_ptr (CompletionQueue.ctx send)) &&
                     has_post_recv w1 (Context.raw_ptr (CompletionQueue.ctx send))
           end) = true) as ->.
  { destruct feat; [done|].
    by destruct (ops_law w1 (Context.raw_ptr (CompletionQueue.ctx send))) as (-> & -> & _). }
  simpl. destruct (is_null z) eqn:Hz.
  - assert (z = null) as -> by by apply Z.eqb_eq in Hz.
    specialize (Hnull eq_refl). apply created_null in Hc; [|done].
    assert (Hnu1 : forall r, r ∈ qs -> ~ in_use qp_view w1 r).
    { intros r Hr. eapply in_use_same; [exact Hnull|]. by apply Hnu. }
    assert (Hsrq : exists w2, Builder.drop_srq srq w1 = Done ((), w2) /\ same_qps qp_view w1 w2 /\
      live w2 = live w1 ∖ match srq with Some s => {[(RSrq, SharedReceiveQueue.srq s)]} | None => ∅ end).
    { destruct srq as [s|]; simpl.
      - destruct (srq_drop_spec s w1) as (w2 & ? & ? & ? & _); [|by eauto].
        apply Hnu1. unfold qs, queues. simpl. clear. set_solver.
      - exists w1. split_and!; [done|done|]. clear. set_solver. }
    destruct Hsrq as (w2 & H2 & Hs2 & Hl2). rewrite (bind_done _ _ _ _ _ H2).
    destruct (cq_drop_spec recv w2) as (w3 & H3 & Hs3 & Hl3 & _).
    { eapply in_use_same; [exact Hs2|]. apply Hnu1. unfold qs, queues. simpl. clear. set_solver. }
    rewrite (bind_done _ _ _ _ _ H3).
    destruct (cq_drop_spec send w3) as (w4 & H4 & Hs4 & Hl4 & _).
    { eapply in_use_same; [exact Hs3|]. eapply in_use_same; [exact Hs2|]. apply Hnu1.
      unfold qs, queues. simpl. clear. set_solver. }
    rewrite (bind_done _ _ _ _ _ H4). eexists _, _.
    split_and!; [done|intros Hw; by destruct (Hh Hw)|]. simpl. unfold qs, queues in *. simpl in *.
    split; [rewrite Hl4, Hl3, Hl2, Hc, Hlive; clear -Hdis; destruct srq; set_solver|].
    intros q. by rewrite Hs4, Hs3, Hs2, Hnull, Hsame.
  - assert (Hp : z <> null) by by apply Z.eqb_neq in Hz.
    destruct (Hview Hp) as (Hv0 & Hv & Ho). apply created_nonnull in Hc as [Hn Hl]; [|done].
    eexists _, _. split_and!; [done|intros Hw; by destruct (Hh Hw)|]. simpl.
    split; [by exists z, send, recv, srq|]. split; [done|].
    unfold owned. simpl. fold qs. change (queues _) with qs. split_and!.
    + rewrite Hlive in Hn. clear -Hdis Hn. set_solver.
    + rewrite Hl, Hlive. clear. set_solver.
    + intros r q v Hr Hq Hv'. simpl in Hq. rewrite Ho in Hv' by done. intros Href.
      apply (Hnu r Hr). by exists q, v.
    + by rewrite <- Hsame.
    + intros q Hq. by rewrite Ho, Hsame.
    + exists init. split; [done|]. split; [|done]. unfold refers_own, refers, queues. simpl.
      intros r [->|[->| ->]]; [left; clear; set_solver..|]. destruct srq as [s|]; [|by right].
      left. clear. set_solver.
Qed.

(** The prefix all builders share: two completion queues, the first given back
    when the second cannot be made. *)
Lemma two_cqs {A} b (k : _ -> _ -> M W (Result ControlpathError A))
  (post : Result ControlpathError A -> W -> Prop) (w : W) :
  (forall e w', live w' = live w -> same_qps qp_view w w' -> post (Err e) w') ->
  (forall send recv w1,
     let qs : gset res := {[(RCq, CompletionQueue.cq send); (RCq, CompletionQueue.cq recv)]} in
     (forall r, r ∈ qs -> ~ in_use qp_view w1 r) -> qs ## live w -> live w1 = qs ∪ live w ->
     same_qps qp_view w w1 ->
     exists r w', k send recv w1 = Done (r, w') /\
       (healthy w1 -> healthy w' /\ is_Ok r = true) /\ post r w') ->
  exists r w',
    (send ←? CompletionQueue.create (Builder.ctx b) (Builder.max_cq_entries b);
     Builder.try_or (CompletionQueue.create (Builder.ctx b) (Builder.max_cq_entries b))
       (CompletionQueue.drop send) (fun recv => k send recv)) w = Done (r, w') /\
    (healthy w -> healthy w' /\ is_Ok r = true) /\ post r w'.
Proof.
  intros Herr Hk. rewrite try_as_bind.
  destruct (cq_create_spec (Builder.ctx b) (Builder.max_cq_entries b) w)
    as (r1 & w1 & H1 & Hs1 & Hh1 & Hr1).
  rewrite (bind_done _ _ _ _ _ H1). destruct r1 as [send|e]; [|by eauto 6].
  destruct Hr1 as (Hn1 & Hl1 & Hu1). unfold Builder.try_or.
  destruct (cq_create_spec (Builder.ctx b) (Builder.max_cq_entries b) w1)
    as (r2 & w2 & H2 & Hs2 & Hh2 & Hr2).
  rewrite (bind_done _ _ _ _ _ H2). destruct r2 as [recv|e].
  - destruct Hr2 as (Hn2 & Hl2 & Hu2). destruct (Hk send recv w2) as (r & w' & Hrun & Hh & Hp).
    + intros r [->%elem_of_singleton| ->%elem_of_singleton]%elem_of_union; [|done].
      by eapply in_use_same.
    + rewrite Hl1 in Hn2. clear -Hn1 Hn2. set_solver.
    + rewrite Hl2, Hl1. clear. set_solver.
    + intros q. by rewrite Hs2, Hs1.
    + exists r, w'. split_and!; [done| |done]. intros Hw. apply Hh, Hh2, Hh1, Hw.
  - destruct (cq_drop_spec send w2) as (w3 & H3 & Hs3 & Hl3 & _); [by eapply in_use_same|].
    rewrite (bind_done _ _ _ _ _ H3). eexists _, _. split_and!; [done| |].
    + intros Hw. destruct (Hh1 Hw) as [Hw1 _]. by destruct (Hh2 Hw1).
    + apply Herr; [rewrite Hl3, Hr2, Hl1; clear -Hn1; set_solver|].
      intros q. by rewrite Hs3, Hs2, Hs1.
Qed.

Lemma build_ud_spec b (w : W) :
  exists r w', Builder.build_ud b w = Done (r, w') /\
    (healthy w -> healthy w' /\ is_Ok r = true) /\ build_post w w' IB_QPT_UD UD b r.
Proof.
  unfold Builder.build_ud. apply (two_cqs b _ (fun r w' => build_post w w' IB_QPT_UD UD b r)); [done|].
  intros send recv w1 qs Hnu Hd Hl Hs. apply (create_qp_build b send recv UD None); unfold queues; simpl.
  - intros r Hr. apply Hnu. clear -Hr. set_solver.
  - clear -Hd. set_solver.
  - rewrite Hl. clear. set_solver.
  - done.
  - done.
Qed.

Lemma build_rc_spec b (w : W) :
  exists r w', Builder.build_rc b w = Done (r, w') /\
    (healthy w -> healthy w' /\ is_Ok r = true) /\ build_post w w' IB_QPT_RC RC b r.
Proof.
  unfold Builder.build_rc. apply (two_cqs b _ (fun r w' => build_post w w' IB_QPT_RC RC b r)); [done|].
  intros send recv w1 qs Hnu Hd Hl Hs. apply (create_qp_build b send recv RC None); unfold queues; simpl.
  - intros r Hr. apply Hnu. clear -Hr. set_solver.
  - clear -Hd. set_solver.
  - rewrite Hl. clear. set_solver.
  - done.
  - done.
Qed.

Lemma build_dc_spec `{!DeviceLaws W} b (w : W) :
  exists r w', Builder.build_dc b w = Done (r, w') /\
    (healthy w -> healthy w' /\ is_Ok r = true) /\ build_post w w' IB_EXP_QPT_DC_INI DC b r.
Proof.
  unfold Builder.build_dc.
  apply (two_cqs b _ (fun r w' => build_post w w' IB_EXP_QPT_DC_INI DC b r)); [done|].
  intros send recv w1 qs Hnu Hd Hl Hs. unfold Builder.try_or.
  destruct (srq_create_spec (Builder.ctx b) (Builder.max_recv_wr b) (Builder.max_recv_sge b) w1)
    as (r2 & w2 & H2 & Hs2 & Hh2 & Hr2).
  rewrite (bind_done _ _ _ _ _ H2). destruct r2 as [srq|e].
  - destruct Hr2 as (Hn2 & Hl2 & Hu2).
    assert (Hwrap : forall attr, (qp ← Builder.ib_create_qp_dct (Context.get_pd (Builder.ctx b)) attr;
        Builder.build_inner (C := C) b qp send recv DC (Some srq)) w2 =
      (qp ← call (ib_create_qp (Context.get_pd (Builder.ctx b)) attr);
        Builder.build_inner b qp send recv DC (Some srq)) w2).
    { intros attr. unfold Builder.ib_create_qp_dct. rewrite bind_assoc, !bind_call.
      destruct (ib_create_qp _ _ w2) as [p w3] eqn:Ep. rewrite bind_ret.
      destruct (decide (p = null)) as [->|Hp]; [by destruct (ptr_is_err null)|].
      by rewrite (created_not_err _ _ _ _ _ Ep Hp). }
    rewrite Hwrap.
    destruct (create_qp_build b send recv DC (Some srq)
      (mkCap (Builder.max_send_wr b) 0 (Builder.max_send_sge b) (Builder.max_recv_sge b)
         (Builder.max_inline_data b)) IB_EXP_QPT_DC_INI w2 w) as (r & w' & Hrun & Hh & Hp);
      unfold queues; simpl.
    + intros r Hr. apply elem_of_union in Hr as [Hr| ->%elem_of_singleton]; [|done].
      eapply in_use_same; [exact Hs2|]. apply Hnu. done.
    + rewrite Hl in Hn2. clear -Hd Hn2. set_solver.
    + rewrite Hl2, Hl. clear. set_solver.
    + intros q. by rewrite Hs2, Hs.
    + done.
    + exists r, w'. split_and!; [done| |done]. intros Hw. apply Hh, Hh2, Hw.
  - rewrite bind_assoc.
    destruct (cq_drop_spec recv w2) as (w3 & H3 & Hs3 & Hl3 & _).
    { eapply in_use_same; [exact Hs2|]. apply Hnu. clear. set_solver. }
    rewrite (bind_done _ _ _ _ _ H3).
    destruct (cq_drop_spec send w3) as (w4 & H4 & Hs4 & Hl4 & _).
    { eapply in_use_same; [exact Hs3|]. eapply in_use_same; [exact Hs2|]. apply Hnu. clear. set_solver. }
    rewrite (bind_done _ _ _ _ _ H4). eexists _, _. split_and!; [done| |].
    + intros Hw. by destruct (Hh2 Hw).
    + simpl. split; [rewrite Hl4, Hl3, Hr2, Hl; clear -Hd; set_solver|].
      intros q. by rewrite Hs4, Hs3, Hs2, Hs.
Qed.

End accounting.

