(* ===== verification/BringUp.v ===== *)
(** * Bringing queue pairs up

    [bring_up_ud], [bring_up_rc] and [bring_up_dc] of
    src/KRdmaKit/src/queue_pairs/builder.rs and the two versions of
    [bring_up_rc_inner] (src/KRdmaKit/src/queue_pairs/operations_kernel.rs and
    operations_user.rs): RESET to INIT to RTR to RTS by [modify_qp], with the
    prepared queue pair dropped on an error. *)

From S2P Require Import Prelude Errors Verbs Sim Context CompletionQueue QueuePair.

Section bring_up.
Context {W C : Type} `{!Cfg, !DeviceOps W, !QueueOps W, !DataOps W, !Peer W C}.

(** One [ib_modify_qp] with its error report. *)
Definition modify (qp : ptr) (attr : ib_qp_attr) (mask : list ib_qp_attr_mask) (what : string) :
  M W (Result ControlpathError unit) :=
  ret ← call (ib_modify_qp qp attr mask);
  mret (if negb (ret =? 0) then Err (CreationError what (from_kernel_errno ret)) else Ok ()).

(** The states the two versions share; they differ in the address vector. *)
Definition rc_init_attr (self : QueuePair.QueuePair C) : ib_qp_attr :=
  default_qp_attr |> with_qp_state IB_QPS_INIT |> with_pkey_index (QueuePair.pkey_index self)
    |> with_port_num (QueuePair.port_num self) |> with_access (QueuePair.access self).

Definition rc_rtr_attr (self : QueuePair.QueuePair C) (ah : ah_attr) (remote_qpn rq_psn : Z) :
  ib_qp_attr :=
  default_qp_attr |> with_qp_state IB_QPS_RTR |> with_path_mtu (QueuePair.path_mtu self)
    |> with_dest_qp_num remote_qpn |> with_rq_psn rq_psn
    |> with_max_dest_rd_atomic (QueuePair.max_rd_atomic self)
    |> with_min_rnr_timer (QueuePair.min_rnr_timer self) |> with_av ah.

Definition rc_rts_attr (self : QueuePair.QueuePair C) (qp_num : Z) : ib_qp_attr :=
  default_qp_attr |> with_qp_state IB_QPS_RTS |> with_timeout (QueuePair.timeout self)
    |> with_retry_cnt (QueuePair.retry_count self) |> with_rnr_retry (QueuePair.rnr_retry self)
    |> with_sq_psn qp_num |> with_max_rd_atomic (QueuePair.max_rd_atomic self).

(** Kernel: [type_] IB, [dlid] set through the kernel's accessor, the global
    route filled in. *)
Definition rc_av_kernel (self : QueuePair.QueuePair C) (lid : Z) (gid : ib_gid) : ah_attr :=
  mkAh (QueuePair.port_num self) lid 0 0 (mkGid (subnet_prefix gid) (interface_id gid)) 0 0 255.
(** User: [lid as _] is a cast to [u16], and the route is global. *)
Definition rc_av_user (self : QueuePair.QueuePair C) (lid : Z) (gid : ib_gid) : ah_attr :=
  mkAh (QueuePair.port_num self) (u16 lid) 0 1 gid 0 0 255.

Definition bring_up_rc_inner_kernel (self : QueuePair.QueuePair C) (lid : Z) (gid : ib_gid)
  (remote_qpn rq_psn : Z) : M W (Result ControlpathError unit) :=
  if bool_decide (QueuePair.mode self <> RC) then
    mret (Err (CreationError "bring up type check log::error!" (from_kernel_errno 0)))
  else
    qp_status ←? QueuePair.status self;
    if bool_decide (qp_status = Reset) then
      _ ←? modify (QueuePair.inner_qp self) (rc_init_attr self)
             [IB_QP_STATE; IB_QP_PKEY_INDEX; IB_QP_PORT; IB_QP_ACCESS_FLAGS] "bringRC INIT error";
      _ ←? modify (QueuePair.inner_qp self)
             (rc_rtr_attr self (rc_av_kernel self lid gid) remote_qpn rq_psn)
             [IB_QP_STATE; IB_QP_AV; IB_QP_PATH_MTU; IB_QP_DEST_QPN; IB_QP_RQ_PSN;
              IB_QP_MAX_DEST_RD_ATOMIC; IB_QP_MIN_RNR_TIMER] "bring RC RTR error";
      qp_num ← QueuePair.qp_num self;
      _ ←? modify (QueuePair.inner_qp self) (rc_rts_attr self qp_num)
             [IB_QP_STATE; IB_QP_TIMEOUT; IB_QP_RETRY_CNT; IB_QP_RNR_RETRY; IB_QP_SQ_PSN;
              IB_QP_MAX_QP_RD_ATOMIC] "bring RC RTS error";
      mret (Ok ())
    else mret (Ok ()).

(** The user version also fills [max_dest_rd_atomic] in its last step, which the
    mask leaves out. *)
Definition bring_up_rc_inner_user (self : QueuePair.QueuePair C) (lid : Z) (gid : ib_gid)
  (remote_qpn rq_psn : Z) : M W (Result ControlpathError unit) :=
  if bool_decide (QueuePair.mode self <> RC) then
    mret (Err (CreationError "bring up type check log::error!" (from_kernel_errno 0)))
  else
    qp_status ←? QueuePair.status self;
    if bool_decide (qp_status = Reset) then
      _ ←? modify (QueuePair.inner_qp self) (rc_init_attr self)
             [IB_QP_STATE; IB_QP_PKEY_INDEX; IB_QP_PORT; IB_QP_ACCESS_FLAGS] "bringRC INIT error";
      _ ←? modify (QueuePair.inner_qp self)
             (rc_rtr_attr self (rc_av_user self lid gid) remote_qpn rq_psn)
             [IB_QP_STATE; IB_QP_AV; IB_QP_PATH_MTU; IB_QP_DEST_QPN; IB_QP_RQ_PSN;
              IB_QP_MAX_DEST_RD_ATOMIC; IB_QP_MIN_RNR_TIMER] "bring RC RTR error";
      qp_num ← QueuePair.qp_num self;
      _ ←? modify (QueuePair.inner_qp self)
             (with_max_dest_rd_atomic (QueuePair.max_rd_atomic self) (rc_rts_attr self qp_num))
             [IB_QP_STATE; IB_QP_TIMEOUT; IB_QP_RETRY_CNT; IB_QP_RNR_RETRY; IB_QP_SQ_PSN;
              IB_QP_MAX_QP_RD_ATOMIC] "bring RC RTS error";
      mret (Ok ())
    else mret (Ok ()).

Definition bring_up_rc_inner (self : QueuePair.QueuePair C) (lid : Z) (gid : ib_gid)
  (remote_qpn rq_psn : Z) : M W (Result ControlpathError unit) :=
  match feat with
  | kernel => bring_up_rc_inner_kernel self lid gid remote_qpn rq_psn
  | user => bring_up_rc_inner_user self lid gid remote_qpn rq_psn
  end.

(** [self] is consumed: an error drops the queue pair. *)
Definition bring_up_rc (self : Builder.PreparedQueuePair C) (lid : Z) (gid : ib_gid)
  (remote_qpn rq_psn : Z) : M W (Result ControlpathError (QueuePair.QueuePair C)) :=
  let qp := Builder.inner self in
  Builder.try_or (bring_up_rc_inner qp lid gid remote_qpn rq_psn) (QueuePair.drop qp)
    (fun _ => mret (Ok qp)).

(** The part of [bring_up_ud] in which an error drops the queue pair. *)
Definition bring_up_ud_steps (self : Builder.PreparedQueuePair C) :
  M W (Result ControlpathError unit) :=
  let qp := Builder.inner self in
  if bool_decide (QueuePair.mode qp <> UD) then
    mret (Err (CreationError "bring up type check error!" (from_kernel_errno 0)))
  else
    qp_status ←? QueuePair.status qp;
    if bool_decide (qp_status = Reset) then
      _ ←? modify (QueuePair.inner_qp qp)
             (default_qp_attr |> with_qp_state IB_QPS_INIT
                |> with_pkey_index (Builder.p_pkey_index self)
                |> with_port_num (Builder.p_port_num self) |> with_qkey (Builder.p_qkey self))
             [IB_QP_STATE; IB_QP_PKEY_INDEX; IB_QP_PORT; IB_QP_QKEY] "bring UD INIT error";
      _ ←? modify (QueuePair.inner_qp qp) (default_qp_attr |> with_qp_state IB_QPS_RTR)
             [IB_QP_STATE] "bring UD RTR error";
      qp_num ← QueuePair.qp_num qp;
      _ ←? modify (QueuePair.inner_qp qp)
             (default_qp_attr |> with_qp_state IB_QPS_RTS |> with_sq_psn qp_num)
             [IB_QP_STATE; IB_QP_SQ_PSN] "bring UD RTS error";
      mret (Ok ())
    else mret (Ok ()).

Definition bring_up_ud (self : Builder.PreparedQueuePair C) :
  M W (Result ControlpathError (QueuePair.QueuePair C)) :=
  let qp := Builder.inner self in
  Builder.try_or (bring_up_ud_steps self) (QueuePair.drop qp) (fun _ => mret (Ok qp)).

(** DC re-reads the status before each step. *)
Definition bring_up_dc_steps (self : Builder.PreparedQueuePair C) :
  M W (Result ControlpathError unit) :=
  let qp := Builder.inner self in
  if bool_decide (QueuePair.mode qp <> DC) then
    mret (Err (CreationError "bring up type check error!" (from_kernel_errno 0)))
  else
    qp_status ←? QueuePair.status qp;
    _ ←? (if bool_decide (qp_status = Reset) then
            modify (QueuePair.inner_qp qp)
              (default_qp_attr |> with_qp_state IB_QPS_INIT
                 |> with_pkey_index (Builder.p_pkey_index self)
                 |> with_port_num (Builder.p_port_num self))
              [IB_QP_STATE; IB_QP_PKEY_INDEX; IB_QP_PORT; IB_QP_DC_KEY] "bring DC INIT error"
          else mret (Ok ()));
    qp_status ←? QueuePair.status qp;
    _ ←? (if bool_decide (qp_status = Init) then
            modify (QueuePair.inner_qp qp)
              (default_qp_attr |> with_qp_state IB_QPS_RTR
                 |> with_path_mtu (QueuePair.path_mtu qp)
                 |> with_av (mkAh (Builder.p_port_num self) 0 0 0 default_gid 0 0 0))
              [IB_QP_STATE; IB_QP_PATH_MTU; IB_QP_AV] "bring DC RTR error"
          else mret (Ok ()));
    qp_status ←? QueuePair.status qp;
    if bool_decide (qp_status = ReadyToRecv) then
      modify (QueuePair.inner_qp qp)
        (default_qp_attr |> with_qp_state IB_QPS_RTS |> with_timeout (QueuePair.timeout qp)
           |> with_retry_cnt (Builder.p_retry_count self)
           |> with_rnr_retry (Builder.p_rnr_retry self)
           |> with_max_rd_atomic (QueuePair.max_rd_atomic qp))
        [IB_QP_STATE; IB_QP_TIMEOUT; IB_QP_RETRY_CNT; IB_QP_RNR_RETRY; IB_QP_MAX_QP_RD_ATOMIC]
        "bring DC RTS error"
    else mret (Ok ()).

Definition bring_up_dc (self : Builder.PreparedQueuePair C) :
  M W (Result ControlpathError (QueuePair.QueuePair C)) :=
  let qp := Builder.inner self in
  Builder.try_or (bring_up_dc_steps self) (QueuePair.drop qp) (fun _ => mret (Ok qp)).

End bring_up.

(** ** What the steps do *)
Section steps.
Context {W C : Type} `{!Cfg, !DeviceOps W, !QueueOps W, !DataOps W, !VerbsLaws W, !Peer W C}.

(** Calls on the queue pair [q] keep the resources, its number and all other
    queue pairs. *)
Definition only_qp (q : ptr) (w w' : W) : Prop :=
  live w' = live w /\ Verbs.qp_num w' q = Verbs.qp_num w q /\
  forall q', q' <> q -> qp_view w' q' = qp_view w q'.

Lemma only_qp_trans q w1 w2 w3 : only_qp q w1 w2 -> only_qp q w2 w3 -> only_qp q w1 w3.
Proof.
  intros (Hl & Hn & Ho) (Hl' & Hn' & Ho'). split_and!; [congruence..|].
  intros q' Hq. by rewrite Ho', Ho.
Qed.

Lemma quiet_only q (w w' : W) : quiet w w' -> only_qp q w w'.
Proof. intros (? & Hs & Hn & _). split_and!; [done|done|]. intros q' _. apply Hs. Qed.

Definition status_of (s : ib_qp_state) : QueuePairStatus :=
  match s with
  | IB_QPS_RESET => Reset | IB_QPS_INIT => Init | IB_QPS_RTS => ReadyToSend
  | IB_QPS_RTR => ReadyToRecv | _ => StatusError
  end.

Definition modified (m : list ib_qp_attr_mask) (a : ib_qp_attr) (v : qp_info) : qp_info :=
  mkQpInfo (qi_init v) (apply_attr m a (qi_attr v)).
Definition legal (v : qp_info) (m : list ib_qp_attr_mask) (a : ib_qp_attr) : Prop :=
  legal_modify (init_qp_type (qi_init v)) (qp_state (qi_attr v)) m a = true.

(** An error of the driver under the name [what]. *)
Definition fails_with (what : string) (e : ControlpathError) : Prop :=
  exists n, n <> 0 /\ e = CreationError what (from_kernel_errno n).

Lemma status_spec (self : QueuePair.QueuePair C) w v :
  let q := QueuePair.inner_qp self in
  qp_view w q = Some v ->
  exists r w', QueuePair.status self w = Done (r, w') /\ only_qp q w w' /\ qp_view w' q = Some v /\
    (healthy w -> is_Ok r = true /\ healthy w') /\
    match r with
    | Ok s => s = status_of (qp_state (qi_attr v))
    | Err e => exists n, n <> 0 /\ e = QueryError "QP status" (from_kernel_errno n)
    end.
Proof.
  intros q Hv. unfold QueuePair.status. mgoal. destruct p as [ret s].
  apply query_qp_law in E as (Hl & Hs & Hn & Hst & Hh).
  eexists _, _. split; [done|]. split; [by split_and!|]. split; [by rewrite Hs|].
  destruct (Z.eqb_spec ret 0) as [->|Hne]; simpl.
  - split. { intros Hw. by destruct (Hh v Hw Hv). }
    by rewrite (Hst v eq_refl Hv).
  - split; [|by eauto]. intros Hw. by destruct (Hh v Hw Hv).
Qed.

Lemma modify_spec q a m what w v :
  qp_view w q = Some v ->
  exists r w', modify q a m what w = Done (r, w') /\ only_qp q w w' /\
    match r with
    | Ok _ => qp_view w' q = Some (modified m a v)
    | Err e => qp_view w' q = Some v /\ fails_with what e
    end /\
    (healthy w -> legal v m a -> r = Ok () /\ healthy w').
Proof.
  intros Hv. unfold modify. mgoal. apply modify_qp_law in E as (Hl & Hn & Ho & Hf & Hok & Hh).
  eexists _, _. split; [done|]. split; [by split_and!|].
  destruct (Z.eqb_spec z 0) as [->|Hne]; simpl.
  - split; [by apply Hok|]. intros Hw Hleg. split; [done|]. by destruct (Hh v Hw Hv Hleg).
  - split; [split; [by rewrite Hf|by exists z]|]. intros Hw Hleg. by destruct (Hh v Hw Hv Hleg).
Qed.

(** The three modifications every bring-up makes, the last one with the number
    of the queue pair. *)
Lemma three_steps_spec (self : QueuePair.QueuePair C) a1 m1 e1 a2 m2 e2 (f3 : Z -> ib_qp_attr) m3 e3 w v :
  let q := QueuePair.inner_qp self in
  let v1 := modified m1 a1 v in
  let v2 := modified m2 a2 v1 in
  let a3 := f3 (Verbs.qp_num w q) in
  qp_view w q = Some v ->
  exists r w',
    (_ ←? modify q a1 m1 e1;
     _ ←? modify q a2 m2 e2;
     n ← QueuePair.qp_num self;
     _ ←? modify q (f3 n) m3 e3;
     mret (Ok ())) w = Done (r, w') /\ only_qp q w w' /\
    match r with
    | Ok _ => qp_view w' q = Some (modified m3 a3 v2)
    | Err e => (qp_view w' q = Some v /\ fails_with e1 e) \/ (qp_view w' q = Some v1 /\ fails_with e2 e) \/
               (qp_view w' q = Some v2 /\ fails_with e3 e)
    end /\
    (healthy w -> legal v m1 a1 -> legal v1 m2 a2 -> legal v2 m3 a3 -> r = Ok () /\ healthy w').
Proof.
  intros q v1 v2 a3' Hv. rewrite try_as_bind.
  destruct (modify_spec q a1 m1 e1 w v Hv) as ([[]|e] & w1 & H1 & Ho1 & Hr1 & Hh1);
    rewrite (bind_done _ _ _ _ _ H1).
  2: { eexists _, _. split; [done|]. split; [done|]. split; [by left|].
       intros Hw Hl1. by destruct (Hh1 Hw Hl1). }
  rewrite try_as_bind.
  destruct (modify_spec q a2 m2 e2 w1 v1 Hr1) as ([[]|e] & w2 & H2 & Ho2 & Hr2 & Hh2);
    rewrite (bind_done _ _ _ _ _ H2).
  2: { eexists _, _. split; [done|]. split; [by eapply only_qp_trans|]. split; [by right; left|].
       intros Hw Hl1 Hl2. destruct (Hh1 Hw Hl1) as [_ Hw1]. by destruct (Hh2 Hw1 Hl2). }
  unfold QueuePair.qp_num. rewrite bind_gets, try_as_bind.
  assert (Verbs.qp_num w2 (QueuePair.inner_qp self) = Verbs.qp_num w q) as ->.
  { destruct Ho1 as (_ & <- & _). by destruct Ho2 as (_ & <- & _). }
  destruct (modify_spec q a3' m3 e3 w2 v2 Hr2) as ([[]|e] & w3 & H3 & Ho3 & Hr3 & Hh3);
    rewrite (bind_done _ _ _ _ _ H3); eexists _, _; (split; [done|]);
    (split; [by eapply only_qp_trans; [|eapply only_qp_trans]|]).
  - split; [done|]. intros Hw Hl1 Hl2 Hl3. destruct (Hh1 Hw Hl1) as [_ Hw1].
    destruct (Hh2 Hw1 Hl2) as [_ Hw2]. by apply Hh3.
  - split; [by right; right|]. intros Hw Hl1 Hl2 Hl3. destruct (Hh1 Hw Hl1) as [_ Hw1].
    destruct (Hh2 Hw1 Hl2) as [_ Hw2]. by destruct (Hh3 Hw2 Hl3).
Qed.

(** ** Reliable connections *)
Definition rc_av (self : QueuePair.QueuePair C) (lid : Z) (gid : ib_gid) : ah_attr :=
  match feat with kernel => rc_av_kernel self lid gid | user => rc_av_user self lid gid end.

(** The attributes of a connected queue pair: all from its own configuration but
    the peer's number and sequence number, and its own number, with which its
    send sequence starts. *)
Definition rc_ready (self : QueuePair.QueuePair C) (lid : Z) (gid : ib_gid)
  (remote_qpn rq_psn num : Z) (old : ib_qp_attr) : ib_qp_attr :=
  mkQpAttr IB_QPS_RTS (QueuePair.path_mtu self) (Verbs.qkey old) rq_psn num remote_qpn
    (QueuePair.access self) (QueuePair.pkey_index self) (QueuePair.port_num self)
    (QueuePair.timeout self) (QueuePair.retry_count self) (QueuePair.rnr_retry self)
    (QueuePair.max_rd_atomic self) (QueuePair.max_rd_atomic self) (QueuePair.min_rnr_timer self)
    (rc_av self lid gid).

Definition in_state (w : W) (q : ptr) (s : ib_qp_state) : Prop :=
  exists v, qp_view w q = Some v /\ qp_state (qi_attr v) = s.

(** The result of a bring-up that starts in RESET. *)
Definition rc_outcome (self : QueuePair.QueuePair C) lid gid remote_qpn rq_psn (w w' : W) v
  (r : Result ControlpathError unit) : Prop :=
  let q := QueuePair.inner_qp self in
  match r with
  | Ok _ =>
      qp_view w' q = Some (mkQpInfo (qi_init v)
        (rc_ready self lid gid remote_qpn rq_psn (Verbs.qp_num w q) (qi_attr v)))
  | Err e =>
      (in_state w' q IB_QPS_RESET /\
         ((exists n, n <> 0 /\ e = QueryError "QP status" (from_kernel_errno n)) \/
          fails_with "bringRC INIT error" e)) \/
      (in_state w' q IB_QPS_INIT /\ fails_with "bring RC RTR error" e) \/
      (in_state w' q IB_QPS_RTR /\ fails_with "bring RC RTS error" e)
  end.

(** The end of a bring-up proof, from the specification of its three steps. *)
Ltac finish_bring_up Hrun :=
  lazymatch type of Hrun with
  | _ = Done (?r, ?w') =>
      rewrite Hrun; exists r, w'; split; [done|]; split; [by eapply only_qp_trans|]; split;
      [destruct r as [[]|e];
       [match goal with Hr : qp_view w' _ = Some (modified _ _ _) |- _ => rewrite Hr end;
        match goal with Hnum : Verbs.qp_num _ ?q = _ |- _ => try fold q; by rewrite Hnum end
       |match goal with Hr : _ \/ _ |- _ => destruct Hr as [[? ?]|[[? ?]|[? ?]]] end;
        [left; split; [by eexists|by right]|right; left|right; right]; (split; [by eexists|done])]
      |intros Hw Ht;
       match goal with Hh0 : healthy _ -> is_Ok _ = true /\ healthy _ |- _ => destruct (Hh0 Hw) as [_ Hw0] end;
       match goal with
       | Hh : healthy _ -> legal _ _ _ -> _, Hst : qp_state _ = _ |- _ =>
           apply Hh; [done|..]; unfold legal; rewrite ?Hst; simpl; rewrite Ht; done
       end]
  end.

Lemma bring_up_rc_inner_spec (self : QueuePair.QueuePair C) lid gid remote_qpn rq_psn w v :
  let q := QueuePair.inner_qp self in
  QueuePair.mode self = RC -> qp_view w q = Some v -> qp_state (qi_attr v) = IB_QPS_RESET ->
  exists r w', bring_up_rc_inner self lid gid remote_qpn rq_psn w = Done (r, w') /\
    only_qp q w w' /\ rc_outcome self lid gid remote_qpn rq_psn w w' v r /\
    (healthy w -> init_qp_type (qi_init v) = IB_QPT_RC -> r = Ok () /\ healthy w').
Proof.
  intros q Hmode Hv Hst.
  destruct (status_spec self w v Hv) as (r0 & w0 & H0 & Ho0 & Hv0 & Hh0 & Hr0).
  assert (Hnum : Verbs.qp_num w0 q = Verbs.qp_num w q) by apply Ho0.
  unfold bring_up_rc_inner, rc_outcome, rc_ready, rc_av.
  destruct feat;
    [unfold bring_up_rc_inner_kernel|unfold bring_up_rc_inner_user];
    rewrite bool_decide_false by (intros Hn; by apply Hn);
    rewrite try_as_bind, (bind_done _ _ _ _ _ H0);
    (destruct r0 as [s|e];
     [subst s; rewrite Hst, bool_decide_true by done
     |eexists _, _; split; [done|]; split; [done|]; split;
      [left; split; [by exists v|by left]|intros Hw; by destruct (Hh0 Hw)]]).
  - destruct (three_steps_spec self (rc_init_attr self)
      [IB_QP_STATE; IB_QP_PKEY_INDEX; IB_QP_PORT; IB_QP_ACCESS_FLAGS] "bringRC INIT error"
      (rc_rtr_attr self (rc_av_kernel self lid gid) remote_qpn rq_psn)
      [IB_QP_STATE; IB_QP_AV; IB_QP_PATH_MTU; IB_QP_DEST_QPN; IB_QP_RQ_PSN;
       IB_QP_MAX_DEST_RD_ATOMIC; IB_QP_MIN_RNR_TIMER] "bring RC RTR error"
      (rc_rts_attr self)
      [IB_QP_STATE; IB_QP_TIMEOUT; IB_QP_RETRY_CNT; IB_QP_RNR_RETRY; IB_QP_SQ_PSN;
       IB_QP_MAX_QP_RD_ATOMIC] "bring RC RTS error" w0 v Hv0) as (r & w' & Hrun & Ho & Hr & Hh).
    finish_bring_up Hrun.
  - destruct (three_steps_spec self (rc_init_attr self)
      [IB_QP_STATE; IB_QP_PKEY_INDEX; IB_QP_PORT; IB_QP_ACCESS_FLAGS] "bringRC INIT error"
      (rc_rtr_attr self (rc_av_user self lid gid) remote_qpn rq_psn)
      [IB_QP_STATE; IB_QP_AV; IB_QP_PATH_MTU; IB_QP_DEST_QPN; IB_QP_RQ_PSN;
       IB_QP_MAX_DEST_RD_ATOMIC; IB_QP_MIN_RNR_TIMER] "bring RC RTR error"
      (fun n => with_max_dest_rd_atomic (QueuePair.max_rd_atomic self) (rc_rts_attr self n))
      [IB_QP_STATE; IB_QP_TIMEOUT; IB_QP_RETRY_CNT; IB_QP_RNR_RETRY; IB_QP_SQ_PSN;
       IB_QP_MAX_QP_RD_ATOMIC] "bring RC RTS error" w0 v Hv0) as (r & w' & Hrun & Ho & Hr & Hh).
    finish_bring_up Hrun.
Qed.

(** A queue pair that has left RESET is taken for one that is up. *)
Lemma bring_up_rc_inner_idle (self : QueuePair.QueuePair C) lid gid remote_qpn rq_psn w v :
  let q := QueuePair.inner_qp self in
  QueuePair.mode self = RC -> qp_view w q = Some v -> qp_state (qi_attr v) <> IB_QPS_RESET ->
  exists r w', bring_up_rc_inner self lid gid remote_qpn rq_psn w = Done (r, w') /\
    only_qp q w w' /\ qp_view w' q = Some v /\ (healthy w -> r = Ok () /\ healthy w').
Proof.
  intros q Hmode Hv Hst.
  destruct (status_spec self w v Hv) as (r0 & w0 & H0 & Ho0 & Hv0 & Hh0 & Hr0).
  exists (match r0 with Ok _ => Ok () | Err e => Err e end), w0.
  unfold bring_up_rc_inner, bring_up_rc_inner_kernel, bring_up_rc_inner_user.
  assert (Hs : forall s, r0 = Ok s -> s <> Reset).
  { intros s ->. rewrite Hr0. by destruct (qp_state (qi_attr v)). }
  split; [|split; [done|]; split; [done|]; intros Hw; destruct (Hh0 Hw); by destruct r0].
  destruct feat; rewrite bool_decide_false by (intros Hn; by apply Hn);
    rewrite try_as_bind, (bind_done _ _ _ _ _ H0); (destruct r0 as [s|e]; [|done]);
    by rewrite bool_decide_false by by apply Hs.
Qed.

(** ** Unreliable datagrams *)
Definition ud_ready (self : Builder.PreparedQueuePair C) (num : Z) (old : ib_qp_attr) : ib_qp_attr :=
  mkQpAttr IB_QPS_RTS (Verbs.path_mtu old) (Builder.p_qkey self) (Verbs.rq_psn old) num
    (Verbs.dest_qp_num old) (Verbs.qp_access_flags old) (Builder.p_pkey_index self)
    (Builder.p_port_num self) (Verbs.timeout old) (Verbs.retry_cnt old) (Verbs.rnr_retry old)
    (Verbs.max_rd_atomic old) (Verbs.max_dest_rd_atomic old) (Verbs.min_rnr_timer old)
    (Verbs.av old).

Definition ud_outcome (self : Builder.PreparedQueuePair C) (w w' : W) v
  (r : Result ControlpathError unit) : Prop :=
  let q := QueuePair.inner_qp (Builder.inner self) in
  match r with
  | Ok _ => qp_view w' q =
      Some (mkQpInfo (qi_init v) (ud_ready self (Verbs.qp_num w q) (qi_attr v)))
  | Err e =>
      (in_state w' q IB_QPS_RESET /\
         ((exists n, n <> 0 /\ e = QueryError "QP status" (from_kernel_errno n)) \/
          fails_with "bring UD INIT error" e)) \/
      (in_state w' q IB_QPS_INIT /\ fails_with "bring UD RTR error" e) \/
      (in_state w' q IB_QPS_RTR /\ fails_with "bring UD RTS error" e)
  end.

Lemma bring_up_ud_steps_spec (self : Builder.PreparedQueuePair C) w v :
  let q := QueuePair.inner_qp (Builder.inner self) in
  QueuePair.mode (Builder.inner self) = UD -> qp_view w q = Some v ->
  qp_state (qi_attr v) = IB_QPS_RESET ->
  exists r w', bring_up_ud_steps self w = Done (r, w') /\
    only_qp q w w' /\ ud_outcome self w w' v r /\
    (healthy w -> init_qp_type (qi_init v) = IB_QPT_UD -> r = Ok () /\ healthy w').
Proof.
  intros q Hmode Hv Hst.
  destruct (status_spec (Builder.inner self) w v Hv) as (r0 & w0 & H0 & Ho0 & Hv0 & Hh0 & Hr0).
  assert (Hnum : Verbs.qp_num w0 q = Verbs.qp_num w q) by apply Ho0.
  unfold bring_up_ud_steps, ud_outcome, ud_ready.
  rewrite bool_decide_false by (intros Hn; by apply Hn).
  rewrite try_as_bind, (bind_done _ _ _ _ _ H0). destruct r0 as [s|e].
  - subst s. rewrite Hst, bool_decide_true by done.
    destruct (three_steps_spec (Builder.inner self)
      (default_qp_attr |> with_qp_state IB_QPS_INIT |> with_pkey_index (Builder.p_pkey_index self)
         |> with_port_num (Builder.p_port_num self) |> with_qkey (Builder.p_qkey self))
      [IB_QP_STATE; IB_QP_PKEY_INDEX; IB_QP_PORT; IB_QP_QKEY] "bring UD INIT error"
      (default_qp_attr |> with_qp_state IB_QPS_RTR) [IB_QP_STATE] "bring UD RTR error"
      (fun n => default_qp_attr |> with_qp_state IB_QPS_RTS |> with_sq_psn n)
      [IB_QP_STATE; IB_QP_SQ_PSN] "bring UD RTS error" w0 v Hv0) as (r & w' & Hrun & Ho & Hr & Hh).
    finish_bring_up Hrun.
  - eexists _, _. split; [done|]. split; [done|].
    split; [left; split; [by exists v|by left]|intros Hw; by destruct (Hh0 Hw)].
Qed.

(** ** A bring-up in which an error drops the queue pair *)
Lemma or_drop_spec (qp : QueuePair.QueuePair C) (steps : M W (Result ControlpathError unit)) w r w1 :
  steps w = Done (r, w1) -> only_qp (QueuePair.inner_qp qp) w w1 -> exclusive w qp ->
  QueuePair.comm qp = None ->
  exists w', Builder.try_or steps (QueuePair.drop qp) (fun _ => mret (Ok qp)) w =
      Done (match r with Ok _ => Ok qp | Err e => Err e end, w') /\
    match r with
    | Ok _ => w' = w1
    | Err _ => live w' = live w ∖ owned qp /\ qp_view w' (QueuePair.inner_qp qp) = None /\
               (forall q, q <> QueuePair.inner_qp qp -> qp_view w' q = qp_view w q)
    end.
Proof.
  intros Hrun (Hl & _ & Ho) Hx Hc. unfold Builder.try_or. rewrite (bind_done _ _ _ _ _ Hrun).
  destruct r as [[]|e]; [by eexists|].
  destruct (qp_drop_spec qp w1) as (w2 & H2 & Hl2 & _ & Hq & Hv); [by eapply exclusive_frame|done|].
  rewrite (bind_done _ _ _ _ _ H2). eexists. split; [done|]. split; [by rewrite Hl2, Hl|].
  split; [done|]. intros q Hne. by rewrite Hv, Ho.
Qed.

(** What a builder and a bring-up leave behind: a queue pair with everything it
    owns new, shared with no other, and the others as they were. *)
Definition fresh_qp (w w' : W) (qp : QueuePair.QueuePair C) : Prop :=
  QueuePair.comm qp = None /\ owned qp ## live w /\ live w' = owned qp ∪ live w /\ exclusive w' qp /\
  qp_view w (QueuePair.inner_qp qp) = None /\
  (forall q, q <> QueuePair.inner_qp qp -> qp_view w' q = qp_view w q).

Lemma fresh_qp_drop w w' qp :
  fresh_qp w w' qp ->
  exists w'', QueuePair.drop qp w' = Done ((), w'') /\ live w'' = live w /\ same_qps qp_view w w''.
Proof.
  intros (Hc & Hd & Hl & Hx & Hn & Ho).
  destruct (qp_drop_spec qp w' Hx Hc) as (w'' & Hr & Hl' & _ & Hq & Hv). exists w''.
  split; [done|]. split; [rewrite Hl', Hl; clear -Hd; set_solver|].
  intros q. destruct (decide (q = QueuePair.inner_qp qp)) as [->|Hne]; [congruence|].
  by rewrite Hv, Ho.
Qed.

(** Building and bringing up, as one resource balance. *)
Lemma end_to_end (b : Builder.QueuePairBuilder) t m
  (build : M W (Result ControlpathError (Builder.PreparedQueuePair C)))
  (steps : Builder.PreparedQueuePair C -> M W (Result ControlpathError unit))
  (ready : Builder.PreparedQueuePair C -> W -> W -> qp_info -> Prop) (w : W) :
  (exists r w', build w = Done (r, w') /\ (healthy w -> healthy w' /\ is_Ok r = true) /\
     build_post w w' t m b r) ->
  (forall pq w1 init, QueuePair.mode (Builder.inner pq) = m -> init_qp_type init = t ->
     qp_view w1 (QueuePair.inner_qp (Builder.inner pq)) = Some (reset_info init) ->
     exists r w', steps pq w1 = Done (r, w') /\
       only_qp (QueuePair.inner_qp (Builder.inner pq)) w1 w' /\
       (is_Ok r = true -> ready pq w1 w' (reset_info init)) /\
       (healthy w1 -> is_Ok r = true /\ healthy w')) ->
  exists r w',
    (pq ←? build;
     Builder.try_or (steps pq) (QueuePair.drop (Builder.inner pq))
       (fun _ => mret (Ok (Builder.inner pq)))) w = Done (r, w') /\
    (healthy w -> is_Ok r = true /\ healthy w') /\
    match r with
    | Err _ => live w' = live w /\ same_qps qp_view w w'
    | Ok qp =>
        (exists pq w1 init, qp = Builder.inner pq /\ init_qp_type init = t /\ refers_own init qp /\
           (m <> DC -> QueuePair.srq qp = None) /\ (exists p send recv srq, pq = built b p send recv m srq) /\
           ready pq w1 w' (reset_info init)) /\
        fresh_qp w w' qp
    end.
Proof.
  intros (r1 & w1 & H1 & Hh1 & Hp1) Hsteps. rewrite try_as_bind, (bind_done _ _ _ _ _ H1).
  destruct r1 as [pq|e].
  2: { eexists _, _. split; [done|]. split; [|done]. intros Hw. by destruct (Hh1 Hw). }
  destruct Hp1 as (Hbuilt & Hsrq & Hd & Hl & Hx & Hn & Hv0 & init & Ht & Hown & Hv).
  destruct (Hsteps pq w1 init) as (r2 & w2 & H2 & Ho & Hr & Hh); [|done..|].
  { by destruct Hbuilt as (? & ? & ? & ? & ->). }
  assert (Hc : QueuePair.comm (Builder.inner pq) = None) by by destruct Hbuilt as (? & ? & ? & ? & ->).
  destruct (or_drop_spec (Builder.inner pq) (steps pq) w1 r2 w2 H2 Ho Hx Hc) as (w3 & H3 & Hl3).
  rewrite H3. eexists _, _. split; [done|]. split.
  { intros Hw. destruct (Hh1 Hw) as [Hw1 _]. destruct (Hh Hw1) as [Hok Hw2]. destruct r2; [|done].
    by subst w3. }
  destruct r2 as [[]|e].
  - subst w3. split; [by exists pq, w1, init; auto 8|]. destruct Ho as (Hl2 & _ & Ho).
    split; [done|]. split; [done|]. split; [by rewrite Hl2|]. split; [by eapply exclusive_frame|].
    split; [done|]. intros q Hne. by rewrite Ho, Hv0.
  - destruct Hl3 as (Hl3 & Hq3 & Hv3). split; [rewrite Hl3, Hl; clear -Hd; set_solver|].
    intros q. destruct (decide (q = QueuePair.inner_qp (Builder.inner pq))) as [->|Hne]; [congruence|].
    by rewrite Hv3, Hv0.
Qed.

(** ** Dynamically connected queue pairs *)
Definition dc_ready (self : Builder.PreparedQueuePair C) (old : ib_qp_attr) : ib_qp_attr :=
  let qp := Builder.inner self in
  mkQpAttr IB_QPS_RTS (QueuePair.path_mtu qp) (Verbs.qkey old) (Verbs.rq_psn old)
    (Verbs.sq_psn old) (Verbs.dest_qp_num old) (Verbs.qp_access_flags old)
    (Builder.p_pkey_index self) (Builder.p_port_num self) (QueuePair.timeout qp)
    (Builder.p_retry_count self) (Builder.p_rnr_retry self) (QueuePair.max_rd_atomic qp)
    (Verbs.max_dest_rd_atomic old) (Verbs.min_rnr_timer old)
    (mkAh (Builder.p_port_num self) 0 0 0 default_gid 0 0 0).

(** A step of the DC sequence: the status is read, and the modification made
    because the state is the expected one. *)
Lemma dc_step {A} (qp : QueuePair.QueuePair C) st a m what
  (k : M W (Result ControlpathError A)) w v :
  let q := QueuePair.inner_qp qp in
  qp_view w q = Some v -> status_of (qp_state (qi_attr v)) = st ->
  exists w1,
    only_qp q w w1 /\
    ((exists e, (s ←? QueuePair.status qp;
                _ ←? (if bool_decide (s = st) then modify q a m what else mret (Ok ()));
                k) w = Done (Err e, w1)) \/
     (qp_view w1 q = Some (modified m a v) /\
      (s ←? QueuePair.status qp;
       _ ←? (if bool_decide (s = st) then modify q a m what else mret (Ok ()));
       k) w = k w1)).
Proof.
  intros q Hv Hst. destruct (status_spec qp w v Hv) as (r0 & w0 & H0 & Ho0 & Hv0 & _ & Hr0).
  rewrite try_as_bind, (bind_done _ _ _ _ _ H0).
  destruct r0 as [s|e]; [|exists w0; split; [done|]; left; by exists e].
  subst s. rewrite Hst, bool_decide_true by done.
  destruct (modify_spec q a m what w0 v Hv0) as (r1 & w1 & H1 & Ho1 & Hr1 & _).
  rewrite try_as_bind, (bind_done _ _ _ _ _ H1). exists w1.
  split; [by eapply only_qp_trans|]. destruct r1 as [[]|e]; [by right|left; by exists e].
Qed.

Lemma bring_up_dc_steps_spec (self : Builder.PreparedQueuePair C) w v :
  let q := QueuePair.inner_qp (Builder.inner self) in
  QueuePair.mode (Builder.inner self) = DC -> qp_view w q = Some v ->
  qp_state (qi_attr v) = IB_QPS_RESET ->
  exists r w', bring_up_dc_steps self w = Done (r, w') /\ only_qp q w w' /\
    (is_Ok r = true -> qp_view w' q = Some (mkQpInfo (qi_init v) (dc_ready self (qi_attr v)))).
Proof.
  intros q Hmode Hv Hst. unfold bring_up_dc_steps.
  rewrite bool_decide_false by (intros Hn; by apply Hn).
  match goal with
  | |- context [try_bind (QueuePair.status _) (fun s => try_bind (if bool_decide (s = Reset) then modify _ ?a ?m ?e else _) (fun _ => ?k))] =>
      destruct (dc_step (Builder.inner self) Reset a m e k w v Hv) as (w1 & Ho1 & [[e1 ->]|[Hv1 ->]])
  end; [by rewrite Hst|by eexists _, _|].
  match goal with
  | |- context [try_bind (QueuePair.status _) (fun s => try_bind (if bool_decide (s = Init) then modify _ ?a ?m ?e else _) (fun _ => ?k))] =>
      destruct (dc_step (Builder.inner self) Init a m e k w1 _ Hv1) as (w2 & Ho2 & [[e2 ->]|[Hv2 ->]])
  end; [done|eexists _, _; split; [done|]; split; [by eapply only_qp_trans|done]|].
  destruct (status_spec (Builder.inner self) w2 _ Hv2) as (r0 & w3 & H3 & Ho3 & Hv3 & _ & Hr0).
  assert (Ho : only_qp q w w3) by (eapply only_qp_trans; [exact Ho1|by eapply only_qp_trans]).
  rewrite try_as_bind, (bind_done _ _ _ _ _ H3). destruct r0 as [s|e]; [|by eexists _, _].
  subst s. rewrite bool_decide_true by done.
  match goal with
  | |- context [modify _ ?a ?m ?e] =>
      destruct (modify_spec q a m e w3 _ Hv3) as (r & w4 & H4 & Ho4 & Hr & _)
  end.
  unfold q in H4. rewrite H4. eexists _, _. split; [done|]. split; [by eapply only_qp_trans|].
  by destruct r as [[]|].
Qed.

End steps.

(** Bringing up a reliable connection whose queue pair is in RESET, in either
    build: no other queue pair and no resource is touched; a success leaves the
    queue pair in RTS with exactly the configured attributes, the peer's number
    and sequence number, and its own number as first send sequence number; an
    error names the step that failed and leaves the state before that step; and
    a driver that accepts every transition the verbs specification allows
    accepts this sequence, so it succeeds. *)
Theorem bring_up_rc_inner_correct {W C : Type}
  `{!Cfg, !DeviceOps W, !QueueOps W, !DataOps W, !VerbsLaws W, !Peer W C}
  (self : QueuePair.QueuePair C) lid gid remote_qpn rq_psn (w : W) v :
  QueuePair.mode self = RC -> qp_view w (QueuePair.inner_qp self) = Some v ->
  qp_state (qi_attr v) = IB_QPS_RESET ->
  exists r w', bring_up_rc_inner self lid gid remote_qpn rq_psn w = Done (r, w') /\
    only_qp (QueuePair.inner_qp self) w w' /\
    rc_outcome self lid gid remote_qpn rq_psn w w' v r /\
    (healthy w -> init_qp_type (qi_init v) = IB_QPT_RC -> r = Ok () /\ healthy w').
Proof. apply bring_up_rc_inner_spec. Qed.

(** The peer of a queue pair that never connects. *)
#[export] Instance no_peer {W} : Peer W Empty_set := {| release_peer (c : Empty_set) := match c with end |}.

Definition sample_builder : Builder.QueuePairBuilder :=
  Builder.allow_remote_rw (Builder.new (Context.mkContext (Device.mkDevice 9) 4 5 6)).
Definition sample_qp : QueuePair.QueuePair Empty_set :=
  Builder.inner (built sample_builder 3
    (CompletionQueue.mkCQ (Builder.ctx sample_builder) 1)
    (CompletionQueue.mkCQ (Builder.ctx sample_builder) 2) RC None).
Definition sample_init : ib_qp_init_attr := mkQpInit (mkCap 128 2048 1 1 64) IB_QPT_RC 1 2 0.
(** A queue pair shares its queues with no other when it is the only one. *)
Lemma alone_exclusive {C} (qp : QueuePair.QueuePair C) v :
  exclusive (set_qps {[QueuePair.inner_qp qp := v]} sim_init) qp.
Proof.
  intros r q u _ Hq Hu. exfalso. apply Hq.
  change (({[QueuePair.inner_qp qp := v]} : gmap Z qp_info) !! q = Some u) in Hu.
  by apply lookup_singleton_Some in Hu as [? _].
Qed.

(** A driver whose second modification fails with ENOMEM. *)
Definition sample_world : sim :=
  set_qps {[3 := reset_info sample_init]} (sim_faulty [0; 0; 12]).

Lemma bring_up_rc_inner_correct_witness :
  exists r w', @bring_up_rc_inner sim Empty_set user_cfg _ sample_qp 7 (mkGid 1 2) 77 78 sample_world
      = Done (r, w') /\
    only_qp 3 sample_world w' /\
    @rc_outcome _ _ user_cfg _ _ sample_qp 7 (mkGid 1 2) 77 78 sample_world w' (reset_info sample_init) r /\
    (healthy sample_world -> IB_QPT_RC = IB_QPT_RC -> r = Ok () /\ healthy w').
Proof.
  exact (@bring_up_rc_inner_correct sim Empty_set user_cfg _ _ _ _ _ sample_qp 7 (mkGid 1 2) 77 78
    sample_world (reset_info sample_init) eq_refl eq_refl eq_refl).
Defined.

(** The attributes of a connected queue pair in terms of the builder's fields. *)
Definition rc_configured `{!Cfg} (b : Builder.QueuePairBuilder) (lid : Z) (gid : ib_gid)
  (remote_qpn rq_psn num : Z) : ib_qp_attr :=
  mkQpAttr IB_QPS_RTS (Builder.path_mtu b) 0 rq_psn num remote_qpn (Builder.access b)
    (Builder.pkey_index b) (Builder.port_num b) (Builder.timeout b) (Builder.retry_count b)
    (Builder.rnr_retry b) (Builder.max_rd_atomic b) (Builder.max_rd_atomic b)
    (Builder.min_rnr_timer b)
    match feat with
    | kernel => mkAh (Builder.port_num b) lid 0 0 gid 0 0 255
    | user => mkAh (Builder.port_num b) (u16 lid) 0 1 gid 0 0 255
    end.

Lemma rc_connect_spec {W C : Type}
  `{!Cfg, !DeviceOps W, !QueueOps W, !DataOps W, !VerbsLaws W, !Peer W C}
  (b : Builder.QueuePairBuilder) lid gid remote_qpn rq_psn (w : W) :
  exists r w',
    (pq ←? Builder.build_rc (C := C) b; bring_up_rc pq lid gid remote_qpn rq_psn) w = Done (r, w') /\
    (healthy w -> is_Ok r = true /\ healthy w') /\
    match r with
    | Err _ => live w' = live w /\ same_qps qp_view w w'
    | Ok qp =>
        let q := QueuePair.inner_qp qp in
        (exists init, init_qp_type init = IB_QPT_RC /\ refers_own init qp /\
           qp_view w' q = Some (mkQpInfo init
             (rc_configured b lid gid remote_qpn rq_psn (Verbs.qp_num w' q)))) /\
        fresh_qp w w' qp /\ QueuePair.ctx qp = Builder.ctx b /\ QueuePair.mode qp = RC /\
        QueuePair.srq qp = None /\ QueuePair.port_num qp = Builder.port_num b
    end.
Proof.
  destruct (end_to_end b IB_QPT_RC RC (Builder.build_rc b)
    (fun pq => bring_up_rc_inner (Builder.inner pq) lid gid remote_qpn rq_psn)
    (fun pq w1 w' v => let q := QueuePair.inner_qp (Builder.inner pq) in
       rc_outcome (Builder.inner pq) lid gid remote_qpn rq_psn w1 w' v (Ok ()) /\
       Verbs.qp_num w' q = Verbs.qp_num w1 q) w) as (r & w' & Hrun & Hh & Hr).
  - apply build_rc_spec.
  - intros pq w1 init Hm Ht Hv.
    destruct (bring_up_rc_inner_spec (Builder.inner pq) lid gid remote_qpn rq_psn w1 _ Hm Hv eq_refl)
      as (r & w' & Hrun & Ho & Hout & Hh).
    exists r, w'. split; [done|]. split; [done|]. split.
    + destruct r as [[]|]; [|done]. intros _. split; [done|]. apply Ho.
    + intros Hw. by destruct (Hh Hw Ht) as [-> ?].
  - exists r, w'. split; [exact Hrun|]. split; [done|]. destruct r as [qp|e]; [|done].
    destruct Hr as [(pq & w1 & init & -> & Ht & Hown & Hsrq & (p & send & recv & srq & ->) & Hv & Hn) Hd].
    split; [|by split_and!; [done..|apply Hsrq|done]]. exists init. split; [done|]. split; [done|]. simpl in *. rewrite Hv, Hn.
    unfold rc_ready, rc_configured, rc_av, rc_av_kernel, rc_av_user. by destruct feat, gid.
Qed.

(** The same in two steps, for code that acts between them. *)
Lemma rc_connect_split {W C : Type}
  `{!Cfg, !DeviceOps W, !QueueOps W, !DataOps W, !VerbsLaws W, !Peer W C}
  (b : Builder.QueuePairBuilder) lid gid remote_qpn rq_psn (w : W) :
  exists r1 w1, Builder.build_rc (C := C) b w = Done (r1, w1) /\ (healthy w -> is_Ok r1 = true) /\
    match r1 with
    | Err _ => live w1 = live w /\ same_qps qp_view w w1
    | Ok pq => QueuePair.comm (Builder.inner pq) = None /\
        exists r w', bring_up_rc pq lid gid remote_qpn rq_psn w1 = Done (r, w') /\
          (healthy w -> is_Ok r = true /\ healthy w') /\
          match r with
          | Err _ => live w' = live w /\ same_qps qp_view w w'
          | Ok qp =>
              let q := QueuePair.inner_qp qp in
              (exists init, refers_own init qp /\
                 qp_view w' q = Some (mkQpInfo init
                   (rc_configured b lid gid remote_qpn rq_psn (Verbs.qp_num w' q)))) /\
              fresh_qp w w' qp /\ QueuePair.ctx qp = Builder.ctx b /\ QueuePair.srq qp = None /\
              QueuePair.port_num qp = Builder.port_num b
          end
    end.
Proof.
  destruct (build_rc_spec (C := C) b w) as (r1 & w1 & H1 & Hh1 & Hp1).
  destruct (rc_connect_spec (C := C) b lid gid remote_qpn rq_psn w) as (r & w' & Hrun & Hh & Hr).
  rewrite try_as_bind, (bind_done _ _ _ _ _ H1) in Hrun.
  exists r1, w1. split; [done|]. split; [apply Hh1|]. destruct r1 as [pq|e]; [|apply Hp1].
  destruct Hp1 as [(p & send & recv & srq & ->) _]. split; [done|]. exists r, w'. split; [exact Hrun|].
  split; [exact Hh|]. destruct r as [qp|e]; [|exact Hr].
  destruct Hr as ((init & _ & Hown & Hv) & Hf & Hctx & _ & Hsrq & Hport). split; [by exists init|].
  by split_and!.
Qed.


(** The same for unreliable datagrams: the queue pair ends in RTS with the
    builder's partition key, port and Q_Key and its own number as first send
    sequence number. *)
Theorem ud_end_to_end {W C : Type}
  `{!Cfg, !DeviceOps W, !QueueOps W, !DataOps W, !VerbsLaws W, !Peer W C}
  (b : Builder.QueuePairBuilder) (w : W) :
  exists r w',
    (pq ←? Builder.build_ud (C := C) b; bring_up_ud pq) w = Done (r, w') /\
    (healthy w -> is_Ok r = true) /\
    match r with
    | Err _ => live w' = live w
    | Ok qp =>
        let q := QueuePair.inner_qp qp in
        (exists init, init_qp_type init = IB_QPT_UD /\
           qp_view w' q = Some (mkQpInfo init
             (default_qp_attr |> with_qp_state IB_QPS_RTS |> with_pkey_index (Builder.pkey_index b)
                |> with_port_num (Builder.port_num b) |> with_qkey (Builder.qkey b)
                |> with_sq_psn (Verbs.qp_num w' q)))) /\
        exists w'', QueuePair.drop qp w' = Done ((), w'') /\ live w'' = live w
    end.
Proof.
  destruct (end_to_end b IB_QPT_UD UD (Builder.build_ud b) bring_up_ud_steps
    (fun pq w1 w' v => let q := QueuePair.inner_qp (Builder.inner pq) in
       ud_outcome pq w1 w' v (Ok ()) /\ Verbs.qp_num w' q = Verbs.qp_num w1 q) w)
    as (r & w' & Hrun & Hh & Hr).
  - apply build_ud_spec.
  - intros pq w1 init Hm Ht Hv.
    destruct (bring_up_ud_steps_spec pq w1 _ Hm Hv eq_refl) as (r & w' & Hrun & Ho & Hout & Hh).
    exists r, w'. split; [done|]. split; [done|]. split.
    + destruct r as [[]|]; [|done]. intros _. split; [done|]. apply Ho.
    + intros Hw. by destruct (Hh Hw Ht) as [-> ?].
  - exists r, w'. split; [exact Hrun|]. split; [apply Hh|]. destruct r as [qp|e]; [|by destruct Hr].
    destruct Hr as [(pq & w1 & init & -> & Ht & _ & _ & (p & send & recv & srq & ->) & Hv & Hn) Hd].
    split; [|destruct (fresh_qp_drop _ _ _ Hd) as (w'' & ? & ? & _); by exists w'']. exists init. split; [done|]. simpl in *. by rewrite Hv, Hn.
Qed.

(** Bringing up a dynamically connected queue pair from RESET: the three
    steps follow the states the driver reports; a success leaves it in RTS with
    its configured attributes; an error destroys it with all its queues. *)
Theorem bring_up_dc_correct {W C : Type}
  `{!Cfg, !DeviceOps W, !QueueOps W, !DataOps W, !VerbsLaws W, !Peer W C}
  (self : Builder.PreparedQueuePair C) (w : W) v :
  let qp := Builder.inner self in
  QueuePair.mode qp = DC -> qp_view w (QueuePair.inner_qp qp) = Some v ->
  qp_state (qi_attr v) = IB_QPS_RESET -> exclusive w qp -> QueuePair.comm qp = None ->
  exists r w', bring_up_dc self w = Done (r, w') /\
    match r with
    | Ok qp' =>
        qp' = qp /\ live w' = live w /\
        qp_view w' (QueuePair.inner_qp qp) = Some (mkQpInfo (qi_init v) (dc_ready self (qi_attr v)))
    | Err _ => live w' = live w ∖ owned qp
    end.
Proof.
  intros qp Hm Hv Hst Hx Hc.
  destruct (bring_up_dc_steps_spec self w v Hm Hv Hst) as (r & w1 & H1 & Ho & Hr).
  destruct (or_drop_spec qp (bring_up_dc_steps self) w r w1 H1 Ho Hx Hc) as (w2 & H2 & Hl).
  exists (match r with Ok _ => Ok qp | Err e => Err e end), w2. split; [exact H2|].
  destruct r as [[]|]; [|by destruct Hl]. subst w2. split_and!; [done|apply Ho|by apply Hr].
Qed.

Definition sample_dc : Builder.PreparedQueuePair Empty_set :=
  built sample_builder 3
    (CompletionQueue.mkCQ (Builder.ctx sample_builder) 1)
    (CompletionQueue.mkCQ (Builder.ctx sample_builder) 2) DC None.

Lemma bring_up_dc_correct_witness :
  exists r w', bring_up_dc sample_dc sample_world = Done (r, w') /\
    match r with
    | Ok qp' =>
        qp' = Builder.inner sample_dc /\ live w' = live sample_world /\
        qp_view w' 3 = Some (mkQpInfo sample_init (dc_ready sample_dc default_qp_attr))
    | Err _ => live w' = live sample_world ∖ owned (Builder.inner sample_dc)
    end.
Proof.
  apply (@bring_up_dc_correct sim Empty_set user_cfg _ _ _ _ _ sample_dc sample_world
    (reset_info sample_init)); try reflexivity.
  intros r q v _ Hq Hv. exfalso. apply Hq. simpl.
  change (({[3 := reset_info sample_init]} : gmap Z qp_info) !! q = Some v) in Hv.
  by apply lookup_singleton_Some in Hv as [? _].
Defined.
