(* ===== verification/Endpoint.v ===== *)
(** * Datagram endpoints

    [DatagramEndpoint] of src/KRdmaKit/src/queue_pairs/endpoint.rs: an address
    handle with what a sender needs to know of the peer. *)

From S2P Require Import Prelude Errors Verbs Context.

Module Endpoint.
Section endpoint.
Context {W : Type} `{!Cfg, !DeviceOps W}.

(** [dct_num] and [dc_key] exist with the [dct] feature only. *)
Record DatagramEndpoint := mkEndpoint {
  address_handler : Context.AddressHandler; qpn : Z; qkey : Z; lid : Z; gid : ib_gid;
  dct_num : Z; dc_key : Z }.

(** The address handle always uses GID index 0. *)
Definition new (ctx : Context.Context) (local_port_num lid : Z) (gid : ib_gid)
  (qpn qkey dct_num dc_key : Z) : M W (Result ControlpathError DatagramEndpoint) :=
  ah ←? Context.create_address_handler ctx local_port_num 0 lid gid;
  mret (Ok (mkEndpoint ah qpn qkey lid gid dct_num dc_key)).

Definition raw_address_handler_ptr (self : DatagramEndpoint) : ptr :=
  Context.ah_inner (address_handler self).

End endpoint.
End Endpoint.
