(* ===== verification/PostSend.v ===== *)
(** * The data path

    Work requests: src/KRdmaKit/src/queue_pairs/operations_kernel.rs,
    operations_user.rs and [post_recv] of mod.rs.  A function here builds the
    request its source builds and hands it to the driver. *)

From S2P Require Import Prelude Errors Verbs Sim Context MemoryRegion CompletionQueue QueuePair Endpoint.

(** [Range<u64>] and its [size()]: empty when it is inverted. *)
Record Range := mkRange { start : Z; stop : Z }.
Definition size (r : Range) : Z := if start r <? stop r then stop r - start r else 0.

Definition signal_flag (signaled : bool) : list ib_send_flag :=
  if signaled then [IB_SEND_SIGNALED] else [].

Section data.
Context {W C : Type} `{!Cfg, !DeviceOps W, !QueueOps W, !DataOps W}.
Implicit Types self : QueuePair.QueuePair C.

(** [unsafe { mr.get_rdma_addr() } + offset]. *)
Definition rdma_addr_at (mr : MemoryRegion.MemoryRegion) (offset : Z) : M W Z :=
  lift (add_u64 overflow_checks (MemoryRegion.get_rdma_addr mr) offset).

Definition sge_of (mr : MemoryRegion.MemoryRegion) (range : Range) : M W ib_sge :=
  addr ← rdma_addr_at mr (start range);
  lkey ← MemoryRegion.lkey mr;
  mret (mkSge addr (u32 (size range)) lkey).

Definition send_result (err : Z) : Result DatapathError unit :=
  if negb (err =? 0) then Err (PostSendError (from_kernel_errno err)) else Ok ().

Definition post_recv self (mr : MemoryRegion.MemoryRegion) (range : Range) (wr_id : Z) :
  M W (Result DatapathError unit) :=
  sge ← sge_of mr range;
  err ← call (ib_post_recv (QueuePair.inner_qp self) [mkRecvWr wr_id [sge]]);
  mret (if negb (err =? 0) then Err (PostRecvError (from_kernel_errno err)) else Ok ()).

End data.

Module KernelOps.
Section kernel.
Context {W C : Type} `{!Cfg, !DeviceOps W, !QueueOps W, !DataOps W}.
Implicit Types self : QueuePair.QueuePair C.

Definition post_send_inner self (op : ib_wr_opcode) (laddr raddr lkey rkey size imm_data : Z)
  (send_flag : list ib_send_flag) (wr_id : Z) : M W (Result DatapathError unit) :=
  let sge := mkSge laddr size lkey in
  let wr := mkSendWr wr_id op send_flag imm_data [sge] (WrRdma raddr rkey) in
  err ← call (ib_post_send (QueuePair.inner_qp self) [wr]);
  mret (send_result err).

Definition post_send_read self (mr : MemoryRegion.MemoryRegion) (range : Range) (signaled : bool)
  (raddr rkey wr_id : Z) : M W (Result DatapathError unit) :=
  if bool_decide (QueuePair.mode self <> RC) then mret (Err QPTypeError)
  else
    laddr ← rdma_addr_at mr (start range);
    lkey ← MemoryRegion.lkey mr;
    post_send_inner self IB_WR_RDMA_READ laddr raddr lkey rkey (u32 (size range)) 0
      (signal_flag signaled) wr_id.

Definition post_send_write self (mr : MemoryRegion.MemoryRegion) (range : Range) (signaled : bool)
  (raddr rkey wr_id : Z) : M W (Result DatapathError unit) :=
  if bool_decide (QueuePair.mode self <> RC) then mret (Err QPTypeError)
  else
    laddr ← rdma_addr_at mr (start range);
    lkey ← MemoryRegion.lkey mr;
    post_send_inner self IB_WR_RDMA_WRITE laddr raddr lkey rkey (u32 (size range)) 0
      (signal_flag signaled) wr_id.

Definition post_datagram self (endpoint : Endpoint.DatagramEndpoint)
  (mr : MemoryRegion.MemoryRegion) (range : Range) (wr_id : Z) (signaled : bool) :
  M W (Result DatapathError unit) :=
  if bool_decide (QueuePair.mode self <> UD) then mret (Err QPTypeError)
  else
    sge ← sge_of mr range;
    let wr := mkSendWr wr_id IB_WR_SEND (signal_flag signaled) 0 [sge]
                (WrUd (Endpoint.raw_address_handler_ptr endpoint) (Endpoint.qpn endpoint)
                   (Endpoint.qkey endpoint)) in
    err ← call (ib_post_send (QueuePair.inner_qp self) [wr]);
    mret (send_result err).

Definition post_send_send self (mr : MemoryRegion.MemoryRegion) (range : Range) (signaled : bool)
  (raddr rkey wr_id : Z) : M W (Result DatapathError unit) :=
  if bool_decide (QueuePair.mode self <> RC) then mret (Err QPTypeError)
  else
    laddr ← rdma_addr_at mr (start range);
    lkey ← MemoryRegion.lkey mr;
    post_send_inner self IB_WR_SEND laddr raddr lkey rkey (u32 (size range)) 0
      (signal_flag signaled) wr_id.

(** The work request id of a DC request is left zero. *)
Definition post_send_dc_inner self (op : ib_wr_opcode) (endpoint : Endpoint.DatagramEndpoint)
  (laddr raddr lkey rkey size imm_data : Z) (send_flag : list ib_send_flag) :
  M W (Result DatapathError unit) :=
  let sge := mkSge laddr size lkey in
  let wr := mkSendWr 0 op send_flag imm_data [sge]
              (WrDc raddr rkey (Endpoint.raw_address_handler_ptr endpoint)
                 (Endpoint.dc_key endpoint) (Endpoint.dct_num endpoint)) in
  err ← call (ib_post_send (QueuePair.inner_qp self) [wr]);
  mret (send_result err).

Definition post_send_dc_read self (endpoint : Endpoint.DatagramEndpoint)
  (mr : MemoryRegion.MemoryRegion) (range : Range) (signaled : bool) (raddr rkey : Z) :
  M W (Result DatapathError unit) :=
  if bool_decide (QueuePair.mode self <> DC) then mret (Err QPTypeError)
  else
    laddr ← rdma_addr_at mr (start range);
    lkey ← MemoryRegion.lkey mr;
    post_send_dc_inner self IB_WR_RDMA_READ endpoint laddr raddr lkey rkey (u32 (size range)) 0
      (signal_flag signaled).

Definition post_send_dc_write self (endpoint : Endpoint.DatagramEndpoint)
  (mr : MemoryRegion.MemoryRegion) (range : Range) (signaled : bool) (raddr rkey : Z) :
  M W (Result DatapathError unit) :=
  if bool_decide (QueuePair.mode self <> DC) then mret (Err QPTypeError)
  else
    laddr ← rdma_addr_at mr (start range);
    lkey ← MemoryRegion.lkey mr;
    post_send_dc_inner self IB_WR_RDMA_WRITE endpoint laddr raddr lkey rkey (u32 (size range)) 0
      (signal_flag signaled).

End kernel.
End KernelOps.

Module UserOps.
Section user.
Context {W C : Type} `{!Cfg, !DeviceOps W, !QueueOps W, !DataOps W}.
Implicit Types self : QueuePair.QueuePair C.

Definition post_send_inner self (op : ib_wr_opcode) (laddr raddr lkey rkey size imm_data : Z)
  (send_flag : list ib_send_flag) (wr_id : Z) : M W (Result DatapathError unit) :=
  let sge := mkSge laddr size lkey in
  let wr := mkSendWr wr_id op send_flag imm_data [sge] (WrRdma raddr rkey) in
  err ← call (ib_post_send (QueuePair.inner_qp self) [wr]);
  mret (send_result err).

Definition post_send_read self (mr : MemoryRegion.MemoryRegion) (range : Range) (signaled : bool)
  (raddr rkey wr_id : Z) : M W (Result DatapathError unit) :=
  if bool_decide (QueuePair.mode self <> RC) then mret (Err QPTypeError)
  else
    laddr ← rdma_addr_at mr (start range);
    lkey ← MemoryRegion.lkey mr;
    post_send_inner self IB_WR_RDMA_READ laddr raddr lkey rkey (u32 (size range)) 0
      (signal_flag signaled) wr_id.

Definition post_send_write self (mr : MemoryRegion.MemoryRegion) (range : Range) (signaled : bool)
  (raddr rkey wr_id : Z) : M W (Result DatapathError unit) :=
  if bool_decide (QueuePair.mode self <> RC) then mret (Err QPTypeError)
  else
    laddr ← rdma_addr_at mr (start range);
    lkey ← MemoryRegion.lkey mr;
    post_send_inner self IB_WR_RDMA_WRITE laddr raddr lkey rkey (u32 (size range)) 0
      (signal_flag signaled) wr_id.

Definition post_datagram_w_flags self (endpoint : Endpoint.DatagramEndpoint)
  (mr : MemoryRegion.MemoryRegion) (range : Range) (wr_id : Z) (imm_data : option Z)
  (flags : list ib_send_flag) : M W (Result DatapathError unit) :=
  if bool_decide (QueuePair.mode self <> UD) then mret (Err QPTypeError)
  else
    sge ← sge_of mr range;
    let '(opcode, imm) :=
      match imm_data with
      | Some imm => (IB_WR_SEND_WITH_IMM, imm)
      | None => (IB_WR_SEND, 0)
      end in
    let wr := mkSendWr wr_id opcode flags imm [sge]
                (WrUd (Endpoint.raw_address_handler_ptr endpoint) (Endpoint.qpn endpoint)
                   (Endpoint.qkey endpoint)) in
    err ← call (ib_post_send (QueuePair.inner_qp self) [wr]);
    mret (send_result err).

Definition post_datagram self endpoint mr range (wr_id : Z) (signaled : bool) :
  M W (Result DatapathError unit) :=
  post_datagram_w_flags self endpoint mr range wr_id None (signal_flag signaled).

Definition post_datagram_w_imm self endpoint mr range (wr_id imm_data : Z) (signaled : bool) :
  M W (Result DatapathError unit) :=
  post_datagram_w_flags self endpoint mr range wr_id (Some imm_data) (signal_flag signaled).

Definition post_send_atomic_inner self (op : ib_wr_opcode) (laddr raddr lkey rkey : Z)
  (send_flag : list ib_send_flag) (wr_id compare_add swap : Z) : M W (Result DatapathError unit) :=
  let sge := mkSge laddr 8 lkey in
  let wr := mkSendWr wr_id op send_flag 0 [sge] (WrAtomic raddr compare_add swap rkey) in
  err ← call (ib_post_send (QueuePair.inner_qp self) [wr]);
  mret (send_result err).

Definition post_send_cas self (mr : MemoryRegion.MemoryRegion) (offset : Z) (signaled : bool)
  (raddr rkey wr_id old new : Z) : M W (Result DatapathError unit) :=
  if bool_decide (QueuePair.mode self <> RC) then mret (Err QPTypeError)
  else
    laddr ← rdma_addr_at mr offset;
    lkey ← MemoryRegion.lkey mr;
    post_send_atomic_inner self IB_WR_ATOMIC_CMP_AND_SWP laddr raddr lkey rkey
      (signal_flag signaled) wr_id old new.

Definition post_send_faa self (mr : MemoryRegion.MemoryRegion) (offset : Z) (signaled : bool)
  (raddr rkey wr_id val : Z) : M W (Result DatapathError unit) :=
  if bool_decide (QueuePair.mode self <> RC) then mret (Err QPTypeError)
  else
    laddr ← rdma_addr_at mr offset;
    lkey ← MemoryRegion.lkey mr;
    post_send_atomic_inner self IB_WR_ATOMIC_FETCH_AND_ADD laddr raddr lkey rkey
      (signal_flag signaled) wr_id val 0.

Definition bind_mw self (mr : MemoryRegion.MemoryRegion) (mw : MemoryWindow.MemoryWindow)
  (range : Range) (wr_id : Z) (signal : bool) : M W (Result DatapathError unit) :=
  t1 ← MemoryWindow.is_type_1 mw;
  if negb t1 then mret (Err (PostSendError (from_kernel_errno (to_kernel_errno EINVAL))))
  else
    addr ← rdma_addr_at mr (start range);
    let mw_bind :=
      mkMwBind wr_id (signal_flag signal) (MemoryRegion.mr mr) addr (size range)
        [IB_ACCESS_LOCAL_WRITE; IB_ACCESS_REMOTE_READ; IB_ACCESS_REMOTE_WRITE;
         IB_ACCESS_REMOTE_ATOMIC] in
    has ← gets (fun w => has_mw_ops w (Context.raw_ptr (QueuePair.ctx self)));
    if negb has then panic
    else
      err ← call (ibv_bind_mw (QueuePair.inner_qp self) (MemoryWindow.inner_mw mw) mw_bind);
      mret (send_result err).

(** [post_send_wr] and [post_recv_wr]: requests kept by the caller. *)
Definition post_send_wr self (wrs : list (send_wr * option nat)) (first : nat) :
  M W (Result DatapathError unit) :=
  err ← post_chain (QueuePair.inner_qp self) wrs first; mret (send_result err).

Definition post_recv_wr self (wrs : list recv_wr) : M W (Result DatapathError unit) :=
  err ← call (ib_post_recv (QueuePair.inner_qp self) wrs);
  mret (if negb (err =? 0) then Err (PostRecvError (from_kernel_errno err)) else Ok ()).

(** The zeroed request; its opcode 0 is an RDMA write. *)
Definition default_wr : send_wr := mkSendWr 0 IB_WR_RDMA_WRITE [] 0 [] (WrRdma 0 0).

Definition WR_LIST_MAX : nat := 32.

Record batch_item := mkItem {
  i_endpoint : Endpoint.DatagramEndpoint; i_mr : MemoryRegion.MemoryRegion; i_range : Range;
  i_wr_id : Z; i_signal : bool; i_imm : option Z }.

(** The body of the second loop: the request without its scatter list, and the
    local [sge] the scatter list points to. *)
Definition batch_wr (it : batch_item) : M W (send_wr * ib_sge) :=
  sge ← sge_of (i_mr it) (i_range it);
  let '(opcode, imm) :=
    match i_imm it with
    | Some imm => (IB_WR_SEND_WITH_IMM, imm)
    | None => (IB_WR_SEND, 0)
    end in
  mret (mkSendWr (i_wr_id it) opcode (signal_flag (i_signal it)) imm []
          (WrUd (Endpoint.raw_address_handler_ptr (i_endpoint it)) (Endpoint.qpn (i_endpoint it))
             (Endpoint.qkey (i_endpoint it))), sge).

Definition with_sge (wr : send_wr) (sge : ib_sge) : send_wr :=
  mkSendWr (wr_id wr) (wr_opcode wr) (wr_flags wr) (wr_imm wr) [sge] (wr_ext wr).

(** The [next] pointer of entry [i] of [n] (the first loop). *)
Definition batch_next (n i : nat) : option nat := if Nat.eqb i (n - 1) then None else Some (S i).

(** Every [sge] is a local of one loop iteration, and the driver reads them all
    after the loop: [dead sges i] is what the stack slot of iteration [i] then
    holds, [sges] being what the iterations had stored. *)
Definition post_datagram_batch (dead : list ib_sge -> nat -> ib_sge) self (param : list batch_item) :
  M W (Result DatapathError unit) :=
  if bool_decide (QueuePair.mode self <> UD) then mret (Err QPTypeError)
  else
    let num_wr := length param in
    if Nat.ltb WR_LIST_MAX num_wr then mret (Err (PostSendError (from_kernel_errno (-1))))
    else
      filled ← mapM batch_wr param;
      let sges := filled.*2 in
      let wr_list :=
        imap (fun i '(wr, _) => (with_sge wr (dead sges i), batch_next num_wr i)) filled ++
        replicate (WR_LIST_MAX - num_wr) (default_wr, None) in
      err ← post_chain (QueuePair.inner_qp self) wr_list 0;
      mret (send_result err).

End user.
End UserOps.

(** ** Addresses *)
Section bounds.
Context {W C : Type} `{!Cfg, !DeviceOps W, !QueueOps W, !DataOps W}.

(** The range lies in the region, whose addresses do not wrap around, and its
    length has 32 bits. *)
Definition fits (mr : MemoryRegion.MemoryRegion) (range : Range) : Prop :=
  let addr := MemoryRegion.get_rdma_addr mr in
  0 <= addr /\ addr + MemoryRegion.capacity mr < 2 ^ 64 /\
  0 <= start range <= stop range /\ stop range <= MemoryRegion.capacity mr /\
  stop range - start range < 2 ^ 32.

(** The local key the driver has for the region. *)
Definition lkey_of (w : W) (mr : MemoryRegion.MemoryRegion) : Z :=
  match feat with
  | kernel => mr_lkey w (Context.kmr (MemoryRegion.ctx mr))
  | user => mr_lkey w (MemoryRegion.mr mr)
  end.

Definition exact_sge (w : W) (mr : MemoryRegion.MemoryRegion) (range : Range) : ib_sge :=
  mkSge (MemoryRegion.get_rdma_addr mr + start range) (stop range - start range) (lkey_of w mr).

(** Every byte of the entry belongs to the region. *)
Definition in_region (mr : MemoryRegion.MemoryRegion) (sge : ib_sge) : Prop :=
  MemoryRegion.get_rdma_addr mr <= sge_addr sge /\ 0 <= sge_length sge /\
  sge_addr sge + sge_length sge <= MemoryRegion.get_rdma_addr mr + MemoryRegion.capacity mr.

Lemma lkey_run mr (w : W) : MemoryRegion.lkey mr w = Done (lkey_of w mr, w).
Proof. unfold MemoryRegion.lkey, lkey_of, Context.lkey. by destruct feat. Qed.

Lemma rdma_addr_run mr off (w : W) :
  in_width 64 (MemoryRegion.get_rdma_addr mr + off) ->
  rdma_addr_at mr off w = Done (MemoryRegion.get_rdma_addr mr + off, w).
Proof. intros Hw. unfold rdma_addr_at, lift. by rewrite add_u64_small. Qed.

Lemma size_fits mr range : fits mr range -> u32 (size range) = stop range - start range.
Proof.
  intros (_ & _ & [? ?] & _ & ?). unfold size. destruct (Z.ltb_spec (start range) (stop range)).
  - apply wrap_small. unfold in_width. lia.
  - change (u32 0) with 0. lia.
Qed.

Lemma fits_addr mr range : fits mr range -> in_width 64 (MemoryRegion.get_rdma_addr mr + start range).
Proof. intros (? & ? & ? & ? & ?). unfold in_width. lia. Qed.

Lemma exact_sge_in_region w mr range : fits mr range -> in_region mr (exact_sge w mr range).
Proof. intros (? & ? & ? & ? & ?). unfold in_region, exact_sge. simpl. lia. Qed.

Lemma sge_of_run mr range (w : W) : fits mr range -> sge_of mr range w = Done (exact_sge w mr range, w).
Proof.
  intros Hf. unfold sge_of, exact_sge.
  rewrite (bind_done _ _ _ _ _ (rdma_addr_run mr _ w (fits_addr _ _ Hf))).
  rewrite (bind_done _ _ _ _ _ (lkey_run mr w)). by rewrite (size_fits mr).
Qed.

(** Handing one request to the driver. *)
Definition post_one (self : QueuePair.QueuePair C) (wr : send_wr) (w : W) :
  outcome (Result DatapathError unit * W) :=
  let '(err, w') := ib_post_send (QueuePair.inner_qp self) [wr] w in Done (send_result err, w').

Lemma post_rc_run (self : QueuePair.QueuePair C) mr range (w : W) (k : Z -> Z -> M W (Result DatapathError unit)) :
  fits mr range ->
  (laddr ← rdma_addr_at mr (start range); lkey ← MemoryRegion.lkey mr; k laddr lkey) w =
  k (MemoryRegion.get_rdma_addr mr + start range) (lkey_of w mr) w.
Proof.
  intros Hf. rewrite (bind_done _ _ _ _ _ (rdma_addr_run mr _ w (fits_addr _ _ Hf))).
  by rewrite (bind_done _ _ _ _ _ (lkey_run mr w)).
Qed.

End bounds.


Definition sample_mr : MemoryRegion.MemoryRegion :=
  MemoryRegion.mkMR sample_context 4096 8192 false false 5.
Definition sample_rc : QueuePair.QueuePair Empty_set :=
  Builder.inner (built (Builder.new sample_context) 3 (CompletionQueue.mkCQ sample_context 1)
    (CompletionQueue.mkCQ sample_context 2) RC None).
Definition sample_ud : QueuePair.QueuePair Empty_set :=
  Builder.inner (built (Builder.new sample_context) 3 (CompletionQueue.mkCQ sample_context 1)
    (CompletionQueue.mkCQ sample_context 2) UD None).


(** ** Batches of datagrams *)
Section batch.
Context {W C : Type} `{!Cfg, !DeviceOps W, !QueueOps W, !DataOps W}.
Implicit Types self : QueuePair.QueuePair C.

(** The request an item of a batch asks for, with the scatter entry [sge]. *)
Definition item_wr (it : UserOps.batch_item) (sge : ib_sge) : send_wr :=
  mkSendWr (UserOps.i_wr_id it)
    match UserOps.i_imm it with Some _ => IB_WR_SEND_WITH_IMM | None => IB_WR_SEND end
    (signal_flag (UserOps.i_signal it)) (default 0 (UserOps.i_imm it)) [sge]
    (WrUd (Endpoint.raw_address_handler_ptr (UserOps.i_endpoint it))
       (Endpoint.qpn (UserOps.i_endpoint it)) (Endpoint.qkey (UserOps.i_endpoint it))).

Definition item_sge (w : W) (it : UserOps.batch_item) : ib_sge :=
  exact_sge w (UserOps.i_mr it) (UserOps.i_range it).

Definition item_fits (it : UserOps.batch_item) : Prop :=
  fits (W := W) (UserOps.i_mr it) (UserOps.i_range it).

Definition post_list self (wrs : list send_wr) (w : W) : outcome (Result DatapathError unit * W) :=
  let '(err, w') := ib_post_send (QueuePair.inner_qp self) wrs w in Done (send_result err, w').

Lemma batch_wr_run it (w : W) :
  item_fits it ->
  exists hdr, UserOps.batch_wr it w = Done ((hdr, item_sge w it), w) /\
    forall sge, UserOps.with_sge hdr sge = item_wr it sge.
Proof.
  intros Hf. unfold UserOps.batch_wr.
  rewrite (bind_done _ _ _ _ _ (sge_of_run _ _ w Hf)).
  unfold item_wr. destruct (UserOps.i_imm it); eexists; by split.
Qed.

Lemma mapM_batch_wr_run param (w : W) :
  Forall item_fits param ->
  exists hdrs, mapM UserOps.batch_wr param w = Done (zip hdrs (map (item_sge w) param), w) /\
    Forall2 (fun it hdr => forall sge, UserOps.with_sge hdr sge = item_wr it sge) param hdrs.
Proof.
  induction 1 as [|it param Hf _ IH]; simpl; [by exists []|].
  destruct (batch_wr_run it w Hf) as (hdr & Hrun & Hh). destruct IH as (hdrs & Hruns & Hhs).
  exists (hdr :: hdrs). split; [|by constructor].
  rewrite (bind_done _ _ _ _ _ Hrun), (bind_done _ _ _ _ _ Hruns). done.
Qed.

(** A batch within the limit reaches the driver as one chain, in order, each
    request with what its stack slot holds at the time. *)
Lemma batch_run dead self param (w : W) :
  QueuePair.mode self = UD -> (length param <= UserOps.WR_LIST_MAX)%nat -> Forall item_fits param ->
  UserOps.post_datagram_batch dead self param w =
  post_list self
    (match param with
     | [] => [UserOps.default_wr]
     | _ => imap (fun i it => item_wr it (dead (map (item_sge w) param) i)) param
     end) w.
Proof.
  intros Hm Hlen Hf. unfold UserOps.post_datagram_batch, post_list.
  rewrite bool_decide_false by (intros Hn; by apply Hn).
  destruct (Nat.ltb_spec UserOps.WR_LIST_MAX (length param)); [lia|].
  destruct (mapM_batch_wr_run param w Hf) as (hdrs & Hrun & Hh).
  rewrite (bind_done _ _ _ _ _ Hrun). cbv zeta.
  pose proof (Forall2_length _ _ _ Hh) as Hl.
  rewrite snd_zip by (rewrite length_map; lia).
  set (sges := map (item_sge w) param). unfold post_chain.
  rewrite length_app, length_imap, length_zip_with, length_replicate.
  assert (Hmin : (Nat.min (length hdrs) (length sges) + (UserOps.WR_LIST_MAX - length param) =
    UserOps.WR_LIST_MAX)%nat) by (unfold sges; rewrite length_map; lia).
  rewrite Hmin. destruct param as [|it0 param]; [destruct hdrs; [done|done]|].
  erewrite (wr_chain_run _ (imap (fun i it => item_wr it (dead sges i)) (it0 :: param)) 0).
  - rewrite bind_call. done.
  - intros k wr Hk. rewrite list_lookup_imap in Hk. rewrite length_imap.
    destruct ((it0 :: param) !! k) as [it|] eqn:Hit; [|done]. simpl in Hk. injection Hk as <-.
    destruct (Forall2_lookup_l _ _ _ _ _ Hh Hit) as (hdr & Hhdr & Heq).
    assert (Hs : sges !! k = Some (item_sge w it)).
    { unfold sges. by rewrite lookup_map, Hit. }
    rewrite lookup_app_l.
    + rewrite Nat.add_0_l, list_lookup_imap, lookup_zip_with, Hhdr. simpl. rewrite Hs. simpl.
      rewrite Heq. unfold UserOps.batch_next.
      assert (Nat.eqb k (length (it0 :: param) - 1) = Nat.eqb (S k) (length (it0 :: param))) as Hk.
      2: { simpl length in *. by rewrite Hk. }
      apply lookup_lt_Some in Hit.
      destruct (Nat.eqb_spec k (length (it0 :: param) - 1)),
        (Nat.eqb_spec (S k) (length (it0 :: param))); done || lia.
    + rewrite length_imap, length_zip_with. apply lookup_lt_Some in Hhdr, Hs. lia.
  - done.
  - by rewrite length_imap.
Qed.

End batch.

(** A batch of datagrams whose ranges fit: more than 32 items are refused
    before the driver is called; otherwise, as long as the stack slots of the
    loop keep their contents, the driver gets one chain with exactly the
    requests of the items, in order; an empty batch posts a zeroed request. *)
Theorem datagram_batch_correct {W C : Type} `{!Cfg, !DeviceOps W, !QueueOps W, !DataOps W}
  dead (self : QueuePair.QueuePair C) param (w : W) :
  QueuePair.mode self = UD -> Forall (item_fits (W := W)) param ->
  (forall sges i s, sges !! i = Some s -> dead sges i = s) ->
  UserOps.post_datagram_batch dead self param w =
  if Nat.ltb UserOps.WR_LIST_MAX (length param)
  then Done (Err (PostSendError (mkError (-1))), w)
  else post_list self
         (match param with
          | [] => [UserOps.default_wr]
          | _ => map (fun it => item_wr it (item_sge w it)) param
          end) w.
Proof.
  intros Hm Hf Hdead. destruct (Nat.ltb_spec UserOps.WR_LIST_MAX (length param)) as [Hl|Hl].
  - unfold UserOps.post_datagram_batch. rewrite bool_decide_false by (intros Hn; by apply Hn).
    by apply Nat.ltb_lt in Hl as ->.
  - rewrite batch_run by done. destruct param as [|it0 param]; [done|]. f_equal.
    apply list_eq. intros i. rewrite list_lookup_imap.
    rewrite lookup_map. destruct ((it0 :: param) !! i) as [it|] eqn:Hit; [|done]. simpl.
    do 2 f_equal. apply Hdead. change (map (item_sge w) (it0 :: param) !! i = Some (item_sge w it)).
    by rewrite lookup_map, Hit.
Qed.

Definition sample_endpoint : Endpoint.DatagramEndpoint :=
  Endpoint.mkEndpoint (Context.mkAddressHandler sample_context 8) 21 22 7 (mkGid 1 2) 0 0.
Definition sample_batch : list UserOps.batch_item :=
  [UserOps.mkItem sample_endpoint sample_mr (mkRange 0 64) 1 false None;
   UserOps.mkItem sample_endpoint sample_mr (mkRange 64 96) 2 true (Some 9)].

Lemma datagram_batch_correct_witness :
  @UserOps.post_datagram_batch sim _ user_cfg _ _
    (fun sges i => default (mkSge 0 0 0) (sges !! i)) sample_ud sample_batch sim_init =
  post_list sample_ud
    [mkSendWr 1 IB_WR_SEND [] 0 [mkSge 4096 64 3005] (WrUd 8 21 22);
     mkSendWr 2 IB_WR_SEND_WITH_IMM [IB_SEND_SIGNALED] 9 [mkSge 4160 32 3005] (WrUd 8 21 22)] sim_init.
Proof.
  refine (@datagram_batch_correct sim Empty_set user_cfg _ _ _
    (fun sges i => default (mkSge 0 0 0) (sges !! i)) sample_ud sample_batch sim_init eq_refl _ _).
  - repeat constructor; by vm_compute.
  - intros sges i s Hs. by rewrite Hs.
Defined.

(** When the compiler gives the loop iterations one stack slot, as compilers
    do for the locals of a loop body, every request of a batch points to the
    buffer of the last item. *)
Theorem datagram_batch_one_slot {W C : Type} `{!Cfg, !DeviceOps W, !QueueOps W, !DataOps W}
  (self : QueuePair.QueuePair C) param it (w : W) :
  QueuePair.mode self = UD -> (length param < UserOps.WR_LIST_MAX)%nat ->
  Forall (item_fits (W := W)) (param ++ [it]) ->
  UserOps.post_datagram_batch (fun sges _ => List.last sges (mkSge 0 0 0)) self (param ++ [it]) w =
  post_list self (map (fun i => item_wr i (item_sge w it)) (param ++ [it])) w.
Proof.
  intros Hm Hl Hf. rewrite batch_run by (done || rewrite length_app; simpl; lia).
  assert (Hlast : List.last (map (item_sge w) (param ++ [it])) (mkSge 0 0 0) = item_sge w it).
  { rewrite map_app. apply last_last. }
  destruct (param ++ [it]) as [|it0 l] eqn:E; [by destruct param|]. rewrite Hlast.
  f_equal. apply list_eq. intros i. rewrite list_lookup_imap, lookup_map.
  by destruct ((it0 :: l) !! i).
Qed.

Lemma datagram_batch_one_slot_witness :
  @UserOps.post_datagram_batch sim _ user_cfg _ _ (fun sges _ => List.last sges (mkSge 0 0 0))
    sample_ud sample_batch sim_init =
  post_list sample_ud
    [mkSendWr 1 IB_WR_SEND [] 0 [mkSge 4160 32 3005] (WrUd 8 21 22);
     mkSendWr 2 IB_WR_SEND_WITH_IMM [IB_SEND_SIGNALED] 9 [mkSge 4160 32 3005] (WrUd 8 21 22)] sim_init.
Proof.
  refine (@datagram_batch_one_slot sim Empty_set user_cfg _ _ _ sample_ud
    [UserOps.mkItem sample_endpoint sample_mr (mkRange 0 64) 1 false None]
    (UserOps.mkItem sample_endpoint sample_mr (mkRange 64 96) 2 true (Some 9)) sim_init eq_refl _ _).
  - unfold UserOps.WR_LIST_MAX. simpl. lia.
  - repeat constructor; by vm_compute.
Defined.
