(* ===== verification/Doorbell.v ===== *)
(** * Doorbell batching

    src/KRdmaKit/src/queue_pairs/doorbell_helper.rs: a ring of work requests that
    are filled one by one and handed to the driver as one linked list.  The
    arrays are modelled as they lie in memory: a request keeps the index its
    [next] pointer points to, the index its scatter list points to, and the
    union [wr] as the four 64-bit words the [rdma] and [atomic] members share. *)

From S2P Require Import Prelude Errors Verbs Sim Context MemoryRegion CompletionQueue QueuePair Endpoint PostSend.

(** ** The [wr] union of an [ibv_send_wr] *)
Record wr_union := mkUnion { u0 : Z; u1 : Z; u2 : Z; u3 : Z }.

(** [rdma]: [remote_addr : u64; rkey : u32]; [atomic]: [remote_addr, compare_add,
    swap : u64; rkey : u32].  A 32-bit member is the low half of its word. *)
Definition low32 (x : Z) : Z := x mod 2 ^ 32.
Definition set_low32 (x v : Z) : Z := x - x mod 2 ^ 32 + v.

Definition set_rdma_remote_addr (v : Z) (u : wr_union) := mkUnion v (u1 u) (u2 u) (u3 u).
Definition set_rdma_rkey (v : Z) (u : wr_union) := mkUnion (u0 u) (set_low32 (u1 u) v) (u2 u) (u3 u).
Definition set_atomic_remote_addr (v : Z) (u : wr_union) := mkUnion v (u1 u) (u2 u) (u3 u).
Definition set_atomic_compare_add (v : Z) (u : wr_union) := mkUnion (u0 u) v (u2 u) (u3 u).
Definition set_atomic_swap (v : Z) (u : wr_union) := mkUnion (u0 u) (u1 u) v (u3 u).
Definition set_atomic_rkey (v : Z) (u : wr_union) := mkUnion (u0 u) (u1 u) (u2 u) (set_low32 (u3 u) v).

(** The union as the driver reads it, by opcode. *)
Definition decode_union (op : ib_wr_opcode) (u : wr_union) : wr_body :=
  match op with
  | IB_WR_RDMA_WRITE | IB_WR_RDMA_WRITE_WITH_IMM | IB_WR_RDMA_READ => WrRdma (u0 u) (low32 (u1 u))
  | IB_WR_ATOMIC_CMP_AND_SWP | IB_WR_ATOMIC_FETCH_AND_ADD =>
      WrAtomic (u0 u) (u1 u) (u2 u) (low32 (u3 u))
  | IB_WR_SEND | IB_WR_SEND_WITH_IMM => WrUd (u0 u) (low32 (u1 u)) (u1 u / 2 ^ 32)
  end.

(** ** Entries *)
Record slot := mkSlot {
  sl_wr_id : Z; sl_next : option nat; sl_sg_list : option nat; sl_num_sge : Z;
  sl_opcode : ib_wr_opcode; sl_send_flags : list ib_send_flag; sl_imm : Z; sl_wr : wr_union }.

Definition zeroed_slot : slot := mkSlot 0 None None 0 IB_WR_RDMA_WRITE [] 0 (mkUnion 0 0 0 0).
Definition zeroed_sge : ib_sge := mkSge 0 0 0.

Definition set_next (n : option nat) (s : slot) : slot :=
  mkSlot (sl_wr_id s) n (sl_sg_list s) (sl_num_sge s) (sl_opcode s) (sl_send_flags s) (sl_imm s) (sl_wr s).

Module DoorbellHelper.

Record DoorbellHelper := mkDoorbell {
  wr_list : list slot; sg_list : list ib_sge; capacity : nat; cur_idx : Z }.

Definition new_uninit (capacity : nat) : DoorbellHelper :=
  mkDoorbell (replicate capacity zeroed_slot) (replicate capacity zeroed_sge) capacity (-1).

(** One iteration of the loop of [init]. *)
Definition init_slot (self : DoorbellHelper) (i : nat) : DoorbellHelper :=
  mkDoorbell
    (alter (fun s => mkSlot (sl_wr_id s) (Some ((i + 1) mod capacity self)%nat) (Some i) 1
                      (sl_opcode s) (sl_send_flags s) (sl_imm s) (sl_wr s)) i (wr_list self))
    (sg_list self) (capacity self) (cur_idx self).

Definition init (self : DoorbellHelper) : DoorbellHelper :=
  foldl init_slot self (seq 0 (capacity self)).

Definition create_and_init (capacity : nat) : DoorbellHelper := init (new_uninit capacity).

(** Does every request point to the scatter entry with its index? *)
Definition sanity_check (self : DoorbellHelper) : bool :=
  forallb (fun i => match wr_list self !! i with
                    | Some s => bool_decide (sl_sg_list s = Some i)
                    | None => false
                    end) (seq 0 (capacity self)).

Definition size (self : DoorbellHelper) : Z := cur_idx self + 1.
Definition is_empty (self : DoorbellHelper) : bool := size self <=? 0.
Definition empty (self : DoorbellHelper) : DoorbellHelper :=
  mkDoorbell (wr_list self) (sg_list self) (capacity self) (-1).
Definition is_full (self : DoorbellHelper) : bool := Z.of_nat (capacity self) <=? size self.

Definition next (self : DoorbellHelper) : bool * DoorbellHelper :=
  if is_full self then (false, self)
  else (true, mkDoorbell (wr_list self) (sg_list self) (capacity self) (cur_idx self + 1)).

(** The index [cur_wr] and [cur_sge] give access to. *)
Definition cur (self : DoorbellHelper) : nat :=
  if is_empty self then 0%nat else Z.to_nat (cur_idx self).

(** Assignments through [cur_wr()] and [cur_sge()]; an index out of range panics. *)
Definition cur_wr_update (f : slot -> slot) (self : DoorbellHelper) : outcome DoorbellHelper :=
  if Nat.ltb (cur self) (length (wr_list self)) then
    Done (mkDoorbell (alter f (cur self) (wr_list self)) (sg_list self) (capacity self) (cur_idx self))
  else Panic.
Definition cur_sge_update (f : ib_sge -> ib_sge) (self : DoorbellHelper) : outcome DoorbellHelper :=
  if Nat.ltb (cur self) (length (sg_list self)) then
    Done (mkDoorbell (wr_list self) (alter f (cur self) (sg_list self)) (capacity self) (cur_idx self))
  else Panic.

Definition freeze (self : DoorbellHelper) : outcome DoorbellHelper :=
  if is_empty self then Panic else cur_wr_update (set_next None) self.

Definition freeze_done (self : DoorbellHelper) : outcome DoorbellHelper :=
  if is_empty self then Panic
  else
    let target :=
      if cur_idx self =? Z.of_nat (capacity self) - 1 then 0%nat
      else Z.to_nat (cur_idx self + 1) in
    if Nat.ltb target (length (wr_list self)) && Nat.ltb (Z.to_nat (cur_idx self)) (length (wr_list self))
    then Done (mkDoorbell (alter (set_next (Some target)) (Z.to_nat (cur_idx self)) (wr_list self))
                 (sg_list self) (capacity self) (cur_idx self))
    else Panic.

Definition clear (self : DoorbellHelper) : outcome DoorbellHelper :=
  match freeze_done self with
  | Done self => Done (mkDoorbell (wr_list self) (sg_list self) (capacity self) (-1))
  | Panic => Panic
  end.

(** The request in a slot, as the driver reads it. *)
Definition decode (sg_list : list ib_sge) (s : slot) : send_wr :=
  mkSendWr (sl_wr_id s) (sl_opcode s) (sl_send_flags s) (sl_imm s)
    (if sl_num_sge s =? 1 then
       match sl_sg_list s with
       | Some j => match sg_list !! j with Some sge => [sge] | None => [] end
       | None => []
       end
     else [])
    (decode_union (sl_opcode s) (sl_wr s)).

(** The array behind the pointers, for the driver that follows them. *)
Definition memory (self : DoorbellHelper) : list (send_wr * option nat) :=
  map (fun s => (decode (sg_list self) s, sl_next s)) (wr_list self).

End DoorbellHelper.

Module RcDoorbellHelper.
Import DoorbellHelper.

(** [RcDoorbellHelper] has the send doorbell as its only field. *)
Abbreviation RcDoorbellHelper := DoorbellHelper.

Section rc.
Context {W C : Type} `{!Cfg, !DeviceOps W, !QueueOps W, !DataOps W}.

Definition create (capacity : nat) : RcDoorbellHelper := create_and_init capacity.

(** Writing the three fields of the current scatter entry. *)
Definition fill_sge (self : RcDoorbellHelper) (mr : MemoryRegion.MemoryRegion) (offset length : Z) :
  M W RcDoorbellHelper :=
  addr ← rdma_addr_at mr offset;
  self ← lift (cur_sge_update (fun s => mkSge addr (sge_length s) (sge_lkey s)) self);
  self ← lift (cur_sge_update (fun s => mkSge (sge_addr s) length (sge_lkey s)) self);
  lkey ← MemoryRegion.lkey mr;
  lift (cur_sge_update (fun s => mkSge (sge_addr s) (sge_length s) lkey) self).

(** Writing the fields of the current request that do not depend on the union. *)
Definition fill_wr (op : ib_wr_opcode) (flags : list ib_send_flag) (wr_id : Z)
  (f : wr_union -> wr_union) (s : slot) : slot :=
  mkSlot wr_id (sl_next s) (sl_sg_list s) (sl_num_sge s) op flags (sl_imm s) (f (sl_wr s)).

Definition post_send_write (self : RcDoorbellHelper) (mr : MemoryRegion.MemoryRegion) (range : Range)
  (signaled : bool) (raddr rkey wr_id : Z) : M W (Result DatapathError Z * RcDoorbellHelper) :=
  let '(free, self) := next self in
  if negb free then mret (Ok (cur_idx self + 1), self)
  else
    self ← fill_sge self mr (start range) (u32 (PostSend.size range));
    self ← lift (cur_wr_update (fill_wr IB_WR_RDMA_WRITE (signal_flag signaled) wr_id
                   (fun u => set_rdma_rkey rkey (set_rdma_remote_addr raddr u))) self);
    mret (Ok (cur_idx self + 1), self).

Definition post_send_read (self : RcDoorbellHelper) (mr : MemoryRegion.MemoryRegion) (range : Range)
  (signaled : bool) (raddr rkey wr_id : Z) : M W (Result DatapathError Z * RcDoorbellHelper) :=
  let '(free, self) := next self in
  if negb free then mret (Ok (cur_idx self + 1), self)
  else
    self ← fill_sge self mr (start range) (u32 (PostSend.size range));
    self ← lift (cur_wr_update (fill_wr IB_WR_RDMA_READ (signal_flag signaled) wr_id
                   (fun u => set_rdma_rkey rkey (set_rdma_remote_addr raddr u))) self);
    mret (Ok (cur_idx self + 1), self).

Definition post_send_cas (self : RcDoorbellHelper) (mr : MemoryRegion.MemoryRegion) (offset : Z)
  (signaled : bool) (raddr rkey wr_id old new : Z) :
  M W (Result DatapathError Z * RcDoorbellHelper) :=
  let '(free, self) := next self in
  if negb free then mret (Ok (cur_idx self + 1), self)
  else
    self ← fill_sge self mr offset 8;
    self ← lift (cur_wr_update (fill_wr IB_WR_ATOMIC_CMP_AND_SWP (signal_flag signaled) wr_id
                   (fun u => set_atomic_rkey rkey (set_atomic_swap new
                      (set_atomic_compare_add old (set_atomic_remote_addr raddr u))))) self);
    mret (Ok (cur_idx self + 1), self).

Definition post_send_faa (self : RcDoorbellHelper) (mr : MemoryRegion.MemoryRegion) (offset : Z)
  (signaled : bool) (raddr rkey wr_id val : Z) :
  M W (Result DatapathError Z * RcDoorbellHelper) :=
  let '(free, self) := next self in
  if negb free then mret (Ok (cur_idx self + 1), self)
  else
    self ← fill_sge self mr offset 8;
    self ← lift (cur_wr_update (fill_wr IB_WR_ATOMIC_FETCH_AND_ADD (signal_flag signaled) wr_id
                   (fun u => set_atomic_rkey rkey (set_atomic_swap 0
                      (set_atomic_compare_add val (set_atomic_remote_addr raddr u))))) self);
    mret (Ok (cur_idx self + 1), self).

Definition flush_doorbell (self : RcDoorbellHelper) (qp : QueuePair.QueuePair C) :
  M W (Result DatapathError unit * RcDoorbellHelper) :=
  self ← lift (freeze self);
  res ← UserOps.post_send_wr qp (memory self) 0;
  self ← lift (clear self);
  mret (res, self).

End rc.
End RcDoorbellHelper.

(** ** The ring invariant *)
Module DoorbellFacts.
Import DoorbellHelper RcDoorbellHelper.

(** Both arrays have the capacity, the current index is in range, and every
    request points to its own scatter entry and to its successor in the ring. *)
Record wf (h : DoorbellHelper) : Prop := mkWf {
  wf_wr : length (wr_list h) = capacity h;
  wf_sg : length (sg_list h) = capacity h;
  wf_idx : -1 <= cur_idx h < Z.of_nat (capacity h);
  wf_slot i s : wr_list h !! i = Some s ->
    sl_num_sge s = 1 /\ sl_sg_list s = Some i /\ sl_imm s = 0 /\
    sl_next s = Some ((i + 1) mod capacity h)%nat }.

(** The requests batched so far. *)
Definition count (h : DoorbellHelper) : nat := Z.to_nat (size h).
Definition requests (h : DoorbellHelper) : list send_wr :=
  take (count h) (map (decode (sg_list h)) (wr_list h)).

Lemma init_loop n h :
  let h' := foldl init_slot h (seq 0 n) in
  capacity h' = capacity h /\ sg_list h' = sg_list h /\ cur_idx h' = cur_idx h /\
  length (wr_list h') = length (wr_list h) /\
  forall i s, (i < n)%nat -> wr_list h' !! i = Some s ->
    sl_num_sge s = 1 /\ sl_sg_list s = Some i /\ sl_next s = Some ((i + 1) mod capacity h)%nat /\
    exists s0, wr_list h !! i = Some s0 /\ sl_imm s = sl_imm s0.
Proof.
  cbv zeta. induction n as [|n IH]; [simpl; split_and!; try done; lia|].
  rewrite seq_S, foldl_app. cbn [foldl]. rewrite Nat.add_0_l.
  destruct IH as (Hc & Hsg & Hidx & Hlen & Hslot).
  set (h1 := foldl init_slot h (seq 0 n)) in *. unfold init_slot. cbn.
  rewrite length_alter, Hc. split_and!; try done. intros i s Hi.
  destruct (decide (i = n)) as [->|Hne].
  - rewrite list_lookup_alter_eq. destruct (wr_list h1 !! n) as [s1|] eqn:E; [|done].
    simpl. intros [= <-]. simpl. split_and!; try done.
    assert (Hkeep : forall k g, wr_list (foldl init_slot g (seq 0 k)) !! k = wr_list g !! k).
    { clear. intros k. assert (forall m g, (m <= k)%nat ->
        wr_list (foldl init_slot g (seq 0 m)) !! k = wr_list g !! k) as H; [|by auto].
      induction m as [|m IH]; intros g Hm; [done|].
      rewrite seq_S, foldl_app. cbn [foldl]. rewrite Nat.add_0_l. unfold init_slot at 1. cbn.
      rewrite list_lookup_alter_ne by lia. apply IH. lia. }
    unfold h1 in E. rewrite Hkeep in E. by exists s1.
  - rewrite list_lookup_alter_ne by done. intros Hs. apply Hslot; [lia|done].
Qed.

Lemma create_wf n : wf (create n) /\ requests (create n) = [] /\ capacity (create n) = n.
Proof.
  unfold create, create_and_init, init.
  destruct (init_loop n (new_uninit n)) as (Hc & Hsg & Hidx & Hlen & Hslot).
  cbn [capacity new_uninit wr_list sg_list cur_idx] in *. rewrite length_replicate in Hlen.
  split_and!; [|by unfold requests, count, size; rewrite Hidx|done]. split.
  - by rewrite Hlen, Hc.
  - by rewrite Hsg, Hc, length_replicate.
  - rewrite Hidx, Hc. lia.
  - intros i s Hs. assert (i < n)%nat.
    { apply lookup_lt_Some in Hs. by rewrite Hlen in Hs. }
    destruct (Hslot i s) as (H1 & H2 & H3 & s0 & H0 & H4); [done..|].
    rewrite Hc. split_and!; try done. rewrite H4.
    apply lookup_replicate in H0 as [-> _]. done.
Qed.

(** ** Filling an entry *)
Section fill.
Context {W C : Type} `{!Cfg, !DeviceOps W, !QueueOps W, !DataOps W}.

Lemma cur_after_next h :
  wf h -> is_full h = false ->
  next h = (true, mkDoorbell (wr_list h) (sg_list h) (capacity h) (cur_idx h + 1)) /\
  cur (mkDoorbell (wr_list h) (sg_list h) (capacity h) (cur_idx h + 1)) = count h /\
  (count h < capacity h)%nat.
Proof.
  intros [_ _ Hidx _] Hfull. unfold next. rewrite Hfull. split; [done|].
  unfold is_full, cur, is_empty, size, count, size in *. cbn.
  apply Z.leb_gt in Hfull. destruct (Z.leb_spec (cur_idx h + 1 + 1) 0); [lia|].
  split; [done|lia].
Qed.

(** The state after a request was filled in. *)
Definition filled (h : DoorbellHelper) (sge : ib_sge) op flags wr_id f : DoorbellHelper :=
  mkDoorbell (alter (fill_wr op flags wr_id f) (count h) (wr_list h))
    (alter (fun _ => sge) (count h) (sg_list h)) (capacity h) (cur_idx h + 1).

Lemma fill_run h mr off len op flags wr_id f (w : W) :
  wf h -> is_full h = false -> in_width 64 (MemoryRegion.get_rdma_addr mr + off) ->
  let h1 := mkDoorbell (wr_list h) (sg_list h) (capacity h) (cur_idx h + 1) in
  (self ← fill_sge h1 mr off len;
   self ← lift (cur_wr_update (fill_wr op flags wr_id f) self);
   mret (Ok (E := DatapathError) (cur_idx self + 1), self)) w =
  Done ((Ok (Z.of_nat (count h) + 1),
         filled h (mkSge (MemoryRegion.get_rdma_addr mr + off) len (lkey_of w mr)) op flags wr_id f), w).
Proof.
  intros Hwf Hfull Haddr h1.
  destruct (cur_after_next h Hwf Hfull) as (_ & Hcur & Hlt). fold h1 in Hcur.
  destruct Hwf as [Hwr Hsg Hidx _]. unfold fill_sge. rewrite bind_assoc.
  rewrite (bind_done _ _ _ _ _ (rdma_addr_run mr off w Haddr)), bind_assoc, bind_run.
  assert (Hc : forall sgl, length sgl = capacity h ->
    forall g, cur_sge_update g (mkDoorbell (wr_list h) sgl (capacity h) (cur_idx h + 1)) =
    Done (mkDoorbell (wr_list h) (alter g (count h) sgl) (capacity h) (cur_idx h + 1))).
  { intros sgl Hl g. unfold cur_sge_update. change (cur _) with (cur h1). rewrite Hcur. cbn [sg_list wr_list capacity cur_idx].
    destruct (Nat.ltb_spec (count h) (length sgl)); [done|lia]. }
  unfold h1, lift. rewrite Hc by done. rewrite bind_assoc, bind_run, Hc by by rewrite length_alter.
  rewrite bind_assoc, (bind_done _ _ _ _ _ (lkey_run mr w)), bind_run.
  rewrite Hc by by rewrite !length_alter.
  rewrite bind_run. unfold cur_wr_update. change (cur _) with (cur h1). rewrite Hcur. cbn [sg_list wr_list capacity cur_idx].
  destruct (Nat.ltb_spec (count h) (length (wr_list h))); [|lia].
  unfold filled. rewrite !list_alter_alter_eq.
  assert (Z.of_nat (count h) + 1 = cur_idx h + 1 + 1) as -> by (unfold count, size; lia). done.
Qed.

Lemma filled_wf h sge op flags wr_id f :
  wf h -> is_full h = false -> wf (filled h sge op flags wr_id f).
Proof.
  intros Hwf Hfull. destruct (cur_after_next h Hwf Hfull) as (_ & _ & Hlt).
  destruct Hwf as [Hwr Hsg Hidx Hslot]. split; cbn.
  - by rewrite length_alter.
  - by rewrite length_alter.
  - unfold count, size in Hlt. lia.
  - intros i s Hs. destruct (decide (i = count h)) as [->|Hne].
    + rewrite list_lookup_alter_eq in Hs. destruct (wr_list h !! count h) as [s0|] eqn:E; [|done].
      injection Hs as <-. by apply (Hslot _ s0).
    + rewrite list_lookup_alter_ne in Hs by done. by apply Hslot.
Qed.

Lemma filled_requests h sge op flags wr_id f :
  wf h -> is_full h = false ->
  exists u, requests (filled h sge op flags wr_id f) =
  requests h ++ [mkSendWr wr_id op flags 0 [sge] (decode_union op (f u))].
Proof.
  intros Hwf Hfull. destruct (cur_after_next h Hwf Hfull) as (_ & _ & Hlt).
  destruct Hwf as [Hwr Hsg Hidx Hslot].
  destruct (lookup_lt_is_Some_2 (wr_list h) (count h)) as [s Hs]; [lia|].
  destruct (lookup_lt_is_Some_2 (sg_list h) (count h)) as [g Hg]; [lia|].
  exists (sl_wr s). unfold requests at 1.
  assert (Hn : count (filled h sge op flags wr_id f) = S (count h)).
  { unfold count, size. cbn. lia. }
  rewrite Hn. cbn [filled wr_list sg_list].
  rewrite (take_S_r _ _ (mkSendWr wr_id op flags 0 [sge] (decode_union op (f (sl_wr s))))).
  - f_equal. unfold requests. apply list_eq. intros i.
    destruct (decide (i < count h)%nat) as [Hi|Hi];
      [|by rewrite !lookup_take_ge by lia].
    rewrite !lookup_take_lt, !lookup_map, list_lookup_alter_ne by lia.
    destruct (wr_list h !! i) as [si|] eqn:Hsi; [|done]. cbn. f_equal.
    destruct (Hslot i si Hsi) as (_ & Hptr & _). unfold decode. rewrite Hptr.
    by rewrite list_lookup_alter_ne by lia.
  - rewrite lookup_map, list_lookup_alter_eq, Hs. cbn. f_equal. unfold decode. cbn.
    destruct (Hslot _ s Hs) as (-> & -> & -> & _). by rewrite list_lookup_alter_eq, Hg.
Qed.

(** ** Flushing *)

(** The ring with its last batched request cut off from its successor. *)
Definition frozen (h : DoorbellHelper) : DoorbellHelper :=
  mkDoorbell (alter (set_next None) (Z.to_nat (cur_idx h)) (wr_list h)) (sg_list h) (capacity h)
    (cur_idx h).

Lemma nonempty_idx h :
  wf h -> is_empty h = false ->
  0 <= cur_idx h < Z.of_nat (capacity h) /\ count h = S (Z.to_nat (cur_idx h)).
Proof.
  intros [_ _ Hidx _] He. unfold is_empty, size in He. apply Z.leb_gt in He.
  unfold count, size. lia.
Qed.

Lemma freeze_run h : wf h -> is_empty h = false -> freeze h = Done (frozen h).
Proof.
  intros Hwf He. destruct (nonempty_idx h Hwf He) as [Hi _]. unfold freeze, cur_wr_update, cur.
  rewrite He. destruct (Nat.ltb_spec (Z.to_nat (cur_idx h)) (length (wr_list h))) as [|Hge]; [done|].
  rewrite (wf_wr _ Hwf) in Hge. lia.
Qed.

Lemma requests_length h : wf h -> length (requests h) = count h.
Proof.
  intros [Hwr _ Hidx _]. unfold requests. rewrite length_take, length_map, Hwr.
  unfold count, size in *. lia.
Qed.

(** The driver that follows the chain of a frozen ring finds exactly the batched
    requests and stops. *)
Lemma frozen_chain h :
  wf h -> is_empty h = false ->
  wr_chain (memory (frozen h)) (length (memory (frozen h))) 0 = Some (requests h).
Proof.
  intros Hwf He. destruct (nonempty_idx h Hwf He) as [Hi Hn].
  pose proof (requests_length h Hwf) as Hlen. destruct Hwf as [Hwr Hsg Hidx Hslot].
  apply wr_chain_run.
  - intros k wr Hk. rewrite Nat.add_0_l. rewrite Hlen.
    assert (Hkc : (k < count h)%nat) by (apply lookup_lt_Some in Hk; lia).
    unfold requests in Hk. rewrite lookup_take_lt, lookup_map in Hk by done.
    destruct (wr_list h !! k) as [s|] eqn:Hs; [|done]. injection Hk as <-.
    destruct (Hslot k s Hs) as (_ & _ & _ & Hnext).
    unfold memory, frozen. cbn [wr_list sg_list]. rewrite lookup_map.
    destruct (Nat.eqb_spec (S k) (count h)) as [Hlast|Hlast].
    + assert (k = Z.to_nat (cur_idx h)) as -> by lia. rewrite list_lookup_alter_eq, Hs. done.
    + rewrite list_lookup_alter_ne, Hs by lia. cbn. rewrite Hnext, Nat.mod_small by lia.
      by rewrite Nat.add_1_r.
  - intros Hnil. rewrite Hnil in Hlen. simpl in Hlen. lia.
  - unfold memory. cbn. rewrite length_map, length_alter, Hwr, Hlen. lia.
Qed.

Lemma clear_frozen h :
  wf h -> is_empty h = false ->
  clear (frozen h) = Done (mkDoorbell (wr_list h) (sg_list h) (capacity h) (-1)).
Proof.
  intros Hwf He. destruct (nonempty_idx h Hwf He) as [Hi Hn].
  destruct Hwf as [Hwr Hsg Hidx Hslot]. unfold clear, freeze_done, is_empty, size in *.
  cbn [frozen wr_list sg_list capacity cur_idx]. rewrite He, length_alter, Hwr.
  set (target := if cur_idx h =? Z.of_nat (capacity h) - 1 then 0%nat else Z.to_nat (cur_idx h + 1)).
  assert (Ht : target = ((Z.to_nat (cur_idx h) + 1) mod capacity h)%nat).
  { unfold target. destruct (Z.eqb_spec (cur_idx h) (Z.of_nat (capacity h) - 1)) as [Heq|Hne].
    - replace (Z.to_nat (cur_idx h) + 1)%nat with (capacity h) by lia. by rewrite Nat.Div0.mod_same.
    - rewrite Nat.mod_small by lia. lia. }
  assert (target < capacity h)%nat by (rewrite Ht; apply Nat.mod_upper_bound; lia).
  destruct (Nat.ltb_spec target (capacity h)); [|lia].
  destruct (Nat.ltb_spec (Z.to_nat (cur_idx h)) (capacity h)); [|lia]. cbn [andb].
  do 2 f_equal. cbn [wr_list]. rewrite list_alter_alter_eq. apply list_eq. intros i.
  destruct (decide (i = Z.to_nat (cur_idx h))) as [->|Hne];
    [rewrite list_lookup_alter_eq|by rewrite list_lookup_alter_ne].
  destruct (wr_list h !! Z.to_nat (cur_idx h)) as [s|] eqn:Hs; [|done]. cbn. f_equal.
  destruct (Hslot _ s Hs) as (_ & _ & _ & Hnext). rewrite Ht, <-Hnext. by destruct s.
Qed.

Lemma flush_run h (qp : QueuePair.QueuePair C) (w : W) :
  wf h -> is_empty h = false ->
  flush_doorbell h qp w =
  let '(err, w') := ib_post_send (QueuePair.inner_qp qp) (requests h) w in
  Done ((send_result err, mkDoorbell (wr_list h) (sg_list h) (capacity h) (-1)), w').
Proof.
  intros Hwf He. unfold flush_doorbell. rewrite bind_run. unfold lift.
  rewrite (freeze_run h) by done. unfold UserOps.post_send_wr. rewrite bind_assoc.
  unfold post_chain. rewrite (frozen_chain h) by done. rewrite bind_call.
  destruct (ib_post_send _ _ w) as [err w']. rewrite bind_ret, bind_run.
  by rewrite (clear_frozen h).
Qed.

Lemma flush_wf h : wf h -> wf (mkDoorbell (wr_list h) (sg_list h) (capacity h) (-1)).
Proof. intros [Hwr Hsg Hidx Hslot]. split; cbn; [done|done|lia|done]. Qed.

End fill.

(** ** The abstract doorbell: a bounded list of requests *)
Section abstract.
Context {W C : Type} `{!Cfg, !DeviceOps W, !QueueOps W, !DataOps W}.

Inductive db_op :=
| OpWrite (mr : MemoryRegion.MemoryRegion) (range : Range) (signaled : bool) (raddr rkey wr_id : Z)
| OpRead (mr : MemoryRegion.MemoryRegion) (range : Range) (signaled : bool) (raddr rkey wr_id : Z)
| OpCas (mr : MemoryRegion.MemoryRegion) (offset : Z) (signaled : bool) (raddr rkey wr_id old new : Z)
| OpFaa (mr : MemoryRegion.MemoryRegion) (offset : Z) (signaled : bool) (raddr rkey wr_id val : Z)
| OpFlush (qp : QueuePair.QueuePair C).

Inductive db_res :=
| Posted (r : Result DatapathError Z)
| Flushed (r : Result DatapathError unit).

(** The code. *)
Definition exec (op : db_op) (h : DoorbellHelper) : M W (db_res * DoorbellHelper) :=
  match op with
  | OpWrite mr range signaled raddr rkey wr_id =>
      '(r, h) ← post_send_write h mr range signaled raddr rkey wr_id; mret (Posted r, h)
  | OpRead mr range signaled raddr rkey wr_id =>
      '(r, h) ← post_send_read h mr range signaled raddr rkey wr_id; mret (Posted r, h)
  | OpCas mr offset signaled raddr rkey wr_id old new =>
      '(r, h) ← post_send_cas h mr offset signaled raddr rkey wr_id old new; mret (Posted r, h)
  | OpFaa mr offset signaled raddr rkey wr_id val =>
      '(r, h) ← post_send_faa h mr offset signaled raddr rkey wr_id val; mret (Posted r, h)
  | OpFlush qp => '(r, h) ← flush_doorbell h qp; mret (Flushed r, h)
  end.

(** The request an operation asks for. *)
Definition op_wr (w : W) (op : db_op) : send_wr :=
  match op with
  | OpWrite mr range signaled raddr rkey wr_id =>
      mkSendWr wr_id IB_WR_RDMA_WRITE (signal_flag signaled) 0 [exact_sge w mr range] (WrRdma raddr rkey)
  | OpRead mr range signaled raddr rkey wr_id =>
      mkSendWr wr_id IB_WR_RDMA_READ (signal_flag signaled) 0 [exact_sge w mr range] (WrRdma raddr rkey)
  | OpCas mr offset signaled raddr rkey wr_id old new =>
      mkSendWr wr_id IB_WR_ATOMIC_CMP_AND_SWP (signal_flag signaled) 0
        [exact_sge w mr (mkRange offset (offset + 8))] (WrAtomic raddr old new rkey)
  | OpFaa mr offset signaled raddr rkey wr_id val =>
      mkSendWr wr_id IB_WR_ATOMIC_FETCH_AND_ADD (signal_flag signaled) 0
        [exact_sge w mr (mkRange offset (offset + 8))] (WrAtomic raddr val 0 rkey)
  | OpFlush _ => UserOps.default_wr
  end.

(** A post appends its request or, when the batch is full, drops it; a flush
    hands the batch to the driver and empties it, and panics on an empty one. *)
Definition abs_exec (cap : nat) (op : db_op) (l : list send_wr) : M W (db_res * list send_wr) :=
  match op with
  | OpFlush qp =>
      match l with
      | [] => panic
      | _ => err ← call (ib_post_send (QueuePair.inner_qp qp) l); mret (Flushed (send_result err), [])
      end
  | _ =>
      if Nat.leb cap (length l) then mret (Posted (Ok (Z.of_nat cap)), l)
      else wr ← gets (fun w => op_wr w op);
           mret (Posted (Ok (Z.of_nat (length l) + 1)), l ++ [wr])
  end.

Fixpoint run {S} (step : db_op -> S -> M W (db_res * S)) (ops : list db_op) (s : S) :
  M W (list db_res * S) :=
  match ops with
  | [] => mret ([], s)
  | op :: ops =>
      '(r, s) ← step op s;
      '(rs, s) ← run step ops s;
      mret (r :: rs, s)
  end.

(** Ranges and operands inside the memory region, keys of 32 bits. *)
Definition op_ok (op : db_op) : Prop :=
  match op with
  | OpWrite mr range _ _ rkey _ | OpRead mr range _ _ rkey _ =>
      fits (W := W) mr range /\ in_width 32 rkey
  | OpCas mr offset _ _ rkey _ _ _ | OpFaa mr offset _ _ rkey _ _ =>
      fits (W := W) mr (mkRange offset (offset + 8)) /\ in_width 32 rkey
  | OpFlush _ => True
  end.

(** The ring holds the batch. *)
Definition refines (cap : nat) (h : DoorbellHelper) (l : list send_wr) : Prop :=
  wf h /\ capacity h = cap /\ requests h = l.

Definition same_outcome (cap : nat) {A} (c : outcome ((A * DoorbellHelper) * W))
  (a : outcome ((A * list send_wr) * W)) : Prop :=
  match c, a with
  | Done ((r, h), w1), Done ((r', l), w2) => r = r' /\ w1 = w2 /\ refines cap h l
  | Panic, Panic => True
  | _, _ => False
  end.

Lemma low32_set x v : in_width 32 v -> low32 (set_low32 x v) = v.
Proof.
  intros Hv. unfold low32, set_low32. rewrite Zplus_mod, Zminus_mod_idemp_r, Z.sub_diag.
  rewrite Z.mod_0_l, Z.add_0_l, Z.mod_mod by lia. by apply Z.mod_small.
Qed.

(** A post on a ring that refines the batch [l]. *)
Lemma post_refines cap h l mr off len op flags wr_id f body (w : W)
  (post : M W (Result DatapathError Z * DoorbellHelper)) :
  refines cap h l -> in_width 64 (MemoryRegion.get_rdma_addr mr + off) ->
  (forall u, decode_union op (f u) = body) ->
  post = (let '(free, self) := next h in
    if negb free then mret (Ok (cur_idx self + 1), self)
    else
      self ← fill_sge self mr off len;
      self ← lift (cur_wr_update (fill_wr op flags wr_id f) self);
      mret (Ok (cur_idx self + 1), self)) ->
  same_outcome cap (('(r, h) ← post; mret (Posted r, h)) w)
    (Done (if Nat.leb cap (length l) then (Posted (Ok (Z.of_nat cap)), l)
           else (Posted (Ok (Z.of_nat (length l) + 1)),
             l ++ [mkSendWr wr_id op flags 0
                    [mkSge (MemoryRegion.get_rdma_addr mr + off) len (lkey_of w mr)] body]), w)).
Proof.
  intros (Hwf & Hcap & Hreq) Haddr Hbody ->.
  pose proof (requests_length h Hwf) as Hlen. rewrite Hreq in Hlen.
  assert (Hcnt : Z.of_nat (count h) = size h).
  { unfold count, size. destruct Hwf as [_ _ ? _]. lia. }
  destruct (is_full h) eqn:Hfull.
  - unfold next. rewrite Hfull. cbn [negb]. rewrite bind_ret.
    unfold is_full in Hfull. apply Z.leb_le in Hfull.
    destruct (Nat.leb_spec cap (length l)); [|lia].
    assert (cur_idx h + 1 = Z.of_nat cap) as ->.
    { destruct Hwf as [_ _ ? _]. unfold size in *. lia. }
    by split_and!.
  - destruct (cur_after_next h Hwf Hfull) as (Hnext & _ & Hlt). rewrite Hnext. cbn [negb].
    rewrite bind_run, fill_run by done.
    destruct (Nat.leb_spec cap (length l)); [lia|].
    destruct (filled_requests h (mkSge (MemoryRegion.get_rdma_addr mr + off) len (lkey_of w mr))
      op flags wr_id f Hwf Hfull) as [u Hu]. rewrite Hbody in Hu.
    split_and!; [by rewrite Hlen|done|].
    split_and!; [by apply filled_wf|done|by rewrite Hu, Hreq].
Qed.

Lemma abs_post_run cap op l (w : W) :
  match op with OpFlush _ => False | _ => True end ->
  abs_exec cap op l w =
  Done (if Nat.leb cap (length l) then (Posted (Ok (Z.of_nat cap)), l)
        else (Posted (Ok (Z.of_nat (length l) + 1)), l ++ [op_wr w op]), w).
Proof. destruct op; [intros _; cbn [abs_exec]; by destruct (Nat.leb cap (length l))..|done]. Qed.

Lemma step_refines cap h l op (w : W) :
  refines cap h l -> op_ok op -> same_outcome cap (exec op h w) (abs_exec cap op l w).
Proof.
  intros Href Hok. destruct op as [mr range sg ra rk id|mr range sg ra rk id
    |mr off sg ra rk id old new|mr off sg ra rk id val|qp].
  1-4: destruct Hok as [Hfit Hrk]; rewrite abs_post_run by done; cbn [exec op_wr];
    unfold exact_sge; cbn [start stop].
  1-2: rewrite <-(size_fits mr range Hfit);
    eapply post_refines; [done|by apply fits_addr| |reflexivity];
    intros u; cbn; by rewrite low32_set.
  1-2: replace (off + 8 - off) with 8 by lia;
    eapply post_refines; [done|by apply (fits_addr mr (mkRange off (off + 8)))| |reflexivity];
    intros u; cbn; by rewrite low32_set.
  destruct Href as (Hwf & Hcap & Hreq). cbn [exec abs_exec].
  pose proof (requests_length h Hwf) as Hlen. rewrite Hreq in Hlen.
  destruct (is_empty h) eqn:He.
  - assert (l = []) as ->.
    { destruct l; [done|]. simpl in Hlen. unfold is_empty, count in *. apply Z.leb_le in He. lia. }
    unfold flush_doorbell. rewrite !bind_assoc, bind_run. unfold lift, freeze. by rewrite He.
  - destruct (nonempty_idx h Hwf He) as [_ Hn].
    destruct l as [|wr l]; [simpl in Hlen; lia|].
    rewrite bind_run, flush_run, bind_call, Hreq by done.
    destruct (ib_post_send (QueuePair.inner_qp qp) (wr :: l) w) as [err w'].
    split_and!; [done|done|]. split_and!; [by apply flush_wf|done|done].
Qed.

Lemma run_refines cap ops h l (w : W) :
  refines cap h l -> Forall op_ok ops -> same_outcome cap (run exec ops h w) (run (abs_exec cap) ops l w).
Proof.
  intros Href Hok. revert h l w Href. induction Hok as [|op ops Hop _ IH]; intros h l w Href; cbn [run].
  - by split_and!.
  - pose proof (step_refines cap h l op w Href Hop) as Hstep. rewrite !bind_run.
    destruct (exec op h w) as [[[r h1] w1]|], (abs_exec cap op l w) as [[[r' l1] w2]|]; try done.
    destruct Hstep as (-> & -> & Href1). specialize (IH h1 l1 w2 Href1). rewrite !bind_run.
    destruct (run exec ops h1 w2) as [[[rs h2] w3]|], (run (abs_exec cap) ops l1 w2) as [[[rs' l2] w4]|];
      try done.
    destruct IH as (-> & -> & Href2). by split_and!.
Qed.

(** The same operation posted directly to a queue pair. *)
Definition direct (qp : QueuePair.QueuePair C) (op : db_op) : M W (Result DatapathError unit) :=
  match op with
  | OpWrite mr range signaled raddr rkey wr_id =>
      UserOps.post_send_write qp mr range signaled raddr rkey wr_id
  | OpRead mr range signaled raddr rkey wr_id =>
      UserOps.post_send_read qp mr range signaled raddr rkey wr_id
  | OpCas mr offset signaled raddr rkey wr_id old new =>
      UserOps.post_send_cas qp mr offset signaled raddr rkey wr_id old new
  | OpFaa mr offset signaled raddr rkey wr_id val =>
      UserOps.post_send_faa qp mr offset signaled raddr rkey wr_id val
  | OpFlush _ => mret (Ok ())
  end.

Definition is_post (op : db_op) : Prop := match op with OpFlush _ => False | _ => True end.

Lemma abs_posts cap ops l (w : W) :
  Forall is_post ops -> (length l + length ops <= cap)%nat ->
  run (abs_exec cap) ops l w =
  Done ((imap (fun i _ => Posted (Ok (Z.of_nat (length l + i) + 1))) ops, l ++ map (op_wr w) ops), w).
Proof.
  intros Hp. revert l. induction Hp as [|op ops Hop _ IH]; intros l Hl.
  - cbn. by rewrite app_nil_r.
  - cbn [run]. rewrite bind_run, abs_post_run by done. simpl length in Hl.
    destruct (Nat.leb_spec cap (length l)); [lia|].
    rewrite bind_run, IH by (rewrite length_app; simpl; lia). cbn [imap map].
    rewrite <-app_assoc, Nat.add_0_r. unfold mret, M_ret. do 4 f_equal. apply imap_ext. intros i x _.
    rewrite length_app. simpl. do 3 f_equal. lia.
Qed.

Lemma run_snoc {S} (step : db_op -> S -> M W (db_res * S)) ops op s rs s1 (w w1 : W) :
  run step ops s w = Done ((rs, s1), w1) ->
  run step (ops ++ [op]) s w =
  match step op s1 w1 with
  | Done ((r, s2), w2) => Done ((rs ++ [r], s2), w2)
  | Panic => Panic
  end.
Proof.
  revert s rs w. induction ops as [|o ops IH]; intros s rs w; cbn [run app].
  - intros [= <- <- <-]. rewrite bind_run. by destruct (step op s w) as [[[r s2] w2]|].
  - rewrite !bind_run. destruct (step o s w) as [[[r s2] w2]|]; [|done]. rewrite !bind_run.
    destruct (run step ops s2 w2) as [[[rs' s3] w3]|] eqn:E; [|done]. intros [= <- <- <-].
    rewrite (IH _ _ _ E). by destruct (step op s3 w3) as [[[r' s4] w4]|].
Qed.

Lemma direct_post_run qp op (w : W) :
  QueuePair.mode qp = RC -> op_ok op -> is_post op ->
  direct qp op w = post_one qp (op_wr w op) w.
Proof.
  intros Hm Hok Hp. unfold post_one.
  destruct op as [mr range sg ra rk id|mr range sg ra rk id
    |mr off sg ra rk id old new|mr off sg ra rk id val|]; [..|done];
    destruct Hok as [Hfit _]; cbn [direct op_wr];
    unfold UserOps.post_send_write, UserOps.post_send_read, UserOps.post_send_cas,
      UserOps.post_send_faa, exact_sge; cbn [start stop];
    rewrite bool_decide_false by (intros Hn; by apply Hn).
  1-2: rewrite (post_rc_run qp mr range w) by done; rewrite (size_fits mr range Hfit);
    unfold UserOps.post_send_inner; by rewrite bind_call.
  1-2: rewrite (post_rc_run qp mr (mkRange off (off + 8)) w) by done;
    replace (off + 8 - off) with 8 by lia;
    unfold UserOps.post_send_atomic_inner; by rewrite bind_call.
Qed.

End abstract.
End DoorbellFacts.

(** C1. The doorbell ring implements a bounded list of requests: for any sequence
    of posts (with ranges in their regions) and flushes on a new ring of any
    capacity, the results, the effects on the driver and the panics are those
    of the list, in which a post appends its request or is dropped when the
    batch is full, and a flush hands the whole list to the driver in order and
    empties it; and the ring invariant holds at the end. *)
Theorem doorbell_refines_list {W C : Type} `{!Cfg, !DeviceOps W, !QueueOps W, !DataOps W}
  (cap : nat) (ops : list (DoorbellFacts.db_op (C := C))) (w : W) :
  Forall (DoorbellFacts.op_ok (W := W)) ops ->
  DoorbellFacts.same_outcome cap
    (DoorbellFacts.run DoorbellFacts.exec ops (RcDoorbellHelper.create cap) w)
    (DoorbellFacts.run (DoorbellFacts.abs_exec cap) ops [] w).
Proof.
  intros Hok. apply DoorbellFacts.run_refines; [|done].
  destruct (DoorbellFacts.create_wf cap) as (? & ? & ?). by split_and!.
Qed.

Definition sample_ops : list (DoorbellFacts.db_op (C := Empty_set)) :=
  [DoorbellFacts.OpCas sample_mr 8 true 7000 99 1 5 6;
   DoorbellFacts.OpWrite sample_mr (mkRange 0 64) false 7100 98 2;
   DoorbellFacts.OpFlush sample_rc;
   DoorbellFacts.OpRead sample_mr (mkRange 64 128) true 7200 97 3;
   DoorbellFacts.OpFlush sample_rc].

Lemma doorbell_refines_list_witness :
  DoorbellFacts.same_outcome (W := sim) 2
    (@DoorbellFacts.run sim _ _
       (@DoorbellFacts.exec sim _ user_cfg _ _) sample_ops (RcDoorbellHelper.create 2) sim_init)
    (@DoorbellFacts.run sim _ _
       (@DoorbellFacts.abs_exec sim _ user_cfg _ _ 2) sample_ops [] sim_init).
Proof.
  apply (@doorbell_refines_list sim Empty_set user_cfg _ _ _ 2 sample_ops sim_init).
  repeat constructor; by vm_compute.
Defined.

(** C19. Batching changes when requests are handed over, not what is requested: up
    to [cap] posts followed by a flush give the driver, in one call and in
    order, exactly the requests that posting each operation directly to the
    (reliable) queue pair would give it, and leave the ring empty. *)
Theorem doorbell_batch_equals_posts {W C : Type} `{!Cfg, !DeviceOps W, !QueueOps W, !DataOps W}
  (cap : nat) (ops : list (DoorbellFacts.db_op (C := C))) (qp : QueuePair.QueuePair C) (w : W) :
  QueuePair.mode qp = RC -> ops <> [] -> (length ops <= cap)%nat ->
  Forall (DoorbellFacts.op_ok (W := W)) ops -> Forall DoorbellFacts.is_post ops ->
  (exists rs h,
     DoorbellFacts.run DoorbellFacts.exec (ops ++ [DoorbellFacts.OpFlush qp])
       (RcDoorbellHelper.create cap) w =
     (let '(err, w') := ib_post_send (QueuePair.inner_qp qp) (map (DoorbellFacts.op_wr w) ops) w in
      Done ((rs ++ [DoorbellFacts.Flushed (send_result err)], h), w')) /\
     DoorbellFacts.wf h /\ DoorbellFacts.requests h = []) /\
  Forall (fun op => DoorbellFacts.direct qp op w = post_one qp (DoorbellFacts.op_wr w op) w) ops.
Proof.
  intros Hm Hne Hlen Hok Hpost. split.
  - pose proof (DoorbellFacts.create_wf cap) as (Hwf & Hreq & Hcap).
    pose proof (DoorbellFacts.run_refines cap (ops ++ [DoorbellFacts.OpFlush qp])
      (RcDoorbellHelper.create cap) [] w ltac:(by split_and!)
      ltac:(apply Forall_app; split; [done|by constructor])) as Hrun.
    assert (Habs : DoorbellFacts.run (DoorbellFacts.abs_exec cap) (ops ++ [DoorbellFacts.OpFlush qp]) [] w =
      let '(err, w') := ib_post_send (QueuePair.inner_qp qp) (map (DoorbellFacts.op_wr w) ops) w in
      Done ((imap (fun i _ => DoorbellFacts.Posted (Ok (Z.of_nat i + 1))) ops ++
             [DoorbellFacts.Flushed (send_result err)], []), w')).
    { erewrite DoorbellFacts.run_snoc; [|by apply DoorbellFacts.abs_posts; [|simpl; lia]].
      cbn [DoorbellFacts.abs_exec app]. destruct ops as [|op ops]; [done|]. cbn [map].
      rewrite bind_call. by destruct (ib_post_send _ _ w) as [err w']. }
    rewrite Habs in Hrun. destruct (ib_post_send _ _ w) as [err w'].
    destruct (DoorbellFacts.run DoorbellFacts.exec _ _ w) as [[[rs h] w1]|]; [|done].
    destruct Hrun as (-> & -> & Hwf' & _ & Hreq'). by eexists _, h.
  - rewrite Forall_forall in Hok, Hpost |- *. intros op Hop. apply DoorbellFacts.direct_post_run; auto.
Qed.

Lemma doorbell_batch_equals_posts_witness :
  (exists rs h,
     @DoorbellFacts.run sim _ _ (@DoorbellFacts.exec sim _ user_cfg _ _)
       (take 2 sample_ops ++ [DoorbellFacts.OpFlush sample_rc]) (RcDoorbellHelper.create 4) sim_init =
     (let '(err, w') := ib_post_send 3 (map (@DoorbellFacts.op_wr sim _ user_cfg _ sim_init) (take 2 sample_ops)) sim_init in
      Done ((rs ++ [DoorbellFacts.Flushed (send_result err)], h), w')) /\
     DoorbellFacts.wf h /\ DoorbellFacts.requests h = []) /\
  Forall (fun op => @DoorbellFacts.direct sim _ user_cfg _ _ sample_rc op sim_init =
    post_one sample_rc (@DoorbellFacts.op_wr sim _ user_cfg _ sim_init op) sim_init) (take 2 sample_ops).
Proof.
  apply (@doorbell_batch_equals_posts sim Empty_set user_cfg _ _ _ 4 (take 2 sample_ops) sample_rc sim_init).
  - reflexivity.
  - discriminate.
  - simpl. lia.
  - repeat constructor; by vm_compute.
  - repeat constructor.
Defined.
