(* ===== verification/RecvHelper.v ===== *)
(** * The ring of receive requests

    src/KRdmaKit-syscall/two-sided-dc/KRdmaKit/src/qp/recv_helper.rs: [N]
    receive requests, one per buffer of a memory block, linked to a ring.  To
    post some of them the last one's link is cut, the driver is given the first
    one, and the link is put back.  The helper also has the array completions are
    polled into.

    A link is an index into the array of requests.  The requests and their
    scatter entries are written once, by [create], so a slot holds its entry. *)

From S2P Require Import Prelude Errors Verbs Sim.

(** [bd_phys_to_virt] and the posting to a shared receive queue, of the kernel. *)
Class PhysOps := { pa_to_va : Z -> Z }.
Class SrqOps (W : Type) := { ib_post_srq_recv : ptr -> list recv_wr -> W -> Z * W }.

Module RecvHelper.

Record RecvHelper := mkRecv {
  wrs : list (recv_wr * option nat); wcs : list ib_wc; cur_idx : Z; capacity : Z; en_sz : Z }.

Definition set_next (i : nat) (next : option nat) (h : RecvHelper) : RecvHelper :=
  mkRecv (alter (fun s => (fst s, next)) i (wrs h)) (wcs h) (cur_idx h) (capacity h) (en_sz h).
Definition set_cur (i : Z) (h : RecvHelper) : RecvHelper :=
  mkRecv (wrs h) (wcs h) i (capacity h) (en_sz h).
Definition store_wcs (l : list ib_wc) (h : RecvHelper) : RecvHelper :=
  mkRecv (wrs h) l (cur_idx h) (capacity h) (en_sz h).

Definition zeroed_wc : ib_wc := mkWc 0 0 0 0 0.

Section helper.
Context {W : Type} `{!Cfg, !PhysOps, !DataOps W, !SrqOps W} (N : nat).

(** The request of the buffer at [base]. *)
Definition slot_at (entry_size lkey base : Z) : recv_wr :=
  mkRecvWr (pa_to_va base) [mkSge base (u32 entry_size) (u32 lkey)].

(** The loop of [create], from the [i]-th slot. *)
Fixpoint init_slots (entry_size lkey : Z) (n i : nat) (base : Z) : M W (list (recv_wr * option nat)) :=
  match n with
  | O => mret []
  | S n =>
      next ← lift (add_u64 overflow_checks base entry_size);
      rest ← init_slots entry_size lkey n (S i) next;
      mret ((slot_at entry_size lkey base, Some (S i mod N)%nat) :: rest)
  end.

Definition create (entry_size lkey base_addr : Z) : M W RecvHelper :=
  slots ← init_slots entry_size lkey N 0 base_addr;
  mret (mkRecv slots (replicate N zeroed_wc) 0 (Z.of_nat N) entry_size).

(** [Default::default]: with no capacity, every posting divides by zero. *)
Definition default : RecvHelper :=
  mkRecv (replicate N (mkRecvWr 0 [], None)) (replicate N zeroed_wc) 0 0 0.

Definition is_created (h : RecvHelper) : bool := 0 <? capacity h.

Definition get_recv_wr_ptr (h : RecvHelper) (idx : Z) : outcome nat :=
  match rem_u64 idx (capacity h) with
  | Done i => if i <? Z.of_nat (length (wrs h)) then Done (Z.to_nat i) else Panic
  | Panic => Panic
  end.

Definition freeze_at (i : Z) : M (W * RecvHelper) unit :=
  self ← getX; p ← lift (get_recv_wr_ptr self i); onX (set_next p None).
Definition freeze_done_at (i : Z) : M (W * RecvHelper) unit :=
  self ← getX;
  p ← lift (get_recv_wr_ptr self i);
  j ← lift (add_u64 overflow_checks i 1);
  q ← lift (get_recv_wr_ptr self j);
  onX (set_next p (Some q)).
Definition header_ptr (h : RecvHelper) : outcome nat := get_recv_wr_ptr h (cur_idx h).

(** The driver follows the links from the request it is given. *)
Definition post_from (qp srq : ptr) (h : RecvHelper) (head : nat) : M W Z :=
  match wr_chain (wrs h) (length (wrs h)) head with
  | Some l => if is_null srq then call (ib_post_recv qp l) else call (ib_post_srq_recv srq l)
  | None => panic
  end.

Definition post_recvs (qp srq : ptr) (buffer_sz : Z) : M (W * RecvHelper) (Result Error unit) :=
  self ← getX;
  sum ← lift (add_u64 overflow_checks (cur_idx self) buffer_sz);
  last ← lift (sub_u64 overflow_checks sum 1);
  tail ← lift (rem_u64 last (capacity self));
  _ ← freeze_at tail;
  self ← getX;
  head ← lift (header_ptr self);
  err ← onW (post_from qp srq self head);
  _ ← freeze_done_at tail;
  if negb (err =? 0) then mret (Err (from_kernel_errno err))
  else
    next ← lift (rem_u64 (tail + 1) (capacity self));
    _ ← onX (set_cur next);
    mret (Ok ()).

(** The driver writes its completions from [wcs[offset % N]] on.  The result is
    the number of entries; they are read from [wcs[0]] on.  A write behind the end
    of the array is undefined. *)
Definition pop_recvs (recv_cq : ptr) (recv_cnt offset : Z) : M (W * RecvHelper) (Result Error Z) :=
  if is_null recv_cq then mret (Err (from_kernel_errno 0))
  else
    self ← getX;
    i ← lift (rem_u64 offset (Z.of_nat N));
    '(ret, got) ← onW (call (ib_poll_cq recv_cq (i32 recv_cnt)));
    if ret <? 0 then mret (Err (from_kernel_errno ret))
    else if Z.of_nat (length (wcs self)) <? i + Z.of_nat (length got) then panic
    else
      let p := Z.to_nat i in
      _ ← onX (store_wcs (take p (wcs self) ++ got ++ drop (p + length got) (wcs self)));
      mret (Ok ret).

End helper.
End RecvHelper.
Import RecvHelper.

(** ** The specification: buffers in cyclic order

    The state is the number of requests posted so far. *)
Section spec.
Context {W : Type} `{!Cfg, !PhysOps, !DataOps W, !SrqOps W} (N : nat) (entry_size lkey base : Z).

(** The [i]-th buffer, counted around the ring. *)
Definition buffer (i : Z) : recv_wr := slot_at entry_size lkey (base + i mod Z.of_nat N * entry_size).
Definition window (c n : Z) : list recv_wr := map (fun k => buffer (c + Z.of_nat k)) (seq 0 (Z.to_nat n)).

Definition abs_post (qp : ptr) (n : Z) : M (W * Z) (Result Error unit) :=
  c ← getX;
  err ← onW (call (ib_post_recv qp (window c n)));
  if negb (err =? 0) then mret (Err (from_kernel_errno err)) else _ ← onX (fun c => c + n); mret (Ok ()).

(** Posts in a row; a failed one does not stop the next. *)
Fixpoint posts {X} (post : ptr -> Z -> M (W * X) (Result Error unit)) (l : list (ptr * Z)) :
  M (W * X) (list (Result Error unit)) :=
  match l with
  | [] => mret []
  | (qp, n) :: l => r ← post qp n; rs ← posts post l; mret (r :: rs)
  end.

(** The ring between operations, with its next request [cur_idx]. *)
Record ring (h : RecvHelper) : Prop := {
  ring_size : (0 < N)%nat;
  ring_wrs : length (wrs h) = N;
  ring_wcs : length (wcs h) = N;
  ring_cap : capacity h = Z.of_nat N;
  ring_cur : 0 <= cur_idx h < Z.of_nat N;
  ring_slot i : (i < N)%nat ->
    wrs h !! i = Some (buffer (Z.of_nat i), Some (S i mod N)%nat) }.

(** [h] after the posting of [c] requests. *)
Definition represents (h : RecvHelper) (c : Z) : Prop := ring h /\ cur_idx h = c mod Z.of_nat N.


(** ** Creation *)
Lemma init_slots_run n i b (w : W) :
  0 <= entry_size -> b + Z.of_nat n * entry_size < 2 ^ 64 -> 0 <= b ->
  exists l, init_slots N entry_size lkey n i b w = Done (l, w) /\ length l = n /\
    forall k, (k < n)%nat ->
      l !! k = Some (slot_at entry_size lkey (b + Z.of_nat k * entry_size), Some (S (i + k) mod N)%nat).
Proof.
  revert i b. induction n as [|n IH]; intros i b He Hb Hpos; cbn [init_slots].
  { exists []. split; [done|]. split; [done|]. intros k Hk. lia. }
  rewrite add_u64_small by (unfold in_width; nia). rewrite bind_lift.
  destruct (IH (S i) (b + entry_size)) as (l & Hl & Hlen & Hk); [done|nia|nia|].
  rewrite (bind_done _ _ _ _ _ Hl). eexists. split; [done|]. split; [by cbn; rewrite Hlen|].
  intros [|k] Hlt; cbn.
  - rewrite Z.mul_0_l, Z.add_0_r, Nat.add_0_r. done.
  - rewrite Hk by lia. replace (S i + k)%nat with (i + S k)%nat by lia.
    replace (b + entry_size + Z.of_nat k * entry_size) with (b + Z.of_nat (S k) * entry_size) by lia. done.
Qed.

Lemma create_run (w : W) :
  (0 < N)%nat -> 0 <= entry_size -> 0 <= base -> base + Z.of_nat N * entry_size < 2 ^ 64 ->
  exists h, create N entry_size lkey base w = Done (h, w) /\ represents h 0.
Proof.
  intros HN He Hpos Hb. unfold create.
  destruct (init_slots_run N 0 base w He Hb Hpos) as (l & Hl & Hlen & Hk).
  rewrite (bind_done _ _ _ _ _ Hl). eexists. split; [done|]. split; [|by rewrite Z.mod_0_l by lia].
  constructor; cbn; [done|done|apply length_replicate|done|lia|]. intros i Hi. rewrite Hk by done.
  unfold buffer. rewrite Z.mod_small by lia. done.
Qed.

(** ** Posting *)
Lemma wr_ptr_run h i : ring h -> get_recv_wr_ptr h i = Done (Z.to_nat (i mod Z.of_nat N)).
Proof.
  intros [HN Hw _ Hc _ _]. unfold get_recv_wr_ptr. rewrite Hc, Hw, rem_u64_pos by lia.
  pose proof (Z.mod_pos_bound i (Z.of_nat N)). destruct (Z.ltb_spec (i mod Z.of_nat N) (Z.of_nat N)); [done|lia].
Qed.

(** The ring with its link at slot [t] cut. *)
Definition cut (t : nat) (h : RecvHelper) : RecvHelper := set_next t None h.

Lemma relink h t : ring h -> (t < N)%nat -> set_next t (Some (S t mod N)%nat) (cut t h) = h.
Proof.
  intros Hr Ht. destruct h as [l cs cur cap en]. unfold cut, set_next. cbn. f_equal. apply list_eq. intros i.
  destruct (decide (i = t)) as [->|Hne]; [|by rewrite !list_lookup_alter_ne by done].
  rewrite !list_lookup_alter_eq. pose proof (ring_slot _ Hr t Ht) as Hs. cbn in Hs. by rewrite Hs.
Qed.

(** The slots of the ring that is cut. *)
Lemma cut_ptr h t i : ring h -> get_recv_wr_ptr (cut t h) i = Done (Z.to_nat (i mod Z.of_nat N)).
Proof.
  intros Hr. rewrite <- (wr_ptr_run h) by done. unfold get_recv_wr_ptr, cut, set_next. cbn. by rewrite length_alter.
Qed.

Lemma relink_at h t :
  ring h -> 0 <= t < Z.of_nat N ->
  set_next (Z.to_nat t) (Some (Z.to_nat ((t + 1) mod Z.of_nat N))) (cut (Z.to_nat t) h) = h.
Proof.
  intros Hr Ht. assert (Z.to_nat ((t + 1) mod Z.of_nat N) = (S (Z.to_nat t) mod N)%nat) as ->; [|apply relink; [done|lia]].
  rewrite <- (Nat2Z.id (S _ mod N)%nat), Nat2Z.inj_mod. f_equal. f_equal. lia.
Qed.

Lemma shift_mod c k j :
  (0 < N)%nat -> 0 <= j < Z.of_nat N -> 0 <= k < Z.of_nat N ->
  (c + k) mod Z.of_nat N = (c + j) mod Z.of_nat N -> k = j.
Proof.
  intros HN Hj Hk He. pose proof (Z.div_mod (c + k) (Z.of_nat N) ltac:(lia)) as H1.
  pose proof (Z.div_mod (c + j) (Z.of_nat N) ltac:(lia)) as H2. rewrite He in H1.
  set (q1 := (c + k) / _) in *. set (q2 := (c + j) / _) in *.
  assert (k - j = Z.of_nat N * (q1 - q2)) by lia. assert (q1 - q2 = 0) by nia. lia.
Qed.

Lemma window_lookup c n k :
  (k < Z.to_nat n)%nat -> window c n !! k = Some (buffer (c + Z.of_nat k)).
Proof. intros Hk. unfold window. by rewrite lookup_map, lookup_seq_lt. Qed.

Lemma window_length c n : length (window c n) = Z.to_nat n.
Proof. unfold window. by rewrite length_map, length_seq. Qed.

(** The chain of [m] requests from [cur_idx] on, when the last one's link is cut. *)
Lemma cut_chain h m :
  ring h -> 1 <= m <= Z.of_nat N ->
  let t := Z.to_nat ((cur_idx h + (m - 1)) mod Z.of_nat N) in
  wr_chain (wrs (cut t h)) N (Z.to_nat (cur_idx h mod Z.of_nat N)) = Some (window (cur_idx h) m).
Proof.
  intros Hr Hm t. pose proof (ring_size _ Hr) as HN.
  pose proof (wr_chain_path (wrs (cut t h)) (window (cur_idx h) m)
    (fun k => Z.to_nat ((cur_idx h + Z.of_nat k) mod Z.of_nat N)) N) as Hpath.
  cbn beta in Hpath. rewrite Z.add_0_r in Hpath. apply Hpath; [|rewrite <- length_zero_iff_nil, window_length; lia|
    rewrite window_length; lia].
  intros k wr Hk. assert (Hlt : (k < Z.to_nat m)%nat) by (apply lookup_lt_Some in Hk; by rewrite window_length in Hk).
  rewrite window_lookup in Hk by done. injection Hk as <-. rewrite window_length.
  pose proof (Z.mod_pos_bound (cur_idx h + Z.of_nat k) (Z.of_nat N)) as Hb.
  set (i := Z.to_nat ((cur_idx h + Z.of_nat k) mod Z.of_nat N)).
  assert (Hi : (i < N)%nat) by (unfold i; lia).
  pose proof (ring_slot _ Hr i Hi) as Hs.
  assert (Hbuf : buffer (Z.of_nat i) = buffer (cur_idx h + Z.of_nat k)).
  { unfold buffer, i. rewrite Z2Nat.id, Z.mod_mod by lia. done. }
  assert (Hnext : (S i mod N)%nat = Z.to_nat ((cur_idx h + Z.of_nat (S k)) mod Z.of_nat N)).
  { rewrite <- (Nat2Z.id (S i mod N)%nat), Nat2Z.inj_mod. f_equal. unfold i.
    rewrite Nat2Z.inj_succ, Z2Nat.id by lia. rewrite <- Z.add_1_r, Zplus_mod_idemp_l. f_equal. lia. }
  rewrite Hbuf in Hs. unfold cut, set_next. cbn [wrs]. destruct (decide (i = t)) as [E|Hne].
  - rewrite E, list_lookup_alter_eq, <- E, Hs. assert (k = Z.to_nat (m - 1)) as ->.
    { assert (Z.of_nat k = m - 1); [|lia]. apply (shift_mod (cur_idx h)); try lia. unfold i, t in E.
      pose proof (Z.mod_pos_bound (cur_idx h + (m - 1)) (Z.of_nat N)). lia. }
    rewrite (proj2 (Nat.eqb_eq _ _)) by lia. done.
  - rewrite list_lookup_alter_ne, Hs by done. rewrite (proj2 (Nat.eqb_neq _ _)), Hnext; [done|].
    intros E. apply Hne. unfold i, t. f_equal. f_equal. lia.
Qed.

Lemma tail_eq cur n :
  (0 < N)%nat ->
  (cur + ((n - 1) mod Z.of_nat N + 1 - 1)) mod Z.of_nat N = (cur + n - 1) mod Z.of_nat N.
Proof. intros HN. rewrite Z.add_simpl_r, Zplus_mod_idemp_r. f_equal. lia. Qed.

Lemma next_eq cur n :
  ((cur + n - 1) mod Z.of_nat N + 1) mod Z.of_nat N = (cur + ((n - 1) mod Z.of_nat N + 1)) mod Z.of_nat N.
Proof.
  rewrite Zplus_mod_idemp_l. replace (cur + ((n - 1) mod Z.of_nat N + 1)) with ((n - 1) mod Z.of_nat N + (cur + 1)) by lia.
  rewrite Zplus_mod_idemp_l. f_equal. lia.
Qed.

(** Posting [n]: the driver gets [(n - 1) mod N + 1] requests, and the ring is
    linked again. *)
Lemma post_recvs_run qp n h (w : W) :
  ring h -> 1 <= cur_idx h + n < 2 ^ 64 -> Z.of_nat N < 2 ^ 64 ->
  let m := (n - 1) mod Z.of_nat N + 1 in
  post_recvs qp null n (w, h) =
  let '(err, w') := ib_post_recv qp (window (cur_idx h) m) w in
  Done (if negb (err =? 0) then (Err (from_kernel_errno err), (w', h))
        else (Ok (), (w', set_cur ((cur_idx h + m) mod Z.of_nat N) h))).
Proof.
  intros Hr Hn HN64 m. pose proof (ring_size _ Hr) as HN. destruct (ring_cur _ Hr) as [Hc0 Hc1].
  assert (Hm : 1 <= m <= Z.of_nat N) by (pose proof (Z.mod_pos_bound (n - 1) (Z.of_nat N)); lia).
  set (tail := (cur_idx h + n - 1) mod Z.of_nat N).
  pose proof (Z.mod_pos_bound (cur_idx h + n - 1) (Z.of_nat N) ltac:(lia)) as Ht. fold tail in Ht.
  assert (Htm : Z.to_nat (tail mod Z.of_nat N) = Z.to_nat tail) by by rewrite Z.mod_small.
  unfold post_recvs. rewrite bind_getX, add_u64_small, bind_lift by (unfold in_width; lia).
  rewrite sub_u64_small, bind_lift, (ring_cap _ Hr), rem_u64_pos, bind_lift by lia. fold tail.
  unfold freeze_at. rewrite bind_assoc, bind_getX, wr_ptr_run, bind_assoc, bind_lift, Htm by done.
  rewrite bind_onX. fold (cut (Z.to_nat tail) h). rewrite bind_getX.
  unfold header_ptr. rewrite cut_ptr, bind_lift by done. cbn [cut set_next cur_idx]. fold (cut (Z.to_nat tail) h).
  unfold post_from.
  assert (Hlen : length (wrs (cut (Z.to_nat tail) h)) = N)
    by (unfold cut, set_next; cbn; rewrite length_alter; apply ring_wrs, Hr).
  pose proof (cut_chain h m Hr Hm) as Hch. cbn zeta in Hch. unfold m in Hch at 1. rewrite tail_eq in Hch by done.
  fold tail in Hch. fold m in Hch. rewrite Hlen, Hch. cbn [is_null].
  destruct (ib_post_recv qp (window (cur_idx h) m) w) as [err w'] eqn:Hpost.
  rewrite (bind_done _ _ _ err (w', cut (Z.to_nat tail) h)).
  2: { unfold onW, call. cbn. by rewrite Hpost. }
  unfold freeze_done_at. rewrite bind_assoc, bind_getX, cut_ptr, bind_assoc, bind_lift by done.
  rewrite add_u64_small, bind_assoc, bind_lift, cut_ptr, bind_assoc, bind_lift by (done || unfold in_width; lia).
  rewrite bind_onX, Htm, relink_at by done. destruct (err =? 0); cbn [negb]; [|done].
  cbn [cut set_next capacity].
  rewrite (ring_cap _ Hr), rem_u64_pos, bind_lift, bind_onX by lia. unfold m. by rewrite <- next_eq.
Qed.

Lemma set_cur_ring i h : ring h -> 0 <= i < Z.of_nat N -> ring (set_cur i h).
Proof. intros [] Hi. by constructor. Qed.

Lemma store_wcs_ring l h : ring h -> length l = N -> ring (store_wcs l h).
Proof. intros [] Hl. by constructor. Qed.

(** However many requests are asked for, the links are intact afterwards. *)
Lemma post_recvs_ring qp srq n (w w' : W) h h' r :
  ring h -> Z.of_nat N < 2 ^ 64 -> post_recvs qp srq n (w, h) = Done (r, (w', h')) -> ring h'.
Proof.
  intros Hr HN64. pose proof (ring_size _ Hr) as HN. unfold post_recvs. rewrite bind_getX.
  intros (sum & s1 & Hsum & Hrun)%bind_done_inv. apply bind_done_inv in Hrun as (last & s2 & Hlast & Hrun).
  unfold lift in Hsum, Hlast. destruct (add_u64 _ _ _) in Hsum; [|done]. injection Hsum as -> <-.
  destruct (sub_u64 _ _ _) in Hlast; [|done]. injection Hlast as -> <-.
  rewrite (ring_cap _ Hr), rem_u64_pos, bind_lift in Hrun by lia.
  pose proof (Z.mod_pos_bound last (Z.of_nat N) ltac:(lia)) as Ht. set (t := last mod Z.of_nat N) in *.
  unfold freeze_at in Hrun. rewrite bind_assoc, bind_getX, wr_ptr_run, bind_assoc, bind_lift, bind_onX, bind_getX in Hrun by done.
  rewrite (Z.mod_small t) in Hrun by done. fold (cut (Z.to_nat t) h) in Hrun.
  unfold header_ptr in Hrun. rewrite cut_ptr, bind_lift in Hrun by done.
  apply bind_done_inv in Hrun as (err & [w1 h1] & [_ Hh1]%onW_inv & Hrun). cbn in Hh1. subst h1.
  unfold freeze_done_at in Hrun. rewrite bind_assoc, bind_getX, cut_ptr, bind_assoc, bind_lift in Hrun by done.
  rewrite add_u64_small, bind_assoc, bind_lift, cut_ptr, bind_assoc, bind_lift in Hrun by (done || unfold in_width; lia).
  rewrite bind_onX, (Z.mod_small t), relink_at in Hrun by done.
  destruct (err =? 0); cbn [negb] in Hrun; [|by injection Hrun as _ _ <-].
  cbn [cut set_next capacity] in Hrun. rewrite (ring_cap _ Hr), rem_u64_pos, bind_lift, bind_onX in Hrun by lia.
  injection Hrun as _ _ <-. apply set_cur_ring; [done|apply Z.mod_pos_bound; lia].
Qed.

Lemma window_mod c n : window (c mod Z.of_nat N) n = window c n.
Proof.
  unfold window. apply map_ext. intros k. unfold buffer. by rewrite Zplus_mod_idemp_l.
Qed.

(** Posts of at most a ring's worth. *)
Definition fits (l : list (ptr * Z)) : Prop := Forall (fun '(_, n) => 1 <= n <= Z.of_nat N) l.

Lemma posts_refine l h c (w : W) :
  represents h c -> fits l -> 2 * Z.of_nat N < 2 ^ 64 ->
  exists rs w' h' c',
    posts (fun qp => post_recvs qp null) l (w, h) = Done (rs, (w', h')) /\
    posts abs_post l (w, c) = Done (rs, (w', c')) /\ represents h' c'.
Proof.
  intros Hrep Hl HN64. revert h c w Hrep. induction Hl as [|[qp n] l Hn Hl IH]; intros h c w [Hr Hc].
  { by exists [], w, h, c. }
  destruct (ring_cur _ Hr) as [Hc0 Hc1]. cbn [posts]. rewrite !bind_run.
  rewrite (post_recvs_run qp n h w Hr) by lia.
  replace ((n - 1) mod Z.of_nat N + 1) with n by (rewrite Z.mod_small; lia).
  unfold abs_post at 1. rewrite bind_getX, Hc, window_mod, bind_run. unfold onW at 1, call at 1. cbn [fst snd].
  destruct (ib_post_recv qp (window c n) w) as [err w1]. destruct (err =? 0); cbn [negb].
  - destruct (IH (set_cur ((c mod Z.of_nat N + n) mod Z.of_nat N) h) (c + n) w1) as (rs & w' & h' & c' & H1 & H2 & H3).
    { split; [apply set_cur_ring; [done|apply Z.mod_pos_bound; lia]|]. cbn. by rewrite Zplus_mod_idemp_l. }
    rewrite bind_onX. exists (Ok () :: rs), w', h', c'. cbn [mret]. unfold mret, M_ret at 1 2.
    by rewrite (bind_done _ _ _ _ _ H1), (bind_done _ _ _ _ _ H2).
  - destruct (IH h c w1 (conj Hr Hc)) as (rs & w' & h' & c' & H1 & H2 & H3).
    exists (Err (from_kernel_errno err) :: rs), w', h', c'. unfold mret, M_ret at 1 2.
    by rewrite (bind_done _ _ _ _ _ H1), (bind_done _ _ _ _ _ H2).
Qed.


(** Posting nothing: after the first wrap-around every request of the ring is
    posted, those still owned by the driver included; before it, the index of the
    last request underflows. *)
Lemma post_none_posts_all qp h (w : W) :
  ring h -> 2 * Z.of_nat N < 2 ^ 64 -> 0 < cur_idx h -> fst (ib_post_recv qp (window (cur_idx h) (Z.of_nat N)) w) = 0 ->
  post_recvs qp null 0 (w, h) =
  Done (Ok (), (snd (ib_post_recv qp (window (cur_idx h) (Z.of_nat N)) w), h)).
Proof.
  intros Hr HN64 Hc Hok. destruct (ring_cur _ Hr) as [Hc0 Hc1]. pose proof (ring_size _ Hr).
  rewrite (post_recvs_run qp 0 h w Hr) by lia.
  replace ((0 - 1) mod Z.of_nat N + 1) with (Z.of_nat N).
  2: { rewrite <- (Z.mod_add _ 1) by lia. rewrite Z.mod_small; lia. }
  destruct (ib_post_recv _ _ w) as [err w']. cbn in *. subst err. cbn.
  rewrite <- (Z.mul_1_l (Z.of_nat N)) at 1. rewrite Z.mod_add, Z.mod_small by lia. by destruct h.
Qed.

Lemma post_none_panics qp h (w : W) :
  overflow_checks = true -> cur_idx h = 0 -> post_recvs qp null 0 (w, h) = Panic.
Proof.
  intros Hoc Hc. unfold post_recvs. rewrite bind_getX, Hc, add_u64_small, bind_lift by (unfold in_width; lia).
  by rewrite Hoc.
Qed.

(** ** Polling *)

(** The completions the driver reports are in the array from [offset] on, and the
    others are as before, if they fit; the call returns their number. *)
Lemma pop_recvs_run cq n off h (w w' : W) got :
  ring h -> is_null cq = false -> 0 <= off ->
  ib_poll_cq cq (i32 n) w = ((Z.of_nat (length got), got), w') ->
  off mod Z.of_nat N + Z.of_nat (length got) <= Z.of_nat N ->
  exists h', pop_recvs N cq n off (w, h) = Done (Ok (Z.of_nat (length got)), (w', h')) /\ ring h' /\
    cur_idx h' = cur_idx h /\
    forall i, wcs h' !! i =
      let p := Z.to_nat (off mod Z.of_nat N) in
      if ((p <=? i) && (i <? p + length got))%nat then got !! (i - p)%nat else wcs h !! i.
Proof.
  intros Hr Hcq Hoff Hpoll Hfit. pose proof (ring_size _ Hr). pose proof (ring_wcs _ Hr) as Hlen.
  pose proof (Z.mod_pos_bound off (Z.of_nat N)) as Hb.
  unfold pop_recvs. rewrite Hcq, bind_getX, rem_u64_pos, bind_lift, bind_run by lia.
  unfold onW, call. cbn [fst snd]. rewrite Hpoll, Hlen.
  destruct (Z.ltb_spec (Z.of_nat (length got)) 0); [lia|].
  destruct (Z.ltb_spec (Z.of_nat N) (off mod Z.of_nat N + Z.of_nat (length got))); [lia|].
  rewrite bind_onX. eexists. split; [done|]. set (p := Z.to_nat (off mod Z.of_nat N)).
  assert (p + length got <= length (wcs h))%nat by (unfold p; lia). split; [|split; [done|]].
  - destruct Hr. constructor; cbn; try done. rewrite !length_app, length_take, length_drop. lia.
  - intros i. cbn [store_wcs wcs]. destruct (Nat.leb_spec p i); cbn [andb].
    + rewrite lookup_app_r; rewrite length_take_le by lia; [|done].
      destruct (Nat.ltb_spec i (p + length got)); [by rewrite lookup_app_l by lia|].
      rewrite lookup_app_r by lia. rewrite lookup_drop. f_equal. lia.
    + rewrite lookup_app_l by (rewrite length_take_le; lia). by rewrite lookup_take_lt.
Qed.

Lemma pop_recvs_ring cq n off h h' (w w' : W) r :
  ring h -> pop_recvs N cq n off (w, h) = Done (r, (w', h')) -> ring h'.
Proof.
  intros Hr. pose proof (ring_size _ Hr). pose proof (ring_wcs _ Hr) as Hlen. unfold pop_recvs.
  destruct (is_null cq); [by intros [= _ _ <-]|]. rewrite bind_getX, rem_u64_pos, bind_lift by lia.
  pose proof (Z.mod_pos_bound off (Z.of_nat N) ltac:(lia)) as Hb. rewrite bind_run. unfold onW, call. cbn [fst snd].
  destruct (ib_poll_cq cq (i32 n) w) as [[ret got] w1]. destruct (ret <? 0); [by intros [= _ _ <-]|].
  rewrite Hlen. destruct (Z.ltb_spec (Z.of_nat N) (off mod Z.of_nat N + Z.of_nat (length got))); [done|].
  rewrite bind_onX. intros [= _ _ <-]. apply store_wcs_ring; [done|].
  rewrite !length_app, length_take, length_drop, Hlen. lia.
Qed.

End spec.

(** ** A ring of four buffers *)
Module RingSample.

#[local] Instance phys : PhysOps := {| pa_to_va a := a + 4096 |}.
#[local] Instance srq : SrqOps sim := {| ib_post_srq_recv _ _ s := (0, s) |}.
#[local] Instance cfg : Cfg := kernel_cfg.

Definition script : list (ptr * Z) := [(1, 3); (1, 4); (1, 2)].

End RingSample.

