(* ===== verification/Runtime.v ===== *)
(** * The cooperative runtime

    src/KRdmaKit/src/runtime: task identifiers (tid.rs), tasks, their wakers and
    [yield_now] (task.rs), [wait_on] (waitable.rs) and the scheduling loop of a
    worker thread (worker.rs).

    A worker thread is a machine whose steps are the accesses to the queue it
    shares with the threads that spawn tasks: between two steps of the worker any
    number of tasks may be spawned.  The code of a task is arbitrary; what the
    runtime sees of it are its suspension points, so it is a tree [async] whose
    nodes are the two awaits of the module.  The theorems relate the machine to
    the tasks run one by one: a thread per task ([thread], [rstep]). *)

From S2P Require Import Prelude.
From stdpp Require Import sorting relations.

#[global] Open Scope Z_scope.

(** ** waitable.rs *)
Inductive WaitStatus : Set := Ready | Waiting | Error.

Definition is_ready (s : WaitStatus) : bool := match s with Ready => true | _ => false end.
Definition is_waiting (s : WaitStatus) : bool := match s with Waiting => true | _ => false end.
Definition is_error (s : WaitStatus) : bool := match s with Error => true | _ => false end.

(** The trait [Waitable]: [&mut self] is the state passed and returned. *)
Class Waitable (Wt : Type) := wait_one_round : Wt -> WaitStatus * Wt.

(** What [wait_on] returns once its flag has been written. *)
Definition wait_result (flag : bool) : Result unit unit := if flag then Ok tt else Err tt.

(** The capacity of both [ArrayQueue]s of a worker. *)
Definition QUEUE_CAP : nat := 1024.

(** An asynchronous block, up to its suspension points. *)
Inductive async (Wt R : Type) : Type :=
| Ret (r : R)
| YieldNow (k : async Wt R)
| WaitOn (w : Wt) (k : Result unit unit -> async Wt R).
Arguments Ret {Wt R} r.
Arguments YieldNow {Wt R} k.
Arguments WaitOn {Wt R} w k.

(** The state machine the compiler makes of a block: not polled yet, or
    suspended in the future [Yield] or [Wait] (with its field [flag], the address
    of the boxed flag and the rest of the block). *)
Inductive future (Wt R : Type) : Type :=
| Start (a : async Wt R)
| InYield (flag : bool) (k : async Wt R)
| InWait (flag : bool) (box : ptr) (k : Result unit unit -> async Wt R).
Arguments Start {Wt R} a.
Arguments InYield {Wt R} flag k.
Arguments InWait {Wt R} flag box k.

Record Task (Wt R : Type) : Type := mkTask { fut : future Wt R; tid : Z }.
Arguments mkTask {Wt R} fut tid.
Arguments fut {Wt R} t : rename.
Arguments tid {Wt R} t : rename.

Record WaitableWrapper (Wt : Type) : Type := mkWrapper { inner : Wt; wflag : ptr }.
Arguments mkWrapper {Wt} inner wflag.
Arguments inner {Wt} w : rename.
Arguments wflag {Wt} w : rename.

(** A worker with its thread: [spawner] and [next] are shared with the spawning
    threads; [queue], [tasks] (a task with its waker, that is the identifier the
    waker pushes), [WAITING] and [TASK_ID] belong to the thread; [boxes] are the
    flags [wait_on] has boxed; [outputs] what was sent on the channels of the
    join handles; [running] is the static [RUNNING]. *)
Record Worker (Wt R : Type) : Type := mkWorker {
  spawner : list (Task Wt R);
  next : Z;
  queue : list Z;
  tasks : gmap Z (Task Wt R * Z);
  WAITING : gmap Z (WaitableWrapper Wt);
  TASK_ID : Z;
  boxes : gmap Z bool;
  outputs : gmap Z R;
  running : bool;
  task_per_round : nat;
}.
Arguments mkWorker {Wt R}.
Arguments spawner {Wt R} w : rename.
Arguments next {Wt R} w : rename.
Arguments queue {Wt R} w : rename.
Arguments tasks {Wt R} w : rename.
Arguments WAITING {Wt R} w : rename.
Arguments TASK_ID {Wt R} w : rename.
Arguments boxes {Wt R} w : rename.
Arguments outputs {Wt R} w : rename.
Arguments running {Wt R} w : rename.
Arguments task_per_round {Wt R} w : rename.

(** Where the thread is in its loops: the test of [RUNNING], or a round (of the
    1,000,000) with the iterations of the inner loop that are left. *)
Inductive pc : Set :=
| Check
| Find (rounds : Z) (more : nat)
| Exited.
#[export] Instance pc_eq_dec : EqDecision pc.
Proof. solve_decision. Defined.

Section Worker.
Context {Wt R : Type} `{!Waitable Wt}.
Implicit Types (w : Worker Wt R).

Definition upd_spawner (s : list (Task Wt R)) (n : Z) w : Worker Wt R :=
  mkWorker s n (queue w) (tasks w) (WAITING w) (TASK_ID w) (boxes w) (outputs w)
    (running w) (task_per_round w).
Definition upd_queue (q : list Z) w : Worker Wt R :=
  mkWorker (spawner w) (next w) q (tasks w) (WAITING w) (TASK_ID w) (boxes w) (outputs w)
    (running w) (task_per_round w).
Definition upd_tasks (f : gmap Z (Task Wt R * Z) -> gmap Z (Task Wt R * Z)) w : Worker Wt R :=
  mkWorker (spawner w) (next w) (queue w) (f (tasks w)) (WAITING w) (TASK_ID w) (boxes w)
    (outputs w) (running w) (task_per_round w).
Definition upd_waiting (f : gmap Z (WaitableWrapper Wt) -> gmap Z (WaitableWrapper Wt)) w :
  Worker Wt R :=
  mkWorker (spawner w) (next w) (queue w) (tasks w) (f (WAITING w)) (TASK_ID w) (boxes w)
    (outputs w) (running w) (task_per_round w).
Definition upd_boxes (f : gmap Z bool -> gmap Z bool) w : Worker Wt R :=
  mkWorker (spawner w) (next w) (queue w) (tasks w) (WAITING w) (TASK_ID w) (f (boxes w))
    (outputs w) (running w) (task_per_round w).

Definition modify (f : Worker Wt R -> Worker Wt R) : M (Worker Wt R) unit :=
  fun w => Done (tt, f w).

(** *** task.rs *)
Definition get_current_task_id : M (Worker Wt R) Z := gets TASK_ID.
Definition set_current_task_id (i : Z) : M (Worker Wt R) unit :=
  modify (fun w => mkWorker (spawner w) (next w) (queue w) (tasks w) (WAITING w) i (boxes w)
                     (outputs w) (running w) (task_per_round w)).

(** [ArrayQueue::push] on the scheduling queue, with the [unwrap] of its callers. *)
Definition queue_push (i : Z) : M (Worker Wt R) unit := fun w =>
  if (length (queue w) <? QUEUE_CAP)%nat then Done (tt, upd_queue (queue w ++ [i]) w) else Panic.

Definition wake_task (waker : Z) : M (Worker Wt R) unit := queue_push waker.

(** [Yield::poll]: the new flag, and whether it is ready. *)
Definition yield_poll (flag : bool) (waker : Z) : M (Worker Wt R) (bool * bool) :=
  if flag then mret (flag, true) else wake_task waker ≫= fun _ => mret (true, false).

(** *** waitable.rs *)
Definition add_waitable (i : Z) (wr : WaitableWrapper Wt) : M (Worker Wt R) unit :=
  modify (upd_waiting <[i := wr]>).

(** [Wait::poll]. *)
Definition wait_poll (flag : bool) : bool * bool := if flag then (flag, true) else (true, false).

(** An address no live box has. *)
Definition fresh_box w : ptr := fresh (dom (boxes w) : gset Z).
Definition box_new (b : bool) : M (Worker Wt R) ptr := fun w =>
  let p := fresh_box w in Done (p, upd_boxes <[p := b]> w).
(** [*Box::from_raw(p)], and the box dropped. *)
Definition box_take (p : ptr) : M (Worker Wt R) bool := fun w =>
  match boxes w !! p with
  | Some b => Done (b, upd_boxes (delete p) w)
  | None => Panic
  end.
Definition set_flag (p : ptr) (b : bool) : M (Worker Wt R) unit := modify (upd_boxes <[p := b]>).

(** Before and after the await of [wait_on]. *)
Definition wait_on_start (x : Wt) : M (Worker Wt R) ptr :=
  p ← box_new false;
  i ← get_current_task_id;
  _ ← add_waitable i (mkWrapper x p);
  mret p.
Definition wait_on_end (p : ptr) : M (Worker Wt R) (Result unit unit) :=
  b ← box_take p; mret (wait_result b).

(** [sender.send(future.await)]: the value reaches the join handle of task [i]. *)
Definition send (i : Z) (r : R) : M (Worker Wt R) unit :=
  modify (fun w => mkWorker (spawner w) (next w) (queue w) (tasks w) (WAITING w) (TASK_ID w)
                     (boxes w) (<[i := r]> (outputs w)) (running w) (task_per_round w)).

(** Running a block from one of its points until it is pending ([Some] future to
    resume) or complete. *)
Fixpoint enter (i waker : Z) (a : async Wt R) : M (Worker Wt R) (option (future Wt R)) :=
  match a with
  | Ret r => _ ← send i r; mret None
  | YieldNow k =>
      '(flag, rdy) ← yield_poll false waker;
      if rdy : bool then enter i waker k else mret (Some (InYield flag k))
  | WaitOn x k =>
      p ← wait_on_start x;
      let '(flag, rdy) := wait_poll false in
      if rdy : bool then r ← wait_on_end p; enter i waker (k r)
      else mret (Some (InWait flag p k))
  end.

(** [Task::poll]. *)
Definition poll (t : Task Wt R) (waker : Z) : M (Worker Wt R) (option (future Wt R)) :=
  match fut t with
  | Start a => enter (tid t) waker a
  | InYield flag k =>
      '(flag, rdy) ← yield_poll flag waker;
      if rdy : bool then enter (tid t) waker k else mret (Some (InYield flag k))
  | InWait flag p k =>
      let '(flag, rdy) := wait_poll flag in
      if rdy : bool then r ← wait_on_end p; enter (tid t) waker (k r)
      else mret (Some (InWait flag p k))
  end.

(** *** worker.rs *)
Definition new (per_round : nat) : Worker Wt R :=
  mkWorker [] 0 [] ∅ ∅ 0 ∅ ∅ true per_round.

(** [TaskIdGenerator::next]. *)
Definition next_tid : M (Worker Wt R) Z := fun w =>
  Done (next w, upd_spawner (spawner w) (u64 (next w + 1)) w).

(** [spawner.push(task).expect(..)]. *)
Definition spawner_push (t : Task Wt R) : M (Worker Wt R) unit := fun w =>
  if (length (spawner w) <? QUEUE_CAP)%nat
  then Done (tt, upd_spawner (spawner w ++ [t]) (next w) w)
  else Panic.

Definition spawn (a : async Wt R) : M (Worker Wt R) unit :=
  i ← next_tid;
  spawner_push (mkTask (Start a) i).

(** The body of the [while let] of [find_task]. *)
Definition admit_task (t : Task Wt R) : M (Worker Wt R) unit :=
  let i := tid t in
  _ ← modify (upd_tasks <[i := (t, i)]>);
  queue_push i.

(** One test of the [while let] of [find_task]: [None] when the loop goes on,
    otherwise what [find_task] returns. *)
Definition find_task : M (Worker Wt R) (option (option Z)) := fun w =>
  match spawner w with
  | t :: rest =>
      (_ ← admit_task t; mret None) (upd_spawner rest (next w) w)
  | [] =>
      match queue w with
      | i :: q => Done (Some (Some i), upd_queue q w)
      | [] => Done (Some None, w)
      end
  end.

(** The closure applied to the task found. *)
Definition run_task (i : Z) : M (Worker Wt R) unit :=
  entry ← gets (fun w => tasks w !! i);
  match entry with
  | Some (t, waker) =>
      _ ← set_current_task_id i;
      r ← poll t waker;
      match r with
      | None => modify (upd_tasks (delete i))
      | Some f => modify (upd_tasks <[i := (mkTask f (tid t), waker)]>)
      end
  | None => mret tt
  end.

(** The body of the loop over the waitables. *)
Definition wait_one (i : Z) : M (Worker Wt R) (list Z) :=
  entry ← gets (fun w => WAITING w !! i);
  match entry with
  | Some wr =>
      let '(status, x) := wait_one_round (inner wr) in
      _ ← modify (upd_waiting <[i := mkWrapper x (wflag wr)]>);
      if is_ready status then _ ← set_flag (wflag wr) true; mret [i]
      else if is_error status then _ ← set_flag (wflag wr) false; mret [i]
      else mret []
  | None => mret []
  end.

Fixpoint wait_each (keys : list Z) : M (Worker Wt R) (list Z) :=
  match keys with
  | [] => mret []
  | i :: keys => v ← wait_one i; v' ← wait_each keys; mret (v ++ v')
  end.

(** The body of the loop over the tasks to wake. *)
Definition wake_one (i : Z) : M (Worker Wt R) unit :=
  _ ← modify (upd_waiting (delete i));
  entry ← gets (fun w => tasks w !! i);
  match entry with Some (_, waker) => wake_task waker | None => mret tt end.

Fixpoint wake_each (ids : list Z) : M (Worker Wt R) unit :=
  match ids with [] => mret tt | i :: ids => _ ← wake_one i; wake_each ids end.

(** A [BTreeMap] is iterated in the order of its keys. *)
Definition keys_in_order {A} (m : gmap Z A) : list Z := merge_sort Z.le (map_to_list m).*1.

Definition wait_round : M (Worker Wt R) unit :=
  keys ← gets (fun w => keys_in_order (WAITING w));
  v ← wait_each keys;
  wake_each v.

(** One step of the thread that [start] spawns. *)
Definition work (c : pc) : M (Worker Wt R) pc := fun w =>
  match c with
  | Check =>
      if running w then Done (Find 1000000 (task_per_round w), w)
      else Done (Exited, upd_waiting (fun _ => ∅) w)
  | Find rounds (S more) =>
      (r ← find_task;
       match r with
       | None => mret (Find rounds (S more))
       | Some None => mret (Find rounds more)
       | Some (Some i) => _ ← run_task i; mret (Find rounds more)
       end) w
  | Find rounds O =>
      (_ ← wait_round;
       mret (if rounds =? 1 then Check else Find (rounds - 1) (task_per_round w))) w
  | Exited => Done (Exited, w)
  end.

(** *** Executions: spawning threads and the worker take turns. *)
Inductive action : Type :=
| Spawn (a : async Wt R)
| Work.

Definition act (c : pc * Worker Wt R) (x : action) : outcome (pc * Worker Wt R) :=
  match x with
  | Spawn a => match spawn a c.2 with Done (_, w) => Done (c.1, w) | Panic => Panic end
  | Work => match work c.1 c.2 with Done (c', w) => Done (c', w) | Panic => Panic end
  end.

Fixpoint exec (xs : list action) (c : pc * Worker Wt R) : outcome (pc * Worker Wt R) :=
  match xs with
  | [] => Done c
  | x :: xs => match act c x with Done c' => exec xs c' | Panic => Panic end
  end.

Definition start (per_round : nat) : pc * Worker Wt R := (Check, new per_round).

(** The blocks an execution spawns, in order. *)
Fixpoint bodies (xs : list action) : list (async Wt R) :=
  match xs with
  | [] => []
  | Spawn a :: xs => a :: bodies xs
  | Work :: xs => bodies xs
  end.

(** *** Specification: every task as a thread of its own *)
Inductive thread : Type :=
| Run (a : async Wt R)
| Blocked (x : Wt) (k : Result unit unit -> async Wt R)
| Finished (r : R).

Definition rstep (th : thread) : option thread :=
  match th with
  | Run (Ret r) => Some (Finished r)
  | Run (YieldNow k) => Some (Run k)
  | Run (WaitOn x k) => Some (Blocked x k)
  | Blocked x k =>
      let '(status, x') := wait_one_round x in
      Some match status with
           | Ready => Run (k (Ok tt))
           | Error => Run (k (Err tt))
           | Waiting => Blocked x' k
           end
  | Finished _ => None
  end.

(** [runs n th r]: the thread finishes with [r] after [n] steps. *)
Inductive runs : nat -> thread -> R -> Prop :=
| runs_done r : runs 0 (Finished r) r
| runs_step n th th' r : rstep th = Some th' -> runs n th' r -> runs (S n) th r.

End Worker.
Arguments thread : clear implicits.
Arguments action : clear implicits.

(** ** The simulation

    [place w i o] says where the parts of task [i] are in the worker when its
    thread is [o]; [except i mine w ths] is the invariant while task [i] is taken
    out of the structures, with the box [mine] its own. *)
Section Simulation.
Context {Wt R : Type} `{!Waitable Wt}.
Implicit Types (w : Worker Wt R) (ths : gmap Z (thread Wt R)).

(** The block a suspended future resumes with. *)
Inductive resumes w : future Wt R -> async Wt R -> Prop :=
| resumes_start a : resumes w (Start a) a
| resumes_yield k : resumes w (InYield true k) k
| resumes_wait p b k : boxes w !! p = Some b -> resumes w (InWait true p k) (k (wait_result b)).

Definition box_of (f : future Wt R) : option ptr :=
  match f with InWait _ p _ => Some p | _ => None end.

Definition owns w (i : Z) (p : ptr) : Prop :=
  exists e, tasks w !! i = Some e /\ box_of (fut e.1) = Some p.

Definition spawned w (i : Z) : Prop := exists t, t ∈ spawner w /\ tid t = i.

(** Nothing of task [i] is in the queues or among the waitables. *)
Definition unscheduled w (i : Z) : Prop :=
  outputs w !! i = None /\ (i ∉ queue w) /\ WAITING w !! i = None /\ ~ spawned w i.

Inductive place w (i : Z) : option (thread Wt R) -> Prop :=
| place_none : unscheduled w i -> tasks w !! i = None -> place w i None
| place_finished r :
    outputs w !! i = Some r -> i ∉ queue w -> WAITING w !! i = None -> ~ spawned w i ->
    tasks w !! i = None -> place w i (Some (Finished r))
| place_spawned a :
    outputs w !! i = None -> i ∉ queue w -> WAITING w !! i = None ->
    mkTask (Start a) i ∈ spawner w -> tasks w !! i = None -> place w i (Some (Run a))
| place_ready f a :
    outputs w !! i = None -> i ∈ queue w -> WAITING w !! i = None -> ~ spawned w i ->
    tasks w !! i = Some (mkTask f i, i) -> resumes w f a -> place w i (Some (Run a))
| place_blocked wr k :
    outputs w !! i = None -> i ∉ queue w -> WAITING w !! i = Some wr -> ~ spawned w i ->
    tasks w !! i = Some (mkTask (InWait true (wflag wr) k) i, i) ->
    place w i (Some (Blocked (inner wr) k)).

Record sim w ths : Prop := {
  sim_at i : place w i (ths !! i);
  sim_queue : NoDup (queue w);
  sim_cap : (length (queue w) <= QUEUE_CAP)%nat;
  sim_spawner : NoDup (tid <$> spawner w);
  sim_box p : is_Some (boxes w !! p) <-> exists i, owns w i p;
  sim_own i j p : owns w i p -> owns w j p -> i = j;
}.

Record except (i : Z) (mine : option ptr) w ths : Prop := {
  ex_free : unscheduled w i;
  ex_at j : j ≠ i -> place w j (ths !! j);
  ex_queue : NoDup (queue w);
  ex_cap : (length (queue w) <= QUEUE_CAP)%nat;
  ex_spawner : NoDup (tid <$> spawner w);
  ex_box p : is_Some (boxes w !! p) <-> (exists j, j ≠ i /\ owns w j p) \/ mine = Some p;
  ex_own j j' p : j ≠ i -> j' ≠ i -> owns w j p -> owns w j' p -> j = j';
  ex_mine j p : j ≠ i -> mine = Some p -> ~ owns w j p;
}.

(** *** Locality: a place depends on the task's own parts only *)
Record same_at (j : Z) w w' : Prop := {
  same_outputs : outputs w' !! j = outputs w !! j;
  same_queue : j ∈ queue w' <-> j ∈ queue w;
  same_waiting : WAITING w' !! j = WAITING w !! j;
  same_spawner t : tid t = j -> (t ∈ spawner w' <-> t ∈ spawner w);
  same_tasks : tasks w' !! j = tasks w !! j;
  same_boxes p : owns w j p -> boxes w' !! p = boxes w !! p;
}.

Lemma same_spawned j w w' : same_at j w w' -> spawned w' j <-> spawned w j.
Proof. intros S. unfold spawned. split; intros (t & Ht & E); exists t; by rewrite ?(same_spawner _ _ _ S t E) in *. Qed.

Lemma same_place j w w' o : same_at j w w' -> place w j o -> place w' j o.
Proof.
  intros S P. pose proof (same_spawned _ _ _ S) as Sp. destruct S as [So Sq Sw Ss St Sb].
  destruct P as [(?&?&?&?) ?|r|a|f a ???? Ht Hr|].
  - apply place_none; [|congruence]. repeat split; try congruence; by rewrite ?Sq, ?Sp.
  - apply place_finished; try congruence; by rewrite ?Sq, ?Sp.
  - apply place_spawned; try congruence; by rewrite ?Sq, ?(Ss (mkTask (Start a) j)).
  - apply (place_ready _ _ f); try congruence; try (by rewrite ?Sq, ?Sp).
    destruct Hr as [| |p b k Hb]; try constructor. rewrite Sb; [done|]. by eexists.
  - apply place_blocked; try congruence; by rewrite ?Sq, ?Sp.
Qed.

Lemma same_owns j w w' p : same_at j w w' -> owns w' j p <-> owns w j p.
Proof. intros S. unfold owns. by rewrite (same_tasks _ _ _ S). Qed.

(** Any change that leaves the other tasks alone keeps [except]. *)
Lemma except_same i mine mine' w w' ths ths' :
  except i mine w ths ->
  (forall j, j ≠ i -> same_at j w w' /\ ths' !! j = ths !! j) ->
  unscheduled w' i -> NoDup (queue w') -> (length (queue w') <= QUEUE_CAP)%nat ->
  NoDup (tid <$> spawner w') ->
  (forall p, is_Some (boxes w' !! p) <-> (exists j, j ≠ i /\ owns w j p) \/ mine' = Some p) ->
  (forall j p, j ≠ i -> mine' = Some p -> ~ owns w j p) ->
  except i mine' w' ths'.
Proof.
  intros X S U NQ L NS B Mi.
  assert (O : forall j p, j ≠ i -> owns w' j p <-> owns w j p).
  { intros j p Hj. by apply same_owns, S. }
  constructor; try done.
  - intros j Hj. destruct (S j Hj) as [Sj ->]. by eapply same_place, (ex_at _ _ _ _ X).
  - intros p. rewrite B. split; (intros [(j & Hj & ?)|?]; [left; exists j|by right]); by rewrite O in *.
  - intros j j' p Hj Hj'. rewrite !O by done. by apply (ex_own _ _ _ _ X).
  - intros j p Hj Hm. rewrite O by done. by apply Mi.
Qed.

(** *** Taking a task out *)
Ltac same_tac :=
  constructor; cbn [outputs queue WAITING spawner tasks boxes
    upd_spawner upd_queue upd_tasks upd_waiting upd_boxes];
  intros; rewrite ?lookup_insert_ne, ?lookup_delete_ne by done; try done.

(** Removing task [i] from the structures that hold it leaves [except]. *)
Lemma sim_leave i w w' ths e :
  sim w ths -> tasks w !! i = Some e -> unscheduled w' i ->
  (forall j, j ≠ i -> same_at j w w') -> boxes w' = boxes w ->
  NoDup (queue w') -> (length (queue w') <= QUEUE_CAP)%nat -> NoDup (tid <$> spawner w') ->
  except i (box_of (fut e.1)) w' ths.
Proof.
  intros X Ht U S B NQ L NS.
  assert (O : forall j p, j ≠ i -> owns w' j p <-> owns w j p).
  { intros j p Hj. by apply same_owns, S. }
  constructor; try done.
  - intros j Hj. eapply same_place, X. by apply S.
  - intros p. rewrite B, (sim_box _ _ X p). split.
    + intros (j & Hj). destruct (decide (j = i)) as [->|Hn].
      * right. destruct Hj as (e' & He' & ?). congruence.
      * left. exists j. by rewrite O.
    + intros [(j & Hn & Hj)|Hm]; [exists j; by rewrite <- O|]. exists i. by exists e.
  - intros j j' p Hj Hj'. rewrite !O by done. apply X.
  - intros j p Hj Hm. rewrite O by done. intros Ho. apply Hj, (sim_own _ _ X _ _ p Ho). by exists e.
Qed.

Lemma leave_queue i q w ths :
  sim w ths -> queue w = i :: q ->
  exists f a, tasks w !! i = Some (mkTask f i, i) /\ resumes w f a /\ ths !! i = Some (Run a) /\
    except i (box_of f) (upd_queue q w) ths /\ (length q < QUEUE_CAP)%nat.
Proof.
  intros X E. pose proof (sim_queue _ _ X) as ND. rewrite E in ND. apply NoDup_cons in ND as [Hi ND].
  pose proof (sim_cap _ _ X) as L. rewrite E in L. simpl in L.
  pose proof (sim_at _ _ X i) as P. assert (Hq : i ∈ queue w) by (rewrite E; set_solver).
  inversion P as [(?&?&?) |? ? ?|? ? ?|f a Ho _ Hw Hs Ht Hr Ha|? ? ? ?]; try done.
  exists f, a. do 3 (split; [done|]). split; [|lia].
  apply (sim_leave i w _ ths (mkTask f i, i)); try done; cbn [queue upd_queue].
  - intros j Hj. same_tac. rewrite E. set_solver.
  - lia.
  - apply X.
Qed.

Lemma leave_spawner t rest w ths :
  sim w ths -> spawner w = t :: rest ->
  exists a, t = mkTask (Start a) (tid t) /\ ths !! tid t = Some (Run a) /\
    tasks w !! tid t = None /\ except (tid t) None (upd_spawner rest (next w) w) ths.
Proof.
  intros X E. pose proof (sim_spawner _ _ X) as ND. rewrite E in ND.
  apply NoDup_cons in ND as [Hi ND].
  assert (Hs : spawned w (tid t)) by (exists t; rewrite E; set_solver).
  assert (Hf : ~ spawned (upd_spawner rest (next w) w) (tid t)).
  { intros (t' & Ht' & Hid). apply Hi. rewrite <- Hid. by apply list_elem_of_fmap_2. }
  pose proof (sim_at _ _ X (tid t)) as P.
  inversion P as [(?&?&?&?)|? ? ? ?|a Ho Hq Hw Hin Ht Ha|? ? ? ? ?|? ? ? ? ?]; try done.
  exists a. split; [|split; [done|split; [done|]]].
  { rewrite E in Hin. apply elem_of_cons in Hin as [->|Hin]; [done|].
    contradict Hf. by exists (mkTask (Start a) (tid t)). }
  constructor; cbn [queue spawner boxes upd_spawner]; try apply X; try done.
  - intros j Hj. eapply same_place, X. same_tac. rewrite E. set_solver.
  - intros p. etrans; [apply (sim_box _ _ X p)|]. split; [|intros [(j & _ & ?)|?]; [by exists j|done]].
    intros (j & e & He & ?). left. exists j. (split; [congruence|]); by exists e.
  - intros j j' p _ _. apply X.
Qed.

Lemma leave_waiting i wr w ths :
  sim w ths -> WAITING w !! i = Some wr ->
  exists k, tasks w !! i = Some (mkTask (InWait true (wflag wr) k) i, i) /\
    ths !! i = Some (Blocked (inner wr) k) /\
    except i (Some (wflag wr)) (upd_waiting (delete i) w) ths.
Proof.
  intros X E. pose proof (sim_at _ _ X i) as P.
  inversion P as [(?&?&?&?)|? ? ? ?|? ? ? ? ?|? ? ? ? ? ?|wr' k Ho Hq Hw Hs Ht Hb]; try congruence.
  replace wr' with wr in * by congruence. exists k. do 2 (split; [done|]).
  apply (sim_leave i w _ ths (mkTask (InWait true (wflag wr) k) i, i)); try done;
    cbn [queue spawner upd_waiting]; try apply X.
  - repeat split; try done; cbn [WAITING upd_waiting]; apply lookup_delete_eq.
  - intros j Hj. same_tac.
Qed.

(** *** Putting it back *)
Lemma sim_back i mine w w' ths th :
  except i mine w ths -> place w' i (Some th) ->
  (forall p, owns w' i p <-> mine = Some p) ->
  (forall j, j ≠ i -> same_at j w w') -> boxes w' = boxes w ->
  NoDup (queue w') -> (length (queue w') <= QUEUE_CAP)%nat -> NoDup (tid <$> spawner w') ->
  sim w' (<[i := th]> ths).
Proof.
  intros X P Mi S B NQ L NS.
  assert (O : forall j p, j ≠ i -> owns w' j p <-> owns w j p).
  { intros j p Hj. by apply same_owns, S. }
  constructor; try done.
  - intros j. destruct (decide (j = i)) as [->|Hj]; [by rewrite lookup_insert_eq|].
    rewrite lookup_insert_ne by done. eapply same_place, (ex_at _ _ _ _ X); auto.
  - intros p. rewrite B, (ex_box _ _ _ _ X p). split.
    + intros [(j & Hj & ?)|Hm]; [exists j; by apply O|exists i; by apply Mi].
    + intros (j & Hj). destruct (decide (j = i)) as [->|Hn]; [right; by apply Mi|].
      left. exists j. split; [done|by apply O].
  - intros j j' p. destruct (decide (j = i)) as [->|Hj], (decide (j' = i)) as [->|Hj']; try done.
    + intros Hp%Mi Ho%O; [|done]. by destruct (ex_mine _ _ _ _ X j' p Hj' Hp).
    + intros Ho%O Hp%Mi; [|done]. by destruct (ex_mine _ _ _ _ X j p Hj Hp).
    + rewrite !O by done. by apply (ex_own _ _ _ _ X).
Qed.

Lemma back_ready i f a w ths :
  except i (box_of f) w ths -> (length (queue w) < QUEUE_CAP)%nat -> resumes w f a ->
  sim (upd_queue (queue w ++ [i]) (upd_tasks <[i := (mkTask f i, i)]> w)) (<[i := Run a]> ths).
Proof.
  intros X L Hr. destruct (ex_free _ _ _ _ X) as (Ho & Hq & Hw & Hs).
  apply (sim_back i (box_of f) w); try done; cbn [queue spawner upd_queue upd_tasks].
  - apply (place_ready _ _ f); try done; cbn [queue tasks upd_queue upd_tasks].
    + set_solver.
    + apply lookup_insert_eq.
    + by destruct Hr; constructor.
  - intros p. unfold owns. cbn [tasks upd_queue upd_tasks]. rewrite lookup_insert_eq. naive_solver.
  - intros j Hj. same_tac. set_solver.
  - apply NoDup_app. split; [apply X|]. split; [set_solver|apply NoDup_singleton].
  - rewrite length_app. simpl. lia.
  - apply X.
Qed.

Lemma back_blocked i wr k w ths :
  except i (Some (wflag wr)) w ths ->
  sim (upd_tasks <[i := (mkTask (InWait true (wflag wr) k) i, i)]> (upd_waiting <[i := wr]> w))
    (<[i := Blocked (inner wr) k]> ths).
Proof.
  intros X. destruct (ex_free _ _ _ _ X) as (Ho & Hq & Hw & Hs).
  apply (sim_back i (Some (wflag wr)) w); try done; cbn [queue spawner upd_waiting upd_tasks];
    try apply X.
  - apply place_blocked; try done; cbn [tasks WAITING upd_waiting upd_tasks]; apply lookup_insert_eq.
  - intros p. unfold owns. cbn [tasks upd_waiting upd_tasks]. rewrite lookup_insert_eq. naive_solver.
  - intros j Hj. same_tac.
Qed.

Definition finish (i : Z) (r : R) w : Worker Wt R :=
  upd_tasks (delete i)
    (mkWorker (spawner w) (next w) (queue w) (tasks w) (WAITING w) (TASK_ID w)
       (boxes w) (<[i := r]> (outputs w)) (running w) (task_per_round w)).

Lemma back_finished i r w ths :
  except i None w ths -> sim (finish i r w) (<[i := Finished r]> ths).
Proof.
  intros X. destruct (ex_free _ _ _ _ X) as (Ho & Hq & Hw & Hs).
  apply (sim_back i None w); try done; try apply X.
  - apply place_finished; try done; cbn [tasks outputs finish upd_tasks];
      [apply lookup_insert_eq|apply lookup_delete_eq].
  - intros p. unfold owns. cbn [tasks finish upd_tasks]. rewrite lookup_delete_eq. naive_solver.
  - intros j Hj. unfold finish. same_tac.
Qed.

(** *** The boxed flag of the task taken out *)
Lemma except_alloc i b w ths :
  except i None w ths ->
  except i (Some (fresh_box w)) (upd_boxes <[fresh_box w := b]> w) ths.
Proof.
  intros X. set (p := fresh_box w).
  assert (Hp : boxes w !! p = None) by (apply not_elem_of_dom, is_fresh).
  assert (Hn : forall j q, owns w j q -> j ≠ i -> q ≠ p).
  { intros j q Hj Hji ->. destruct (ex_box _ _ _ _ X p) as [_ B]. rewrite Hp in B.
    destruct B as [? ?]; [by eauto|done]. }
  apply (except_same i None _ w _ ths ths X); try apply X.
  - intros j Hj. split; [|done]. same_tac. rewrite lookup_insert_ne; [done|]. intros E.
    by eapply Hn.
  - intros q. cbn [boxes upd_boxes]. rewrite lookup_insert_is_Some, (ex_box _ _ _ _ X q).
    destruct (decide (p = q)) as [->|Hq]; naive_solver.
  - intros j q Hj [= <-] Hq. by eapply Hn.
Qed.

Lemma except_dealloc i p w ths :
  except i (Some p) w ths -> except i None (upd_boxes (delete p) w) ths.
Proof.
  intros X. apply (except_same i (Some p) _ w _ ths ths X); try apply X; try done.
  - intros j Hj. split; [|done]. same_tac. rewrite lookup_delete_ne; [done|].
    intros ->. by apply (ex_mine _ _ _ _ X j p0).
  - intros q. cbn [boxes upd_boxes]. rewrite lookup_delete_is_Some, (ex_box _ _ _ _ X q).
    pose proof (ex_mine _ _ _ _ X). naive_solver.
Qed.

Lemma except_set_flag i p b w ths :
  except i (Some p) w ths -> except i (Some p) (upd_boxes <[p := b]> w) ths.
Proof.
  intros X. apply (except_same i (Some p) _ w _ ths ths X); try apply X; try done.
  - intros j Hj. split; [|done]. same_tac. rewrite lookup_insert_ne; [done|].
    intros ->. by apply (ex_mine _ _ _ _ X j p0).
  - intros q. cbn [boxes upd_boxes]. rewrite lookup_insert_is_Some, (ex_box _ _ _ _ X q).
    destruct (decide (p = q)) as [->|Hq]; naive_solver.
Qed.

(** *** Polling a task is one step of its thread *)
Definition statics w : Z * bool * nat := (next w, running w, task_per_round w).

Definition with_tid (i : Z) w : Worker Wt R :=
  mkWorker (spawner w) (next w) (queue w) (tasks w) (WAITING w) i (boxes w)
    (outputs w) (running w) (task_per_round w).

Lemma except_tid i i' mine w ths : except i mine w ths -> except i mine (with_tid i' w) ths.
Proof.
  intros X. apply (except_same i mine mine w _ ths ths X); try apply X.
  intros j Hj. split; [|done]. unfold with_tid. same_tac.
Qed.

(** The table of tasks after a poll. *)
Definition settle (i : Z) (r : option (future Wt R)) w : Worker Wt R :=
  match r with
  | None => upd_tasks (delete i) w
  | Some f => upd_tasks <[i := (mkTask f i, i)]> w
  end.

Lemma enter_spec i a w ths :
  except i None w ths -> (length (queue w) < QUEUE_CAP)%nat -> TASK_ID w = i ->
  exists r w' th, enter i i a w = Done (r, w') /\ rstep (Run a) = Some th /\
    sim (settle i r w') (<[i := th]> ths) /\ statics w' = statics w /\ spawner w' = spawner w.
Proof.
  intros X L T. destruct a as [r|k|x k].
  - eexists None, _, (Finished r). do 2 (split; [done|]). split; [|done]. exact (back_finished i r w ths X).
  - eexists (Some (InYield true k)), _, (Run k). split.
    { cbn [enter]. unfold yield_poll, wake_task, queue_push. rewrite !bind_run.
      apply Nat.ltb_lt in L. by rewrite L. }
    split; [done|]. split; [|done]. apply (back_ready i (InYield true k) k w ths); [done|done|constructor].
  - eexists (Some (InWait true _ k)), _, (Blocked x k). split; [cbn; reflexivity|].
    split; [done|]. split; [|done]. subst i.
    apply (back_blocked (TASK_ID w) (mkWrapper x (fresh_box w)) k). by apply except_alloc.
Qed.

Lemma poll_spec i f a w ths :
  except i (box_of f) w ths -> (length (queue w) < QUEUE_CAP)%nat -> TASK_ID w = i ->
  resumes w f a ->
  exists r w' th, poll (mkTask f i) i w = Done (r, w') /\ rstep (Run a) = Some th /\
    sim (settle i r w') (<[i := th]> ths) /\ statics w' = statics w /\ spawner w' = spawner w.
Proof.
  intros X L T Hr. destruct Hr as [a|k|p b k Hb]; cbn [poll fut tid].
  - by apply enter_spec.
  - by apply enter_spec.
  - unfold wait_on_end, box_take. cbn [wait_poll]. rewrite !bind_run, Hb. cbn.
    by apply (enter_spec i (k (wait_result b)) (upd_boxes (delete p) w)); [apply except_dealloc|..].
Qed.

Lemma run_task_spec i q w ths :
  sim w ths -> queue w = i :: q ->
  exists w' a th, run_task i (upd_queue q w) = Done (tt, w') /\
    ths !! i = Some (Run a) /\ rstep (Run a) = Some th /\
    sim w' (<[i := th]> ths) /\ statics w' = statics w /\ spawner w' = spawner w.
Proof.
  intros X E. destruct (leave_queue i q w ths X E) as (f & a & Ht & Hr & Ha & X1 & L).
  destruct (poll_spec i f a (with_tid i (upd_queue q w)) ths) as (r & w' & th & Hp & Hth & S & St & Sp);
    [by apply except_tid|done|done|by destruct Hr; constructor|].
  exists (settle i r w'), a, th. split; [|by destruct r].
  unfold run_task. rewrite bind_gets. cbn [tasks upd_queue]. rewrite Ht.
  rewrite bind_run. cbn [set_current_task_id modify]. rewrite bind_run.
  change (mkWorker _ _ _ _ _ i _ _ _ _) with (with_tid i (upd_queue q w)). rewrite Hp. by destruct r.
Qed.

(** *** Steps of several threads at once *)
Definition stepped (S : gset Z) ths ths' : Prop :=
  (forall i, i ∈ S -> exists th th', ths !! i = Some th /\ rstep th = Some th' /\ ths' !! i = Some th') /\
  (forall i, i ∉ S -> ths' !! i = ths !! i).

Lemma stepped_refl ths : stepped ∅ ths ths.
Proof. split; [set_solver|done]. Qed.

Lemma stepped_one i th th' ths :
  ths !! i = Some th -> rstep th = Some th' -> stepped {[i]} ths (<[i := th']> ths).
Proof.
  intros Hi Hs. split.
  - intros j ->%elem_of_singleton. exists th, th'. by rewrite lookup_insert_eq.
  - intros j Hj. apply lookup_insert_ne. set_solver.
Qed.

Lemma stepped_app S1 S2 ths1 ths2 ths3 :
  S1 ## S2 -> stepped S1 ths1 ths2 -> stepped S2 ths2 ths3 -> stepped (S1 ∪ S2) ths1 ths3.
Proof.
  intros D [A1 B1] [A2 B2]. split.
  - intros i [Hi|Hi]%elem_of_union.
    + destruct (A1 i Hi) as (th & th' & ? & ? & ?). exists th, th'. rewrite B2; set_solver.
    + destruct (A2 i Hi) as (th & th' & ? & ? & ?). exists th, th'. rewrite <- B1; set_solver.
  - intros i Hi. rewrite B2, B1; set_solver.
Qed.

Lemma stepped_dom S ths ths' : stepped S ths ths' -> dom ths' = dom ths.
Proof.
  intros [A B]. apply set_eq. intros i. rewrite !elem_of_dom. destruct (decide (i ∈ S)) as [Hi|Hi].
  - destruct (A i Hi) as (th & th' & -> & _ & ->). by split.
  - by rewrite B.
Qed.

Lemma stepped_size S ths ths' : stepped S ths ths' -> size ths' = size ths.
Proof. intros H%stepped_dom. by rewrite <- !size_dom, H. Qed.

(** *** A full queue means more tasks than its capacity *)
Lemma except_full i mine w ths th :
  except i mine w ths -> ths !! i = Some th -> ~ (length (queue w) < QUEUE_CAP)%nat ->
  (QUEUE_CAP < size ths)%nat.
Proof.
  intros X Hi L.
  assert (Hsub : {[i]} ∪ list_to_set (queue w) ⊆ dom ths).
  { intros j [->%elem_of_singleton|Hj%elem_of_list_to_set]%elem_of_union; [by apply elem_of_dom_2 in Hi|].
    destruct (decide (j = i)) as [->|Hn]; [by apply elem_of_dom_2 in Hi|].
    pose proof (ex_at _ _ _ _ X j Hn) as P. apply elem_of_dom.
    inversion P as [(?&?&?&?)| | | |]; by eauto. }
  apply subseteq_size in Hsub. rewrite size_dom, size_union, size_singleton in Hsub.
  - rewrite size_list_to_set in Hsub by apply X. lia.
  - destruct (ex_free _ _ _ _ X) as (_ & Hq & _). set_solver.
Qed.

(** What every step of the worker either does or fails of. *)
Definition step_ok {A} (m : outcome (A * Worker Wt R)) w ths (post : A -> Worker Wt R ->
  gmap Z (thread Wt R) -> Prop) : Prop :=
  (m = Panic /\ (QUEUE_CAP < size ths)%nat) \/
  exists a w' ths', m = Done (a, w') /\ sim w' ths' /\ statics w' = statics w /\ post a w' ths'.

(** Pushing a task back, or the queue is full. *)
Lemma push_back {A} i f a w0 w ths th (x : A) (post : A -> Worker Wt R -> gmap Z (thread Wt R) -> Prop) :
  except i (box_of f) w ths -> ths !! i = Some th -> resumes w f a -> statics w = statics w0 ->
  tasks w !! i = Some (mkTask f i, i) ->
  post x (upd_queue (queue w ++ [i]) w) (<[i := Run a]> ths) ->
  step_ok ((_ ← queue_push i; mret x) w) w0 ths post.
Proof.
  intros X Hi Hr St Ht Hp. rewrite bind_run. unfold queue_push.
  destruct (length (queue w) <? QUEUE_CAP)%nat eqn:L.
  - apply Nat.ltb_lt in L. right. eexists x, _, _. split; [done|]. split; [|by split].
    pose proof (back_ready i f a w ths X L Hr) as B.
    destruct w; unfold upd_tasks, upd_queue in *; cbn in *. by rewrite insert_id in B.
  - left. split; [done|]. apply Nat.ltb_ge in L. eapply except_full; [done..|lia].
Qed.

Lemma find_task_spawned t rest w ths :
  sim w ths -> spawner w = t :: rest ->
  step_ok (find_task w) w ths (fun r w' ths' => r = None /\ ths' = ths /\ spawner w' = rest).
Proof.
  intros X E. destruct (leave_spawner t rest w ths X E) as (a & Et & Ha & Ht & X1).
  unfold find_task. rewrite E. unfold admit_task. rewrite bind_assoc, bind_run. cbn [modify tid].
  eapply (push_back _ (Start a) a); [|done|apply resumes_start|done|by rewrite <- Et; apply lookup_insert_eq|].
  - apply (except_same _ None _ (upd_spawner rest (next w) w) _ ths ths X1); try apply X1.
    intros j Hj. split; [|done]. same_tac.
  - repeat split. by apply insert_id.
Qed.

(** *** A round of waiting is a sequence of complete waits

    The loop over the waitables and the loop over the tasks to wake can be
    merged, because they touch different keys. *)
Definition wait_wake (i : Z) : M (Worker Wt R) unit := v ← wait_one i; wake_each v.

Fixpoint wait_wake_each (keys : list Z) : M (Worker Wt R) unit :=
  match keys with [] => mret tt | i :: keys => _ ← wait_wake i; wait_wake_each keys end.

(** The effect of one turn of each loop, as functions. *)
Definition waited (wr : WaitableWrapper Wt) (i : Z) w : list Z * Worker Wt R :=
  let '(status, x) := wait_one_round (inner wr) in
  let w1 := upd_waiting <[i := mkWrapper x (wflag wr)]> w in
  if is_waiting status then ([], w1)
  else ([i], upd_boxes <[wflag wr := is_ready status]> w1).

Lemma wait_one_run i w :
  wait_one i w = Done (match WAITING w !! i with Some wr => waited wr i w | None => ([], w) end).
Proof.
  unfold wait_one, waited. rewrite bind_gets. destruct (WAITING w !! i) as [wr|]; [|done].
  by destruct (wait_one_round (inner wr)) as [[| |] x].
Qed.

Lemma wake_one_run i w :
  wake_one i w = match tasks w !! i with
                 | Some (_, wk) => queue_push wk (upd_waiting (delete i) w)
                 | None => Done (tt, upd_waiting (delete i) w)
                 end.
Proof. unfold wake_one. rewrite bind_run. cbn. rewrite bind_gets. cbn. by destruct (tasks w !! i) as [[]|]. Qed.

Lemma waited_comm i j wr w :
  i ≠ j -> waited wr j (upd_waiting (delete i) w) =
           ((waited wr j w).1, upd_waiting (delete i) (waited wr j w).2).
Proof.
  intros Hij. unfold waited. destruct (wait_one_round (inner wr)) as [[| |] x]; cbn;
    unfold upd_waiting; cbn; by rewrite delete_insert_ne.
Qed.

Lemma waited_other wr j w : tasks (waited wr j w).2 = tasks w /\ queue (waited wr j w).2 = queue w.
Proof. unfold waited. by destruct (wait_one_round (inner wr)) as [[| |] x]. Qed.

Lemma waited_push q wr j w :
  waited wr j (upd_queue q w) = ((waited wr j w).1, upd_queue q (waited wr j w).2).
Proof. unfold waited. by destruct (wait_one_round (inner wr)) as [[| |] x]. Qed.

Lemma wake_wait_comm {A} i j (K : list Z -> M (Worker Wt R) A) w :
  i ≠ j ->
  (wake_one i ≫= fun _ => wait_one j ≫= K) w = (wait_one j ≫= fun v => wake_one i ≫= fun _ => K v) w.
Proof.
  intros Hij. rewrite !bind_run, wait_one_run, wake_one_run.
  assert (L : WAITING (upd_waiting (delete i) w) !! j = WAITING w !! j) by by apply lookup_delete_ne.
  destruct (WAITING w !! j) as [wr|] eqn:Ej.
  - destruct (waited_other wr j w) as [Ht Hq]. pose proof (waited_comm i j wr w Hij) as C.
    destruct (waited wr j w) as [v w1] eqn:Ew. cbn in Ht, Hq, C.
    rewrite bind_run, wake_one_run, Ht. destruct (tasks w !! i) as [[t wk]|].
    + unfold queue_push. cbn [queue upd_waiting]. rewrite Hq.
      destruct (length (queue w) <? QUEUE_CAP)%nat; [|done].
      rewrite bind_run, wait_one_run. cbn [WAITING upd_queue]. rewrite L, waited_push, C. done.
    + rewrite bind_run, wait_one_run, L, C. done.
  - rewrite bind_run, wake_one_run. destruct (tasks w !! i) as [[t wk]|].
    + unfold queue_push. cbn [queue upd_waiting].
      destruct (length (queue w) <? QUEUE_CAP)%nat; [|done].
      rewrite bind_run, wait_one_run. cbn [WAITING upd_queue]. by rewrite L.
    + by rewrite bind_run, wait_one_run, L.
Qed.

Lemma wake_waits_comm {A} i keys (K : list Z -> M (Worker Wt R) A) w :
  i ∉ keys ->
  (wake_one i ≫= fun _ => wait_each keys ≫= K) w =
  (wait_each keys ≫= fun v => wake_one i ≫= fun _ => K v) w.
Proof.
  revert K w. induction keys as [|j keys IH]; intros K w Hi; [done|].
  apply not_elem_of_cons in Hi as [Hij Hi]. cbn [wait_each].
  rewrite !bind_assoc. rewrite bind_run.
  transitivity ((wake_one i ≫= fun _ => wait_one j ≫= fun v => wait_each keys ≫= fun v' => K (v ++ v')) w).
  { rewrite bind_run. destruct (wake_one i w) as [[[] w1]|]; [|done]. rewrite !bind_assoc, !bind_run.
    destruct (wait_one j w1) as [[v w2]|]; [|done]. by rewrite bind_assoc. }
  rewrite wake_wait_comm by done. rewrite !bind_run. destruct (wait_one j w) as [[v w1]|]; [|done].
  rewrite IH by done. by rewrite bind_assoc.
Qed.

Lemma wake_each_app u v w : wake_each (u ++ v) w = (wake_each u ≫= fun _ => wake_each v) w.
Proof.
  revert w. induction u as [|i u IH]; intros w; [done|]. cbn [wake_each app].
  rewrite bind_assoc, !bind_run. by destruct (wake_one i w) as [[[] w1]|].
Qed.

Lemma wait_round_merge keys w :
  NoDup keys -> (wait_each keys ≫= wake_each) w = wait_wake_each keys w.
Proof.
  revert w. induction keys as [|i keys IH]; intros w ND; [done|].
  apply NoDup_cons in ND as [Hi ND]. cbn [wait_each wait_wake_each]. unfold wait_wake.
  rewrite !bind_assoc, !bind_run, wait_one_run.
  set (r := match WAITING w !! i with Some wr => waited wr i w | None => ([], w) end).
  assert (Hr : r.1 = [] \/ r.1 = [i]).
  { unfold r, waited. destruct (WAITING w !! i) as [wr|]; [|by left].
    destruct (wait_one_round (inner wr)) as [[| |] x]; auto. }
  destruct r as [v w1]. cbn in Hr. rewrite bind_assoc.
  destruct Hr as [->| ->].
  - transitivity (wait_wake_each keys w1); [|done]. rewrite <- IH by done. rewrite !bind_run.
    by destruct (wait_each keys w1) as [[v' w2]|].
  - transitivity ((wake_one i ≫= fun _ => wait_each keys ≫= wake_each) w1).
    + rewrite wake_waits_comm by done. rewrite !bind_run.
      by destruct (wait_each keys w1) as [[v' w2]|].
    + rewrite !bind_run. cbn [wake_each]. rewrite bind_run.
      destruct (wake_one i w1) as [[[] w2]|]; [|done]. cbn. by rewrite <- IH.
Qed.

Lemma wait_wake_spec i wr w ths :
  sim w ths -> WAITING w !! i = Some wr ->
  step_ok (wait_wake i w) w ths (fun _ w' ths' =>
    stepped {[i]} ths ths' /\ spawner w' = spawner w /\
    forall j, j ≠ i -> WAITING w' !! j = WAITING w !! j).
Proof.
  intros X Hw. destruct (leave_waiting i wr w ths X Hw) as (k & Ht & Hi & X1).
  assert (St : forall th', rstep (Blocked (inner wr) k) = Some th' -> stepped {[i]} ths (<[i := th']> ths)).
  { intros th'. by apply stepped_one. }
  unfold wait_wake. rewrite bind_run, wait_one_run, Hw. unfold waited. cbn in St.
  destruct (wait_one_round (inner wr)) as [status x] eqn:Er.
  destruct (is_waiting status) eqn:Es.
  - destruct status; try done. right. eexists tt, _, _. split; [done|].
    split; [|split; [done|split; [by apply St|split; [done|]]]].
    + replace (upd_waiting _ w) with (upd_tasks <[i := (mkTask (InWait true (wflag wr) k) i, i)]>
        (upd_waiting <[i := mkWrapper x (wflag wr)]> (upd_waiting (delete i) w))).
      * by apply (back_blocked i (mkWrapper x (wflag wr)) k).
      * destruct w. unfold upd_tasks, upd_waiting. cbn in *. by rewrite insert_id, insert_delete_eq.
    + intros j Hj. cbn. by rewrite lookup_insert_ne.
  - cbn [wake_each]. rewrite bind_run, wake_one_run. cbn [tasks upd_boxes upd_waiting]. rewrite Ht.
    set (b := is_ready status). set (w1 := upd_boxes <[wflag wr := b]> (upd_waiting (delete i) w)).
    replace (upd_waiting (delete i) _) with w1
      by (unfold w1, upd_waiting, upd_boxes; cbn; by rewrite delete_insert_eq).
    apply (push_back i (InWait true (wflag wr) k) (k (wait_result b)) w w1 ths (Blocked (inner wr) k) tt); try done.
    + by apply except_set_flag.
    + constructor. apply lookup_insert_eq.
    + split; [by apply St; destruct status|]. split; [done|]. intros j Hj. cbn. by rewrite lookup_delete_ne.
Qed.

Lemma wait_wake_each_spec keys w ths :
  sim w ths -> NoDup keys -> (forall i, i ∈ keys -> is_Some (WAITING w !! i)) ->
  step_ok (wait_wake_each keys w) w ths (fun _ w' ths' =>
    stepped (list_to_set keys) ths ths' /\ spawner w' = spawner w).
Proof.
  revert w ths. induction keys as [|i keys IH]; intros w ths X ND Hk.
  { right. eexists tt, w, ths. do 3 (split; [done|]). split; [apply stepped_refl|done]. }
  apply NoDup_cons in ND as [Hi ND]. cbn [wait_wake_each].
  destruct (Hk i) as [wr Hwr]; [set_solver|].
  destruct (wait_wake_spec i wr w ths X Hwr) as [[Hp Hs]|(u & w1 & ths1 & Hd & X1 & St1 & S1 & Sp1 & Hw1)].
  { left. by rewrite bind_run, Hp. }
  rewrite bind_run, Hd. destruct (IH w1 ths1 X1 ND) as [[Hp Hs]|(u' & w2 & ths2 & Hd2 & X2 & St2 & S2 & Sp2)].
  - intros j Hj. rewrite Hw1; [apply Hk; set_solver|set_solver].
  - left. split; [done|]. by rewrite <- (stepped_size _ _ _ S1).
  - right. exists u', w2, ths2. split; [done|]. split; [done|]. split; [congruence|].
    split; [|congruence]. apply (stepped_app {[i]} _ ths ths1 ths2); [set_solver|done..].
Qed.

Lemma keys_in_order_spec {A} (m : gmap Z A) :
  NoDup (keys_in_order m) /\ list_to_set (keys_in_order m) = dom m.
Proof.
  unfold keys_in_order. pose proof (merge_sort_Permutation Z.le (map_to_list m).*1) as P.
  split; [rewrite P; apply NoDup_fst_map_to_list|].
  apply set_eq. intros i. rewrite elem_of_list_to_set, P, elem_of_dom. split.
  - intros ([j x] & -> & Hx)%list_elem_of_fmap. exists x. by apply elem_of_map_to_list.
  - intros [x Hx]. apply list_elem_of_fmap. exists (i, x). split; [done|]. by apply elem_of_map_to_list.
Qed.

Lemma wait_round_spec w ths :
  sim w ths ->
  step_ok (wait_round w) w ths (fun _ w' ths' =>
    stepped (dom (WAITING w)) ths ths' /\ spawner w' = spawner w).
Proof.
  intros X. destruct (keys_in_order_spec (WAITING w)) as [ND D]. rewrite <- D.
  unfold wait_round. rewrite bind_gets, wait_round_merge by done.
  apply wait_wake_each_spec; [done..|]. intros i Hi. apply elem_of_dom. rewrite <- D. set_solver.
Qed.

(** *** One step of the worker *)
Definition busy w : Prop := spawner w ≠ [] \/ queue w ≠ [].
Definition idle w : Prop := spawner w = [] /\ queue w = [] /\ WAITING w = ∅.

#[local] Instance idle_dec w : Decision (idle w).
Proof.
  unfold idle. destruct (spawner w), (queue w); try (right; naive_solver).
  destruct (decide (dom (WAITING w) = ∅)) as [E|E].
  - left. repeat split. by apply dom_empty_inv_L.
  - right. intros (_ & _ & Ew). apply E. by rewrite Ew, dom_empty_L.
Defined.
#[local] Instance busy_dec w : Decision (busy w).
Proof. unfold busy. destruct (spawner w), (queue w); (left; (by left) || (by right)) || (right; by intros [|]). Defined.

(** Steps the worker may take before one that makes a thread advance. *)
Definition dist (c : pc) w : nat :=
  match c with
  | Check => if decide (busy w) then 1 else S (task_per_round w)
  | Find _ (S more) => if decide (busy w) then 0 else S more
  | Find _ O => if decide (busy w) then 2 else 0
  | Exited => 0
  end.

(** Iterations left of the inner loop. *)
Definition more_of (c : pc) : nat := match c with Find _ more => more | _ => 0 end.

Definition advances (c : pc) w (c' : pc) w' ths ths' : Prop :=
  c' ≠ Exited /\ (more_of c' <= Nat.max (more_of c) (task_per_round w))%nat /\
  (length (spawner w') <= length (spawner w))%nat /\
  exists S, stepped S ths ths' /\
    (S ≠ ∅ \/ (length (spawner w') < length (spawner w))%nat \/ (dist c' w' < dist c w)%nat \/ idle w).

Lemma find_step rounds more w ths :
  sim w ths ->
  step_ok (work (Find rounds (S more)) w) w ths
    (fun c' w' ths' => advances (Find rounds (S more)) w c' w' ths ths').
Proof.
  intros X. cbn [work]. destruct (spawner w) as [|t rest] eqn:Es.
  - assert (Hf : find_task w = match queue w with i :: q => Done (Some (Some i), upd_queue q w)
                               | [] => Done (Some None, w) end) by (unfold find_task; by rewrite Es).
    rewrite bind_run, Hf. destruct (queue w) as [|i q] eqn:Eq.
    + right. eexists _, w, ths. do 3 (split; [done|]). split; [done|]. cbn [more_of]. split; [lia|].
      split; [done|]. exists ∅. split; [apply stepped_refl|]. right. right. left.
      assert (B : ~ busy w) by (unfold busy; rewrite Es, Eq; by intros [|]).
      unfold dist. destruct more; rewrite !(decide_False (P := busy w)) by done; lia.
    + destruct (run_task_spec i q w ths X Eq) as (w' & a & th & Hr & Ha & Hth & X' & St & Sp).
      rewrite bind_run, Hr. right. eexists _, w', _. do 3 (split; [done|]).
      split; [done|]. cbn [more_of]. split; [lia|]. split; [by rewrite Sp|]. exists {[i]}. split; [by eapply stepped_one|]. left. set_solver.
  - destruct (find_task_spawned t rest w ths X Es) as [[Hp L]|(r & w' & ths' & Hd & X' & St & -> & -> & Sp)].
    + left. by rewrite bind_run, Hp.
    + right. rewrite bind_run, Hd. eexists _, w', ths. do 3 (split; [done|]). split; [done|].
      rewrite Sp, Es. cbn [length more_of]. split; [lia|]. split; [lia|]. exists ∅. split; [apply stepped_refl|]. right. left. lia.
Qed.

Lemma wait_step rounds w ths :
  sim w ths -> (1 <= task_per_round w)%nat ->
  step_ok (work (Find rounds 0) w) w ths (fun c' w' ths' => advances (Find rounds 0) w c' w' ths ths').
Proof.
  intros X T. cbn [work]. rewrite bind_run.
  destruct (wait_round_spec w ths X) as [[Hp L]|(u & w' & ths' & Hd & X' & St & Sd & Sp)].
  { left. by rewrite Hp. }
  rewrite Hd. right. eexists _, w', ths'. do 3 (split; [done|]).
  split; [by destruct (rounds =? 1)|]. split; [destruct (rounds =? 1); cbn; lia|].
  split; [by rewrite Sp|]. exists (dom (WAITING w)). split; [done|].
  destruct (decide (dom (WAITING w) = ∅)) as [Ew|Ew]; [|by left].
  apply dom_empty_inv_L in Ew.
  assert (w' = w) as ->.
  { unfold wait_round in Hd. rewrite bind_gets in Hd. unfold keys_in_order in Hd.
    rewrite Ew, map_to_list_empty in Hd. cbn in Hd. by injection Hd. }
  destruct (decide (busy w)) as [B|B].
  - right. right. left. unfold dist. destruct (rounds =? 1), (task_per_round w); try lia;
      destruct (decide (busy w)); (done || lia).
  - right. right. right. unfold idle, busy in *.
    destruct (spawner w), (queue w); try done; by destruct B; auto.
Qed.

Lemma work_step c w ths :
  sim w ths -> running w = true -> (1 <= task_per_round w)%nat -> c ≠ Exited ->
  step_ok (work c w) w ths (fun c' w' ths' => advances c w c' w' ths ths').
Proof.
  intros X Rn T Hc. destruct c as [|rounds [|more]|]; [|by apply wait_step|by apply find_step|done].
  right. cbn [work]. rewrite Rn. eexists _, w, ths. do 3 (split; [done|]). split; [done|]. split; [cbn; lia|]. split; [done|].
  exists ∅. split; [apply stepped_refl|]. right. right. left. unfold dist.
  destruct (task_per_round w) as [|n] eqn:En; [lia|]. destruct (decide (busy w)); lia.
Qed.

(** *** Spawning *)
Lemma spawner_le_size w ths : sim w ths -> (length (spawner w) <= size ths)%nat.
Proof.
  intros X. rewrite <- (length_fmap tid), <- (size_list_to_set (C := gset Z)) by apply X.
  rewrite <- size_dom. apply subseteq_size. intros i Hi%elem_of_list_to_set.
  apply list_elem_of_fmap in Hi as (t & -> & Ht). apply elem_of_dom.
  assert (Hs : spawned w (tid t)) by by exists t.
  pose proof (sim_at _ _ X (tid t)) as P. inversion P as [(?&?&?&?)| | | |]; by eauto.
Qed.

Lemma spawn_spec a w ths :
  sim w ths -> ths !! next w = None ->
  (spawn a w = Panic /\ (QUEUE_CAP <= size ths)%nat) \/
  exists w', spawn a w = Done (tt, w') /\ sim w' (<[next w := Run a]> ths) /\
    next w' = u64 (next w + 1) /\ running w' = running w /\ task_per_round w' = task_per_round w.
Proof.
  intros X Hn. pose proof (sim_at _ _ X (next w)) as P. rewrite Hn in P.
  inversion P as [(Ho & Hq & Hw & Hs) Ht| | | |].
  unfold spawn. rewrite bind_run. cbn [next_tid]. unfold spawner_push. cbn [spawner next upd_spawner].
  destruct (length (spawner w) <? QUEUE_CAP)%nat eqn:L.
  2:{ left. split; [done|]. apply Nat.ltb_ge in L. pose proof (spawner_le_size _ _ X). lia. }
  right. eexists. split; [done|]. split; [|done].
  assert (X1 : except (next w) None w ths).
  { constructor; try apply X; try done.
    - intros j _. apply X.
    - intros p. rewrite (sim_box _ _ X p). split; [|naive_solver].
      intros (j & e & He & ?). left. exists j. split; [congruence|]. by exists e.
    - intros j j' p _ _. apply X. }
  eapply (sim_back _ None w); try apply X; try done; cbn [spawner upd_spawner].
  - apply place_spawned; try done. cbn. set_solver.
  - intros p. unfold owns. cbn. rewrite Ht. naive_solver.
  - intros j Hj. same_tac. rewrite elem_of_app, list_elem_of_singleton. naive_solver.
  - rewrite fmap_app. apply NoDup_app. split; [apply X|]. split; [|apply NoDup_singleton].
    intros i (t & -> & Hin)%list_elem_of_fmap Hi. apply list_elem_of_singleton in Hi.
    apply Hs. exists t. by split.
Qed.

(** *** Executions *)
Definition thread_step (th th' : thread Wt R) : Prop := rstep th = Some th'.

(** The threads are those of the blocks spawned so far, each some steps on. *)
Definition history (bs : list (async Wt R)) ths : Prop :=
  forall i, match ths !! i with
       | Some th => 0 <= i /\ exists b, bs !! Z.to_nat i = Some b /\ rtc thread_step (Run b) th
       | None => ~ (0 <= i < Z.of_nat (length bs))
       end.

Lemma history_size bs ths : history bs ths -> size ths = length bs.
Proof.
  intros Hh. rewrite <- size_dom.
  replace (dom ths) with (list_to_set (seqZ 0 (Z.of_nat (length bs))) : gset Z).
  - rewrite size_list_to_set by apply NoDup_seqZ. rewrite length_seqZ. lia.
  - apply set_eq. intros i. rewrite elem_of_list_to_set, elem_of_seqZ, elem_of_dom.
    specialize (Hh i). destruct (ths !! i) as [th|].
    + destruct Hh as (? & b & Hb%lookup_lt_Some & _). split; [by eauto|lia].
    + split; [lia|by intros []].
Qed.

Lemma history_stepped bs S ths ths' : history bs ths -> stepped S ths ths' -> history bs ths'.
Proof.
  intros Hh [A B] i. specialize (Hh i). destruct (decide (i ∈ S)) as [Hi|Hi].
  - destruct (A i Hi) as (th & th' & E & St & ->). rewrite E in Hh.
    destruct Hh as (? & b & ? & ?). split; [done|]. exists b. split; [done|]. by eapply rtc_r.
  - by rewrite B.
Qed.

Lemma history_spawn bs a ths :
  history bs ths -> history (bs ++ [a]) (<[Z.of_nat (length bs) := Run a]> ths).
Proof.
  intros Hh i. destruct (decide (i = Z.of_nat (length bs))) as [->|Hi].
  - rewrite lookup_insert_eq. split; [lia|]. exists a. rewrite Nat2Z.id. split; [|done].
    by rewrite lookup_app_r, Nat.sub_diag by lia.
  - rewrite lookup_insert_ne by done. specialize (Hh i). rewrite length_app. cbn [length].
    destruct (ths !! i) as [th|]; [|lia]. destruct Hh as (? & b & Hb & ?). split; [done|].
    exists b. split; [|done]. by apply lookup_app_l_Some.
Qed.

Record inv (bs : list (async Wt R)) (per_round : nat) (c : pc * Worker Wt R) ths : Prop := {
  inv_sim : sim c.2 ths;
  inv_history : history bs ths;
  inv_next : next c.2 = u64 (Z.of_nat (length bs));
  inv_running : running c.2 = true;
  inv_round : task_per_round c.2 = per_round;
  inv_pc : c.1 ≠ Exited;
  inv_more : (more_of c.1 <= per_round)%nat;
}.

Lemma inv_start per_round : inv [] per_round (start per_round) ∅.
Proof.
  constructor; try done.
  - constructor; try done; try (by constructor).
    + intros i. apply place_none; [|done]. repeat split; try done; cbn; try set_solver.
    + cbn. unfold QUEUE_CAP. lia.
    + intros p. split; [by intros [? ?]|by intros (i & e & ? & ?)].
    + by intros i j p (e & ? & _).
  - intros i. rewrite lookup_empty. cbn [length]. lia.
  - cbn. lia.
Qed.

Lemma act_inv bs per_round c ths x :
  inv bs per_round c ths -> (1 <= per_round)%nat ->
  Z.of_nat (length (bs ++ bodies [x])) <= 2 ^ 64 ->
  (act c x = Panic /\ (QUEUE_CAP < length (bs ++ bodies [x]))%nat) \/
  exists c' ths', act c x = Done c' /\ inv (bs ++ bodies [x]) per_round c' ths' /\
    (x = Work -> advances c.1 c.2 c'.1 c'.2 ths ths').
Proof.
  intros [X Hh Hn Rn T Hc Mo] P L. destruct c as [c w]. cbn in *. destruct x as [a|]; cbn [bodies] in *.
  - rewrite length_app in *. cbn [length] in *.
    rewrite wrap_small in Hn by (unfold in_width; lia).
    destruct (spawn_spec a w ths X) as [[E Hs]|(w' & E & X' & N' & R' & T')].
    + specialize (Hh (next w)). destruct (ths !! next w); [|done].
      destruct Hh as (_ & b & Hb%lookup_lt_Some & _). lia.
    + left. cbn. rewrite E. split; [done|]. rewrite (history_size _ _ Hh) in Hs. lia.
    + right. exists (c, w'), (<[next w := Run a]> ths). cbn. rewrite E. split; [done|]. split; [|done].
      constructor; cbn [fst snd]; try congruence; [rewrite Hn; by apply history_spawn|].
      rewrite length_app, N', Hn. cbn [length]. f_equal. lia.
  - rewrite app_nil_r in *.
    destruct (work_step c w ths X Rn) as [[E Hs]|(c' & w' & ths' & E & X' & St & Ha)]; [lia|done|..].
    + left. cbn. rewrite E. split; [done|]. by rewrite <- (history_size _ _ Hh).
    + right. exists (c', w'), ths'. cbn. rewrite E. split; [done|]. split; [|done].
      injection St as ???. destruct Ha as (? & Hm & _ & S & HS & _).
      constructor; cbn [fst snd]; try congruence; [by eapply history_stepped|lia].
Qed.

Lemma bodies_cons (x : action Wt R) xs : bodies (x :: xs) = bodies [x] ++ bodies xs.
Proof. by destruct x. Qed.

Lemma bodies_app (xs ys : list (action Wt R)) : bodies (xs ++ ys) = bodies xs ++ bodies ys.
Proof. induction xs as [|x xs IH]; [done|]. cbn [app]. by rewrite bodies_cons, IH, app_assoc, <- bodies_cons. Qed.

Lemma bodies_work n : bodies (replicate n (@Work Wt R)) = [].
Proof. by induction n. Qed.

Lemma exec_app (xs ys : list (action Wt R)) c :
  exec (xs ++ ys) c = match exec xs c with Done c' => exec ys c' | Panic => Panic end.
Proof. revert c. induction xs as [|x xs IH]; intros c; [done|]. cbn. by destruct (act c x). Qed.

Lemma exec_inv bs per_round c ths xs :
  inv bs per_round c ths -> (1 <= per_round)%nat ->
  Z.of_nat (length (bs ++ bodies xs)) <= 2 ^ 64 ->
  (exec xs c = Panic /\ (QUEUE_CAP < length (bs ++ bodies xs))%nat) \/
  exists c' ths', exec xs c = Done c' /\ inv (bs ++ bodies xs) per_round c' ths'.
Proof.
  revert bs c ths. induction xs as [|x xs IH]; intros bs c ths I P L.
  { right. exists c, ths. by rewrite app_nil_r. }
  rewrite bodies_cons, app_assoc in *. cbn [exec].
  destruct (act_inv bs per_round c ths x I P) as [[-> Hs]|(c' & ths' & -> & I' & _)].
  - rewrite length_app in L. lia.
  - left. split; [done|]. rewrite length_app. lia.
  - by eapply IH.
Qed.

(** *** Progress *)
Definition fueled (rem : Z -> nat) ths : Prop :=
  forall i th, ths !! i = Some th -> exists n r, (n <= rem i)%nat /\ runs n th r.

Definition all_finished ths : Prop := forall i th, ths !! i = Some th -> exists r, th = Finished r.

Definition spend (S : gset Z) (rem : Z -> nat) (i : Z) : nat :=
  if decide (i ∈ S) then Nat.pred (rem i) else rem i.

Definition measure (n : nat) (rem : Z -> nat) (c : pc * Worker Wt R) : nat :=
  (task_per_round c.2 + 3) *
    (sum_list_with rem (seqZ 0 (Z.of_nat n)) + length (spawner c.2)) + dist c.1 c.2.

Lemma runs_pos n (th th' : thread Wt R) r : rstep th = Some th' -> runs n th r -> n ≠ 0%nat /\ runs (Nat.pred n) th' r.
Proof. intros Hs Hr. destruct Hr as [r|n th th1 r Hs' Hr]; [done|]. replace th' with th1 by congruence. done. Qed.

Lemma fueled_spend S rem ths ths' :
  stepped S ths ths' -> fueled rem ths -> fueled (spend S rem) ths'.
Proof.
  intros [A B] F i th Hi. unfold spend. destruct (decide (i ∈ S)) as [Hin|Hin].
  - destruct (A i Hin) as (th0 & th1 & H0 & Hs & H1). destruct (F i th0 H0) as (n & r & Hn & Hr).
    exists (Nat.pred n), r. split; [lia|]. apply (runs_pos _ _ th1) in Hr as [_ Hr]; [|done]. congruence.
  - apply F. by rewrite <- B.
Qed.

Lemma sum_spend_le S rem l : (sum_list_with (spend S rem) l <= sum_list_with rem l)%nat.
Proof. induction l as [|i l IH]; [done|]. cbn. unfold spend at 1. destruct (decide (i ∈ S)); lia. Qed.

Lemma sum_spend_lt S rem l i :
  i ∈ S -> i ∈ l -> rem i ≠ 0%nat -> (sum_list_with (spend S rem) l < sum_list_with rem l)%nat.
Proof.
  intros HS Hl Hr. induction l as [|j l IH]; [by apply not_elem_of_nil in Hl|]. cbn.
  pose proof (sum_spend_le S rem l). apply elem_of_cons in Hl as [<-|Hl].
  - unfold spend at 1. rewrite decide_True by done. lia.
  - specialize (IH Hl). unfold spend at 1. destruct (decide (j ∈ S)); lia.
Qed.

Lemma finished_stepped S ths ths' : stepped S ths ths' -> all_finished ths -> all_finished ths'.
Proof.
  intros [A B] F i th Hi. destruct (decide (i ∈ S)) as [Hin|Hin].
  - destruct (A i Hin) as (th0 & th1 & H0 & Hs & _). by destruct (F i th0 H0) as [r ->].
  - apply (F i). by rewrite <- B.
Qed.

Lemma idle_finished w ths : sim w ths -> idle w -> all_finished ths.
Proof.
  intros X (Es & Eq & Ew) i th Hi. pose proof (sim_at _ _ X i) as P. rewrite Hi in P.
  inversion P as [|r|a ? ? ? Hin|? ? ? Hin|? ? ? ? Hin]; subst; [by eauto|..].
  - rewrite Es in Hin. by apply not_elem_of_nil in Hin.
  - rewrite Eq in Hin. by apply not_elem_of_nil in Hin.
  - by rewrite Ew, lookup_empty in Hin.
Qed.

Lemma dist_bound c w : c ≠ Exited -> (more_of c <= task_per_round w)%nat ->
  (dist c w <= task_per_round w + 2)%nat.
Proof.
  intros Hc Hm. unfold dist. destruct c as [|r [|m]|]; try done; cbn in Hm; destruct (decide (busy w)); lia.
Qed.

Lemma measure_step n rem S c w c' w' ths ths' :
  stepped S ths ths' -> fueled rem ths ->
  (forall i, is_Some (ths !! i) -> 0 <= i < Z.of_nat n) ->
  task_per_round w' = task_per_round w -> (dist c' w' <= task_per_round w + 2)%nat ->
  (length (spawner w') <= length (spawner w))%nat ->
  S ≠ ∅ \/ (length (spawner w') < length (spawner w))%nat \/ (dist c' w' < dist c w)%nat ->
  (measure n (spend S rem) (c', w') < measure n rem (c, w))%nat.
Proof.
  intros St F Rg T D Ls Hp. unfold measure. cbn [fst snd]. rewrite T.
  set (l := seqZ 0 (Z.of_nat n)). pose proof (sum_spend_le S rem l) as Le.
  assert (Hp' : (sum_list_with (spend S rem) l + length (spawner w') <
                 sum_list_with rem l + length (spawner w))%nat \/ (dist c' w' < dist c w)%nat).
  { destruct Hp as [HS|[Hs|Hd]]; [|lia|by right]. left.
    apply set_choose_L in HS as [i Hi]. destruct (proj1 St i Hi) as (th & th' & Hth & Hst & _).
    destruct (F i th Hth) as (m & r & Hm & Hr). apply (runs_pos _ _ _ _ Hst) in Hr as [Hr _].
    pose proof (Rg i (ex_intro _ th Hth)).
    pose proof (sum_spend_lt S rem l i Hi ltac:(apply elem_of_seqZ; lia) ltac:(lia)). lia. }
  destruct Hp' as [H1|H1]; nia.
Qed.

Lemma live_step bs per_round c ths rem :
  inv bs per_round c ths -> (1 <= per_round)%nat -> (length bs <= QUEUE_CAP)%nat -> fueled rem ths ->
  exists c' ths' rem', act c Work = Done c' /\ inv bs per_round c' ths' /\ fueled rem' ths' /\
    (all_finished ths -> all_finished ths') /\
    ((measure (length bs) rem' c' < measure (length bs) rem c)%nat \/ all_finished ths').
Proof.
  intros I P L F. destruct (act_inv bs per_round c ths Work I P) as [[_ Hs]|(c' & ths' & E & I' & Ha)];
    cbn [bodies] in *; rewrite ?app_nil_r in *; [unfold QUEUE_CAP in L; lia|lia|].
  destruct (Ha eq_refl) as (_ & _ & Ls & S & St & Hp). exists c', ths', (spend S rem).
  split; [done|]. split; [done|]. split; [by eapply fueled_spend|].
  split; [by eapply finished_stepped|].
  destruct (decide (idle c.2)) as [Hi|Hi].
  { right. eapply finished_stepped, (idle_finished _ _ (inv_sim _ _ _ _ I) Hi). done. }
  left. destruct c as [c w], c' as [c' w']. eapply measure_step; try done.
  - intros i [th Hth]. pose proof (inv_history _ _ _ _ I i) as Hh. rewrite Hth in Hh.
    destruct Hh as (? & b & Hb%lookup_lt_Some & _). lia.
  - transitivity per_round; [apply I'|symmetry; apply I].
  - replace (task_per_round w) with (task_per_round w')
      by (transitivity per_round; [apply I'|symmetry; apply I]).
    apply dist_bound; [apply I'|]. etrans; [apply I'|]. by rewrite <- (inv_round _ _ _ _ I').
  - naive_solver.
Qed.

Lemma live_steps bs per_round n c ths rem :
  inv bs per_round c ths -> (1 <= per_round)%nat -> (length bs <= QUEUE_CAP)%nat -> fueled rem ths ->
  all_finished ths \/ (measure (length bs) rem c <= n)%nat ->
  exists c' ths', exec (replicate n Work) c = Done c' /\ inv bs per_round c' ths' /\ all_finished ths'.
Proof.
  revert c ths rem. induction n as [|n IH]; intros c ths rem I P L F Hm.
  - exists c, ths. split; [done|]. split; [done|]. destruct Hm as [?|Hm]; [done|].
    intros i th Hi. destruct (F i th Hi) as (m & r & Hle & Hr).
    assert (Z0 : m = 0%nat).
    { unfold measure in Hm. pose proof (inv_history _ _ _ _ I i) as Hh. rewrite Hi in Hh.
      destruct Hh as (? & b & Hb%lookup_lt_Some & _).
      assert (i ∈ seqZ 0 (Z.of_nat (length bs))) as Hin by (apply elem_of_seqZ; lia).
      apply (sum_list_with_in i rem) in Hin. nia. }
    rewrite Z0 in Hr. inversion Hr. by eauto.
  - destruct (live_step bs per_round c ths rem I P L F) as (c' & ths' & rem' & E & I' & F' & K & Hd).
    cbn [replicate exec]. rewrite E. apply (IH c' ths' rem'); try done.
    destruct Hm as [?|Hm]; [left; by apply K|]. destruct Hd as [?|?]; [right; lia|by left].
Qed.

(** *** From threads to results *)
Lemma rtc_runs th r : rtc thread_step th (Finished r) -> exists n, runs n th r.
Proof.
  intros Hr. remember (Finished r) as e. induction Hr as [|th1 th2 th3 Hs _ IH]; subst.
  - exists 0%nat. constructor.
  - destruct IH as [n Hn]; [done|]. exists (S n). by econstructor.
Qed.

Lemma runs_rtc n th th' r :
  rtc thread_step th th' -> runs n th r -> exists m, (m <= n)%nat /\ runs m th' r.
Proof.
  intros Hr. revert n. induction Hr as [|th1 th2 th3 Hs _ IH]; intros n Hn; [by exists n|].
  apply (runs_pos _ _ _ _ Hs) in Hn as [? Hn]. destruct (IH _ Hn) as (m & ? & ?). exists m. split; [lia|done].
Qed.

Lemma history_fueled bs ths :
  history bs ths -> Forall (fun b => exists n r, runs n (Run b) r) bs ->
  exists rem, fueled rem ths.
Proof.
  intros Hh Hb.
  assert (exists ns, Forall2 (fun b n => exists r, runs n (Run b) r) bs ns) as [ns Hns].
  { clear Hh. induction Hb as [|b bs (n & r & Hr) _ [ns IH]]; [by exists []|]. exists (n :: ns). constructor; eauto. }
  exists (fun i => default 0%nat (ns !! Z.to_nat i)). intros i th Hi. specialize (Hh i). rewrite Hi in Hh.
  destruct Hh as (_ & b & Hb' & Hr). destruct (Forall2_lookup_l _ _ _ _ _ Hns Hb') as (n & Hn & r & Hrun).
  rewrite Hn. destruct (runs_rtc _ _ _ _ Hr Hrun) as (m & ? & ?). exists m, r. by split.
Qed.

Lemma history_lookup bs ths i b :
  history bs ths -> bs !! i = Some b ->
  exists th, ths !! Z.of_nat i = Some th /\ rtc thread_step (Run b) th.
Proof.
  intros Hh Hb. specialize (Hh (Z.of_nat i)). destruct (ths !! Z.of_nat i) as [th|].
  - destruct Hh as (_ & b' & Hb' & ?). rewrite Nat2Z.id in Hb'. exists th. by simplify_eq.
  - apply lookup_lt_Some in Hb. lia.
Qed.

(** What the invariant says of a task that was spawned. *)
Lemma sim_spawned w ths i th :
  sim w ths -> ths !! i = Some th ->
  (exists r, outputs w !! i = Some r /\ th = Finished r) \/ is_Some (tasks w !! i) \/ spawned w i.
Proof.
  intros X Hi. pose proof (sim_at _ _ X i) as P. rewrite Hi in P.
  inversion P; subst; [left|right; right|right; left|right; left]; eauto. by eexists (mkTask (Start _) i).
Qed.

Lemma sim_scheduled w ths i :
  sim w ths -> is_Some (tasks w !! i) <-> (i ∈ queue w \/ is_Some (WAITING w !! i)).
Proof.
  intros X. pose proof (sim_at _ _ X i) as P. unfold is_Some.
  inversion P as [(?&?&?&?)| | | |]; naive_solver.
Qed.

Lemma sim_exclusive w ths i : sim w ths -> i ∈ queue w -> WAITING w !! i = None.
Proof. intros X Hi. pose proof (sim_at _ _ X i) as P. inversion P as [(?&?&?&?)| | | |]; done. Qed.

Lemma sim_output w ths i r : sim w ths -> outputs w !! i = Some r -> ths !! i = Some (Finished r).
Proof. intros X Hi. pose proof (sim_at _ _ X i) as P. inversion P as [(?&?&?&?)| | | |]; congruence. Qed.

(** Nothing is left behind when all threads have finished. *)
Lemma finished_empty w ths :
  sim w ths -> all_finished ths ->
  tasks w = ∅ /\ WAITING w = ∅ /\ boxes w = ∅ /\ queue w = [] /\ spawner w = [].
Proof.
  intros X F.
  assert (P : forall i, place w i None \/ exists r, place w i (Some (Finished r))).
  { intros i. pose proof (sim_at _ _ X i) as P. destruct (ths !! i) as [th|] eqn:E; [|by left].
    destruct (F i th E) as [r ->]. right. by exists r. }
  assert (Q : forall i, tasks w !! i = None /\ WAITING w !! i = None /\ (i ∉ queue w) /\ ~ spawned w i).
  { intros i. destruct (P i) as [Pi|[r Pi]]; inversion Pi as [(?&?&?&?)| | | |]; done. }
  split; [apply map_eq; intros i; apply Q|]. split; [apply map_eq; intros i; apply Q|]. split.
  { apply map_eq. intros p. rewrite lookup_empty. apply eq_None_not_Some. intros B.
    apply (sim_box _ _ X) in B as (i & e & He & _). destruct (Q i). congruence. }
  split.
  - destruct (queue w) as [|i q] eqn:E; [done|]. destruct (Q i) as (_ & _ & Hq & _). set_solver.
  - destruct (spawner w) as [|t q] eqn:E; [done|]. destruct (Q (tid t)) as (_ & _ & _ & Hs).
    contradict Hs. exists t. rewrite E. split; [set_solver|done].
Qed.

End Simulation.

(** ** Properties *)
Section Theorems.
Context {Wt R : Type} `{!Waitable Wt}.


(** C32. Every task completes.  If at most 1024 tasks are spawned and each block
    finishes when run alone (its waits become ready or fail), then after enough
    steps of the worker no step panics, every join handle has received the result
    of its block, and no task, waitable, queue entry or boxed flag is left. *)
Theorem worker_completes (xs : list (action Wt R)) (per_round : nat) :
  (1 <= per_round)%nat -> (length (bodies xs) <= QUEUE_CAP)%nat ->
  Forall (fun b => exists n r, runs n (Run b) r) (bodies xs) ->
  exists N, forall n, (N <= n)%nat ->
  exists c w, exec (xs ++ replicate n Work) (start per_round) = Done (c, w) /\
    (forall i b, bodies xs !! i = Some b ->
       exists m r, runs m (Run b) r /\ outputs w !! Z.of_nat i = Some r) /\
    tasks w = ∅ /\ WAITING w = ∅ /\ boxes w = ∅ /\ queue w = [] /\ spawner w = [].
Proof.
  intros P L Hb.
  destruct (exec_inv [] per_round _ ∅ xs (inv_start per_round) P) as [[_ Hs]|(c & ths & E & I)];
    cbn [app] in *; [unfold QUEUE_CAP in L; lia|lia|].
  destruct (history_fueled _ _ (inv_history _ _ _ _ I) Hb) as [rem F].
  exists (measure (length (bodies xs)) rem c). intros n Hn.
  destruct (live_steps _ _ n c ths rem I P L F (or_intror Hn)) as ([c' w'] & ths' & E' & I' & Fin).
  pose proof (inv_sim _ _ _ _ I') as X. cbn in X. exists c', w'. rewrite exec_app, E.
  split; [done|]. split; [|by eapply finished_empty].
  intros i b Hi. destruct (history_lookup _ _ _ _ (inv_history _ _ _ _ I') Hi) as (th & Hth & Hr).
  destruct (Fin _ _ Hth) as [r ->]. destruct (rtc_runs _ _ Hr) as [m Hm]. exists m, r. split; [done|].
  pose proof (sim_at _ _ X (Z.of_nat i)) as Pl. rewrite Hth in Pl. by inversion Pl.
Qed.

End Theorems.

(** ** A concrete run: waits that count down, then succeed or fail *)
Definition countdown : Type := nat * bool.
#[export] Instance countdown_waitable : Waitable countdown := fun x =>
  match x with
  | (S n, b) => (Waiting, (n, b))
  | (O, true) => (Ready, x)
  | (O, false) => (Error, x)
  end.

Definition sample_block (n : nat) (b : bool) : async countdown Z :=
  YieldNow (WaitOn (n, b) (fun r => Ret (match r with Ok _ => 1 | Err _ => -1 end))).

Definition sample_actions : list (action countdown Z) :=
  [Spawn (sample_block 2 true); Work; Work; Spawn (sample_block 0 false); Work; Work].

Lemma sample_runs n b : exists m r, runs m (Run (sample_block n b)) r.
Proof.
  assert (H : forall n, exists m r, runs m (Blocked (n, b)
     (fun r => Ret (match r with Ok _ => 1 | Err _ => -1 end) : async countdown Z)) r).
  { clear n. induction n as [|n (m & r & IH)].
    - destruct b; [exists 2%nat, 1|exists 2%nat, (-1)]; repeat (econstructor; [reflexivity|]); constructor.
    - exists (S m), r. by econstructor. }
  destruct (H n) as (m & r & Hr). exists (S (S m)), r. econstructor; [done|]. by econstructor.
Qed.


Lemma worker_completes_witness :
  exists N, forall n, (N <= n)%nat ->
  exists c w, exec (sample_actions ++ replicate n Work) (start 4) = Done (c, w) /\
    (forall i b, bodies sample_actions !! i = Some b ->
       exists m r, runs m (Run b) r /\ outputs w !! Z.of_nat i = Some r) /\
    tasks w = ∅ /\ WAITING w = ∅ /\ boxes w = ∅ /\ queue w = [] /\ spawner w = [].
Proof.
  apply (worker_completes sample_actions 4); [lia|cbn; unfold QUEUE_CAP; lia|].
  repeat constructor; apply sample_runs.
Defined.

(** The run itself: both join handles get their results, 1 and -1. *)
Example sample_outputs :
  match exec (sample_actions ++ replicate 60 Work) (start 4) with
  | Done (_, w) => outputs w !! 0 = Some 1 /\ outputs w !! 1 = Some (-1)
  | Panic => False
  end.
Proof. by vm_compute. Qed.

(** The bound is tight: with 1025 tasks fetched before one is polled the push of
    [find_task] finds the scheduling queue full and the worker thread panics. *)
Example worker_overflow :
  exec (Work :: concat (replicate 1024 [Spawn (Ret 0 : async countdown Z); Work])) (start 1) <> Panic /\
  exec (Work :: concat (replicate 1025 [Spawn (Ret 0 : async countdown Z); Work])) (start 1) = Panic.
Proof. split; by vm_compute. Qed.
