(* ===== verification/WorkerGroup.v ===== *)
(** * Groups of workers

    src/KRdmaKit/src/runtime/worker_group.rs with the part of worker.rs it uses: the
    static [RUNNING], starting and joining the threads of the workers, and
    [block_on], which polls a join handle and parks the calling thread in between.

    The threads of the workers and one client thread, which runs a list of calls of
    the group, take turns; a schedule says who is next.  The step of a worker is
    [work] of Runtime.v.  A join handle is the receiving end of a oneshot channel
    (crate futures): it is ready when the task has sent its result, it is cancelled,
    and its [unwrap] panics, when the task was dropped without; the waker of the
    last poll is called when either happens.  [std::thread::park] returns when the
    token of the thread is set, which it takes, or spuriously. *)

From S2P Require Import Prelude Runtime.

Module WorkerGroup.
Section group.
Context {Wt R : Type} `{!Waitable Wt}.

(** A worker; [join_handle] is the thread that was started and not yet joined, at
    its position. *)
Record member := mkMember { worker : Worker Wt R; join_handle : option pc }.

(** The calls of the client; a join handle is named by its position among the
    handles it has got. *)
Inductive command : Type :=
| AddWorker (task_per_round : nat)
| SpawnOn (worker_idx : nat) (future : async Wt R)
| StartAll
| BlockOn (handle : nat)
| StopAll.

(** Where the client is in its first call: before it, in the loop of [start] or of
    [stop], or in the loop of [block_on], about to poll or to park. *)
Inductive position : Set := Before | Starting (k : nat) | Stopping (k : nat) | Polling | Parking.

(** [handles] are the worker and task of a join handle, until [block_on] has
    consumed it; [token] that of the client thread; [registered] tells that the
    channel has a waker. *)
Record group := mkGroup {
  RUNNING : bool;
  workers : list member;
  handles : list (option (nat * Z));
  token : bool;
  registered : bool;
  position_of : position;
  program : list command;
  results : list R }.

Definition new_group (p : list command) : group := mkGroup false [] [] false false Before p [].

(** *** The workers *)

(** What a thread owns is made when it starts and dropped when it ends. *)
Definition thread_locals (w : Worker Wt R) : Worker Wt R :=
  mkWorker (spawner w) (next w) [] ∅ ∅ 0 (boxes w) (outputs w) (running w) (task_per_round w).

Definition with_running (b : bool) (w : Worker Wt R) : Worker Wt R :=
  mkWorker (spawner w) (next w) (queue w) (tasks w) (WAITING w) (TASK_ID w) (boxes w) (outputs w) b (task_per_round w).

(** [Worker::start]. *)
Definition worker_start (m : member) : outcome member :=
  match join_handle m with
  | Some _ => Panic
  | None => Done (mkMember (thread_locals (worker m)) (Some Check))
  end.

(** A step of the thread of a worker. *)
Definition worker_step (RUNNING : bool) (m : member) : outcome member :=
  match join_handle m with
  | None | Some Exited => Done m
  | Some c =>
      match work c (with_running RUNNING (worker m)) with
      | Done (Exited, w) => Done (mkMember (thread_locals w) (Some Exited))
      | Done (c, w) => Done (mkMember w (Some c))
      | Panic => Panic
      end
  end.

(** *** The group *)
Definition set_workers (ms : list member) (g : group) : group :=
  mkGroup (RUNNING g) ms (handles g) (token g) (registered g) (position_of g) (program g) (results g).
Definition set_position (x : position) (g : group) : group :=
  mkGroup (RUNNING g) (workers g) (handles g) (token g) (registered g) x (program g) (results g).
Definition set_running (b : bool) (g : group) : group :=
  mkGroup b (workers g) (handles g) (token g) (registered g) (position_of g) (program g) (results g).
(** The first call has returned. *)
Definition returned (g : group) : group :=
  mkGroup (RUNNING g) (workers g) (handles g) (token g) (registered g) Before (tail (program g)) (results g).

Definition add_worker (task_per_round : nat) (g : group) : outcome group :=
  let m := mkMember (new task_per_round) None in
  match (if RUNNING g then worker_start m else Done m) with
  | Done m => Done (set_workers (workers g ++ [m]) g)
  | Panic => Panic
  end.

(** [spawn] of a group returns an error for an index out of bounds; the join handle
    goes to the client. *)
Definition spawn_on (worker_idx : nat) (a : async Wt R) (g : group) : outcome (Result unit (nat * Z) * group) :=
  match workers g !! worker_idx with
  | None => Done (Err tt, g)
  | Some m =>
      match spawn a (worker m) with
      | Done (_, w) =>
          Done (Ok (worker_idx, next (worker m)), set_workers (<[worker_idx := mkMember w (join_handle m)]> (workers g)) g)
      | Panic => Panic
      end
  end.
Definition spawn_unchecked (worker_idx : nat) (a : async Wt R) (g : group) : outcome ((nat * Z) * group) :=
  match spawn_on worker_idx a g with Done (Ok h, g) => Done (h, g) | _ => Panic end.

Definition keep_handle (r : Result unit (nat * Z)) (g : group) : group :=
  match r with
  | Ok h => mkGroup (RUNNING g) (workers g) (handles g ++ [Some h]) (token g) (registered g) (position_of g) (program g) (results g)
  | Err _ => g
  end.

(** One iteration of [start]: [None] at the end of the loop. *)
Definition start_one (k : nat) (g : group) : outcome (option group) :=
  match workers g !! k with
  | None => Done None
  | Some m =>
      match worker_start m with
      | Done m => Done (Some (set_workers (<[k := m]> (workers g)) g))
      | Panic => Panic
      end
  end.

(** One iteration of [stop]: [Worker::wait_stop] takes the handle, and goes on when
    the thread has ended. *)
Definition stop_one (k : nat) (g : group) : outcome (option group * bool) :=
  match workers g !! k with
  | None => Done (None, true)
  | Some m =>
      match join_handle m with
      | None => Panic
      | Some Exited => Done (Some (set_workers (<[k := mkMember (worker m) None]> (workers g)) g), true)
      | Some _ => Done (Some g, false)
      end
  end.

(** *** Join handles *)

(** The sender of a task lives as long as the task. *)
Definition sender_alive (w : Worker Wt R) (i : Z) : bool :=
  bool_decide (is_Some (tasks w !! i)) || existsb (fun t => tid t =? i) (spawner w).

(** The result is there, or will never be. *)
Definition settled (ms : list member) (h : nat * Z) : bool :=
  match ms !! h.1 with
  | None => true
  | Some m => bool_decide (is_Some (outputs (worker m) !! h.2)) || negb (sender_alive (worker m) h.2)
  end.

(** Polling [receiver.await.unwrap()]. *)
Definition poll_handle (ms : list member) (h : nat * Z) : outcome (option R) :=
  match ms !! h.1 with
  | None => Panic
  | Some m =>
      match outputs (worker m) !! h.2 with
      | Some r => Done (Some r)
      | None => if sender_alive (worker m) h.2 then Done None else Panic
      end
  end.

(** The handle the client is blocked on. *)
Definition awaited (g : group) : option (nat * Z) :=
  match program g with BlockOn h :: _ => mjoin (handles g !! h) | _ => None end.

(** [block_on]: a poll, and the park that follows it when it is pending. *)
Definition block_on_poll (h : nat) (g : group) : outcome group :=
  match awaited g with
  | None => Panic
  | Some x =>
      match poll_handle (workers g) x with
      | Panic => Panic
      | Done (Some r) =>
          Done (returned (mkGroup (RUNNING g) (workers g) (<[h := None]> (handles g)) (token g) false (position_of g)
                  (program g) (results g ++ [r])))
      | Done None =>
          Done (mkGroup (RUNNING g) (workers g) (handles g) (token g) true Parking (program g) (results g))
      end
  end.
Definition block_on_park (g : group) : group :=
  if token g
  then mkGroup (RUNNING g) (workers g) (handles g) false (registered g) Polling (program g) (results g)
  else g.

(** *** Steps *)
Definition client_step (g : group) : outcome group :=
  match position_of g, program g with
  | _, [] => Done g
  | Before, AddWorker k :: _ =>
      match add_worker k g with Done g => Done (returned g) | Panic => Panic end
  | Before, SpawnOn j a :: _ =>
      match spawn_on j a g with Done (r, g) => Done (returned (keep_handle r g)) | Panic => Panic end
  | Before, StartAll :: _ => Done (set_position (Starting 0) (set_running true g))
  | Before, StopAll :: _ => Done (set_position (Stopping 0) (set_running false g))
  | Before, BlockOn _ :: _ => Done (set_position Polling g)
  | Starting k, _ =>
      match start_one k g with
      | Done (Some g) => Done (set_position (Starting (S k)) g)
      | Done None => Done (returned g)
      | Panic => Panic
      end
  | Stopping k, _ =>
      match stop_one k g with
      | Done (Some g, true) => Done (set_position (Stopping (S k)) g)
      | Done (Some g, false) => Done g
      | Done (None, _) => Done (returned g)
      | Panic => Panic
      end
  | Polling, BlockOn h :: _ => block_on_poll h g
  | Parking, BlockOn _ :: _ => Done (block_on_park g)
  | (Polling | Parking), _ => Panic
  end.

(** A step of the thread of worker [j]; when it settles the awaited handle the waker
    unparks the client. *)
Definition thread_turn (j : nat) (g : group) : outcome group :=
  match workers g !! j with
  | None => Done g
  | Some m =>
      match worker_step (RUNNING g) m with
      | Panic => Panic
      | Done m' =>
          let ms := <[j := m']> (workers g) in
          let wake := match awaited g with
                      | Some h => registered g && negb (settled (workers g) h) && settled ms h
                      | None => false
                      end in
          Done (mkGroup (RUNNING g) ms (handles g) (token g || wake) (registered g) (position_of g) (program g) (results g))
      end
  end.

(** Who is next: the client, a worker, or a park that returns for no reason. *)
Inductive choice : Set := Client | Thread (j : nat) | Spurious.

Definition step (x : choice) (g : group) : outcome group :=
  match x with
  | Client => client_step g
  | Thread j => thread_turn j g
  | Spurious => match position_of g with Parking => Done (set_position Polling g) | _ => Done g end
  end.

Fixpoint run (sched : nat -> choice) (n : nat) (g : group) : outcome group :=
  match n with
  | O => Done g
  | S n => match step (sched 0%nat) g with Done g => run (fun k => sched (S k)) n g | Panic => Panic end
  end.

End group.
Arguments member : clear implicits.
Arguments command : clear implicits.
Arguments group : clear implicits.
End WorkerGroup.
Import WorkerGroup.

(** ** What a program means

    Run the blocks alone, in any order: [meaning running counts hs p rs] says that a
    program is legal and that [rs] are the results its calls of [block_on] get.
    [counts] are the tasks spawned on each worker, [hs] the blocks of the handles
    that are left. *)
Section Meaning.
Context {Wt R : Type} `{!Waitable Wt}.

Definition terminates (a : async Wt R) : Prop := exists n r, runs n (Run a) r.

Inductive meaning : bool -> list nat -> list (option (async Wt R)) -> list (command Wt R) -> list R -> Prop :=
| meaning_end b counts hs : meaning b counts hs [] []
| meaning_add b counts hs k p rs :
    (1 <= k)%nat -> meaning b (counts ++ [0%nat]) hs p rs -> meaning b counts hs (AddWorker k :: p) rs
| meaning_spawn b counts hs j n a p rs :
    counts !! j = Some n -> (n < QUEUE_CAP)%nat -> terminates a ->
    meaning b (<[j := S n]> counts) (hs ++ [Some a]) p rs -> meaning b counts hs (SpawnOn j a :: p) rs
| meaning_spawn_error b counts hs j a p rs :
    counts !! j = None -> meaning b counts hs p rs -> meaning b counts hs (SpawnOn j a :: p) rs
| meaning_start counts hs p rs : meaning true counts hs p rs -> meaning false counts hs (StartAll :: p) rs
| meaning_block counts hs h a n r p rs :
    hs !! h = Some (Some a) -> runs n (Run a) r ->
    meaning true counts (<[h := None]> hs) p rs -> meaning true counts hs (BlockOn h :: p) (r :: rs)
| meaning_stop counts hs : meaning true counts hs [StopAll] [].

(** A schedule in which the client and the first [n] workers are never forgotten. *)
Definition counted (n : nat) (x : choice) : Prop := match x with Client => True | Thread j => (j < n)%nat | Spurious => False end.
Definition fair (n : nat) (sched : nat -> choice) : Prop :=
  forall x k, counted n x -> exists m, (k <= m)%nat /\ sched m = x.

Fixpoint adds (p : list (command Wt R)) : nat :=
  match p with [] => 0 | AddWorker _ :: p => S (adds p) | _ :: p => adds p end.

(** *** Eventually *)
Definition ev (sched : nat -> choice) (g : group Wt R) (Q : group Wt R -> Prop) : Prop :=
  exists n g', run sched n g = Done g' /\ Q g'.

Definition shift (n : nat) (sched : nat -> choice) : nat -> choice := fun k => sched (n + k)%nat.

Lemma fair_shift n k sched : fair n sched -> fair n (shift k sched).
Proof.
  intros F x i Hx. destruct (F x (k + i)%nat Hx) as (m & Hm & <-). exists (m - k)%nat. split; [lia|].
  unfold shift. f_equal. lia.
Qed.

Lemma run_ext sched sched' n (g : group Wt R) : (forall k, sched k = sched' k) -> run sched n g = run sched' n g.
Proof.
  revert sched sched' g. induction n as [|n IH]; intros sched sched' g E; [done|]. cbn. rewrite E.
  destruct (step _ g) as [g'|]; [|done]. apply IH. intros k. apply E.
Qed.

Lemma run_add sched n m (g : group Wt R) :
  run sched (n + m) g = match run sched n g with Done g' => run (shift n sched) m g' | Panic => Panic end.
Proof.
  revert sched g. induction n as [|n IH]; intros sched g; cbn; [by apply run_ext|].
  destruct (step _ g) as [g'|]; [|done]. rewrite IH. destruct (run _ n g'); [|done]. by apply run_ext.
Qed.

Lemma ev_now sched g (Q : group Wt R -> Prop) : Q g -> ev sched g Q.
Proof. intros H. by exists 0%nat, g. Qed.

Lemma ev_trans n sched g (P Q : group Wt R -> Prop) :
  fair n sched -> ev sched g P -> (forall sched' g', fair n sched' -> P g' -> ev sched' g' Q) -> ev sched g Q.
Proof.
  intros F (k & g1 & H1 & HP) H. destruct (H (shift k sched) g1 (fair_shift _ _ _ F) HP) as (m & g2 & H2 & HQ).
  exists (k + m)%nat, g2. by rewrite run_add, H1.
Qed.

(** If every step keeps the measure or reaches the goal, and the steps of one thread
    lower it, a fair schedule reaches the goal. *)
Lemma ev_measure n x (I : nat -> group Wt R -> Prop) (Q : group Wt R -> Prop) :
  counted n x ->
  (forall m g y, I m g -> exists g', step y g = Done g' /\ (Q g' \/ exists m', (m' <= m)%nat /\ I m' g')) ->
  (forall m g g', I m g -> step x g = Done g' -> Q g' \/ exists m', (m' < m)%nat /\ I m' g') ->
  forall m sched g, fair n sched -> I m g -> ev sched g Q.
Proof.
  intros Hx H1 H2 m. induction (lt_wf m) as [m _ IHm]. intros sched g F HI.
  destruct (F x 0%nat Hx) as (k & _ & Hk). revert m IHm sched g F HI Hk.
  induction k as [|k IHk]; intros m IHm sched g F HI Hk;
    destruct (H1 m g (sched 0%nat) HI) as (g' & Hs & Hg).
  - destruct (H2 m g g' HI ltac:(by rewrite Hk in Hs)) as [HQ|(m' & Hm & HI')].
    { exists 1%nat, g'. cbn. by rewrite Hs. }
    destruct (IHm m' Hm (shift 1 sched) g' (fair_shift _ _ _ F) HI') as (i & g2 & Hr & HQ).
    exists (S i), g2. cbn. by rewrite Hs.
  - destruct Hg as [HQ|(m' & Hm & HI')]; [exists 1%nat, g'; cbn; by rewrite Hs|].
    destruct (IHk m' ltac:(intros i Hi; apply IHm; lia) (shift 1 sched) g' (fair_shift _ _ _ F) HI' Hk) as (i & g2 & Hr & HQ).
    exists (S i), g2. cbn. by rewrite Hs.
Qed.

(** One step of one thread is enough, and nothing prevents it. *)
Lemma ev_once n x (J Q : group Wt R -> Prop) sched g :
  counted n x -> fair n sched -> J g ->
  (forall g y, J g -> exists g', step y g = Done g' /\ (Q g' \/ J g')) ->
  (forall g, J g -> exists g', step x g = Done g' /\ Q g') -> ev sched g Q.
Proof.
  intros Hx F HJ H1 H2. apply (ev_measure n x (fun m g => m = 0%nat /\ J g) Q Hx) with (m := 0%nat); [..|done|done].
  - intros m g1 y [-> J1]. destruct (H1 g1 y J1) as (g2 & E & [?|?]); exists g2; eauto 6.
  - intros m g1 g2 [-> J1] E. destruct (H2 g1 J1) as (g3 & E3 & HQ). left. congruence.
Qed.

End Meaning.

(** ** The workers of a group *)
Section Members.
Context {Wt R : Type} `{!Waitable Wt}.
Implicit Types (m : member Wt R) (bs : list (async Wt R)) (w : Worker Wt R).

Definition rounds_ok (c : pc) : Prop := match c with Find rounds _ => 1 <= rounds | _ => True end.

(** The position of the thread, also of one that has not started. *)
Definition pc_of m : pc := default Check (join_handle m).

Record member_at (n : nat) bs m : Prop := {
  at_inv : exists k ths rem, (1 <= k)%nat /\ inv bs k (pc_of m, worker m) ths /\ fueled rem ths /\
             n = measure (length bs) rem (pc_of m, worker m);
  at_rounds : rounds_ok (pc_of m);
  at_count : (length bs <= QUEUE_CAP)%nat;
  at_blocks : Forall terminates bs;
  at_locals : join_handle m = None -> thread_locals (worker m) = worker m;
}.

Definition member_ok bs m : Prop := exists n, member_at n bs m.

Lemma member_intro k ths bs m :
  (1 <= k)%nat -> inv bs k (pc_of m, worker m) ths -> rounds_ok (pc_of m) -> (length bs <= QUEUE_CAP)%nat ->
  Forall terminates bs -> (join_handle m = None -> thread_locals (worker m) = worker m) -> member_ok bs m.
Proof.
  intros Hk I Hr L F Hl. destruct (history_fueled _ _ (inv_history _ _ _ _ I) F) as [rem Hrem].
  eexists. constructor; try done. by exists k, ths, rem.
Qed.

Lemma member_new k : (1 <= k)%nat -> member_ok [] (mkMember (new k) None : member Wt R).
Proof. intros Hk. apply (member_intro k ∅); try done; [apply inv_start|cbn; lia]. Qed.

Lemma member_started bs m :
  member_ok bs m -> join_handle m = None ->
  exists m', worker_start m = Done m' /\ member_ok bs m' /\ join_handle m' = Some Check.
Proof.
  intros [n [Hi Hr Hc Hb Hl]] Hj. unfold worker_start. rewrite Hj, (Hl Hj). eexists. split; [done|]. split; [|done].
  exists n. unfold pc_of in *. rewrite Hj in *. by constructor.
Qed.

Lemma spawn_locals a w w' u : spawn a w = Done (u, w') -> thread_locals w = w -> thread_locals w' = w'.
Proof.
  unfold spawn. rewrite bind_run. cbn. unfold spawner_push. destruct (_ <? _)%nat; [|done]. intros [= <- <-].
  destruct w. unfold thread_locals. cbn. intros [=]. by subst.
Qed.

Lemma member_spawn bs m a :
  member_ok bs m -> (length bs < QUEUE_CAP)%nat -> terminates a ->
  exists u w, spawn a (worker m) = Done (u, w) /\ next (worker m) = Z.of_nat (length bs) /\
    member_ok (bs ++ [a]) (mkMember w (join_handle m)).
Proof.
  intros [n [(k & ths & rem & Hk & I & _ & _) Hr Hc Hb Hl]] L Ha.
  assert (Hle : Z.of_nat (length (bs ++ [a])) <= 2 ^ 64) by (rewrite length_app; unfold QUEUE_CAP in L; cbn; lia).
  destruct (act_inv bs k _ ths (Spawn a) I Hk Hle) as [[_ Hs]|(c' & ths' & E & I' & _)].
  { cbn in Hs. rewrite length_app in Hs. cbn in Hs. lia. }
  cbn in E. destruct (spawn a (worker m)) as [[u w]|] eqn:Es; [|done]. injection E as <-. exists u, w.
  split; [done|]. split.
  { etrans; [apply (inv_next _ _ _ _ I)|]. apply wrap_small. unfold in_width, QUEUE_CAP in *. lia. }
  apply (member_intro k ths'); try done.
  - rewrite length_app. cbn. lia.
  - by apply Forall_app_2; [|constructor].
  - cbn. intros Hj. by eapply spawn_locals, Hl.
Qed.

(** The results of a member are those of its blocks; the sender of a task without
    a result is alive. *)
Lemma member_output bs m i b :
  member_ok bs m -> bs !! i = Some b ->
  match outputs (worker m) !! Z.of_nat i with
  | Some r => exists n, runs n (Run b) r
  | None => sender_alive (worker m) (Z.of_nat i) = true
  end.
Proof.
  intros [n [(k & ths & rem & Hk & I & _ & _) _ _ _ _]] Hb.
  destruct (history_lookup _ _ _ _ (inv_history _ _ _ _ I) Hb) as (th & Hth & Hr).
  pose proof (inv_sim _ _ _ _ I) as X. cbn in X. destruct (outputs (worker m) !! _) as [r|] eqn:Ho.
  - pose proof (sim_output _ _ _ _ X Ho) as E. rewrite Hth in E. injection E as ->. by apply rtc_runs.
  - unfold sender_alive. destruct (sim_spawned _ _ _ _ X Hth) as [(r & Hr' & _)|[Ht|(t & Ht & Hid)]]; [congruence|..].
    + by rewrite (bool_decide_eq_true_2 _ Ht).
    + apply orb_true_iff. right. apply existsb_exists. exists t. split; [by apply list_elem_of_In|]. by apply Z.eqb_eq.
Qed.

Definition complete bs m : Prop := forall i b, bs !! i = Some b -> is_Some (outputs (worker m) !! Z.of_nat i).

Lemma all_finished_complete bs k m ths : inv bs k (pc_of m, worker m) ths -> all_finished ths -> complete bs m.
Proof.
  intros I F i b Hb. destruct (history_lookup _ _ _ _ (inv_history _ _ _ _ I) Hb) as (th & Hth & _).
  destruct (F _ _ Hth) as [r ->]. pose proof (sim_at _ _ (inv_sim _ _ _ _ I) (Z.of_nat i)) as P. rewrite Hth in P.
  inversion P. by eexists.
Qed.

Lemma work_rounds c w c' w' : rounds_ok c -> work c w = Done (c', w') -> rounds_ok c'.
Proof.
  intros Hc. destruct c as [|rounds [|more]|]; cbn [work].
  - destruct (running w); intros [= <- <-]; cbn; lia.
  - rewrite bind_run. destruct (wait_round w) as [[u w1]|]; [|done]. intros [= <- <-].
    cbn in Hc. destruct (rounds =? 1) eqn:E; cbn; [done|]. apply Z.eqb_neq in E. lia.
  - rewrite bind_run. destruct (find_task w) as [[[[i|]|] w1]|]; [|by intros [= <- <-]..|done].
    rewrite bind_run. destruct (run_task i w1) as [[u w2]|]; [|done]. by intros [= <- <-].
  - by intros [= <- <-].
Qed.

Lemma with_running_id w : running w = true -> with_running true w = w.
Proof. destruct w; cbn. by intros ->. Qed.

(** A step of a started worker while the group runs. *)
Lemma member_step n bs m c :
  member_at n bs m -> join_handle m = Some c ->
  exists m' c' n', worker_step true m = Done m' /\ join_handle m' = Some c' /\ member_at n' bs m' /\
    ((n' < n)%nat \/ complete bs m').
Proof.
  intros [(k & ths & rem & Hk & I & F & ->) Hr Hc Hb _] Hj.
  assert (Ec : pc_of m = c) by (unfold pc_of; by rewrite Hj). rewrite Ec in *.
  destruct (live_step bs k _ ths rem I Hk Hc F) as ([c' w'] & ths' & rem' & E & I' & F' & _ & Hd).
  pose proof (inv_running _ _ _ _ I) as Rn. pose proof (inv_pc _ _ _ _ I) as Hn. pose proof (inv_pc _ _ _ _ I') as Hn'.
  cbn in E, Rn, Hn, Hn'. destruct (work c (worker m)) as [[c1 w1]|] eqn:Ew; [|done]. injection E as -> ->.
  exists (mkMember w' (Some c')), c', (measure (length bs) rem' (c', w')).
  split. { unfold worker_step. rewrite Hj, (with_running_id _ Rn), Ew. by destruct c, c'. }
  split; [done|]. split.
  - constructor; try done; [by exists k, ths', rem'|]. by apply (work_rounds c (worker m) c' w').
  - destruct Hd as [?|Hf]; [by left|]. right. by eapply all_finished_complete.
Qed.

Lemma member_turn b bs m :
  member_ok bs m -> (is_Some (join_handle m) -> b = true) ->
  exists m', worker_step b m = Done m' /\ member_ok bs m' /\ (is_Some (join_handle m') <-> is_Some (join_handle m)).
Proof.
  intros [n Hm] Hb. destruct (join_handle m) as [c|] eqn:Hj.
  - rewrite (Hb ltac:(done)). destruct (member_step n bs m c Hm Hj) as (m' & c' & n' & E & Hj' & Hm' & _).
    exists m'. rewrite Hj'. split; [done|]. split; [by exists n'|]. split; by eexists.
  - exists m. unfold worker_step. rewrite Hj. split; [done|]. split; [by exists n|done].
Qed.

(** A result stays. *)
Lemma member_keeps bs m c m' i r :
  member_ok bs m -> join_handle m = Some c -> worker_step true m = Done m' ->
  outputs (worker m) !! i = Some r -> outputs (worker m') !! i = Some r.
Proof.
  intros [n [(k & ths & rem & Hk & I & _ & _) _ Hc _ _]] Hj Hs Ho.
  assert (Ec : pc_of m = c) by (unfold pc_of; by rewrite Hj). rewrite Ec in *.
  assert (Hle : Z.of_nat (length (bs ++ bodies [Work : action Wt R])) <= 2 ^ 64)
    by (rewrite app_nil_r; unfold QUEUE_CAP in Hc; lia).
  destruct (act_inv bs k _ ths Work I Hk Hle) as [[_ L]|(c' & ths' & E & I' & Ha)]; [rewrite app_nil_r in L; lia|].
  pose proof (inv_running _ _ _ _ I) as Rn. pose proof (inv_pc _ _ _ _ I) as Hn. pose proof (inv_pc _ _ _ _ I') as Hn'.
  cbn in E, Rn, Hn. unfold worker_step in Hs. rewrite Hj, (with_running_id _ Rn) in Hs.
  destruct (work c (worker m)) as [[c1 w1]|]; [|done]. injection E as <-. cbn in Hn'.
  assert (worker m' = w1) as -> by (destruct c; [..|done]; destruct c1; by simplify_eq).
  destruct (Ha eq_refl) as (_ & _ & _ & S & [HS HS'] & _).
  pose proof (sim_output _ _ _ _ (inv_sim _ _ _ _ I) Ho) as Hi.
  assert (Hi' : ths' !! i = Some (Finished r)).
  { destruct (decide (i ∈ S)) as [Hin|Hin]; [|by rewrite HS'].
    destruct (HS i Hin) as (th & th' & E1 & E2 & _). rewrite Hi in E1. injection E1 as <-. done. }
  pose proof (sim_at _ _ (inv_sim _ _ _ _ I') i) as P. rewrite Hi' in P. by inversion P.
Qed.

(** *** Ending *)
Definition left_rounds (c : pc) w : nat :=
  match c with
  | Find rounds more => S (Z.to_nat rounds * S (task_per_round w) + more + length (spawner w))
  | _ => 0
  end.

(** A thread that will see the flag. *)
Definition exiting (n : nat) m : Prop :=
  exists c, join_handle m = Some c /\
    (c = Exited \/ exists ths, sim (worker m) ths /\ (size ths <= QUEUE_CAP)%nat /\ rounds_ok c /\ n = left_rounds c (worker m)).

Lemma sim_with_running b w ths : sim w ths -> sim (with_running b w) ths.
Proof.
  intros X. constructor; try apply X. intros i. eapply same_place, X. constructor; try done.
Qed.

Lemma find_left rounds more w ths :
  sim w ths -> (size ths <= QUEUE_CAP)%nat ->
  exists c' w' ths', work (Find rounds (S more)) w = Done (c', w') /\ sim w' ths' /\ (size ths' <= QUEUE_CAP)%nat /\
    c' <> Exited /\ (left_rounds c' w' < left_rounds (Find rounds (S more)) w)%nat.
Proof.
  intros X L. cbn [work]. destruct (spawner w) as [|t rest] eqn:Es.
  - assert (Hf : find_task w = match queue w with i :: q => Done (Some (Some i), upd_queue q w)
                               | [] => Done (Some None, w) end) by (unfold find_task; by rewrite Es).
    rewrite bind_run, Hf. destruct (queue w) as [|i q] eqn:Eq.
    + eexists _, w, ths. split; [done|]. do 3 (split; [done|]). cbn [left_rounds]. rewrite Es. lia.
    + destruct (run_task_spec i q w ths X Eq) as (w' & a & th & Hr & Ha & Hth & X' & St & Sp).
      rewrite bind_run, Hr. eexists _, w', _. split; [done|]. split; [done|].
      rewrite (stepped_size {[i]} ths) by (by eapply stepped_one). split; [done|]. split; [done|].
      injection St as ?? T. cbn [left_rounds]. rewrite Sp, Es, T. lia.
  - destruct (find_task_spawned t rest w ths X Es) as [[_ Hp]|(r & w' & ths' & Hd & X' & St & -> & -> & Sp)]; [lia|].
    rewrite bind_run, Hd. eexists _, w', ths. split; [done|]. do 3 (split; [done|]).
    injection St as ?? T. cbn [left_rounds]. rewrite Sp, Es, T. cbn [length]. lia.
Qed.

Lemma wait_left rounds w ths :
  sim w ths -> (size ths <= QUEUE_CAP)%nat -> 1 <= rounds ->
  exists c' w' ths', work (Find rounds 0) w = Done (c', w') /\ sim w' ths' /\ (size ths' <= QUEUE_CAP)%nat /\
    c' <> Exited /\ (left_rounds c' w' < left_rounds (Find rounds 0) w)%nat.
Proof.
  intros X L Hr. cbn [work]. rewrite bind_run.
  destruct (wait_round_spec w ths X) as [[_ Hp]|(u & w' & ths' & Hd & X' & St & Sd & Sp)]; [lia|].
  rewrite Hd. eexists _, w', ths'. split; [done|]. split; [done|]. rewrite (stepped_size _ _ _ Sd). split; [done|].
  injection St as ?? T. destruct (rounds =? 1) eqn:E; (split; [done|]); cbn [left_rounds]; [lia|].
  apply Z.eqb_neq in E. rewrite Sp, T. nia.
Qed.

Lemma exiting_step n m :
  exiting n m ->
  exists m' n', worker_step false m = Done m' /\ exiting n' m' /\ (n' <= n)%nat /\
    (join_handle m' = Some Exited \/ (n' < n)%nat).
Proof.
  intros (c & Hj & Hc). destruct (decide (c = Exited)) as [->|Hne].
  { exists m, n. unfold worker_step. rewrite Hj. split; [done|]. split; [|by auto]. exists Exited. auto. }
  destruct Hc as [?|(ths & X & L & Hr & ->)]; [done|]. unfold worker_step. rewrite Hj.
  apply (sim_with_running false) in X. destruct (decide (c = Check)) as [->|Hn].
  { eexists (mkMember _ (Some Exited)), 0%nat. split; [done|]. split; [|split; [lia|by left]]. exists Exited. auto. }
  assert (Hw : exists c' w' ths', work c (with_running false (worker m)) = Done (c', w') /\ sim w' ths' /\
    (size ths' <= QUEUE_CAP)%nat /\ c' <> Exited /\ (left_rounds c' w' < left_rounds c (with_running false (worker m)))%nat).
  { destruct c as [|rounds [|more]|]; [done|by eapply wait_left|by eapply find_left|done]. }
  destruct Hw as (c' & w' & ths' & E & X' & L' & Hn' & Hl). pose proof (work_rounds _ _ _ _ Hr E) as Hr'. rewrite E.
  exists (mkMember w' (Some c')), (left_rounds c' w'). split; [by destruct c, c'|].
  assert (left_rounds c (with_running false (worker m)) = left_rounds c (worker m)) as El by by destruct c. rewrite El in Hl.
  split; [|split; [lia|by right]]. exists c'. split; [done|]. right. by exists ths'.
Qed.

Lemma member_exiting bs m c : member_ok bs m -> join_handle m = Some c -> exists n, exiting n m.
Proof.
  intros [n [(k & ths & rem & Hk & I & _ & _) Hr Hc _ _]] Hj. unfold pc_of in *. rewrite Hj in *. eexists. exists c. split; [done|].
  right. exists ths. split; [apply I|]. rewrite (history_size _ _ (inv_history _ _ _ _ I)). done.
Qed.

End Members.

(** ** The group while it runs *)
Section Phases.
Context {Wt R : Type} `{!Waitable Wt}.
Implicit Types (g : group Wt R) (bss : list (list (async Wt R))) (hs : list (option (async Wt R))).

Definition handle_ok bss (a : option (async Wt R)) (h : option (nat * Z)) : Prop :=
  match a, h with
  | Some a, Some (j, i) => exists bs n, bss !! j = Some bs /\ bs !! n = Some a /\ i = Z.of_nat n
  | None, None => True
  | _, _ => False
  end.

(** [bss] are the blocks spawned on each worker, [hs] those of the handles; the
    first [k] workers have a thread. *)
Record good (b : bool) (k : nat) bss hs g : Prop := {
  g_running : RUNNING g = b;
  g_members : Forall2 member_ok bss (workers g);
  g_started j m : workers g !! j = Some m -> (is_Some (join_handle m) <-> (j < k)%nat);
  g_quiet : b = false -> k = 0%nat;
  g_handles : Forall2 (handle_ok bss) hs (handles g);
}.

(** What only the client changes. *)
Definition client g := (handles g, registered g, position_of g, program g, results g).

Lemma good_length b k bss hs g : good b k bss hs g -> length bss = length (workers g).
Proof. intros G. eapply Forall2_length, G. Qed.

Lemma turn b k bss hs g j :
  good b k bss hs g ->
  exists g', thread_turn j g = Done g' /\ good b k bss hs g' /\ client g' = client g /\
    (token g = true -> token g' = true) /\
    (forall j', j' <> j -> workers g' !! j' = workers g !! j') /\
    (forall m, workers g !! j = Some m -> exists m', worker_step b m = Done m' /\ workers g' !! j = Some m') /\
    (forall h, awaited g = Some h -> registered g = true -> settled (workers g') h = true ->
       settled (workers g) h = true \/ token g' = true).
Proof.
  intros G. unfold thread_turn. destruct (workers g !! j) as [m|] eqn:Hm.
  2:{ exists g. split; [done|]. split; [done|]. split; [done|]. split; [done|]. split; [done|]. split; [done|]. auto. }
  destruct (Forall2_lookup_r _ _ _ _ _ (g_members _ _ _ _ _ G) Hm) as (bs & Hbs & Hok).
  pose proof (g_started _ _ _ _ _ G j m Hm) as Hst.
  destruct (member_turn (RUNNING g) bs m Hok) as (m' & Es & Hok' & Hj).
  { rewrite (g_running _ _ _ _ _ G). intros Hs. apply Hst in Hs. destruct b; [done|]. rewrite (g_quiet _ _ _ _ _ G eq_refl) in Hs. lia. }
  pose proof (lookup_lt_Some _ _ _ Hm) as Hlt. rewrite Es. eexists. split; [done|]. split; [|split; [done|]].
  - constructor; cbn [RUNNING workers handles]; try apply G.
    + rewrite <- (list_insert_id bss j bs Hbs). by apply Forall2_insert; [apply G|].
    + intros j' m1. destruct (decide (j' = j)) as [->|Hne].
      * rewrite list_lookup_insert_eq by done. intros [= <-]. by rewrite Hj.
      * rewrite list_lookup_insert_ne by done. apply G.
  - cbn [token workers registered]. split; [by intros ->|]. split; [intros j' Hne; by apply list_lookup_insert_ne|]. split.
    + intros m1 [= <-]. exists m'. rewrite (g_running _ _ _ _ _ G) in Es. split; [done|]. by apply list_lookup_insert_eq.
    + intros h -> -> ->. destruct (settled (workers g) h); [by left|right]. apply orb_true_r.
Qed.

(** A call that the client carries out in one step, whatever the workers did before. *)
Lemma ev_client N b k bss hs sched g (Q : group Wt R -> Prop) :
  fair N sched -> good b k bss hs g -> position_of g <> Parking ->
  (forall g', good b k bss hs g' -> client g' = client g -> exists g'', client_step g' = Done g'' /\ Q g'') ->
  ev sched g Q.
Proof.
  intros F G Hp H. apply (ev_once N Client (fun g' => good b k bss hs g' /\ client g' = client g)); try done.
  - intros g1 y [G1 E1]. destruct y as [|j|].
    + destruct (H g1 G1 E1) as (g2 & E2 & HQ). exists g2. auto.
    + destruct (turn _ _ _ _ _ j G1) as (g2 & E2 & G2 & C2 & _). exists g2. split; [done|]. right. by rewrite C2.
    + exists g1. assert (position_of g1 = position_of g) as Ep by by injection E1. cbn. rewrite Ep.
      destruct (position_of g); (split; [done|]); by auto.
  - intros g1 [G1 E1]. by apply H.
Qed.

Lemma handle_ok_app bss bss' a h :
  (forall j bs, bss !! j = Some bs -> exists l, bss' !! j = Some (bs ++ l)) -> handle_ok bss a h -> handle_ok bss' a h.
Proof.
  intros H. destruct a as [a|], h as [[j i]|]; [|done..]. intros (bs & n & Hj & Hn & ->).
  destruct (H _ _ Hj) as [l Hl]. exists (bs ++ l), n. split; [done|]. split; [by apply lookup_app_l_Some|done].
Qed.

(** *** The calls *)
Lemma add_good b k bss hs g n :
  good b k bss hs g -> (b = true -> k = length (workers g)) -> (1 <= n)%nat ->
  exists g', add_worker n g = Done g' /\ good b (if b then S k else k) (bss ++ [[]]) hs g' /\ client g' = client g /\
    length (workers g') = S (length (workers g)).
Proof.
  intros G Hk Hn. unfold add_worker. rewrite (g_running _ _ _ _ _ G).
  destruct (member_started _ _ (member_new (R := R) n Hn) eq_refl) as (ms & Es & Hms & Hjs). rewrite Es.
  assert (Hm : exists m, (if b then Done ms else Done (mkMember (new n) None)) = Done m /\ member_ok [] m /\
    (is_Some (join_handle m) <-> b = true)).
  { destruct b; eexists; (split; [done|]).
    - rewrite Hjs. split; [done|]. by split.
    - split; [by apply member_new|]. split; [by intros []|done]. }
  destruct Hm as (m & -> & Hok & Hj). eexists. split; [done|]. split; [|split; [done|cbn; rewrite length_app; cbn; lia]].
  constructor; cbn [RUNNING workers handles set_workers]; try apply G.
  - apply Forall2_app; [apply G|by constructor].
  - intros j m1 [H1|[Hl H1]]%lookup_app_Some.
    + rewrite (g_started _ _ _ _ _ G _ _ H1). apply lookup_lt_Some in H1. destruct b; [rewrite (Hk eq_refl); lia|done].
    + apply list_lookup_singleton_Some in H1 as [H0 ->]. rewrite Hj. destruct b; [rewrite (Hk eq_refl); split; [lia|done]|].
      rewrite (g_quiet _ _ _ _ _ G eq_refl). split; [done|lia].
  - intros ->. by apply G.
  - eapply Forall2_impl; [apply G|]. intros a h. apply handle_ok_app. intros j bs Hj'. exists [].
    rewrite app_nil_r. by apply lookup_app_l_Some.
Qed.

Lemma spawn_good b k bss hs g j bs a :
  good b k bss hs g -> bss !! j = Some bs -> (length bs < QUEUE_CAP)%nat -> terminates a ->
  exists h g', spawn_on j a g = Done (Ok h, g') /\ good b k (<[j := bs ++ [a]]> bss) (hs ++ [Some a]) (keep_handle (Ok h) g') /\
    registered g' = registered g /\ position_of g' = position_of g /\ program g' = program g /\ results g' = results g /\
    length (workers g') = length (workers g).
Proof.
  intros G Hbs Hl Ha. destruct (Forall2_lookup_l _ _ _ _ _ (g_members _ _ _ _ _ G) Hbs) as (m & Hm & Hok).
  destruct (member_spawn bs m a Hok Hl Ha) as (u & w & Es & Hn & Hok').
  pose proof (lookup_lt_Some _ _ _ Hm) as Hlt. pose proof (lookup_lt_Some _ _ _ Hbs) as Hlt'.
  unfold spawn_on. rewrite Hm, Es, Hn. eexists _, _. split; [done|]. cbn. rewrite length_insert. split; [|done].
  constructor; cbn [RUNNING workers handles]; try apply G.
  - by apply Forall2_insert; [apply G|].
  - intros j' m1. destruct (decide (j' = j)) as [->|Hne].
    + rewrite list_lookup_insert_eq by done. intros [= <-]. cbn. by apply G.
    + rewrite list_lookup_insert_ne by done. apply G.
  - apply Forall2_app; [eapply Forall2_impl; [apply G|]|constructor; [|done]].
    + intros a' h. apply handle_ok_app. intros j' bs' Hj'. destruct (decide (j' = j)) as [->|Hne].
      * rewrite Hbs in Hj'. injection Hj' as <-. exists [a]. by apply list_lookup_insert_eq.
      * exists []. by rewrite app_nil_r, list_lookup_insert_ne.
    + exists (bs ++ [a]), (length bs). rewrite list_lookup_insert_eq by done. split; [done|].
      by rewrite lookup_app_r, Nat.sub_diag by lia.
Qed.

Lemma start_good bss hs g k m :
  good true k bss hs g -> workers g !! k = Some m ->
  exists g', start_one k g = Done (Some g') /\ good true (S k) bss hs g' /\ client g' = client g /\
    length (workers g') = length (workers g).
Proof.
  intros G Hm. destruct (Forall2_lookup_r _ _ _ _ _ (g_members _ _ _ _ _ G) Hm) as (bs & Hbs & Hok).
  assert (Hj : join_handle m = None).
  { destruct (join_handle m) eqn:E; [|done]. pose proof (g_started _ _ _ _ _ G _ _ Hm) as [Hs _]. rewrite E in Hs.
    specialize (Hs ltac:(done)). lia. }
  destruct (member_started bs m Hok Hj) as (m' & Es & Hok' & Hj'). unfold start_one. rewrite Hm, Es.
  pose proof (lookup_lt_Some _ _ _ Hm) as Hlt.
  eexists. split; [done|]. cbn. rewrite length_insert. split; [|done].
  constructor; cbn [RUNNING workers handles set_workers]; try apply G; [..|done].
  - rewrite <- (list_insert_id bss k bs Hbs). by apply Forall2_insert; [apply G|].
  - intros j m1. destruct (decide (j = k)) as [->|Hne].
    + rewrite list_lookup_insert_eq by done. intros [= <-]. rewrite Hj'. split; [lia|done].
    + rewrite list_lookup_insert_ne by done. intros H1. rewrite (g_started _ _ _ _ _ G _ _ H1). lia.
Qed.

(** The client is before the call at the head of [p]. *)
Definition before (p : list (command Wt R)) (rs : list R) g : Prop :=
  position_of g = Before /\ program g = p /\ results g = rs.

Lemma ev_start N bss hs p rs k sched g :
  fair N sched -> good true k bss hs g -> (k <= length bss)%nat ->
  position_of g = Starting k -> program g = StartAll :: p -> results g = rs ->
  ev sched g (fun g' => good true (length bss) bss hs g' /\ before p rs g').
Proof.
  remember (length bss - k)%nat as n eqn:En. revert k En sched g.
  induction n as [|n IH]; intros k En sched g F G Hk Hp Hpr Hrs.
  - eapply (ev_client N true k bss hs); [done|done|by rewrite Hp|]. intros g' G' C. injection C as _ _ Cp Cpr Crs. pose proof (good_length _ _ _ _ _ G') as L.
    unfold client_step. rewrite Cp, Hp, Cpr, Hpr. unfold start_one. rewrite lookup_ge_None_2 by lia.
    eexists. split; [done|]. replace (length bss) with k by lia. split.
    + constructor; try apply G'.
    + split; [done|]. cbn. by rewrite Cpr, Hpr, Crs.
  - eapply (ev_trans N _ _ (fun g' => good true (S k) bss hs g' /\ position_of g' = Starting (S k) /\
      program g' = StartAll :: p /\ results g' = rs)); [done|eapply (ev_client N true k bss hs); [done|done|by rewrite Hp|]|].
    + intros g' G' C. injection C as _ _ Cp Cpr Crs. pose proof (good_length _ _ _ _ _ G') as L.
      destruct (lookup_lt_is_Some_2 (workers g') k ltac:(lia)) as [m Hm].
      destruct (start_good bss hs g' k m G' Hm) as (g1 & E1 & G1 & C1 & _). injection C1 as _ _ _ C1 C2.
      unfold client_step. rewrite Cp, Hp, Cpr, Hpr, E1. eexists. split; [done|]. split; [constructor; try apply G1|].
      split; [done|]. cbn. split; congruence.
    + intros sched' g' F' (G' & Hp' & Hpr' & Hrs'). by apply (IH (S k)); try done; lia.
Qed.

(** *** Blocking *)

(** The client is in [block_on] for task [i] of worker [j]; a settled handle has set
    the token of a client that parks. *)
Record blocked (h j : nat) (i : Z) (p : list (command Wt R)) (rs : list R) g : Prop := {
  bl_program : program g = BlockOn h :: p;
  bl_handle : handles g !! h = Some (Some (j, i));
  bl_results : results g = rs;
  bl_position : position_of g = Polling \/
    (position_of g = Parking /\ registered g = true /\ (settled (workers g) (j, i) = true -> token g = true));
}.

Lemma blocked_awaited h j i p rs g : blocked h j i p rs g -> awaited g = Some (j, i).
Proof. intros B. unfold awaited. by rewrite (bl_program _ _ _ _ _ _ B), (bl_handle _ _ _ _ _ _ B). Qed.

Lemma blocked_turn b k bss hs h j i p rs g j' g' :
  good b k bss hs g -> blocked h j i p rs g -> thread_turn j' g = Done g' -> good b k bss hs g' /\ blocked h j i p rs g'.
Proof.
  intros G B E. destruct (turn b k bss hs g j' G) as (g1 & E1 & G1 & C & T & _ & _ & S). rewrite E in E1. injection E1 as <-.
  split; [done|]. injection C as Ch Cr Cp Cpr Crs. specialize (S (j, i) (blocked_awaited _ _ _ _ _ _ B)).
  destruct B as [B1 B2 B3 B4]. constructor; [congruence..|]. rewrite Cp, Cr.
  destruct B4 as [?|(? & Hr & Ht)]; [by left|right]. split; [done|]. split; [done|]. intros Hs. destruct (S Hr Hs) as [?|?]; auto.
Qed.

Lemma blocked_spurious b k bss hs h j i p rs g :
  good b k bss hs g -> blocked h j i p rs g ->
  exists g', step Spurious g = Done g' /\ good b k bss hs g' /\ blocked h j i p rs g' /\ workers g' = workers g /\
    (position_of g = Polling -> position_of g' = Polling).
Proof.
  intros G B. cbn. destruct (position_of g) eqn:Ep; try (exists g; by rewrite Ep).
  exists (set_position Polling g). split; [done|]. split; [constructor; try apply G|]. split; [|done].
  destruct B as [B1 B2 B3 B4]. constructor; try done. by left.
Qed.

Lemma settled_output bss hs b k g j bs n a :
  good b k bss hs g -> bss !! j = Some bs -> bs !! n = Some a ->
  exists m, workers g !! j = Some m /\ member_ok bs m /\
    settled (workers g) (j, Z.of_nat n) = bool_decide (is_Some (outputs (worker m) !! Z.of_nat n)).
Proof.
  intros G Hbs Hn. destruct (Forall2_lookup_l _ _ _ _ _ (g_members _ _ _ _ _ G) Hbs) as (m & Hm & Hok).
  exists m. split; [done|]. split; [done|]. unfold settled. cbn [fst snd]. rewrite Hm.
  pose proof (member_output bs m n a Hok Hn) as Ho. destruct (outputs (worker m) !! _); [done|]. by rewrite Ho.
Qed.

(** A poll before the result is there. *)
Lemma block_pending bss hs b k h j n p rs g bs a :
  good b k bss hs g -> blocked h j (Z.of_nat n) p rs g -> bss !! j = Some bs -> bs !! n = Some a ->
  settled (workers g) (j, Z.of_nat n) = false ->
  exists g', client_step g = Done g' /\ good b k bss hs g' /\ blocked h j (Z.of_nat n) p rs g' /\ workers g' = workers g.
Proof.
  intros G B Hbs Hn Hs. pose proof (blocked_awaited _ _ _ _ _ _ B) as Ha.
  destruct (settled_output _ _ _ _ _ _ _ _ _ G Hbs Hn) as (m & Hm & Hok & Es). rewrite Hs in Es.
  destruct B as [B1 B2 B3 B4]. unfold client_step. rewrite B1.
  destruct B4 as [Hp|(Hp & Hr & Ht)]; rewrite Hp.
  - unfold block_on_poll, poll_handle. rewrite Ha. cbn [fst snd]. rewrite Hm.
    pose proof (member_output bs m n a Hok Hn) as Ho. destruct (outputs (worker m) !! _); [done|]. rewrite Ho.
    eexists. split; [done|]. split; [constructor; try apply G|]. split; [|done]. constructor; try done. right. do 2 (split; [done|]). cbn. by rewrite Hs.
  - unfold block_on_park. destruct (token g) eqn:Et.
    + eexists. split; [done|]. split; [constructor; try apply G|]. split; [|done]. constructor; try done. by left.
    + exists g. split; [done|]. split; [done|]. split; [|done]. constructor; try done. right. do 2 (split; [done|]). by rewrite Hs.
Qed.

Section Block.
Context (bss : list (list (async Wt R))) (hs : list (option (async Wt R))) (h j n : nat) (bs : list (async Wt R))
  (a : async Wt R) (p : list (command Wt R)) (rs : list R).
Hypotheses (Hbs : bss !! j = Some bs) (Hn : bs !! n = Some a).

Definition waits g : Prop := good true (length bss) bss hs g /\ blocked h j (Z.of_nat n) p rs g.
Definition ready g : bool := settled (workers g) (j, Z.of_nat n).

Lemma waits_thread g :
  waits g -> exists m c, workers g !! j = Some m /\ member_ok bs m /\ join_handle m = Some c /\
    ready g = bool_decide (is_Some (outputs (worker m) !! Z.of_nat n)).
Proof using Hbs Hn.
  intros [G _]. destruct (settled_output _ _ _ _ _ _ _ _ _ G Hbs Hn) as (m & Hm & Hok & Es).
  destruct (proj2 (g_started _ _ _ _ _ G j m Hm)) as [c Hc]; [by eapply lookup_lt_Some|]. by exists m, c.
Qed.

Lemma waits_turn j' g g' :
  waits g -> thread_turn j' g = Done g' ->
  waits g' /\ (j' <> j -> workers g' !! j = workers g !! j) /\
  (j' = j -> forall m, workers g !! j = Some m -> exists m', worker_step true m = Done m' /\ workers g' !! j = Some m').
Proof using.
  intros [G B] E. split; [by eapply blocked_turn|].
  destruct (turn _ _ _ _ _ j' G) as (g1 & E1 & _ & _ & _ & W1 & W2 & _). rewrite E in E1. injection E1 as <-.
  split; [intros Hne; by apply W1|]. by intros ->.
Qed.

(** The worker lowers its measure or has the result. *)
Definition computing (k : nat) g : Prop :=
  waits g /\ ready g = false /\ exists m, workers g !! j = Some m /\ member_at k bs m.

Lemma computing_turn k j' g g' :
  computing k g -> thread_turn j' g = Done g' ->
  (waits g' /\ ready g' = true) \/
  exists k', (k' <= k)%nat /\ (j' = j -> (k' < k)%nat) /\ computing k' g'.
Proof using Hbs Hn.
  intros (Hw & Hr & m & Hm & Hat) E. destruct (waits_turn j' g g' Hw E) as (Hw' & W1 & W2).
  destruct (ready g') eqn:Hr'; [by left|right]. destruct (decide (j' = j)) as [->|Hne].
  2:{ exists k. split; [done|]. split; [done|]. split; [done|]. split; [done|]. exists m. by rewrite (W1 Hne). }
  destruct (waits_thread g Hw) as (m1 & c & Hm1 & _ & Hc & _). rewrite Hm in Hm1. injection Hm1 as <-.
  destruct (member_step k bs m c Hat Hc) as (m' & c' & k' & Es & Hc' & Hat' & Hd).
  destruct (W2 eq_refl m Hm) as (m2 & Es2 & Hm2). rewrite Es in Es2. injection Es2 as <-.
  destruct Hd as [Hd|Hf]; [exists k'|].
  - split; [lia|]. split; [done|]. split; [done|]. split; [done|]. by exists m'.
  - exfalso. destruct (waits_thread g' Hw') as (m3 & c3 & Hm3 & _ & _ & Er). rewrite Hm2 in Hm3. injection Hm3 as <-.
    rewrite Hr' in Er. symmetry in Er. apply bool_decide_eq_false in Er. by apply Er, (Hf n a).
Qed.

Lemma ev_ready N sched g :
  fair N sched -> (length bss <= N)%nat -> waits g -> ev sched g (fun g' => waits g' /\ ready g' = true).
Proof using Hbs Hn.
  intros F HN Hw. destruct (ready g) eqn:Hr; [by apply ev_now|].
  destruct (waits_thread g Hw) as (m & c & Hm & [k Hat] & _).
  apply (ev_measure N (Thread j) computing) with (m := k); [..|done|split; [done|split; [done|by exists m]]].
  - apply lookup_lt_Some in Hbs. cbn. lia.
  - clear -Hbs Hn. intros k g y C. destruct y as [|j'|].
    + destruct C as ([G B] & Hr & C). destruct (block_pending _ _ _ _ _ _ _ _ _ _ _ _ G B Hbs Hn Hr) as (g' & E & G' & B' & W).
      exists g'. split; [done|]. right. exists k. split; [done|]. split; [by split|]. unfold ready. by rewrite W.
    + destruct (turn _ _ _ _ _ j' (proj1 (proj1 C))) as (g' & E & _). exists g'. split; [done|].
      destruct (computing_turn k j' g g' C E) as [?|(k' & ? & _ & ?)]; [by left|right]. by exists k'.
    + destruct C as ([G B] & Hr & C). destruct (blocked_spurious _ _ _ _ _ _ _ _ _ _ G B) as (g' & E & G' & B' & W & _).
      exists g'. split; [done|]. right. exists k. split; [done|]. split; [by split|]. unfold ready. by rewrite W.
  - clear -Hbs Hn. intros k g g' C E. destruct (computing_turn k j g g' C E) as [?|(k' & _ & Hk & ?)]; [by left|right].
    exists k'. auto.
Qed.

(** The client takes the result. *)
Definition taking (k : nat) g : Prop :=
  waits g /\ ready g = true /\ k = match position_of g with Parking => 1%nat | _ => 0%nat end.

Definition taken g : Prop :=
  exists r i, good true (length bss) bss (<[h := None]> hs) g /\ before p (rs ++ [r]) g /\ runs i (Run a) r.

Lemma taking_client k g :
  taking k g -> exists g', client_step g = Done g' /\ (taken g' \/ exists k', (k' < k)%nat /\ taking k' g').
Proof using Hbs Hn.
  intros (Hw & Hr & ->). destruct (waits_thread g Hw) as (m & c & Hm & Hok & Hc & Er). destruct Hw as [G B].
  pose proof (blocked_awaited _ _ _ _ _ _ B) as Ha. destruct B as [B1 B2 B3 B4]. unfold client_step. rewrite B1.
  destruct B4 as [Hp|(Hp & Hreg & Ht)]; rewrite Hp.
  - unfold block_on_poll, poll_handle. rewrite Ha. cbn [fst snd]. rewrite Hm.
    rewrite Hr in Er. symmetry in Er. apply bool_decide_eq_true in Er as [r Ho]. rewrite Ho.
    pose proof (member_output bs m n a Hok Hn) as Hrun. rewrite Ho in Hrun. destruct Hrun as [i Hrun].
    eexists. split; [done|]. left. exists r, i. split; [|split; [split; [done|]|done]].
    + constructor; cbn; try apply G. by apply Forall2_insert; [apply G|].
    + cbn. rewrite B1, B3. done.
  - unfold block_on_park. rewrite (Ht Hr). eexists. split; [done|]. right. exists 0%nat. split; [lia|].
    split; [|by split]. split; [constructor; try apply G|]. constructor; try done. by left.
Qed.

Lemma ev_taken N sched g : fair N sched -> waits g -> ready g = true -> ev sched g taken.
Proof using Hbs Hn.
  intros F Hw Hr. eapply (ev_measure N Client taking); [done|..|done|by split; [|split]].
  - clear -Hbs Hn. intros k g y T. destruct y as [|j'|].
    + destruct (taking_client k g T) as (g' & E & [?|(k' & ? & ?)]); exists g'; (split; [done|]); [by left|right].
      exists k'. split; [lia|done].
    + destruct T as (Hw & Hr & ->). destruct (turn _ _ _ _ _ j' (proj1 Hw)) as (g' & E & _ & C & _). exists g'. split; [done|]. right.
      eexists. split; [done|]. destruct (waits_turn j' g g' Hw E) as (Hw' & W1 & W2). split; [done|].
      injection C as _ _ -> _ _. split; [|done]. destruct (waits_thread g Hw) as (m & c & Hm & Hok & Hc & Er).
      destruct (decide (j' = j)) as [->|Hne]; [|unfold ready, settled in *; cbn [fst snd] in *; by rewrite (W1 Hne)].
      destruct (W2 eq_refl m Hm) as (m' & Es & Hm'). destruct (waits_thread g' Hw') as (m2 & c2 & Hm2 & _ & _ & ->).
      rewrite Hm' in Hm2. injection Hm2 as <-. rewrite Hr in Er. symmetry in Er. apply bool_decide_eq_true in Er as [r Ho].
      apply bool_decide_eq_true. exists r. by eapply member_keeps.
    + destruct T as ([G B] & Hr & ->). destruct (blocked_spurious _ _ _ _ _ _ _ _ _ _ G B) as (g' & E & G' & B' & W & Hp).
      exists g'. split; [done|]. right. eexists. split; [|split; [by split|split; [unfold ready; by rewrite W|done]]].
      destruct (bl_position _ _ _ _ _ _ B) as [Hq|[Hq _]]; rewrite Hq; [by rewrite (Hp Hq)|]. destruct (position_of g'); lia.
  - clear -Hbs Hn. intros k g g' T E. destruct (taking_client k g T) as (g1 & E1 & H). cbn in E. rewrite E in E1. by injection E1 as <-.
Qed.

End Block.

Lemma runs_det n n' (th : thread Wt R) r r' : runs n th r -> runs n' th r' -> r = r'.
Proof.
  intros H. revert n'. induction H as [r|n th th' r Hs H IH]; intros n' H'; inversion H'; subst; try done.
  replace th'0 with th' in * by congruence. by eapply IH.
Qed.

Lemma ev_block N bss hs h a p rs i r sched g :
  fair N sched -> (length bss <= N)%nat -> good true (length bss) bss hs g -> before (BlockOn h :: p) rs g ->
  hs !! h = Some (Some a) -> runs i (Run a) r ->
  ev sched g (fun g' => good true (length bss) bss (<[h := None]> hs) g' /\ before p (rs ++ [r]) g').
Proof.
  intros F HN G (Hp & Hpr & Hrs) Hh Hr.
  destruct (Forall2_lookup_l _ _ _ _ _ (g_handles _ _ _ _ _ G) Hh) as ([[j i']|] & Hg & Hok); [|done].
  destruct Hok as (bs & n & Hbs & Hn & ->).
  eapply (ev_trans N _ _ (waits bss hs h j n p rs)); [done|eapply (ev_client N true); [done|done|by rewrite Hp|]|].
  { intros g' G' C. injection C as Ch _ Cp Cpr Crs. unfold client_step. rewrite Cp, Hp, Cpr, Hpr. eexists. split; [done|].
    split; [constructor; try apply G'|]. constructor; cbn; [congruence..|by left]. }
  intros sched1 g1 F1 W1. eapply (ev_trans N); [done|by eapply ev_ready|].
  intros sched2 g2 F2 [W2 R2]. eapply (ev_trans N); [done|by eapply ev_taken|].
  intros sched3 g3 F3 (r' & i' & G3 & B3 & Hr'). apply ev_now. split; [done|]. by rewrite (runs_det _ _ _ _ _ Hr Hr').
Qed.

(** *** Stopping *)
Record ending (L k : nat) (rs : list R) g : Prop := {
  e_count : length (workers g) = L;
  e_running : RUNNING g = false;
  e_position : position_of g = Stopping k;
  e_program : program g = [StopAll];
  e_results : results g = rs;
  e_joined j m : workers g !! j = Some m -> (j < k)%nat -> join_handle m = None;
  e_exiting j m : workers g !! j = Some m -> (k <= j)%nat -> exists n, exiting n m;
}.

Lemma ending_turn L k rs g j :
  ending L k rs g ->
  exists g', thread_turn j g = Done g' /\ ending L k rs g' /\
    (forall j', j' <> j -> workers g' !! j' = workers g !! j') /\
    (forall m, workers g !! j = Some m -> exists m', worker_step false m = Done m' /\ workers g' !! j = Some m').
Proof.
  intros E. unfold thread_turn. destruct (workers g !! j) as [m|] eqn:Hm; [|by exists g].
  assert (Hs : exists m', worker_step false m = Done m' /\ ((j < k)%nat -> join_handle m' = None) /\
    ((k <= j)%nat -> exists n, exiting n m')).
  { destruct (decide (j < k)%nat) as [Hj|Hj].
    - exists m. pose proof (e_joined _ _ _ _ E j m Hm Hj) as Hn. unfold worker_step. rewrite Hn. split; [done|]. split; [done|lia].
    - destruct (e_exiting _ _ _ _ E j m Hm ltac:(lia)) as [n Hn]. destruct (exiting_step n m Hn) as (m' & n' & Es & Hx & _).
      exists m'. split; [done|]. split; [lia|by exists n']. }
  destruct Hs as (m' & Es & Hj1 & Hj2). pose proof (lookup_lt_Some _ _ _ Hm) as Hlt.
  rewrite (e_running _ _ _ _ E), Es. eexists. split; [done|]. split; [|split].
  - constructor; cbn; try apply E; [rewrite length_insert; apply E|done|..]; intros j' m1; destruct (decide (j' = j)) as [->|Hne];
      rewrite ?list_lookup_insert_eq, ?list_lookup_insert_ne by done; try apply E; by intros [= <-].
  - intros j' Hne. by apply list_lookup_insert_ne.
  - intros m1 [= <-]. exists m'. split; [done|]. by apply list_lookup_insert_eq.
Qed.

Lemma ending_spurious L k rs g : ending L k rs g -> step Spurious g = Done g.
Proof. intros E. cbn. by rewrite (e_position _ _ _ _ E). Qed.

(** The thread to be joined next has ended. *)
Definition exited (L k : nat) (rs : list R) g : Prop :=
  ending L k rs g /\ exists m, workers g !! k = Some m /\ join_handle m = Some Exited.

Definition unexited (L k : nat) (rs : list R) (n : nat) g : Prop :=
  ending L k rs g /\ exists m, workers g !! k = Some m /\ exiting n m /\ join_handle m <> Some Exited.

Lemma unexited_turn L k rs n j g :
  unexited L k rs n g -> exists g', thread_turn j g = Done g' /\
    (exited L k rs g' \/ exists n', (n' <= n)%nat /\ (j = k -> (n' < n)%nat) /\ unexited L k rs n' g').
Proof.
  intros (E & m & Hm & Hx & Hne). destruct (ending_turn L k rs g j E) as (g' & Et & E' & W1 & W2). exists g'. split; [done|].
  destruct (decide (j = k)) as [->|Hjk].
  2:{ right. exists n. split; [done|]. split; [done|]. split; [done|]. exists m. by rewrite (W1 k). }
  destruct (exiting_step n m Hx) as (m' & n' & Es & Hx' & Hle & Hd). destruct (W2 m Hm) as (m1 & Es1 & Hm1).
  rewrite Es in Es1. injection Es1 as <-. destruct (decide (join_handle m' = Some Exited)) as [He|He].
  - left. split; [done|]. by exists m'.
  - right. exists n'. destruct Hd as [?|Hd]; [done|]. split; [lia|]. split; [done|]. split; [done|]. by exists m'.
Qed.

Lemma ev_exited N L k rs sched g :
  fair N sched -> (L <= N)%nat -> ending L k rs g -> (k < L)%nat ->
  ev sched g (exited L k rs).
Proof.
  intros F HN E Hk. destruct (lookup_lt_is_Some_2 (workers g) k) as [m Hm]; [by rewrite (e_count _ _ _ _ E)|].
  destruct (decide (join_handle m = Some Exited)) as [He|He]; [apply ev_now; split; [done|by exists m]|].
  destruct (e_exiting _ _ _ _ E k m Hm ltac:(lia)) as [n Hn].
  apply (ev_measure N (Thread k) (unexited L k rs)) with (m := n); [cbn; lia|..|done|split; [done|by exists m]].
  - clear. intros n g y U. destruct y as [|j|].
    + exists g. destruct U as (E & m & Hm & (c & Hc & Hx) & He). split; [|right; exists n; split; [done|split; [done|]]; exists m; split; [done|split; [by exists c|done]]].
      cbn. unfold client_step. rewrite (e_position _ _ _ _ E), (e_program _ _ _ _ E). unfold stop_one. rewrite Hm, Hc. by destruct c.
    + destruct (unexited_turn L k rs n j g U) as (g' & Et & [?|(n' & ? & _ & ?)]); exists g'; (split; [done|]); [by left|right]. by exists n'.
    + exists g. split; [apply (ending_spurious L k rs), U|]. right. by exists n.
  - clear. intros n g g' U Es. destruct (unexited_turn L k rs n k g U) as (g1 & Et & H). cbn in Es. rewrite Es in Et. injection Et as <-.
    destruct H as [?|(n' & _ & Hl & ?)]; [by left|right]. exists n'. auto.
Qed.

(** Joining it. *)
Lemma ev_joined N L k rs sched g : fair N sched -> exited L k rs g -> ev sched g (fun g' => ending L (S k) rs g').
Proof.
  intros F X.
  assert (Hc : forall g, exited L k rs g -> exists g', client_step g = Done g' /\ ending L (S k) rs g').
  { clear. intros g [E (m & Hm & He)]. unfold client_step. rewrite (e_position _ _ _ _ E), (e_program _ _ _ _ E).
    unfold stop_one. rewrite Hm, He. eexists. split; [done|]. constructor; cbn; try apply E; [rewrite length_insert; apply E|done|..].
    - intros j m1. destruct (decide (j = k)) as [->|Hne].
      + rewrite list_lookup_insert_eq by by eapply lookup_lt_Some. by intros [= <-].
      + rewrite list_lookup_insert_ne by done. intros H1 Hj. eapply E; [done|lia].
    - intros j m1 H1 Hj. rewrite list_lookup_insert_ne in H1 by lia. eapply E; [done|lia]. }
  apply (ev_once N Client (exited L k rs)); try done. clear -Hc. intros g y X. destruct y as [|j|].
  - destruct (Hc g X) as (g' & E & H). exists g'. auto.
  - destruct X as [E (m & Hm & He)]. destruct (ending_turn L k rs g j E) as (g' & Et & E' & W1 & W2). exists g'. split; [done|].
    right. split; [done|]. destruct (decide (j = k)) as [->|Hne]; [|exists m; by rewrite (W1 k)].
    destruct (W2 m Hm) as (m' & Es & Hm'). exists m'. split; [done|]. unfold worker_step in Es. rewrite He in Es. by injection Es as <-.
  - exists g. split; [apply (ending_spurious L k rs), X|]. by right.
Qed.

(** The calls have returned [rs]; a stopped group has no threads. *)
Definition finished (rs : list R) g : Prop :=
  program g = [] /\ results g = rs /\ (RUNNING g = false -> Forall (fun m => join_handle m = None) (workers g)).

Lemma ev_ended N L rs sched g : fair N sched -> ending L L rs g -> ev sched g (finished rs).
Proof.
  intros F E.
  assert (Hc : forall g, ending L L rs g -> exists g', client_step g = Done g' /\ finished rs g').
  { clear. intros g E. unfold client_step. rewrite (e_position _ _ _ _ E), (e_program _ _ _ _ E). unfold stop_one.
    rewrite lookup_ge_None_2 by (rewrite (e_count _ _ _ _ E); lia). eexists. split; [done|]. unfold finished. cbn.
    rewrite (e_program _ _ _ _ E), (e_results _ _ _ _ E). do 2 (split; [done|]). intros _. apply Forall_lookup. intros j m Hm.
    apply (e_joined _ _ _ _ E j m Hm). rewrite <- (e_count _ _ _ _ E). by eapply lookup_lt_Some. }
  apply (ev_once N Client (ending L L rs)); try done. intros g1 y E1. destruct y as [|j|].
  - destruct (Hc g1 E1) as (g' & Es & H). exists g'. auto.
  - destruct (ending_turn L L rs g1 j E1) as (g' & Et & E' & _). exists g'. auto.
  - exists g1. split; [by apply (ending_spurious L L rs)|]. by right.
Qed.

Lemma ev_stop N bss hs rs sched g :
  fair N sched -> (length bss <= N)%nat -> good true (length bss) bss hs g -> before [StopAll] rs g ->
  ev sched g (finished rs).
Proof.
  intros F HN G (Hp & Hpr & Hrs).
  assert (Hall : forall n k sched g, (length bss - k = n)%nat -> (k <= length bss)%nat -> fair N sched -> ending (length bss) k rs g ->
    ev sched g (finished rs)).
  { clear -HN. induction n as [|n IH]; intros k sched g Hn Hk F E; [replace k with (length bss) in E by lia; by eapply ev_ended|].
    eapply (ev_trans N); [done|eapply (ev_exited N); [done..|lia]|]. intros s1 g1 F1 X1.
    eapply (ev_trans N); [done|by eapply ev_joined|]. intros s2 g2 F2 E2. by apply (IH (S k)); [lia|lia|..]. }
  eapply (ev_trans N _ _ (ending (length bss) 0 rs)); [done|eapply (ev_client N true); [done|done|by rewrite Hp|]|].
  - intros g' G' C. injection C as _ _ Cp Cpr Crs. unfold client_step. rewrite Cp, Hp, Cpr, Hpr. eexists. split; [done|].
    constructor; cbn; try done; try congruence; [symmetry; by eapply good_length|lia|].
    intros j m Hm _. destruct (Forall2_lookup_r _ _ _ _ _ (g_members _ _ _ _ _ G') Hm) as (bs & Hbs & Hok).
    destruct (proj2 (g_started _ _ _ _ _ G' j m Hm)) as [c Hc]; [by eapply lookup_lt_Some|]. by eapply member_exiting.
  - intros s g' F' E. by apply (Hall (length bss - 0)%nat 0%nat); [|lia|..].
Qed.

(** *** The program *)
Definition threads_of (b : bool) bss : nat := if b then length bss else 0%nat.

Lemma ev_add N b bss hs k p rs sched g :
  fair N sched -> good b (threads_of b bss) bss hs g -> before (AddWorker k :: p) rs g -> (1 <= k)%nat ->
  ev sched g (fun g' => good b (threads_of b (bss ++ [[]])) (bss ++ [[]]) hs g' /\ before p rs g').
Proof.
  intros F G (Hp & Hpr & Hrs) Hk. eapply (ev_client N b); [done|done|by rewrite Hp|].
  intros g' G' C. injection C as _ _ Cp Cpr Crs.
  destruct (add_good b _ bss hs g' k G') as (g1 & E1 & G1 & C1 & _); [intros ->; by eapply good_length|done|].
  injection C1 as _ _ _ C1 C2. unfold client_step. rewrite Cp, Hp, Cpr, Hpr, E1. eexists. split; [done|]. split.
  - replace (threads_of b (bss ++ [[]])) with (if b then S (threads_of b bss) else threads_of b bss)
      by (destruct b; cbn; rewrite ?length_app; cbn; lia). constructor; try apply G1.
  - split; [done|]. cbn. rewrite C1, C2, Cpr, Hpr, Crs. done.
Qed.

Lemma ev_spawn N b bss hs j bs a p rs sched g :
  fair N sched -> good b (threads_of b bss) bss hs g -> before (SpawnOn j a :: p) rs g ->
  bss !! j = Some bs -> (length bs < QUEUE_CAP)%nat -> terminates a ->
  ev sched g (fun g' => good b (threads_of b bss) (<[j := bs ++ [a]]> bss) (hs ++ [Some a]) g' /\ before p rs g').
Proof.
  intros F G (Hp & Hpr & Hrs) Hbs Hl Ha. eapply (ev_client N b); [done|done|by rewrite Hp|].
  intros g' G' C. injection C as _ _ Cp Cpr Crs.
  destruct (spawn_good b _ bss hs g' j bs a G' Hbs Hl Ha) as (h & g1 & E1 & G1 & _ & _ & C1 & C2 & _).
  unfold client_step. rewrite Cp, Hp, Cpr, Hpr, E1. eexists. split; [done|]. split; [constructor; try apply G1|].
  split; [done|]. cbn. rewrite C1, C2, Cpr, Hpr, Crs. done.
Qed.

Lemma ev_spawn_error N b bss hs j a p rs sched g :
  fair N sched -> good b (threads_of b bss) bss hs g -> before (SpawnOn j a :: p) rs g -> bss !! j = None ->
  ev sched g (fun g' => good b (threads_of b bss) bss hs g' /\ before p rs g').
Proof.
  intros F G (Hp & Hpr & Hrs) Hbs. eapply (ev_client N b); [done|done|by rewrite Hp|].
  intros g' G' C. injection C as _ _ Cp Cpr Crs. unfold client_step, spawn_on.
  rewrite Cp, Hp, Cpr, Hpr, lookup_ge_None_2 by (rewrite <- (good_length _ _ _ _ _ G'); by apply lookup_ge_None).
  eexists. split; [done|]. split; [constructor; try apply G'|]. split; [done|]. cbn. by rewrite Cpr, Hpr, Crs.
Qed.

Lemma ev_started N bss hs p rs sched g :
  fair N sched -> good false 0 bss hs g -> before (StartAll :: p) rs g ->
  ev sched g (fun g' => good true (length bss) bss hs g' /\ before p rs g').
Proof.
  intros F G (Hp & Hpr & Hrs).
  eapply (ev_trans N _ _ (fun g' => good true 0 bss hs g' /\ position_of g' = Starting 0 /\ program g' = StartAll :: p /\ results g' = rs));
    [done|eapply (ev_client N false); [done|done|by rewrite Hp|]|].
  - intros g' G' C. injection C as _ _ Cp Cpr Crs. unfold client_step. rewrite Cp, Hp, Cpr, Hpr. eexists. split; [done|].
    split; [constructor; try apply G'; done|]. split; [done|]. cbn. split; congruence.
  - intros s g' F' (G' & ? & ? & ?). eapply (ev_start N); [done|done|lia|done..].
Qed.

Lemma ev_program N b counts hs p rs :
  meaning b counts hs p rs -> forall bss sched g rs0,
  counts = length <$> bss -> fair N sched -> (length bss + adds p <= N)%nat ->
  good b (threads_of b bss) bss hs g -> before p rs0 g -> ev sched g (finished (rs0 ++ rs)).
Proof.
  induction 1 as [b counts hs|b counts hs k p rs Hk _ IH|b counts hs j n a p rs Hj Hn Ha _ IH|b counts hs j a p rs Hj _ IH|
    counts hs p rs _ IH|counts hs h a n r p rs Hh Hr _ IH|counts hs]; intros bss sched g rs0 -> F HN G B; cbn [adds] in HN;
    rewrite ?app_nil_r.
  - apply ev_now. destruct B as (_ & ? & ?). split; [done|]. split; [done|]. intros Hb. apply Forall_lookup. intros j m Hm.
    pose proof (g_started _ _ _ _ _ G j m Hm) as [Hs _]. assert (b = false) as -> by (rewrite <- Hb; symmetry; apply G).
    cbn in Hs. destruct (join_handle m) eqn:E; [|done]. specialize (Hs ltac:(done)). lia.
  - eapply (ev_trans N); [done|by eapply ev_add|]. intros s g' F' [G' B'].
    eapply (IH (bss ++ [[]])); [by rewrite fmap_app|done|rewrite length_app; cbn; lia|done..].
  - rewrite list_lookup_fmap in Hj. destruct (bss !! j) as [bs|] eqn:Hbs; [|done]. injection Hj as <-.
    eapply (ev_trans N); [done|by eapply ev_spawn|]. intros s g' F' [G' B'].
    eapply (IH (<[j := bs ++ [a]]> bss)); [rewrite list_fmap_insert, length_app; do 2 f_equal; cbn; lia|done|by rewrite length_insert| |done].
    replace (threads_of b (<[j:=bs ++ [a]]> bss)) with (threads_of b bss) by (unfold threads_of; by rewrite length_insert). done.
  - rewrite list_lookup_fmap in Hj. destruct (bss !! j) eqn:Hbs; [done|].
    eapply (ev_trans N); [done|by eapply ev_spawn_error|]. intros s g' F' [G' B']. by eapply (IH bss).
  - eapply (ev_trans N); [done|by eapply ev_started|]. intros s g' F' [G' B']. by eapply (IH bss).
  - eapply (ev_trans N); [done|eapply (ev_block N bss); [done|lia|done..]|]. intros s g' F' [G' B'].
    rewrite cons_middle, app_assoc. by eapply (IH bss).
  - eapply (ev_stop N bss); [done|lia|done..].
Qed.

End Phases.

(** ** Properties *)

(** C16.  A group of workers runs every legal program to its end.  Take a client that
    adds workers, spawns at most 1024 terminating tasks on each, before the start or
    while the group runs, waits for join handles and stops the group; and any
    schedule of the client and the workers, with spurious wake-ups, that forgets
    none of them.  Then no thread panics, no wake-up is lost, every [block_on]
    returns what its block computes alone, in the order of the calls, and after
    [stop] all threads have ended and were joined. *)
Theorem group_runs_program {Wt R} `{!Waitable Wt} (p : list (command Wt R)) (rs : list R) (sched : nat -> choice) :
  meaning false [] [] p rs -> fair (adds p) sched ->
  exists n g, run sched n (new_group p) = Done g /\ program g = [] /\ results g = rs /\
    (RUNNING g = false -> Forall (fun m => join_handle m = None) (workers g)).
Proof.
  intros Hm F. apply (ev_program (adds p) _ _ _ _ _ Hm [] sched (new_group p) [] eq_refl F); [done| |done].
  constructor; cbn; try done; constructor.
Qed.

(** *** A concrete run: two workers, a task that waits and one that fails *)
Definition sample_program : list (command countdown Z) :=
  [AddWorker 2; SpawnOn 0 (sample_block 2 true); StartAll; AddWorker 1; SpawnOn 1 (sample_block 0 false);
   SpawnOn 2 (sample_block 0 true); BlockOn 1; BlockOn 0; StopAll].

Definition round_robin (k : nat) : choice :=
  match (k mod 4)%nat with 0%nat => Client | 1%nat => Thread 0 | 2%nat => Thread 1 | _ => Spurious end.

Lemma round_robin_fair : fair 2 round_robin.
Proof.
  assert (H : forall k r, (r < 4)%nat -> (k <= 4 * k + r)%nat /\ ((4 * k + r) mod 4 = r)%nat).
  { intros k r Hr. split; [lia|]. rewrite Nat.add_comm, Nat.mul_comm, Nat.Div0.mod_add. by apply Nat.mod_small. }
  intros [|[|[|j]]|] k Hx; cbn in Hx; try lia.
  - destruct (H k 0%nat) as [? E]; [lia|]. eexists. split; [done|]. unfold round_robin. by rewrite E.
  - destruct (H k 1%nat) as [? E]; [lia|]. eexists. split; [done|]. unfold round_robin. by rewrite E.
  - destruct (H k 2%nat) as [? E]; [lia|]. eexists. split; [done|]. unfold round_robin. by rewrite E.
Qed.

Lemma group_runs_program_witness :
  exists n g, run round_robin n (new_group sample_program) = Done g /\ program g = [] /\ results g = [-1; 1] /\
    (RUNNING g = false -> Forall (fun m => join_handle m = None) (workers g)).
Proof.
  apply (group_runs_program sample_program [-1; 1] round_robin); [|exact round_robin_fair].
  assert (Hf : exists n, runs n (Run (sample_block 0 false)) (-1))
    by (exists 4%nat; repeat (econstructor; [reflexivity|]); constructor).
  assert (Ht : exists n, runs n (Run (sample_block 2 true)) 1)
    by (exists 6%nat; repeat (econstructor; [reflexivity|]); constructor).
  destruct Hf as [i Hf], Ht as [i' Ht].
  apply meaning_add; [lia|]. eapply meaning_spawn; [reflexivity|by apply Nat.ltb_lt|apply sample_runs|].
  apply meaning_start, meaning_add; [lia|]. eapply meaning_spawn; [reflexivity|by apply Nat.ltb_lt|apply sample_runs|].
  apply meaning_spawn_error; [reflexivity|]. eapply meaning_block; [reflexivity|exact Hf|].
  eapply meaning_block; [reflexivity|exact Ht|]. apply meaning_stop.
Defined.

(** The start of that run: after 3000 turns both results are there, and the client
    waits for the workers, which test the flag once in a million rounds. *)
Example sample_group_results :
  match run round_robin 3000 (new_group sample_program) with
  | Done g => results g = [-1; 1] /\ position_of g = Stopping 0
  | Panic => False
  end.
Proof. by vm_compute. Qed.
