(* ===== verification/Registry.v ===== *)
(** * Registries of connected queue pairs

    Both servers of the library (services_user/cm.rs and services/rc.rs under
    src/KRdmaKit/src) keep the queue pairs they make for their clients in a map,
    [registered_rc].  [shares] is the invariant of such a map: the driver holds
    what it held before and, one share each, what the registered queue pairs own.
    The lemmas say how it moves with the driver, with a queue pair that is
    added, removed or replaced. *)

From S2P Require Import Prelude Errors Verbs Sim Context CompletionQueue QueuePair BringUp.

Section registry.
Context {W C : Type} `{!Cfg, !DeviceOps W, !QueueOps W, !DataOps W, !Peer W C, !VerbsLaws W}.
Implicit Types (w : W) (qp : QueuePair.QueuePair C) (m : gmap Z (QueuePair.QueuePair C)).

(** A registered queue pair: not connected by itself, with queues of its own. *)
Definition keeps (w : W) (qp : QueuePair.QueuePair C) : Prop :=
  QueuePair.comm qp = None /\ QueuePair.srq qp = None /\ exclusive w qp /\
  exists v, qp_view w (QueuePair.inner_qp qp) = Some v /\ refers_own (qi_init v) qp /\
    qp_state (qi_attr v) = IB_QPS_RTS.

(** The resources of the driver are those outside the registry ([base]) and, one
    share each, those of the registered queue pairs. *)
Record shares (base : gset res) m (w : W) : Prop := {
  reg_keeps k qp : m !! k = Some qp -> keeps w qp;
  reg_live r : r ∈ live w <-> (r ∈ base \/ exists k qp, m !! k = Some qp /\ r ∈ owned qp);
  reg_base k qp : m !! k = Some qp -> owned qp ## base;
  reg_apart k k' qp qp' : k <> k' -> m !! k = Some qp -> m !! k' = Some qp' -> owned qp ## owned qp';
}.

Lemma owned_inner qp : (RQp, QueuePair.inner_qp qp) ∈ owned qp.
Proof. unfold owned. set_solver. Qed.

Lemma queues_owned qp r : r ∈ queues qp -> r ∈ owned qp.
Proof. unfold owned. set_solver. Qed.

Lemma apart_inner qp qp' : owned qp ## owned qp' -> QueuePair.inner_qp qp' <> QueuePair.inner_qp qp.
Proof.
  intros D E. pose proof (owned_inner qp) as A. pose proof (owned_inner qp') as B. rewrite E in B.
  clear -D A B. set_solver.
Qed.

Lemma keeps_frame w w' qp :
  (forall q v, qp_view w' q = Some v -> qp_view w q = Some v) ->
  qp_view w' (QueuePair.inner_qp qp) = qp_view w (QueuePair.inner_qp qp) ->
  keeps w qp -> keeps w' qp.
Proof.
  intros Hs Hq (? & ? & Hx & v & Hv & ?). split; [done|]. split; [done|]. split.
  - intros r q v' Hr Hne Hv'. apply (Hx r q); auto.
  - exists v. by rewrite Hq.
Qed.

Lemma shares_empty w : shares (live w) ∅ w.
Proof. constructor; cbn; try done. intros r. split; [by left|]. by intros [|(? & ? & ? & _)]. Qed.

Lemma shares_quiet base m w w' :
  live w' = live w -> same_qps qp_view w w' -> shares base m w -> shares base m w'.
Proof.
  intros Hl Hs [Hk Hr Hb Ha]. constructor; try done.
  - intros k qp Hkq. eapply keeps_frame; [| |by eapply Hk]; [|by rewrite Hs].
    intros q v. by rewrite Hs.
  - intros r. by rewrite Hl.
Qed.

Lemma shares_live base m w k qp : shares base m w -> m !! k = Some qp -> owned qp ⊆ live w.
Proof. intros Hok Hq r Hr. apply Hok. right. by exists k, qp. Qed.

(** A queue pair was made besides the registry. *)
Lemma shares_extend base m w w' qp v :
  shares base m w -> fresh_qp w w' qp ->
  qp_view w' (QueuePair.inner_qp qp) = Some v -> refers_own (qi_init v) qp ->
  shares (owned qp ∪ base) m w' /\ owned qp ## base.
Proof.
  intros Hok (Hc & Hd & Hl & Hx & Hn & Ho) Hv Hown.
  pose proof (shares_live base m w) as Hin. pose proof Hok as [Hk Hr Hb Ha].
  assert (Hap : forall k qp', m !! k = Some qp' -> owned qp ## owned qp').
  { intros k qp' Hq. specialize (Hin k qp' Hok Hq). clear -Hd Hin. set_solver. }
  split; [constructor; try done|].
  - intros k qp' Hq. destruct (Hk k qp' Hq) as (? & Hsrq & Hx' & v' & Hv' & ?).
    pose proof (apart_inner _ _ (Hap k qp' Hq)) as Hi.
    split; [done|]. split; [done|]. split; [|exists v'; by rewrite Ho].
    intros r q u Hrq Hne' Hu. destruct (decide (q = QueuePair.inner_qp qp)) as [->|Hq'].
    + rewrite Hv in Hu. injection Hu as <-. intros Href.
      apply Hown in Href as [Href| ->].
      * apply queues_owned in Href, Hrq. specialize (Hap k qp' Hq). clear -Hap Href Hrq. set_solver.
      * unfold queues in Hrq. rewrite Hsrq in Hrq. clear -Hrq. set_solver.
    + rewrite Ho in Hu by done. by apply (Hx' r q).
  - intros r. rewrite Hl, !elem_of_union, Hr. tauto.
  - intros k qp' Hq. specialize (Hap k qp' Hq). specialize (Hb k qp' Hq). clear -Hap Hb. set_solver.
  - intros r ? ?. apply (Hd r); [done|]. apply Hr. by left.
Qed.

(** It enters the registry. *)
Lemma shares_adopt base m w key qp :
  shares (owned qp ∪ base) m w -> owned qp ## base -> keeps w qp -> m !! key = None ->
  shares base (<[key := qp]> m) w.
Proof.
  intros [Hk Hr Hb Ha] Hd Hkp Hkey. constructor.
  - intros k qp' [[-> ->]|[Hne Hq]]%lookup_insert_Some; eauto.
  - intros r. rewrite Hr, elem_of_union. split.
    + intros [[?|?]|(k & qp' & Hq & ?)]; [right; exists key, qp; by rewrite lookup_insert_eq|by left|].
      right. exists k, qp'. split; [|done]. rewrite lookup_insert_ne; [done|congruence].
    + intros [?|(k & qp' & [[-> ->]|[? ?]]%lookup_insert_Some & ?)]; eauto 6.
  - intros k qp' [[-> ->]|[Hne Hq]]%lookup_insert_Some; [done|]. specialize (Hb _ _ Hq).
    clear -Hb. set_solver.
  - intros k k' qp1 qp2 Hne [[-> ->]|[_ Hq1]]%lookup_insert_Some [[-> ->]|[_ Hq2]]%lookup_insert_Some; try done.
    + specialize (Hb _ _ Hq2). clear -Hb. set_solver.
    + specialize (Hb _ _ Hq1). clear -Hb. set_solver.
    + by eapply Ha.
Qed.

Lemma shares_add base m w w' key qp v :
  shares base m w -> m !! key = None -> fresh_qp w w' qp -> QueuePair.srq qp = None ->
  qp_view w' (QueuePair.inner_qp qp) = Some v -> refers_own (qi_init v) qp ->
  qp_state (qi_attr v) = IB_QPS_RTS ->
  shares base (<[key := qp]> m) w'.
Proof.
  intros Hok Hkey Hf Hsrq Hv Hown Hst. destruct (shares_extend _ _ _ _ _ _ Hok Hf Hv Hown) as [He Hd].
  apply shares_adopt; try done. destruct Hf as (? & _ & _ & ? & _).
  split; [done|]. split; [done|]. split; [done|]. by exists v.
Qed.

(** A queue pair leaves the registry and is dropped. *)
Lemma shares_remove base m w key qp :
  shares base m w -> m !! key = Some qp ->
  exists w', QueuePair.drop qp w = Done ((), w') /\ live w' = live w ∖ owned qp /\
    shares base (delete key m) w' /\ (healthy w -> healthy w') /\
    qp_view w' (QueuePair.inner_qp qp) = None /\
    (forall q, q <> QueuePair.inner_qp qp -> qp_view w' q = qp_view w q).
Proof.
  intros [Hk Hr Hb Ha] Hq. destruct (Hk key qp Hq) as (Hc & Hsrq & Hx & v & Hv & _).
  destruct (qp_drop_spec qp w Hx Hc) as (w' & Hrun & Hl & Hh & Hvq & Ho).
  exists w'. split; [done|]. split; [done|]. split; [|done].
  constructor.
  - intros k qp' [Hne Hq']%lookup_delete_Some. apply (keeps_frame w); [| |by eapply Hk].
    + intros q u Hu. destruct (decide (q = QueuePair.inner_qp qp)) as [->|?]; [congruence|]. by rewrite <- Ho.
    + apply Ho, apart_inner. by eapply Ha.
  - intros r. rewrite Hl, elem_of_difference, Hr. split.
    + intros [[?|(k & qp' & Hq' & ?)] Hn]; [by left|]. right. exists k, qp'. split; [|done].
      rewrite lookup_delete_ne; [done|]. intros ->. congruence.
    + intros [?|(k & qp' & [Hne Hq']%lookup_delete_Some & ?)].
      * split; [by left|]. intros ?. by apply (Hb key qp Hq r).
      * split; [right; by exists k, qp'|]. intros ?. by apply (Ha key k qp qp' Hne Hq Hq' r).
  - intros k qp' [_ Hq']%lookup_delete_Some. by eapply Hb.
  - intros k k' qp1 qp2 Hne [_ Hq1]%lookup_delete_Some [_ Hq2]%lookup_delete_Some. by eapply Ha.
Qed.

(** A queue pair takes a place in the registry; the one that had it is dropped. *)
Lemma shares_replace base m w w' key old qp v :
  shares base m w -> m !! key = Some old -> fresh_qp w w' qp -> QueuePair.srq qp = None ->
  qp_view w' (QueuePair.inner_qp qp) = Some v -> refers_own (qi_init v) qp ->
  qp_state (qi_attr v) = IB_QPS_RTS ->
  exists w'', QueuePair.drop old w' = Done ((), w'') /\ shares base (<[key := qp]> m) w'' /\
    (healthy w' -> healthy w'') /\ qp_view w'' (QueuePair.inner_qp qp) = Some v.
Proof.
  intros Hok Hkey Hf Hsrq Hv Hown Hst. destruct (shares_extend _ _ _ _ _ _ Hok Hf Hv Hown) as [He Hd].
  destruct (shares_remove _ _ _ _ _ He Hkey) as (w'' & Hrun & _ & Hs & Hh & Hvo & Ho).
  assert (Hi : QueuePair.inner_qp qp <> QueuePair.inner_qp old).
  { apply apart_inner. pose proof (reg_base _ _ _ He _ _ Hkey) as Hb. clear -Hb. set_solver. }
  exists w''. split; [done|]. split; [|split; [done|by rewrite Ho]].
  rewrite <- insert_delete_eq. apply shares_adopt; [done..| |by rewrite lookup_delete_eq].
  apply (keeps_frame w').
  - intros q u Hu. destruct (decide (q = QueuePair.inner_qp old)) as [->|?]; [congruence|]. by rewrite <- Ho.
  - by rewrite Ho.
  - destruct Hf as (? & _ & _ & ? & _). split; [done|]. split; [done|]. split; [done|]. by exists v.
Qed.

Lemma fresh_qp_quiet w w1 w2 qp : fresh_qp w w1 qp -> quiet w1 w2 -> fresh_qp w w2 qp.
Proof.
  intros (? & ? & Hl & Hx & ? & Ho) (Hl' & Hs & _). unfold fresh_qp. rewrite Hl'.
  split_and!; try done; [eapply exclusive_frame, Hx; intros q _; apply Hs|].
  intros q Hq. by rewrite Hs, Ho.
Qed.

End registry.

(** ** Queries of the port *)
Section port.
Context {W : Type} `{!Cfg, !DeviceOps W, !QueueOps W, !VerbsLaws W, !PortLaws W}.

Definition port_ctx (c : Context.Context) : ptr :=
  match feat with kernel => Device.raw_ptr (Context.inner_device c) | user => Context.ctx c end.

#[local] Ltac port_query law :=
  mgoal; match goal with E : _ = (?x, _) |- _ => destruct x; apply law in E as (? & ? & ?) end;
  (eexists _, _; split; [done|]; split; [done|]);
  match goal with |- context [?e =? 0] => destruct (Z.eqb_spec e 0) as [->|] end; cbn; (split; [auto|]); intros ? [= <-]; auto.

Lemma device_port_attr_spec d p (w : W) :
  exists r w', Device.get_port_attr d p w = Done (r, w') /\ quiet w w' /\
    (healthy w -> is_Ok r = true) /\ forall a, r = Ok a -> a = port_info (Device.raw_ptr d) p.
Proof. unfold Device.get_port_attr. port_query query_port_law. Qed.

Lemma device_gid_spec d p i (w : W) :
  exists r w', Device.query_gid d p i w = Done (r, w') /\ quiet w w' /\
    (healthy w -> is_Ok r = true) /\ forall g, r = Ok g -> g = gid_info (Device.raw_ptr d) p i.
Proof. unfold Device.query_gid. port_query query_gid_law. Qed.

Lemma get_port_attr_spec c p (w : W) :
  exists r w', Context.get_port_attr c p w = Done (r, w') /\ quiet w w' /\
    (healthy w -> is_Ok r = true) /\ forall a, r = Ok a -> a = port_info (port_ctx c) p.
Proof.
  unfold Context.get_port_attr, port_ctx. destruct feat; [apply device_port_attr_spec|].
  port_query query_port_law.
Qed.

Lemma query_gid_spec c p i (w : W) :
  exists r w', Context.query_gid c p i w = Done (r, w') /\ quiet w w' /\
    (healthy w -> is_Ok r = true) /\ forall g, r = Ok g -> g = gid_info (port_ctx c) p i.
Proof.
  unfold Context.query_gid, port_ctx. destruct feat; [apply device_gid_spec|].
  port_query query_gid_law.
Qed.

End port.

(** ** Two machines *)

(** Two connected queue pairs: each is the other's destination, with the sequence
    numbers and the addresses that go with it. *)
Definition paired {Wc Ws : Type} `{!QueueOps Wc, !VerbsLaws Wc, !QueueOps Ws, !VerbsLaws Ws}
  (wc : Wc) (ws : Ws) (qc qs : ptr) (c_lid s_lid : Z) (c_gid s_gid : ib_gid) : Prop :=
  exists vc vs, qp_view wc qc = Some vc /\ qp_view ws qs = Some vs /\
    let ac := qi_attr vc in let a_s := qi_attr vs in
    qp_state ac = IB_QPS_RTS /\ qp_state a_s = IB_QPS_RTS /\
    dest_qp_num ac = Verbs.qp_num ws qs /\ dest_qp_num a_s = Verbs.qp_num wc qc /\
    rq_psn ac = sq_psn a_s /\ rq_psn a_s = sq_psn ac /\
    u16 (ah_dlid (av ac)) = u16 s_lid /\ u16 (ah_dlid (av a_s)) = u16 c_lid /\
    ah_dgid (av ac) = s_gid /\ ah_dgid (av a_s) = c_gid.
