(* ===== verification/UserCM.v ===== *)
(** * The connection manager of the user build

    src/KRdmaKit/src/services_user/mod.rs (the messages, the server and its
    dispatch), src/KRdmaKit/src/services_user/cm.rs (the default handler, which
    creates and keeps the server's queue pairs, and the list of registered
    memory) and src/KRdmaKit/src/queue_pairs/handshake_user.rs (the client:
    [handshake], [dereg], [query_mr_info]).

    serde_json and the TCP streams are parameters: [Serde] with its round-trip
    law, [Tcp] with the law that the network does not touch the RDMA driver.
    The server runs on a single-threaded executor and its handlers do not
    suspend, so a request is handled in one piece; its state is the record
    [server]. *)

From S2P Require Import Prelude Errors Verbs Sim Context MemoryRegion CompletionQueue QueuePair BringUp Registry.

(** The text serde_json writes, as bytes. *)
Abbreviation json := (list Z) (only parsing).

Class Serde (T : Type) := {
  to_json : T -> Result unit json;
  from_json : json -> Result unit T
}.
(** Plain data always serializes, and reading it back gives the same data. *)
Class SerdeLaws (T : Type) `{!Serde T} := {
  to_json_total (x : T) : exists s, to_json x = Ok s /\ from_json s = Ok x
}.

(** Streams are numbered; the addresses of listeners are opaque. *)
Class Tcp (W : Type) := {
  tcp_connect : Z -> W -> Result unit Z * W;
  tcp_write : Z -> json -> W -> Result unit Z * W;
  tcp_read : Z -> Z -> W -> Result unit json * W
}.
Class TcpLaws (W : Type) `{!QueueOps W, !VerbsLaws W, !Tcp W} := {
  tcp_connect_law a w r w' : tcp_connect a w = (r, w') -> quiet w w';
  tcp_write_law h b w r w' : tcp_write h b w = (r, w') -> quiet w w';
  tcp_read_law h n w r w' : tcp_read h n w = (r, w') -> quiet w w'
}.

(** ** Messages (services_user/mod.rs) *)
Inductive CMMessageType : Set :=
| RegRCReq | DeregRCReq | QueryMRReq | RegRCRes | QueryMRRes | MsgError | NeverSend
| UserSlotA | UserSlotB | UserSlotC | UserSlotD | UserSlotE | UserSlotF.

#[export] Instance CMMessageType_eq_dec : EqDecision CMMessageType.
Proof. solve_decision. Defined.

Record CMMessage := mkMessage { message_type : CMMessageType; serialized : json }.

(** [CMMessage::Error()]. *)
Definition error_message : CMMessage := mkMessage MsgError [].

Definition should_send_back (m : CMMessage) : bool :=
  match message_type m with NeverSend => false | _ => true end.

(** [CommStruct]: how a client's queue pair reaches its server again. *)
Record CommStruct := mkComm { comm_qp_type : QPType; comm_addr : Z; comm_key : Z }.

(** [ibv_gid_wrapper]: the two words of a GID. *)
Definition gid_wrapper : Type := Z * Z.
Definition gid_from (g : ib_gid) : gid_wrapper := (subnet_prefix g, interface_id g).
Definition gid_into (g : gid_wrapper) : ib_gid := mkGid g.1 g.2.

Record RCConnectionData := mkData {
  d_lid : Z; d_gid : gid_wrapper; d_qpn : Z; d_starting_psn : Z; d_rnr_retry_count : Z; d_rc_key : Z }.

Record MRInfo := mkMRInfo { mri_addr : Z; mri_capacity : Z; mri_rkey : Z }.
Definition MRInfos : Type := gmap string MRInfo.

Section messages.
Context `{!Serde CMMessage}.

(** [serde_json::to_vec(self).unwrap()]. *)
Definition serialization (m : CMMessage) : outcome json :=
  match to_json m with Ok s => Done s | Err _ => Panic end.

Definition then_send {W} `{!Tcp W} (stream : Z) (m : CMMessage) : M W (Result CMError unit) :=
  if negb (should_send_back m) then mret (Ok ())
  else
    bytes ← lift (serialization m);
    r ← call (tcp_write stream bytes);
    mret (match r with Ok _ => Ok () | Err _ => Err (Creation 0) end).
End messages.

(** ** The client (handshake_user.rs) *)
Module Client.
Section client.
Context {W : Type} `{!Cfg, !DeviceOps W, !QueueOps W, !DataOps W, !Tcp W}.
Context `{!Serde CMMessage, !Serde RCConnectionData, !Serde Z, !Serde MRInfos}.

Definition BUF : Z := 1024.

(** [.map_err(|_| ControlpathError::CreationError(what, 0))]. *)
Definition or_err {E A} (what : string) (m : M W (Result E A)) : M W (Result ControlpathError A) :=
  map_errM (fun _ => CreationError what (from_kernel_errno 0)) m.
Definition pure {E A} (r : Result E A) : M W (Result E A) := mret r.

(** [QueuePair::dereg], for a queue pair with [comm]: the drop of a connected
    queue pair tells the server.  [UD], [WC] and [DC] are [unimplemented!()]. *)
Definition dereg (comm : CommStruct) : M W unit :=
  match comm_qp_type comm with
  | RC =>
      res ← call (tcp_connect (comm_addr comm));
      match res with
      | Err _ => mret ()
      | Ok stream =>
          match to_json (comm_key comm) with
          | Err _ => panic
          | Ok key =>
              match to_json (mkMessage DeregRCReq key) with
              | Err _ => mret ()
              | Ok bytes => _ ← call (tcp_write stream bytes); mret ()
              end
          end
      end
  | _ => panic
  end.

#[export] Instance comm_peer : Peer W CommStruct := {| release_peer := dereg |}.

(** One request and its answer on an open stream. *)
Definition ask (stream : Z) (req : CMMessage) (e_write e_read e_parse e_type : string)
  (expected : CMMessageType) : M W (Result ControlpathError json) :=
  _ ←? or_err e_write (then_send stream req);
  bytes ←? or_err e_read (call (tcp_read stream BUF));
  message ←? or_err e_parse (pure (from_json bytes));
  if bool_decide (message_type message <> expected)
  then mret (Err (CreationError e_type (from_kernel_errno 0)))
  else mret (Ok (serialized message)).

(** What the client does once it is connected, up to the state of its queue
    pair: the key the server gave it. *)
Definition handshake_steps (self : Builder.PreparedQueuePair CommStruct) (stream : Z) :
  M W (Result ControlpathError Z) :=
  let rc_qp := Builder.inner self in
  attr ←? or_err "Failed to query lid"
            (Context.get_port_attr (QueuePair.ctx rc_qp) (Builder.p_port_num self));
  gid ←? or_err "Failed to query gid"
           (Context.query_gid (QueuePair.ctx rc_qp) (Builder.p_port_num self) 0);
  qpn ← QueuePair.qp_num rc_qp;
  let data := mkData (port_lid attr) (gid_from gid) qpn qpn (Builder.p_retry_count self) 0 in
  text ←? or_err "Failed to do serialization" (pure (to_json data));
  answer ←? ask stream (mkMessage RegRCReq text) "Failed to write to server" "Failed to read from client"
              "Failed to deserialize CM Message" "Failed to pass response type check" RegRCRes;
  data ←? or_err "Failed to deserialize RCConnection Data" (pure (from_json answer));
  _ ←? or_err "Failed to bring up qp"
         (bring_up_rc_inner rc_qp (d_lid data) (gid_into (d_gid data)) (d_qpn data)
            (d_starting_psn data));
  mret (Ok (d_rc_key data)).

(** [PreparedQueuePair::handshake]; the queue pair is dropped on every error. *)
Definition handshake (self : Builder.PreparedQueuePair CommStruct) (addr : Z) :
  M W (Result ControlpathError (QueuePair.QueuePair CommStruct)) :=
  let rc_qp := Builder.inner self in
  if bool_decide (QueuePair.mode rc_qp <> RC) then
    _ ← QueuePair.drop rc_qp;
    mret (Err (CreationError "QP mode that is not RC does not need handshake to bring it up!"
                 (from_kernel_errno 0)))
  else
    Builder.try_or (or_err "Failed to connect server" (call (tcp_connect addr))) (QueuePair.drop rc_qp)
      (fun stream =>
    Builder.try_or (handshake_steps self stream) (QueuePair.drop rc_qp)
      (fun key => mret (Ok (QueuePair.with_comm (mkComm RC addr key) rc_qp)))).

Definition query_mr_info (self : QueuePair.QueuePair CommStruct) : M W (Result ControlpathError MRInfos) :=
  match QueuePair.comm self with
  | None => mret (Err (CreationError "None value on `comm`" (from_kernel_errno 0)))
  | Some comm =>
      stream ←? or_err "Failed to connect server" (call (tcp_connect (comm_addr comm)));
      answer ←? ask stream (mkMessage QueryMRReq []) "Failed to send message"
                  "Failed to do read from client" "Failed to do deserialization"
                  "Failed to pass response type check" QueryMRRes;
      or_err "Failed to do deserialization" (pure (from_json answer))
  end.

End client.
End Client.

(** ** The server (services_user/cm.rs and mod.rs) *)
Module Server.
Import Client.

(** [DefaultConnectionManagerHandler] with the world it runs in. *)
Record server (W : Type) := mkServer {
  registered_rc : gmap Z (QueuePair.QueuePair CommStruct);
  registered_mr : gmap string MemoryRegion.MemoryRegion;
  port_num : Z;
  ctx : Context.Context;
  world : W }.
Arguments mkServer {W}.
Arguments registered_rc {W}.
Arguments registered_mr {W}.
Arguments port_num {W}.
Arguments ctx {W}.
Arguments world {W}.

(** The address of a new [Arc], which serves as the key of its queue pair: no
    live allocation has it. *)
Class ArcHeap := {
  arc_addr : gset Z -> Z;
  arc_addr_fresh X : arc_addr X ∉ X
}.

(** The trait [ConnectionManagerHandler]. *)
Record ConnectionManagerHandler (S : Type) := mkHandler {
  handle_reg_rc_req : json -> M S (Result CMError CMMessage);
  handle_dereg_rc_req : json -> M S (Result CMError CMMessage);
  handle_query_mr_req : json -> M S (Result CMError CMMessage);
  handle_error : json -> M S (Result CMError CMMessage);
  handle_user_slot_a : json -> M S (Result CMError CMMessage);
  handle_user_slot_b : json -> M S (Result CMError CMMessage);
  handle_user_slot_c : json -> M S (Result CMError CMMessage);
  handle_user_slot_d : json -> M S (Result CMError CMMessage);
  handle_user_slot_e : json -> M S (Result CMError CMMessage);
  handle_user_slot_f : json -> M S (Result CMError CMMessage) }.
Arguments mkHandler {S}.
Arguments handle_reg_rc_req {S}.
Arguments handle_dereg_rc_req {S}.
Arguments handle_query_mr_req {S}.
Arguments handle_error {S}.
Arguments handle_user_slot_a {S}.
Arguments handle_user_slot_b {S}.
Arguments handle_user_slot_c {S}.
Arguments handle_user_slot_d {S}.
Arguments handle_user_slot_e {S}.
Arguments handle_user_slot_f {S}.

(** The default body of every method of the trait: [unimplemented!()]. *)
Definition unimplemented {S} (raw : json) : M S (Result CMError CMMessage) := panic.

Section handler.
Context {W : Type} `{!Cfg, !DeviceOps W, !QueueOps W, !DataOps W, !Tcp W, !ArcHeap}.
Context `{!Serde CMMessage, !Serde RCConnectionData, !Serde Z, !Serde MRInfos}.

Definition set_world (w : W) (s : server W) : server W :=
  mkServer (registered_rc s) (registered_mr s) (port_num s) (ctx s) w.
Definition set_rc (f : gmap Z (QueuePair.QueuePair CommStruct)) (s : server W) : server W :=
  mkServer f (registered_mr s) (port_num s) (ctx s) (world s).

(** A computation of the world, run by the server. *)
Definition onW {A} (m : M W A) : M (server W) A := fun s =>
  match m (world s) with Done (a, w) => Done (a, set_world w s) | Panic => Panic end.

Definition new (ctx : Context.Context) (port_num : Z) (w : W) : server W :=
  mkServer ∅ ∅ port_num ctx w.

(** [MRWrapper::insert]; a region that is replaced is dropped. *)
Fixpoint register_mr (mrs : list (string * MemoryRegion.MemoryRegion)) : M (server W) unit :=
  match mrs with
  | [] => mret ()
  | (name, mr) :: mrs =>
      old ← gets (fun s => registered_mr s !! name);
      _ ← (fun s => Done ((), mkServer (registered_rc s) (<[name := mr]> (registered_mr s)) (port_num s)
                                (ctx s) (world s)));
      _ ← (match old with Some o => onW (MemoryRegion.drop o) | None => mret () end);
      register_mr mrs
  end.

(** [MRInfo::from]. *)
Definition mr_info (w : W) (mr : MemoryRegion.MemoryRegion) : MRInfo :=
  mkMRInfo (MemoryRegion.get_virt_addr mr) (MemoryRegion.capacity mr)
    match MemoryRegion.rkey mr w with Done (k, _) => k | Panic => 0 end.

Definition to_mrinfos (s : server W) : MRInfos := mr_info (world s) <$> registered_mr s.

Definition reg_builder (s : server W) : Builder.QueuePairBuilder :=
  Builder.allow_remote_atomic (Builder.allow_remote_rw
    (Builder.set_port_num (port_num s) (Builder.new (ctx s)))).

Definition find_rc (key : Z) (s : server W) : option (QueuePair.QueuePair CommStruct) :=
  registered_rc s !! key.
Definition drop_rc (old : option (QueuePair.QueuePair CommStruct)) : M (server W) unit :=
  match old with Some o => onW (QueuePair.drop o) | None => mret () end.

(** [registered_rc.lock().unwrap().insert(key, qp)], whose result is dropped. *)
Definition insert_rc (key : Z) (qp : QueuePair.QueuePair CommStruct) : M (server W) unit :=
  old ← gets (find_rc key);
  _ ← (fun s => Done ((), set_rc (<[key := qp]> (registered_rc s)) s));
  drop_rc old.

Definition remove_rc (key : Z) : M (server W) unit :=
  old ← gets (find_rc key);
  _ ← (fun s => Done ((), set_rc (delete key (registered_rc s)) s));
  drop_rc old.

(** [handle_reg_rc_req] once the queue pair is up: it is stored under the address
    of its [Arc], unless a query fails, and described to the client. *)
Definition reg_reply (data : RCConnectionData) (rc_qp : QueuePair.QueuePair CommStruct) :
  M (server W) (Result CMError CMMessage) :=
  port ← gets port_num;
  rc_key ← gets (fun s => arc_addr (dom (registered_rc s)));
  Builder.try_or
    (onW (map_errM (fun e => Creation (to_kernel_errno e)) (Context.get_port_attr (QueuePair.ctx rc_qp) port)))
    (onW (QueuePair.drop rc_qp)) (fun attr =>
  Builder.try_or
    (onW (map_errM (fun e => Creation (to_kernel_errno e)) (Context.query_gid (QueuePair.ctx rc_qp) port 0)))
    (onW (QueuePair.drop rc_qp)) (fun gid =>
  qpn ← onW (QueuePair.qp_num rc_qp);
  let data := mkData (port_lid attr) (gid_from gid) qpn qpn (d_rnr_retry_count data) rc_key in
  _ ← insert_rc rc_key rc_qp;
  text ←? mret (map_err (fun _ => Creation 0) (to_json data));
  mret (Ok (mkMessage RegRCRes text)))).

Definition reg_rc_req (raw : json) : M (server W) (Result CMError CMMessage) :=
  data ←? mret (map_err (fun _ => CMInvalidArg "Failed to do deserialization" []) (from_json raw));
  builder ← gets reg_builder;
  rc_qp ←? onW (map_errM (fun _ => Creation 0) (Builder.build_rc builder));
  rc_qp ←? onW (map_errM (fun _ => Creation 0)
                  (bring_up_rc rc_qp (d_lid data) (gid_into (d_gid data)) (d_qpn data)
                     (d_starting_psn data)));
  reg_reply data rc_qp.

Definition dereg_rc_req (raw : json) : M (server W) (Result CMError CMMessage) :=
  rc_key ←? mret (map_err (fun _ => CMInvalidArg "Failed to do deserialization" []) (from_json raw));
  _ ← remove_rc rc_key;
  mret (Ok (mkMessage NeverSend [])).

Definition query_mr_req (raw : json) : M (server W) (Result CMError CMMessage) :=
  mrs ← gets to_mrinfos;
  text ←? mret (map_err (fun _ => Creation 0) (to_json mrs));
  mret (Ok (mkMessage QueryMRRes text)).

(** "Remote Side Error". *)
Definition remote_error_text : json :=
  [82;101;109;111;116;101;32;83;105;100;101;32;69;114;114;111;114].
Definition error_req (raw : json) : M (server W) (Result CMError CMMessage) :=
  mret (Ok (mkMessage NeverSend remote_error_text)).

(** [impl ConnectionManagerHandler for DefaultConnectionManagerHandler]. *)
Definition default_handler : ConnectionManagerHandler (server W) :=
  mkHandler reg_rc_req dereg_rc_req query_mr_req error_req
    unimplemented unimplemented unimplemented unimplemented unimplemented unimplemented.

(** The [match] of [service_handler]. *)
Definition dispatch (handler : ConnectionManagerHandler (server W)) (m : CMMessage) :
  M (server W) (Result CMError CMMessage) :=
  let raw := serialized m in
  match message_type m with
  | RegRCReq => handle_reg_rc_req handler raw
  | DeregRCReq => handle_dereg_rc_req handler raw
  | QueryMRReq => handle_query_mr_req handler raw
  | UserSlotA => handle_user_slot_a handler raw
  | UserSlotB => handle_user_slot_b handler raw
  | UserSlotC => handle_user_slot_c handler raw
  | UserSlotD => handle_user_slot_d handler raw
  | UserSlotE => handle_user_slot_e handler raw
  | UserSlotF => handle_user_slot_f handler raw
  | _ => mret (Err (Creation 0))
  end.

(** The answer to the bytes of one read: [None] when the loop returns an error. *)
Definition serve (handler : ConnectionManagerHandler (server W)) (bytes : json) :
  M (server W) (Result CMError CMMessage) :=
  message ←? mret (map_err (fun _ => Creation 0) (from_json bytes));
  r ← dispatch handler message;
  mret (Ok (match r with Ok msg => msg | Err _ => error_message end)).

Definition READ_BUF : Z := 2048.

(** One turn of the loop of [service_handler]: [None] to go on, or its result. *)
Definition service_turn (handler : ConnectionManagerHandler (server W)) (stream : Z) :
  M (server W) (option (Result CMError unit)) :=
  r ← onW (call (tcp_read stream READ_BUF));
  match r with
  | Err _ => mret (Some (Err (Creation 0)))
  | Ok [] => mret (Some (Ok ()))
  | Ok bytes =>
      msg ← serve handler bytes;
      match msg with
      | Err e => mret (Some (Err e))
      | Ok msg =>
          sent ← onW (then_send stream msg);
          mret (match sent with Ok _ => None | Err e => Some (Err e) end)
      end
  end.

(** At most [n] turns of the loop. *)
Fixpoint service_handler (n : nat) (handler : ConnectionManagerHandler (server W)) (stream : Z) :
  M (server W) (option (Result CMError unit)) :=
  match n with
  | O => mret None
  | S n =>
      r ← service_turn handler stream;
      match r with Some res => mret (Some res) | None => service_handler n handler stream end
  end.

End handler.
End Server.

(** ** The registry of the server *)
Section registry.
Import Client Server.
Context {W : Type} `{!Cfg, !DeviceOps W, !QueueOps W, !DataOps W, !Tcp W, !ArcHeap}.
Context `{!VerbsLaws W, !PortLaws W, !TcpLaws W}.
Context `{!Serde CMMessage, !Serde RCConnectionData, !Serde Z, !Serde MRInfos}.
Implicit Types (s : server W) (w : W) (qp : QueuePair.QueuePair CommStruct).

Definition registry_ok (base : gset res) (s : server W) : Prop :=
  shares base (registered_rc s) (world s).

Lemma registry_quiet base s w' :
  live w' = live (world s) -> same_qps qp_view (world s) w' ->
  registry_ok base s -> registry_ok base (set_world w' s).
Proof. apply shares_quiet. Qed.

Lemma registry_remove base s key qp :
  registry_ok base s -> registered_rc s !! key = Some qp ->
  exists w', QueuePair.drop qp (world s) = Done ((), w') /\ live w' = live (world s) ∖ owned qp /\
    registry_ok base (set_rc (delete key (registered_rc s)) (set_world w' s)).
Proof. intros Hok Hq. destruct (shares_remove _ _ _ _ _ Hok Hq) as (w' & ? & ? & ? & _). by exists w'. Qed.

(** *** Registration *)
Lemma onW_done {A} (m : M W A) s a w' :
  m (world s) = Done (a, w') -> onW m s = Done (a, set_world w' s).
Proof. intros E. unfold onW. by rewrite E. Qed.

Lemma onW_try {E F A B D} (f : E -> F) (m : M W (Result E A)) (k : A -> M W (Result E B))
  (rest : B -> M (server W) (Result F D)) s :
  (x ←? onW (map_errM f m); y ←? onW (map_errM f (k x)); rest y) s =
  (y ←? onW (map_errM f (x ←? m; k x)); rest y) s.
Proof.
  rewrite !try_as_bind, !bind_run. unfold onW, map_errM, try_bind. rewrite !bind_run.
  destruct (m (world s)) as [[[a|e] w1]|]; cbn; [|done..].
  rewrite !bind_run. cbn. by destruct (k a w1) as [[[b|e] w2]|].
Qed.

(** The part of the server a registration leaves alone. *)
Definition same_config s s' : Prop :=
  registered_mr s' = registered_mr s /\ port_num s' = port_num s /\ ctx s' = ctx s.

(** A registration that succeeded: the queue pair it made, its key, its state and
    the data sent back. *)
Definition registers s s' (data : RCConnectionData) (answer : RCConnectionData)
  (key : Z) (qp : QueuePair.QueuePair CommStruct) : Prop :=
  let q := QueuePair.inner_qp qp in
  let n := Verbs.qp_num (world s') q in
  registered_rc s !! key = None /\ registered_rc s' = <[key := qp]> (registered_rc s) /\
  owned qp ## live (world s) /\ live (world s') = owned qp ∪ live (world s) /\
  answer = mkData (port_lid (port_info (port_ctx (ctx s)) (port_num s)))
             (gid_from (gid_info (port_ctx (ctx s)) (port_num s) 0)) n n (d_rnr_retry_count data) key /\
  exists init, qp_view (world s') q = Some (mkQpInfo init
    (rc_configured (reg_builder s) (d_lid data) (gid_into (d_gid data)) (d_qpn data)
       (d_starting_psn data) n)).

(** What a registration leaves behind, whatever its result. *)
Definition reg_outcome base s (r : Result CMError CMMessage) s' (data : RCConnectionData) : Prop :=
  registry_ok base s' /\ same_config s s' /\
  match r with
  | Err _ => registered_rc s' = registered_rc s
  | Ok m => message_type m = RegRCRes /\ exists answer key qp,
      from_json (serialized m) = Ok answer /\ registers s s' data answer key qp
  end.

(** The queries of the reply: both answer, or the queue pair is dropped. *)
Lemma reg_reply_dropped base s data w3 (e : CMError) (qp : QueuePair.QueuePair CommStruct) :
  registry_ok base s -> fresh_qp (world s) w3 qp ->
  exists s', (_ ← onW (QueuePair.drop qp); mret (Err e : Result CMError CMMessage)) (set_world w3 s) =
      Done (Err e, s') /\
    reg_outcome base s (Err e) s' data.
Proof.
  intros Hok Hf3. destruct (fresh_qp_drop _ _ _ Hf3) as (w' & Hd & Hl' & Hs').
  rewrite (bind_done _ _ _ _ _ (onW_done _ (set_world w3 s) _ _ Hd)).
  eexists. split; [done|]. split; [exact (registry_quiet base s w' Hl' Hs' Hok)|]. by split_and!.
Qed.

Lemma reg_reply_spec `{!SerdeLaws RCConnectionData} base s data w1 qp init :
  let n := Verbs.qp_num w1 (QueuePair.inner_qp qp) in
  registry_ok base s -> fresh_qp (world s) w1 qp -> QueuePair.srq qp = None ->
  QueuePair.ctx qp = ctx s -> refers_own init qp ->
  qp_view w1 (QueuePair.inner_qp qp) = Some (mkQpInfo init
    (rc_configured (reg_builder s) (d_lid data) (gid_into (d_gid data)) (d_qpn data)
       (d_starting_psn data) n)) ->
  exists r s', reg_reply data qp (set_world w1 s) = Done (r, s') /\ reg_outcome base s r s' data /\
    (healthy w1 -> healthy (world s') /\ is_Ok r = true).
Proof.
  intros n Hok Hf Hsrq Hctx Hown Hv. unfold reg_reply. rewrite !bind_gets. unfold Builder.try_or.
  destruct (get_port_attr_spec (QueuePair.ctx qp) (port_num s) w1) as (ra & w2 & Hra & Hq2 & Hh2 & Ha).
  rewrite (bind_done _ _ _ _ _ (onW_done _ (set_world w1 s) _ _ (map_errM_done _ _ _ _ _ Hra))).
  pose proof (fresh_qp_quiet _ _ _ _ Hf Hq2) as Hf2. destruct ra as [attr|e]; cbn [map_err].
  2: { destruct (reg_reply_dropped base s data w2 (Creation (to_kernel_errno e)) qp Hok Hf2) as (s' & Hrun & Ho).
       eexists _, s'. split; [exact Hrun|]. split; [done|]. intros Hw. by specialize (Hh2 Hw). }
  destruct (query_gid_spec (QueuePair.ctx qp) (port_num s) 0 w2) as (rg & w3 & Hrg & Hq3 & Hh3 & Hg).
  rewrite (bind_done _ _ _ _ _ (onW_done _ (set_world w2 s) _ _ (map_errM_done _ _ _ _ _ Hrg))).
  pose proof (fresh_qp_quiet _ _ _ _ Hf2 Hq3) as Hf3.
  assert (Hw3 : healthy w1 -> healthy w2) by apply Hq2. destruct rg as [gid|e]; cbn [map_err].
  2: { destruct (reg_reply_dropped base s data w3 (Creation (to_kernel_errno e)) qp Hok Hf3) as (s' & Hrun & Ho).
       eexists _, s'. split; [exact Hrun|]. split; [done|]. intros Hw. by specialize (Hh3 (Hw3 Hw)). }
  set (q := QueuePair.inner_qp qp) in *. pose proof (quiet_trans _ _ _ Hq2 Hq3) as (_ & Hs & Hn & Hh).
  assert (Hn3 : Verbs.qp_num w3 q = n) by by rewrite Hn.
  rewrite (bind_done (onW (QueuePair.qp_num qp)) _ _ n (set_world w3 s)) by by rewrite <- Hn3.
  set (key := arc_addr (dom (registered_rc s))).
  assert (Hkey : registered_rc s !! key = None) by (apply not_elem_of_dom, arc_addr_fresh).
  set (answer := mkData (port_lid attr) (gid_from gid) n n (d_rnr_retry_count data) key).
  set (s' := set_rc (<[key := qp]> (registered_rc s)) (set_world w3 s)).
  rewrite (bind_done (insert_rc key qp) _ _ () s') by
    (unfold insert_rc; rewrite bind_gets; unfold find_rc; cbn [registered_rc set_world]; by rewrite Hkey).
  destruct (to_json_total answer) as (text & Hto & Hfrom).
  change (to_json (mkData _ _ _ _ _ _)) with (to_json answer). rewrite Hto.
  eexists _, s'. split; [done|]. split; [|by intros Hw; split; [apply Hh|]].
  split; [eapply (shares_add base (registered_rc s) (world s) w3 key qp); try done; [by rewrite Hs|done..]|]. split; [done|]. split; [done|].
  exists answer, key, qp. split; [done|]. split; [done|]. split; [done|]. split; [apply Hf3|].
  split; [apply Hf3|]. split.
  - unfold answer. cbn. fold q. rewrite Hn3. rewrite (Ha attr eq_refl), (Hg gid eq_refl). by rewrite Hctx.
  - exists init. cbn. fold q. by rewrite Hs, Hv, Hn3.
Qed.

Lemma reg_rc_req_spec `{!SerdeLaws RCConnectionData} base raw s :
  registry_ok base s ->
  exists r s', reg_rc_req raw s = Done (r, s') /\
    match from_json raw with
    | Ok data => reg_outcome base s r s' data /\ (healthy (world s) -> healthy (world s') /\ is_Ok r = true)
    | Err _ => s' = s /\ is_Ok r = false
    end.
Proof.
  intros Hok. unfold reg_rc_req. rewrite try_as_bind, bind_ret. cbv beta.
  destruct (from_json raw) as [data|e]; cbn [map_err]; [|by eexists _, s].
  rewrite bind_gets, onW_try.
  destruct (rc_connect_spec (C := CommStruct) (reg_builder s) (d_lid data) (gid_into (d_gid data))
    (d_qpn data) (d_starting_psn data) (world s)) as (r & w1 & Hrun & Hh1 & Hr).
  rewrite try_as_bind, (bind_done _ _ _ _ _ (onW_done _ _ _ _ (map_errM_done _ _ _ _ _ Hrun))).
  destruct r as [qp|e]; cbn [map_err].
  - destruct Hr as ((init & Ht & Hown & Hv) & Hf & Hctx & Hmode & Hsrq & _).
    destruct (reg_reply_spec base s data w1 qp init) as (r & s' & Hrun' & Ho & Hh); try done.
    exists r, s'. split; [done|]. split; [done|]. intros Hw. apply Hh, Hh1, Hw.
  - destruct Hr as [Hl Hs]. eexists _, _. split; [done|].
    split; [split; [by apply registry_quiet|by split_and!]|]. intros Hw. by destruct (Hh1 Hw).
Qed.

Lemma dereg_rc_req_spec base raw s :
  registry_ok base s ->
  exists r s', dereg_rc_req raw s = Done (r, s') /\ registry_ok base s' /\ same_config s s' /\
    match from_json raw with
    | Ok key => r = Ok (mkMessage NeverSend []) /\ registered_rc s' = delete key (registered_rc s)
    | Err _ => s' = s
    end.
Proof.
  intros Hok. unfold dereg_rc_req. rewrite try_as_bind, bind_ret. cbv beta.
  destruct (from_json raw) as [key|e]; cbn [map_err]; [|by eexists _, s].
  unfold remove_rc. rewrite bind_assoc, bind_gets. unfold find_rc.
  destruct (registered_rc s !! key) as [qp|] eqn:Hq.
  - destruct (registry_remove base s key qp Hok Hq) as (w' & Hd & _ & Hok').
    rewrite bind_assoc, bind_run. cbn [drop_rc].
    rewrite (bind_done _ _ _ _ _ (onW_done _ (set_rc (delete key (registered_rc s)) s) _ _ Hd)).
    eexists _, _. split; [done|]. split; [exact Hok'|]. by split_and!.
  - rewrite bind_assoc, bind_run. cbn [drop_rc]. rewrite bind_ret. eexists _, _. split; [done|].
    rewrite delete_id by done. destruct s as [a b c d w]. by split_and!.
Qed.

(** *** One request *)
Definition user_slot (t : CMMessageType) : bool :=
  match t with
  | UserSlotA | UserSlotB | UserSlotC | UserSlotD | UserSlotE | UserSlotF => true
  | _ => false
  end.

Lemma query_mr_req_spec raw s : exists r, query_mr_req raw s = Done (r, s).
Proof.
  unfold query_mr_req. rewrite bind_gets, try_as_bind, bind_ret. cbv beta.
  destruct (to_json (to_mrinfos s)); by eexists.
Qed.

Lemma serve_spec `{!SerdeLaws RCConnectionData} base bytes s :
  registry_ok base s ->
  (exists m, from_json bytes = Ok m /\ user_slot (message_type m) = true /\
     serve default_handler bytes s = Panic) \/
  exists r s', serve default_handler bytes s = Done (r, s') /\ registry_ok base s' /\ same_config s s'.
Proof.
  intros Hok. unfold serve. rewrite try_as_bind, bind_ret. cbv beta.
  destruct (from_json bytes) as [m|e]; cbn [map_err]; [|right; by eexists _, s].
  assert (Hkeep : forall r s', dispatch default_handler m s = Done (r, s') ->
    registry_ok base s' /\ same_config s s' ->
    exists r' s', (r ← dispatch default_handler m;
       mret (Ok (match r with Ok msg => msg | Err _ => error_message end) : Result CMError CMMessage)) s
      = Done (r', s') /\ registry_ok base s' /\ same_config s s').
  { intros r s' Hd ?. rewrite (bind_done _ _ _ _ _ Hd). by eexists _, s'. }
  unfold dispatch in *. destruct (message_type m) eqn:Et;
    try (right; eapply Hkeep; [done|by split_and!]); try (left; exists m; by rewrite Et).
  - right. destruct (reg_rc_req_spec base (serialized m) s Hok) as (r & s' & Hd & Hr). eapply Hkeep; [exact Hd|].
    destruct (from_json (serialized m)); [destruct Hr as [(? & ? & _) _]; done|]. by destruct Hr as [-> _].
  - right. destruct (dereg_rc_req_spec base (serialized m) s Hok) as (r & s' & Hd & ? & ? & _). by eapply Hkeep.
  - right. destruct (query_mr_req_spec (serialized m) s) as [r Hd]. by eapply Hkeep.
Qed.

Lemma then_send_spec `{!SerdeLaws CMMessage} stream m w :
  exists r w', then_send stream m w = Done (r, w') /\ quiet w w'.
Proof.
  unfold then_send. destruct (should_send_back m); cbn [negb]; [|by eexists _, w; split; [|apply quiet_refl]].
  destruct (to_json_total m) as (text & Hto & _). unfold serialization. rewrite Hto, bind_run. cbn [lift].
  mgoal. apply tcp_write_law in E. by destruct r; eexists _, _.
Qed.

Lemma service_turn_spec `{!SerdeLaws CMMessage, !SerdeLaws RCConnectionData} base stream s :
  registry_ok base s ->
  (exists bytes m, from_json bytes = Ok m /\ user_slot (message_type m) = true /\
     service_turn default_handler stream s = Panic) \/
  exists r s', service_turn default_handler stream s = Done (r, s') /\ registry_ok base s' /\ same_config s s'.
Proof.
  intros Hok. unfold service_turn.
  destruct (tcp_read stream READ_BUF (world s)) as [r w1] eqn:Hread.
  rewrite (bind_done _ _ _ _ _ (onW_done (call (tcp_read stream READ_BUF)) s r w1 ltac:(unfold call; by rewrite Hread))).
  apply tcp_read_law in Hread as (Hl & Hs & _).
  pose proof (registry_quiet base s w1 Hl Hs Hok) as Hok1.
  destruct r as [[|b bytes]|e]; [right; by eexists _, _| |right; by eexists _, _].
  destruct (serve_spec base (b :: bytes) (set_world w1 s) Hok1) as [(m & Hm & Hu & Hp)|(r & s2 & Hd & Hok2 & Hc)].
  { left. exists (b :: bytes), m. split; [done|]. split; [done|]. by rewrite bind_run, Hp. }
  rewrite (bind_done _ _ _ _ _ Hd). right. destruct r as [msg|e]; [|by eexists _, s2].
  destruct (then_send_spec stream msg (world s2)) as (rs & w3 & Hsend & Hl3 & Hs3 & _).
  rewrite (bind_done _ _ _ _ _ (onW_done _ s2 _ _ Hsend)). eexists _, _. split; [done|].
  split; [by apply registry_quiet|done].
Qed.

Lemma service_handler_spec `{!SerdeLaws CMMessage, !SerdeLaws RCConnectionData} base n stream s :
  registry_ok base s ->
  match service_handler n default_handler stream s with
  | Panic => exists bytes m, from_json bytes = Ok m /\ user_slot (message_type m) = true
  | Done (_, s') => registry_ok base s' /\ same_config s s'
  end.
Proof.
  revert s. induction n as [|n IH]; intros s Hok; [done|]. cbn [service_handler].
  destruct (service_turn_spec base stream s Hok) as [(bytes & m & ? & ? & Hp)|(r & s' & Hd & Hok' & Hc)].
  { rewrite bind_run, Hp. by exists bytes, m. }
  rewrite bind_run, Hd. destruct r as [res|]; [done|]. specialize (IH s' Hok').
  destruct (service_handler n default_handler stream s') as [[r s'']|]; [|done].
  destruct IH as [? (? & ? & ?)], Hc as (? & ? & ?). split; [done|]. split_and!; congruence.
Qed.

End registry.

(** ** The handshake of the client *)
Section handshake.
Import Client Server.
Context {W : Type} `{!Cfg, !DeviceOps W, !QueueOps W, !DataOps W, !Tcp W, !ArcHeap}.
Context `{!VerbsLaws W, !PortLaws W, !TcpLaws W}.
Context `{!Serde CMMessage, !Serde RCConnectionData, !Serde Z, !Serde MRInfos}.
Context `{!SerdeLaws CMMessage, !SerdeLaws RCConnectionData, !SerdeLaws Z}.

(** A step that leaves the driver alone: its error ends the computation, and its
    value goes on. *)
Lemma quiet_step {E A B} (what : string) (m : M W (Result E A)) (k : A -> M W (Result ControlpathError B))
  (post : Result ControlpathError B -> W -> Prop) w r w1 :
  m w = Done (r, w1) -> quiet w w1 ->
  (forall e, post (Err e) w1) -> (forall a, r = Ok a -> exists r' w', k a w1 = Done (r', w') /\ post r' w') ->
  exists r' w', (x ←? or_err what m; k x) w = Done (r', w') /\ post r' w'.
Proof.
  intros Hm Hq He Hk. unfold or_err. rewrite try_as_bind, (bind_done _ _ _ _ _ (map_errM_done _ _ _ _ _ Hm)).
  destruct r as [a|e]; cbn [map_err]; [by apply Hk|]. by eexists _, w1.
Qed.

Lemma ask_spec stream req e1 e2 e3 e4 t w :
  exists r w', ask stream req e1 e2 e3 e4 t w = Done (r, w') /\ quiet w w'.
Proof.
  unfold ask. destruct (then_send_spec stream req w) as (r1 & w1 & H1 & Hq1).
  apply (quiet_step _ _ _ (fun _ w' => quiet w w') _ _ _ H1 Hq1); [done|]. intros [] _.
  destruct (tcp_read stream BUF w1) as [r2 w2] eqn:H2. pose proof (tcp_read_law _ _ _ _ _ H2) as Hq2.
  pose proof (quiet_trans _ _ _ Hq1 Hq2) as Hq.
  apply (quiet_step _ _ _ (fun _ w' => quiet w w') _ r2 w2); [unfold call; by rewrite H2|done|done|].
  intros bytes _. apply (quiet_step _ _ _ (fun _ w' => quiet w w') _ (from_json bytes) w2);
    [done|apply quiet_refl|done|].
  intros m _. case_bool_decide; by eexists _, w2.
Qed.

(** Whatever the network and the peer answer, the steps of the handshake return,
    touch no other queue pair, and end in RTS with the data of some answer or in
    an error. *)
Definition handshaken (self : Builder.PreparedQueuePair CommStruct) (v : qp_info) (w : W)
  (r : Result ControlpathError Z) (w' : W) : Prop :=
  let qp := Builder.inner self in
  let q := QueuePair.inner_qp qp in
  only_qp q w w' /\
  forall key, r = Ok key -> exists data, key = d_rc_key data /\
    qp_view w' q = Some (mkQpInfo (qi_init v)
      (rc_ready qp (d_lid data) (gid_into (d_gid data)) (d_qpn data) (d_starting_psn data)
         (Verbs.qp_num w' q) (qi_attr v))).

Lemma handshake_steps_spec (self : Builder.PreparedQueuePair CommStruct) stream (w : W) v :
  let qp := Builder.inner self in
  QueuePair.mode qp = RC -> qp_view w (QueuePair.inner_qp qp) = Some v ->
  qp_state (qi_attr v) = IB_QPS_RESET ->
  exists r w', handshake_steps self stream w = Done (r, w') /\ handshaken self v w r w'.
Proof.
  intros qp Hm Hv Hst. unfold handshake_steps.
  assert (Herr : forall (e : ControlpathError) w1, quiet w w1 -> handshaken self v w (Err e) w1).
  { intros e w1 Hq. split; [by apply quiet_only|done]. }
  destruct (get_port_attr_spec (QueuePair.ctx qp) (Builder.p_port_num self) w) as (r1 & w1 & H1 & Hq1 & _).
  apply (quiet_step _ _ _ (handshaken self v w) _ _ _ H1 Hq1); [auto|]. intros attr _.
  destruct (query_gid_spec (QueuePair.ctx qp) (Builder.p_port_num self) 0 w1) as (r2 & w2 & H2 & Hq2 & _).
  pose proof (quiet_trans _ _ _ Hq1 Hq2) as Hq.
  apply (quiet_step _ _ _ (handshaken self v w) _ _ _ H2 Hq2); [auto|]. intros gid _.
  unfold QueuePair.qp_num. rewrite bind_gets.
  eapply (quiet_step _ _ _ (handshaken self v w) _ _ w2); [done|apply quiet_refl|auto|]. intros text _.
  match goal with |- context [try_bind (ask ?a ?b ?c ?d ?e ?f ?g) _] =>
    destruct (ask_spec a b c d e f g w2) as (r3 & w3 & H3 & Hq3) end.
  pose proof (quiet_trans _ _ _ Hq Hq3) as Hq'. rewrite try_as_bind, (bind_done _ _ _ _ _ H3).
  destruct r3 as [answer|e]; [|by eexists _, w3; auto].
  eapply (quiet_step _ _ _ (handshaken self v w) _ _ w3); [done|apply quiet_refl|auto|]. intros data _.
  destruct (bring_up_rc_inner_spec qp (d_lid data) (gid_into (d_gid data)) (d_qpn data)
    (d_starting_psn data) w3 v Hm) as (r4 & w4 & H4 & Ho & Hout & _); [|done|].
  { destruct Hq' as (_ & Hs & _). by rewrite Hs. }
  assert (Ho' : only_qp (QueuePair.inner_qp qp) w w4) by (eapply only_qp_trans; [by apply quiet_only|done]).
  unfold or_err. rewrite try_as_bind, (bind_done _ _ _ _ _ (map_errM_done _ _ _ _ _ H4)).
  destruct r4 as [[]|e]; cbn [map_err]; eexists _, w4; (split; [done|]); (split; [done|]); [|done].
  intros key [= <-]. exists data. split; [done|]. cbn zeta. fold qp. rewrite Hout. by destruct Ho as (_ & <- & _).
Qed.

(** *** The conversation of a client and a server *)

(** The request a client in the world [w] sends. *)
Definition request_data (self : Builder.PreparedQueuePair CommStruct) (w : W) : RCConnectionData :=
  let qp := Builder.inner self in
  let c := port_ctx (QueuePair.ctx qp) in
  let n := Verbs.qp_num w (QueuePair.inner_qp qp) in
  mkData (port_lid (port_info c (Builder.p_port_num self)))
    (gid_from (gid_info c (Builder.p_port_num self) 0)) n n (Builder.p_retry_count self) 0.

(** The network between a client and a listener: it connects, takes a request and
    gives back the reply. *)
Definition replies (addr : Z) (reply : json -> json -> Prop) : Prop :=
  forall w : W, exists h w1, tcp_connect addr w = (Ok h, w1) /\
    forall b w2, exists n w3, tcp_write h b w2 = (Ok n, w3) /\
      forall rep, reply b rep -> exists w4, tcp_read h BUF w3 = (Ok rep, w4).

(** The reply of a server in state [s], as far as it fits the buffers. *)
Definition reply_of (s : server W) (b rep : json) : Prop :=
  exists msg s', serve default_handler b s = Done (Ok msg, s') /\ should_send_back msg = true /\
    serialization msg = Done rep /\ Z.of_nat (length b) <= READ_BUF /\ Z.of_nat (length rep) <= BUF.

(** A stream on which the reply [rep] to the request [b] can be read. *)
Definition answering (h : Z) (b rep : json) : Prop :=
  forall w : W, exists n w1 w2, tcp_write h b w = (Ok n, w1) /\ tcp_read h BUF w1 = (Ok rep, w2).

Lemma ask_ok h t text b rep msg e1 e2 e3 e4 (w : W) :
  to_json (mkMessage t text) = Ok b -> t <> NeverSend -> answering h b rep ->
  from_json rep = Ok msg ->
  exists w', ask h (mkMessage t text) e1 e2 e3 e4 (message_type msg) w = Done (Ok (serialized msg), w') /\
    quiet w w'.
Proof.
  intros Hb Ht Ha Hm. destruct (ask_spec h (mkMessage t text) e1 e2 e3 e4 (message_type msg) w) as (r & w' & Hr & Hq).
  exists w'. split; [|done]. rewrite Hr. f_equal. revert Hr. unfold ask.
  destruct (Ha w) as (n & w1 & w2 & Hw & Hrd). unfold then_send.
  assert (should_send_back (mkMessage t text) = true) as -> by by destruct t. cbn [negb].
  unfold serialization, or_err. rewrite Hb, try_as_bind.
  rewrite (bind_done _ _ w (Ok ()) w1)
    by (apply (map_errM_done _ _ w (Ok ()) w1); rewrite bind_run; cbn [lift]; rewrite bind_call, Hw; done).
  rewrite try_as_bind, (bind_done _ _ w1 (Ok rep) w2)
    by (apply (map_errM_done _ _ w1 (Ok rep) w2); unfold call; by rewrite Hrd).
  rewrite try_as_bind, (bind_done _ _ w2 (Ok msg) w2)
    by (apply (map_errM_done _ _ w2 (Ok msg) w2); unfold pure; by rewrite Hm).
  rewrite bool_decide_false by (intros Hn; by apply Hn). by intros [= <- <-].
Qed.

Lemma handshake_steps_ok (self : Builder.PreparedQueuePair CommStruct) h b rep msg answer text (w : W) init :
  let qp := Builder.inner self in
  let q := QueuePair.inner_qp qp in
  QueuePair.mode qp = RC -> qp_view w q = Some (reset_info init) -> init_qp_type init = IB_QPT_RC ->
  healthy w ->
  to_json (request_data self w) = Ok text -> to_json (mkMessage RegRCReq text) = Ok b ->
  answering h b rep -> from_json rep = Ok msg -> message_type msg = RegRCRes ->
  from_json (serialized msg) = Ok answer ->
  exists w', handshake_steps self h w = Done (Ok (d_rc_key answer), w') /\ only_qp q w w' /\
    qp_view w' q = Some (mkQpInfo init
      (rc_ready qp (d_lid answer) (gid_into (d_gid answer)) (d_qpn answer) (d_starting_psn answer)
         (Verbs.qp_num w' q) default_qp_attr)).
Proof.
  intros qp q Hm Hv Ht Hh Htext Hb Ha Hmsg Hty Hans. unfold handshake_steps, or_err.
  destruct (get_port_attr_spec (QueuePair.ctx qp) (Builder.p_port_num self) w) as (r1 & w1 & H1 & Hq1 & Hok1 & Hv1).
  assert (Hh1 : healthy w1) by by apply Hq1. specialize (Hok1 Hh). destruct r1 as [attr|]; [|done].
  rewrite try_as_bind, (bind_done _ _ _ _ _ (map_errM_done _ _ _ _ _ H1)). cbn [map_err].
  destruct (query_gid_spec (QueuePair.ctx qp) (Builder.p_port_num self) 0 w1) as (r2 & w2 & H2 & Hq2 & Hok2 & Hv2).
  assert (Hh2 : healthy w2) by by apply Hq2. specialize (Hok2 Hh1). destruct r2 as [gid|]; [|done].
  rewrite try_as_bind, (bind_done _ _ _ _ _ (map_errM_done _ _ _ _ _ H2)). cbn [map_err].
  pose proof (quiet_trans _ _ _ Hq1 Hq2) as Hq. unfold QueuePair.qp_num. rewrite bind_gets.
  rewrite (Hv1 attr eq_refl), (Hv2 gid eq_refl).
  assert (Hn : Verbs.qp_num w2 (QueuePair.inner_qp (Builder.inner self)) = Verbs.qp_num w q) by apply Hq.
  rewrite Hn. change (mkData _ _ _ _ _ _) with (request_data self w). rewrite Htext.
  rewrite try_as_bind, (bind_done _ _ w2 (Ok text) w2) by done.
  destruct (ask_ok h RegRCReq text b rep msg "Failed to write to server" "Failed to read from client"
    "Failed to deserialize CM Message" "Failed to pass response type check" w2) as (w3 & H3 & Hq3); try done.
  rewrite Hty in H3. rewrite try_as_bind, (bind_done _ _ _ _ _ H3). rewrite Hans.
  rewrite try_as_bind, (bind_done _ _ w3 (Ok answer) w3) by done.
  pose proof (quiet_trans _ _ _ Hq Hq3) as Hq'.
  destruct (bring_up_rc_inner_spec qp (d_lid answer) (gid_into (d_gid answer)) (d_qpn answer)
    (d_starting_psn answer) w3 (reset_info init) Hm) as (r4 & w4 & H4 & Ho & Hout & Hok4); [|done|].
  { destruct Hq' as (_ & Hs & _). by rewrite Hs. }
  destruct Hok4 as [-> Hh4]; [by apply Hq'|done|].
  rewrite try_as_bind, (bind_done _ _ _ _ _ (map_errM_done _ _ _ _ _ H4)). cbn [map_err].
  exists w4. split; [done|]. split; [eapply only_qp_trans; [by apply quiet_only|done]|].
  cbn in Hout. fold q in Hout. rewrite Hout. destruct Ho as (_ & Hn4 & _). fold q in Hn4. by rewrite Hn4.
Qed.

(** Dropping the queue pair on the way out. *)
Lemma drop_out (qp : QueuePair.QueuePair CommStruct) (w w1 : W) (e : ControlpathError) :
  only_qp (QueuePair.inner_qp qp) w w1 -> exclusive w qp -> QueuePair.comm qp = None ->
  exists w', (_ ← QueuePair.drop qp; mret (Err e : Result ControlpathError (QueuePair.QueuePair CommStruct))) w1
      = Done (Err e, w') /\
    live w' = live w ∖ owned qp /\
    (forall q, q <> QueuePair.inner_qp qp -> qp_view w' q = qp_view w q).
Proof.
  intros (Hl & _ & Ho) Hx Hc.
  destruct (qp_drop_spec qp w1) as (w' & Hd & Hl' & _ & _ & Hv); [by eapply exclusive_frame|done|].
  rewrite (bind_done _ _ _ _ _ Hd). exists w'. split; [done|]. split; [by rewrite Hl', Hl|].
  intros q Hq. by rewrite Hv, Ho.
Qed.

(** The registration seen through [serve]. *)
Lemma serve_reg base (s : server W) b text data :
  registry_ok base s -> healthy (world s) ->
  from_json b = Ok (mkMessage RegRCReq text) -> from_json text = Ok data ->
  exists msg s' answer key qp, serve default_handler b s = Done (Ok msg, s') /\
    message_type msg = RegRCRes /\ from_json (serialized msg) = Ok answer /\
    registers s s' data answer key qp /\ registry_ok base s'.
Proof.
  intros Hok Hh Hb Ht. destruct (reg_rc_req_spec base text s Hok) as (r & s' & Hrun & Hr).
  rewrite Ht in Hr. destruct Hr as [(Hok' & _ & Ho) Hok2]. destruct (Hok2 Hh) as [_ Hok3].
  destruct r as [msg|]; [|done]. destruct Ho as (Hty & answer & key & qp & Hans & Hreg).
  exists msg, s', answer, key, qp. split; [|done].
  unfold serve. rewrite Hb, try_as_bind, bind_ret. cbn [map_err]. unfold dispatch. cbn [message_type serialized].
  cbn [handle_reg_rc_req default_handler]. by rewrite (bind_done _ _ _ _ _ Hrun).
Qed.

End handshake.

Section theorems.
Import Client Server.
Context {W : Type} `{!Cfg, !DeviceOps W, !QueueOps W, !DataOps W, !Tcp W, !ArcHeap}.
Context `{!VerbsLaws W, !PortLaws W, !TcpLaws W}.
Context `{!Serde CMMessage, !Serde RCConnectionData, !Serde Z, !Serde MRInfos}.
Context `{!SerdeLaws CMMessage, !SerdeLaws RCConnectionData, !SerdeLaws Z}.

(** The connections of a server take turns in any order. *)
Fixpoint turns (streams : list Z) : M (server W) unit :=
  match streams with
  | [] => mret ()
  | h :: streams => _ ← service_turn default_handler h; turns streams
  end.

(** The driver of a server that started in the world [w]: what it held then and
    the shares of the registered queue pairs. *)
Definition server_balance (w : W) (o : outcome (unit * server W)) : Prop :=
  match o with
  | Panic => exists bytes m, from_json bytes = Ok m /\ user_slot (message_type m) = true
  | Done (_, s') =>
      (forall r, r ∈ live (world s') <->
         (r ∈ live w \/ exists k qp, registered_rc s' !! k = Some qp /\ r ∈ owned qp)) /\
      (forall k qp, registered_rc s' !! k = Some qp -> owned qp ## live w /\ keeps (world s') qp) /\
      (forall k k' qp qp', k <> k' -> registered_rc s' !! k = Some qp ->
         registered_rc s' !! k' = Some qp' -> owned qp ## owned qp')
  end.

(** A server never leaks and never frees too much.  Start it and let its
    connections take turns in any order, each reading whatever bytes the network
    delivers: at every point the driver holds exactly what it held before and,
    apart from each other, the resources of the registered queue pairs, each of
    them connected (RTS) and with queues no other queue pair uses.  A turn panics
    only on a well-formed message for a user slot, which the default handler does
    not implement. *)
Theorem server_never_leaks (streams : list Z) (c : Context.Context) (port : Z) (w : W) :
  server_balance w (turns streams (new c port w)).
Proof.
  assert (Hgen : forall s, registry_ok (live w) s ->
    match turns streams s with
    | Panic => exists bytes m, from_json bytes = Ok m /\ user_slot (message_type m) = true
    | Done (_, s') => registry_ok (live w) s'
    end).
  { induction streams as [|h streams IH]; intros s Hok; [done|]. cbn [turns]. rewrite bind_run.
    destruct (service_turn_spec (live w) h s Hok) as [(b & m & ? & ? & ->)|(r & s' & -> & Hok' & _)];
      [by exists b, m|by apply IH]. }
  specialize (Hgen (new c port w)). unfold server_balance. destruct (turns streams (new c port w)) as [[u s']|].
  - destruct Hgen as [Hk Hr Hb Ha].
    + constructor; cbn; try done. intros r. split; [by left|]. by intros [|(? & ? & ? & _)].
    + split; [done|]. split; [by eauto|done].
  - apply Hgen. constructor; cbn; try done. intros r. split; [by left|]. by intros [|(? & ? & ? & _)].
Qed.

(** The client's side of a handshake is safe against any network and any
    server: it returns; an error gives back everything the queue pair owned; a
    success leaves the queue pair in RTS, remembers the address and the key of the
    server, and touches no other queue pair. *)
Theorem client_handshake_safe (self : Builder.PreparedQueuePair CommStruct) addr (w : W) v :
  let qp := Builder.inner self in
  let q := QueuePair.inner_qp qp in
  qp_view w q = Some v -> qp_state (qi_attr v) = IB_QPS_RESET -> exclusive w qp ->
  QueuePair.comm qp = None ->
  exists r w', handshake self addr w = Done (r, w') /\
    (forall q', q' <> q -> qp_view w' q' = qp_view w q') /\
    match r with
    | Err _ => live w' = live w ∖ owned qp
    | Ok qp' => live w' = live w /\ QueuePair.mode qp = RC /\
        exists key data, qp' = QueuePair.with_comm (mkComm RC addr key) qp /\ key = d_rc_key data /\
          qp_view w' q = Some (mkQpInfo (qi_init v)
            (rc_ready qp (d_lid data) (gid_into (d_gid data)) (d_qpn data) (d_starting_psn data)
               (Verbs.qp_num w' q) (qi_attr v)))
    end.
Proof.
  intros qp q Hv Hst Hx Hc. unfold handshake. case_bool_decide as Hmode.
  - match goal with |- context [Err ?e] => destruct (drop_out qp w w e) as (w' & Hd & Hl & Ho) end;
      [by split_and!|done|done|]. unfold qp in Hd. rewrite Hd. by eexists _, w'.
  - assert (Hm : QueuePair.mode qp = RC) by (by destruct (decide (QueuePair.mode qp = RC))).
    destruct (tcp_connect addr w) as [rc w1] eqn:Hcon. pose proof (tcp_connect_law _ _ _ _ Hcon) as Hq1.
    unfold Builder.try_or, or_err.
    rewrite (bind_done _ _ w (map_err (fun _ => CreationError "Failed to connect server" (from_kernel_errno 0)) rc) w1)
      by (apply map_errM_done; unfold call; by rewrite Hcon).
    assert (Ho1 : only_qp q w w1) by by apply quiet_only.
    destruct rc as [h|e]; cbn [map_err].
    2: { match goal with |- context [Err ?e] => destruct (drop_out qp w w1 e Ho1 Hx Hc) as (w' & Hd & Hl & Ho) end.
         unfold qp in Hd. rewrite Hd. by eexists _, w'. }
    destruct (handshake_steps_spec self h w1 v Hm) as (r & w2 & H2 & Ho2 & Hr); [|done|].
    { destruct Hq1 as (_ & Hs & _). by rewrite Hs. }
    rewrite (bind_done _ _ _ _ _ H2). pose proof (only_qp_trans _ _ _ _ Ho1 Ho2) as Ho.
    destruct r as [key|e].
    + destruct (Hr key eq_refl) as (data & Hk & Hview). eexists _, w2. split; [done|].
      split; [apply Ho|]. split; [apply Ho|]. split; [done|]. by exists key, data.
    + destruct (drop_out qp w w2 e Ho Hx Hc) as (w' & Hd & Hl & Ho'). unfold qp in Hd. rewrite Hd.
      by eexists _, w'.
Qed.

(** Deregistration undoes a registration.  After a server has handled a
    registration, the key it answered with names the new queue pair; the message
    the client sends when it drops its side (over the network it only connects and
    writes it) makes the server drop that queue pair and no other, and both the
    registry and the resources of the driver are as before. *)
Theorem register_dereg_roundtrip (s s' : server W) base raw msg answer addr :
  registry_ok base s -> reg_rc_req raw s = Done (Ok msg, s') -> from_json (serialized msg) = Ok answer ->
  exists bytes,
    (forall w : W, release_peer (mkComm RC addr (d_rc_key answer)) w =
       (r ← call (tcp_connect addr);
        match r with Ok h => _ ← call (tcp_write h bytes); mret () | Err _ => mret () end) w) /\
    exists m s'', serve default_handler bytes s' = Done (Ok m, s'') /\ should_send_back m = false /\
      registered_rc s'' = registered_rc s /\ live (world s'') = live (world s).
Proof.
  intros Hok Hreg Hans. destruct (reg_rc_req_spec base raw s Hok) as (r & s1 & Hrun & Hr).
  rewrite Hreg in Hrun. injection Hrun as <- <-. destruct (from_json raw) as [data|e]; [|by destruct Hr].
  destruct Hr as [(Hok' & _ & _ & answer' & key & qp & Hans' & Hkey & Hrc & Hd & Hl & Ha & _) _].
  assert (d_rc_key answer = key) as -> by (rewrite Hans in Hans'; injection Hans' as ->; by rewrite Ha).
  destruct (to_json_total key) as (text & Hto & Hfrom).
  destruct (to_json_total (mkMessage DeregRCReq text)) as (bytes & Hb & Hfb). exists bytes. split.
  - intros w. cbn [release_peer comm_peer]. unfold dereg. cbn [comm_qp_type comm_addr comm_key].
    rewrite Hto, Hb. done.
  - assert (Hq : registered_rc s' !! key = Some qp) by by rewrite Hrc, lookup_insert_eq.
    destruct (registry_remove base s' key qp Hok' Hq) as (w' & Hdrop & Hl' & _).
    eexists _, _. split; [|split; [|split; [|]]].
    + unfold serve. rewrite Hfb, try_as_bind, bind_ret. cbn [map_err].
      unfold dispatch. cbn [message_type serialized]. cbn [handle_dereg_rc_req default_handler].
      unfold dereg_rc_req. rewrite Hfrom, bind_run, try_as_bind, bind_ret. cbn [map_err].
      unfold remove_rc. rewrite bind_assoc, bind_gets. unfold find_rc. rewrite Hq, bind_assoc, bind_run.
      cbn [drop_rc].
      rewrite (bind_done _ _ _ _ _ (onW_done _ (set_rc (delete key (registered_rc s')) s') _ _ Hdrop)). done.
    + done.
    + cbn. by rewrite Hrc, delete_insert_id.
    + cbn. rewrite Hl', Hl. clear -Hd. set_solver.
Qed.

End theorems.

(** ** Two machines *)
Section pair.
Import Client Server.
Context {Wc Ws : Type} `{!Cfg, !ArcHeap}.
Context `{!DeviceOps Wc, !QueueOps Wc, !DataOps Wc, !Tcp Wc, !VerbsLaws Wc, !PortLaws Wc, !TcpLaws Wc}.
Context `{!DeviceOps Ws, !QueueOps Ws, !DataOps Ws, !Tcp Ws, !VerbsLaws Ws, !PortLaws Ws, !TcpLaws Ws}.
Context `{!Serde CMMessage, !Serde RCConnectionData, !Serde Z, !Serde MRInfos}.
Context `{!SerdeLaws CMMessage, !SerdeLaws RCConnectionData, !SerdeLaws Z}.


End pair.

(** ** A concrete pair of machines

    Two simulated drivers, a text format for any countable type, a server without
    connections of its own and a client whose network asks that server. *)
Module Sample.
Import Client Server.

Fixpoint digits (fuel : nat) (z : Z) : json :=
  match fuel with
  | O => []
  | S fuel => if z =? 0 then [] else z mod 256 :: digits fuel (z / 256)
  end.
Definition undigits (l : json) : Z := foldr (fun d acc => d + 256 * acc) 0 l.

Lemma undigits_digits fuel z : 0 <= z < 2 ^ Z.of_nat fuel -> undigits (digits fuel z) = z.
Proof.
  revert z. induction fuel as [|fuel IH]; intros z Hz; [cbn in *; lia|]. cbn [digits].
  destruct (Z.eqb_spec z 0) as [->|Hne]; [done|]. cbn [undigits foldr].
  change (foldr _ 0 (digits fuel (z / 256))) with (undigits (digits fuel (z / 256))).
  rewrite IH; [pose proof (Z.div_mod z 256); lia|]. rewrite Nat2Z.inj_succ, Z.pow_succ_r in Hz by lia.
  split; [apply Z.div_pos; lia|]. apply Z.div_lt_upper_bound; lia.
Qed.

Lemma size_bound p : Zpos p < 2 ^ Z.of_nat (Pos.size_nat p).
Proof.
  induction p as [p IH|p IH|]; cbn [Pos.size_nat]; [| |done];
    rewrite Nat2Z.inj_succ, Z.pow_succ_r by lia; lia.
Qed.

#[local] Instance text_format {T} `{Countable T} : Serde T := {|
  to_json x := Ok (digits (Pos.size_nat (encode x)) (Zpos (encode x)));
  from_json l := match undigits l with
                 | Zpos p => match decode p with Some x => Ok x | None => Err () end
                 | _ => Err ()
                 end
|}.
#[local] Instance text_format_laws {T} `{Countable T} : SerdeLaws T.
Proof.
  constructor. intros x. eexists. split; [done|]. cbn. rewrite undigits_digits; [by rewrite decode_encode|].
  split; [lia|apply size_bound].
Qed.

#[local] Instance message_type_countable : Countable CMMessageType.
Proof.
  refine (inj_countable'
    (fun t => match t with RegRCReq => 0 | DeregRCReq => 1 | QueryMRReq => 2 | RegRCRes => 3 | QueryMRRes => 4
              | MsgError => 5 | NeverSend => 6 | UserSlotA => 7 | UserSlotB => 8 | UserSlotC => 9
              | UserSlotD => 10 | UserSlotE => 11 | UserSlotF => 12 end)
    (fun z => match z with 0 => RegRCReq | 1 => DeregRCReq | 2 => QueryMRReq | 3 => RegRCRes | 4 => QueryMRRes
              | 5 => MsgError | 6 => NeverSend | 7 => UserSlotA | 8 => UserSlotB | 9 => UserSlotC
              | 10 => UserSlotD | 11 => UserSlotE | _ => UserSlotF end) _).
  by intros [].
Defined.
#[local] Instance message_eq_dec : EqDecision CMMessage.
Proof. solve_decision. Defined.
#[local] Instance message_countable : Countable CMMessage.
Proof.
  refine (inj_countable' (fun m => (message_type m, serialized m)) (fun '(t, x) => mkMessage t x) _).
  by intros [].
Defined.
#[local] Instance data_eq_dec : EqDecision RCConnectionData.
Proof. solve_decision. Defined.
#[local] Instance data_countable : Countable RCConnectionData.
Proof.
  refine (inj_countable'
    (fun d => (d_lid d, d_gid d, d_qpn d, d_starting_psn d, d_rnr_retry_count d, d_rc_key d))
    (fun '(a, b, c, d, e, f) => mkData a b c d e f) _).
  by intros [].
Defined.
#[local] Instance mrinfo_eq_dec : EqDecision MRInfo.
Proof. solve_decision. Defined.
#[local] Instance mrinfo_countable : Countable MRInfo.
Proof.
  refine (inj_countable' (fun m => (mri_addr m, mri_capacity m, mri_rkey m)) (fun '(a, b, c) => mkMRInfo a b c) _).
  by intros [].
Defined.
#[local] Instance mrinfos_format : Serde MRInfos := @text_format (gmap string MRInfo) _ _.

#[local] Instance heap : ArcHeap := {| arc_addr X := fresh X; arc_addr_fresh X := is_fresh X |}.

#[local] Existing Instance user_cfg.

(** The server's machine is not connected to anything else. *)
#[local] Instance server_tcp : Tcp sim := {|
  tcp_connect _ s := (Err (), s); tcp_write _ _ s := (Err (), s); tcp_read _ _ s := (Ok [], s)
|}.
#[local] Instance server_tcp_laws : TcpLaws sim.
Proof. by split; intros; cbn in *; simplify_eq; apply quiet_refl. Defined.

Definition sample_server : server sim := Server.new sample_context 1 sim_init.

(** What that server answers to the bytes of one request. *)
Definition answer_of (b : json) : json :=
  match serve default_handler b sample_server with
  | Done (Ok msg, _) => match to_json msg with Ok rep => rep | Err _ => [] end
  | _ => []
  end.

Definition with_mail (b : json) (s : sim) : sim :=
  mkSim (s_live s) (s_qps s) (s_faults s) (s_sent s) (s_received s) (s_mem s) b (s_cm s) (s_wcs s) (s_links s).
Definition client_tcp : Tcp sim := {|
  tcp_connect _ s := (Ok 0, s);
  tcp_write _ b s := (Ok (Z.of_nat (length b)), with_mail b s);
  tcp_read _ _ s := (Ok (answer_of (s_mail s)), s)
|}.
Definition client_tcp_laws : @TcpLaws sim _ _ client_tcp.
Proof. by split; intros; cbn in *; simplify_eq; split_and!. Defined.

Definition client_qp : Builder.PreparedQueuePair CommStruct :=
  built sample_builder 3
    (CompletionQueue.mkCQ (Builder.ctx sample_builder) 1)
    (CompletionQueue.mkCQ (Builder.ctx sample_builder) 2) RC None.
Definition client_world : sim := set_qps {[3 := reset_info sample_init]} sim_init.

Lemma sample_registry : registry_ok ∅ sample_server.
Proof.
  constructor; cbn; try done. intros r. split; [set_solver|]. by intros [?%elem_of_empty|(? & ? & ? & _)].
Qed.

Lemma sample_replies : @replies sim client_tcp 5 (reply_of sample_server).
Proof.
  intros w. exists 0, w. split; [done|]. intros b w2. eexists _, _. split; [done|].
  intros rep (msg & s' & Hserve & _ & Hrep & _). eexists. cbn. unfold answer_of. rewrite Hserve.
  unfold serialization in Hrep. cbn [to_json text_format] in Hrep |- *. by injection Hrep as <-.
Qed.

End Sample.

Section witnesses.
Import Client Server Sample.
#[local] Existing Instances user_cfg text_format text_format_laws message_type_countable message_countable
  data_countable mrinfos_format heap server_tcp server_tcp_laws.

Lemma client_handshake_safe_witness :
  exists r w', handshake (Tcp0 := client_tcp) client_qp 5 client_world = Done (r, w') /\
    (forall q', q' <> 3 -> qp_view w' q' = qp_view client_world q') /\
    match r with
    | Err _ => live w' = live client_world ∖ owned (Builder.inner client_qp)
    | Ok qp' => live w' = live client_world /\ QueuePair.mode (Builder.inner client_qp) = RC /\
        exists key data, qp' = QueuePair.with_comm (mkComm RC 5 key) (Builder.inner client_qp) /\ key = d_rc_key data /\
          qp_view w' 3 = Some (mkQpInfo sample_init
            (rc_ready (Builder.inner client_qp) (d_lid data) (gid_into (d_gid data)) (d_qpn data)
               (d_starting_psn data) (Verbs.qp_num w' 3) default_qp_attr))
    end.
Proof.
  apply (client_handshake_safe (Tcp0 := client_tcp) (TcpLaws0 := client_tcp_laws)
    client_qp 5 client_world (reset_info sample_init)); try reflexivity.
  apply alone_exclusive.
Defined.


(** In this instance both messages fit: the handshake succeeds. *)
Example sample_handshake :
  match handshake (Tcp0 := client_tcp) client_qp 5 client_world with
  | Done (Ok qp, w) => (QueuePair.comm qp, qp_state <$> (qi_attr <$> qp_view w 3)) =
                       (Some (mkComm RC 5 (fresh (∅ : gset Z))), Some IB_QPS_RTS)
  | _ => False
  end.
Proof. by vm_compute. Qed.

(** A registration at that server, as one round. *)
Definition sample_request : json :=
  match to_json (mkData 7 (1, 2) 1003 1003 7 0) with Ok text => text | Err _ => [] end.
Definition sample_registered : CMMessage * server sim :=
  match reg_rc_req sample_request sample_server with
  | Done (Ok msg, s') => (msg, s')
  | _ => (error_message, sample_server)
  end.
Definition sample_answer : RCConnectionData :=
  match from_json (serialized sample_registered.1) with Ok d => d | Err _ => mkData 0 (0, 0) 0 0 0 0 end.

Lemma register_dereg_roundtrip_witness :
  exists bytes,
    (forall w : sim, release_peer (mkComm RC 5 (d_rc_key sample_answer)) w =
       (r ← call (tcp_connect 5);
        match r with Ok h => _ ← call (tcp_write h bytes); mret () | Err _ => mret () end) w) /\
    exists m s'', serve default_handler bytes sample_registered.2 = Done (Ok m, s'') /\
      should_send_back m = false /\
      registered_rc s'' = registered_rc sample_server /\ live (world s'') = live (world sample_server).
Proof.
  apply (register_dereg_roundtrip sample_server sample_registered.2 ∅ sample_request sample_registered.1
    sample_answer 5).
  - apply sample_registry.
  - by vm_compute.
  - by vm_compute.
Defined.

(** A server whose connections both ask for a registration. *)
Definition asking_bytes : json :=
  match to_json (mkMessage RegRCReq sample_request) with Ok b => b | Err _ => [] end.
Definition asking_tcp : Tcp sim := {|
  tcp_connect _ s := (Err (), s); tcp_write _ _ s := (Ok 0, s); tcp_read _ _ s := (Ok asking_bytes, s)
|}.
Definition asking_tcp_laws : @TcpLaws sim _ _ asking_tcp.
Proof. by split; intros; cbn in *; simplify_eq; apply quiet_refl. Defined.

Lemma server_never_leaks_witness :
  server_balance sim_init (turns (Tcp0 := asking_tcp) [0; 1] (Server.new sample_context 1 sim_init)).
Proof.
  exact (server_never_leaks (Tcp0 := asking_tcp) (TcpLaws0 := asking_tcp_laws) [0; 1] sample_context 1 sim_init).
Defined.

(** In that run two queue pairs are registered. *)
Example two_registered :
  match turns (Tcp0 := asking_tcp) [0; 1] (Server.new sample_context 1 sim_init) with
  | Done (_, s') => size (registered_rc s') = 2%nat
  | Panic => False
  end.
Proof. by vm_compute. Qed.

End witnesses.
