(* ===== verification/Listener.v ===== *)
(** * The listener of the user-space connection manager

    src/KRdmaKit/src/services_user/mod.rs: [ConnectionManagerServer] with
    [spawn_listener], [blocking_listener], [listener_inner] and [stop_listening], over
    the connections of UserCM.v.

    The listener and the tasks of the connections share the one thread of a runtime, so
    that they take turns; [stop_listening] is a store by another thread. What happens is
    a list of events: an iteration of the loop with what the accept gave within its
    millisecond, a turn of a task, and the store. *)

From S2P Require Import Prelude Errors Verbs Sim Context MemoryRegion CompletionQueue QueuePair BringUp Registry UserCM.
Import Client Server.

#[local] Open Scope Z_scope.

(** An error of the sockets. *)
Abbreviation io_error := unit.

(** [Returned] is the result of [block_on]; the runtime is dropped with it. *)
Inductive status : Set := Listening | Returned (r : Result io_error unit).

(** [running] is the flag behind the pointer; [tasks] the sockets of the tasks. *)
Record listener (S : Type) := mkListener { running : bool; state : status; tasks : list Z; handler : S }.
Arguments mkListener {S}.
Arguments running {S}.
Arguments state {S}.
Arguments tasks {S}.
Arguments handler {S}.

Inductive event : Set :=
| Iteration (accepted : option (Result io_error Z))   (* [None]: the timeout *)
| TaskTurn (stream : Z)
| Stop.

Section listener.
Context {W : Type} `{!Cfg, !DeviceOps W, !QueueOps W, !DataOps W, !Tcp W, !ArcHeap}.
Context `{!Serde CMMessage, !Serde RCConnectionData, !Serde Z, !Serde MRInfos}.
Abbreviation L := (listener (server W)).

Definition new_server (s : server W) : L := mkListener true Listening [] s.
Definition set_state (st : status) (ts : list Z) (l : L) : L := mkListener (running l) st ts (handler l).
Definition set_handler (s : server W) (ts : list Z) (l : L) : L := mkListener (running l) (state l) ts s.

(** The end of [listener_inner]: the runtime is dropped, and its tasks with it. *)
Definition returns (r : Result io_error unit) (l : L) : L := set_state (Returned r) [] l.

(** [listener_inner] up to its loop: the bind. *)
Definition listener_inner (bind : Result io_error unit) (l : L) : L :=
  match bind with Err e => returns (Err e) l | Ok _ => l end.

(** One iteration: the flag is read first. *)
Definition iteration (accepted : option (Result io_error Z)) (l : L) : L :=
  if running l then
    match accepted with
    | None => l
    | Some (Err e) => returns (Err e) l
    | Some (Ok stream) => set_state (state l) (tasks l ++ [stream]) l
    end
  else returns (Ok ()) l.

(** A turn of a task. A panic, which the runtime catches, comes from a handler that is
    not implemented, when all the turn did was to read. *)
Definition task_turn (stream : Z) (l : L) : L :=
  if decide (stream ∈ tasks l) then
    let rest := filter (fun t => t <> stream) (tasks l) in
    match service_turn default_handler stream (handler l) with
    | Done (None, s) => set_handler s (tasks l) l
    | Done (Some _, s) => set_handler s rest l
    | Panic =>
        match Server.onW (call (tcp_read stream READ_BUF)) (handler l) with
        | Done (_, s) => set_handler s rest l
        | Panic => l
        end
    end
  else l.

Definition stop_listening (l : L) : L := mkListener false (state l) (tasks l) (handler l).

(** After the return only the store is left. *)
Definition happens (l : L) (e : event) : L :=
  match e, state l with
  | Stop, _ => stop_listening l
  | Iteration a, Listening => iteration a l
  | TaskTurn t, Listening => task_turn t l
  | _, Returned _ => l
  end.
Definition listens (bind : Result io_error unit) (evs : list event) (l : L) : L := foldl happens (listener_inner bind l) evs.

(** ** What a listener keeps *)
Context `{!VerbsLaws W, !PortLaws W, !TcpLaws W}.
Context `{!SerdeLaws CMMessage, !SerdeLaws RCConnectionData}.

Lemma task_turn_ok base stream l : registry_ok base (handler l) -> registry_ok base (handler (task_turn stream l)).
Proof.
  intros Hok. unfold task_turn. destruct (decide _); [|done].
  destruct (service_turn_spec base stream (handler l) Hok) as [(b & m & _ & _ & ->)|(r & s & -> & Hok' & _)]; [|by destruct r].
  unfold Server.onW, call. destruct (tcp_read stream READ_BUF (world (handler l))) as [r w] eqn:E. apply tcp_read_law in E as (Hl & Hs & _).
  by apply registry_quiet.
Qed.

Lemma happens_ok base e l : registry_ok base (handler l) -> registry_ok base (handler (happens l e)).
Proof.
  intros Hok. destruct e as [a|t|]; cbn; [| |done]; destruct (state l); try done; [|by apply task_turn_ok].
  unfold iteration. destruct (running l); [|done]. by destruct a as [[]|].
Qed.

Lemma foldl_happens_ok base evs l : registry_ok base (handler l) -> registry_ok base (handler (foldl happens l evs)).
Proof. revert l. induction evs as [|e evs IH]; intros l Hok; cbn; [done|]. by apply IH, happens_ok. Qed.

(** Tasks only while it listens. *)
Definition no_tasks_after (l : L) : Prop := forall r, state l = Returned r -> tasks l = [].
Lemma happens_tasks e l : no_tasks_after l -> no_tasks_after (happens l e).
Proof.
  intros Hna. destruct e as [a|t|]; cbn; [| |exact Hna]; destruct (state l) eqn:E; try done.
  - unfold iteration. destruct (running l); [|done]. destruct a as [[]|]; cbn; try done. intros r Hr. cbn in Hr. congruence.
  - unfold task_turn. destruct (decide _); [|done]. intros r.
    destruct (service_turn _ _ _) as [[[]]|]; [by cbn; rewrite E..|]. destruct (Server.onW _ _) as [[]|]; [by cbn; rewrite E|by rewrite E].
Qed.

Lemma foldl_happens_tasks evs l : no_tasks_after l -> no_tasks_after (foldl happens l evs).
Proof. revert l. induction evs as [|e evs IH]; intros l Hna; cbn; [done|]. by apply IH, happens_tasks. Qed.

Lemma foldl_returned evs l r : state l = Returned r -> handler (foldl happens l evs) = handler l /\ state (foldl happens l evs) = Returned r /\ tasks (foldl happens l evs) = tasks l.
Proof.
  revert l. induction evs as [|e evs IH]; intros l Hna; cbn; [done|].
  assert (Hs : handler (happens l e) = handler l /\ state (happens l e) = Returned r /\ tasks (happens l e) = tasks l)
    by (destruct e; cbn; rewrite ?Hna; done). destruct Hs as (E1 & E2 & E3). destruct (IH _ E2) as (-> & -> & ->). done.
Qed.

Lemma stopped_flag evs l : running l = false -> running (foldl happens l evs) = false.
Proof.
  revert l. induction evs as [|e evs IH]; intros l Hf; cbn; [done|]. apply IH. destruct e as [a|t|]; cbn; [| |done]; destruct (state l); try done.
  - unfold iteration. by rewrite Hf.
  - unfold task_turn. destruct (decide _); [|done]. destruct (service_turn _ _ _) as [[[]]|]; [done..|]. by destruct (Server.onW _ _) as [[]|].
Qed.

Lemma new_registry c port (w : W) : registry_ok (live w) (new c port w).
Proof. constructor; cbn; try done. intros r. split; [by left|]. by intros [|(? & ? & ? & _)]. Qed.

End listener.

(** Two connections that each ask for a queue pair; the second is stopped before its
    turn, so that one is registered. *)
Section witness.
Import UserCM.Sample.
#[local] Existing Instances user_cfg text_format text_format_laws message_type_countable message_countable
  data_countable mrinfos_format heap.

Definition sample_events : list event :=
  [Iteration (Some (Ok 0)); TaskTurn 0; Iteration None; Iteration (Some (Ok 1)); Stop; Iteration None; TaskTurn 1].

End witness.
