(* ===== verification/Stable.v ===== *)
(** * What the verbs calls leave alone

    The library's code calls the driver through the operations of [Verbs].  A
    relation between worlds that every such call respects ([Stable]) is then
    respected by all the code that is built from them, here by the control path
    of reliable connections and by the queries and address handles the kernel
    services use.  The connection manager uses it for the state of its own
    objects. *)

From S2P Require Import Prelude Errors Verbs Context CompletionQueue QueuePair BringUp Endpoint.

Create HintDb preserves.

Section preserves.
Context {W : Type} (R : W -> W -> Prop) `{!PreOrder R}.

Definition preserves {A} (m : M W A) : Prop := forall w a w', m w = Done (a, w') -> R w w'.

Lemma pres_ret {A} (a : A) : preserves (mret a).
Proof. intros w b w' [= <- <-]. reflexivity. Qed.

Lemma pres_gets {A} (f : W -> A) : preserves (gets f).
Proof. intros w b w' [= <- <-]. reflexivity. Qed.

Lemma pres_panic {A} : preserves (panic : M W A).
Proof. by intros w b w'. Qed.

Lemma pres_lift {A} (o : outcome A) : preserves (lift o).
Proof. intros w b w'. unfold lift. destruct o; [|done]. intros [= <- <-]. reflexivity. Qed.

Lemma pres_call {A} (f : W -> A * W) : (forall w a w', f w = (a, w') -> R w w') -> preserves (call f).
Proof. intros Hf w a w' Hc. unfold call in Hc. apply (Hf w a). congruence. Qed.

Lemma pres_bind {A B} (m : M W A) (k : A -> M W B) :
  preserves m -> (forall a, preserves (k a)) -> preserves (m ≫= k).
Proof.
  intros Hm Hk w b w' (a & w1 & H1 & H2)%bind_done_inv. etransitivity; [by eapply Hm|by eapply Hk].
Qed.

Lemma pres_bind_lift {A B} (o : outcome A) (k : A -> M W B) :
  (forall a, o = Done a -> preserves (k a)) -> preserves (lift o ≫= k).
Proof.
  intros Hk w b w' (a & w1 & H1 & H2)%bind_done_inv. unfold lift in H1. destruct o; [|done].
  injection H1 as -> <-. by eapply Hk.
Qed.

Lemma pres_try {E A B} (m : M W (Result E A)) (k : A -> M W (Result E B)) :
  preserves m -> (forall a, preserves (k a)) -> preserves (try_bind m k).
Proof. intros Hm Hk. apply pres_bind; [done|]. intros [a|e]; [done|apply pres_ret]. Qed.

Lemma pres_map_err {E F A} (f : E -> F) (m : M W (Result E A)) :
  preserves m -> preserves (map_errM f m).
Proof. intros Hm. apply pres_bind; [done|]. intros r. apply pres_ret. Qed.

Lemma pres_try_or {E A B} (m : M W (Result E A)) cleanup (k : A -> M W (Result E B)) :
  preserves m -> preserves cleanup -> (forall a, preserves (k a)) -> preserves (Builder.try_or m cleanup k).
Proof.
  intros Hm Hc Hk. apply pres_bind; [done|]. intros [a|e]; [done|].
  apply pres_bind; [done|]. intros _. apply pres_ret.
Qed.

End preserves.

(** Splits a computation into its calls, which the hints know. *)
Ltac preserve :=
  repeat first
    [ solve [eauto with preserves typeclass_instances nocore]
    | lazymatch goal with
      | |- preserves _ (mret _) => apply pres_ret; exact _
      | |- preserves _ (gets _) => apply pres_gets; exact _
      | |- preserves _ panic => apply pres_panic
      | |- preserves _ (lift _) => apply pres_lift; exact _
      | |- preserves _ (Builder.try_or _ _ _) => apply pres_try_or; [exact _| | |intros ?]
      | |- preserves _ (try_bind _ _) => apply pres_try; [exact _| |intros ?]
      | |- preserves _ (map_errM _ _) => apply pres_map_err; [exact _|]
      | |- preserves _ (mbind _ _) => apply pres_bind; [exact _| |intros ?]
      | |- preserves _ (match ?x with _ => _ end) => destruct x
      | |- preserves _ (let _ := _ in _) => cbv zeta
      end ].

Class Stable {W : Type} `{!DeviceOps W, !QueueOps W} (R : W -> W -> Prop) := {
  stable_preorder :: PreOrder R;
  stable_create_cq dev n : preserves R (call (ib_create_cq dev n));
  stable_free_cq p : preserves R (call (ib_free_cq p));
  stable_destroy_srq p : preserves R (call (ib_destroy_srq p));
  stable_create_qp pd init : preserves R (call (ib_create_qp pd init));
  stable_destroy_qp p : preserves R (call (ib_destroy_qp p));
  stable_query_qp p : preserves R (call (ib_query_qp p));
  stable_modify_qp p a m : preserves R (call (ib_modify_qp p a m));
  stable_query_port c p : preserves R (call (ib_query_port c p));
  stable_query_gid c p i : preserves R (call (ib_query_gid c p i));
  stable_create_ah pd a : preserves R (call (rdma_create_ah pd a));
  stable_destroy_ah p : preserves R (call (rdma_destroy_ah p))
}.
#[export] Hint Resolve stable_create_cq stable_free_cq stable_destroy_srq stable_create_qp
  stable_destroy_qp stable_query_qp stable_modify_qp stable_query_port stable_query_gid
  stable_create_ah stable_destroy_ah : preserves.

Section stable.
Context {W C : Type} `{!Cfg, !DeviceOps W, !QueueOps W, !DataOps W, !Peer W C} (R : W -> W -> Prop).
Context `{!Stable R}.

Lemma stable_cq_create c n : preserves R (CompletionQueue.create c n).
Proof. unfold CompletionQueue.create. preserve. Qed.

Lemma stable_cq_drop q : preserves R (CompletionQueue.drop q).
Proof. unfold CompletionQueue.drop. preserve. Qed.

Lemma stable_srq_drop q : preserves R (SharedReceiveQueue.drop q).
Proof. unfold SharedReceiveQueue.drop. preserve. Qed.
#[local] Hint Resolve stable_cq_create stable_cq_drop stable_srq_drop : preserves.

Lemma stable_drop_queues (qp : QueuePair.QueuePair C) : preserves R (drop_queues qp).
Proof. unfold drop_queues. preserve. Qed.

Lemma stable_qp_drop (qp : QueuePair.QueuePair C) :
  QueuePair.comm qp = None -> preserves R (QueuePair.drop qp).
Proof. intros Hc. unfold QueuePair.drop. rewrite Hc. preserve. Qed.

Lemma stable_status (qp : QueuePair.QueuePair C) : preserves R (QueuePair.status qp).
Proof. unfold QueuePair.status. preserve. Qed.

Lemma stable_modify q a m what : preserves R (modify q a m what).
Proof. unfold modify. preserve. Qed.
#[local] Hint Resolve stable_status stable_modify : preserves.

Lemma stable_bring_up (qp : QueuePair.QueuePair C) lid gid qpn psn :
  preserves R (bring_up_rc_inner qp lid gid qpn psn).
Proof.
  unfold bring_up_rc_inner, bring_up_rc_inner_kernel, bring_up_rc_inner_user, QueuePair.qp_num.
  preserve.
Qed.

Lemma stable_port_attr d p : preserves R (Device.get_port_attr d p).
Proof. unfold Device.get_port_attr. preserve. Qed.

Lemma stable_gid d p i : preserves R (Device.query_gid d p i).
Proof. unfold Device.query_gid. preserve. Qed.

Lemma stable_endpoint c p lid gid qpn qkey n k : preserves R (Endpoint.new c p lid gid qpn qkey n k).
Proof. unfold Endpoint.new, Context.create_address_handler. cbv zeta. preserve. Qed.

Lemma stable_ah_drop a : preserves R (Context.drop_address_handler a).
Proof. unfold Context.drop_address_handler. preserve. Qed.

(** The drop of a queue pair on an error of its bring-up. *)
Lemma stable_bring_up_rc pq lid gid qpn psn :
  QueuePair.comm (Builder.inner pq) = None -> preserves R (bring_up_rc (C := C) pq lid gid qpn psn).
Proof.
  intros Hc. unfold bring_up_rc. apply pres_try_or; [exact _|apply stable_bring_up| |intros ?; preserve].
  by apply stable_qp_drop.
Qed.

Lemma stable_build_rc b : preserves R (Builder.build_rc (C := C) b).
Proof. unfold Builder.build_rc, Builder.build_inner, Builder.drop_srq. cbv zeta. preserve. Qed.

End stable.
#[export] Hint Resolve stable_cq_create stable_cq_drop stable_drop_queues stable_status stable_modify
  stable_bring_up stable_port_attr stable_gid stable_endpoint stable_ah_drop stable_build_rc : preserves.
