(* ===== verification/CommManager.v ===== *)
(** * The connection manager of the kernel build

    src/KRdmaKit/src/comm_manager: [CMWrapper] with its lifetime and the event
    handler [cm_handler] (mod.rs), the senders (send.rs, client.rs), the listening
    [CMServer] (server.rs) and the path [Explorer] (explorer.rs), with the
    [completion] they wait on (rust-kernel-linux-util/src/bindings.rs under
    src/rust-kernel-rdma).

    An object that handles events is a value [X] beside the world [W]: its
    callbacks run in [M (W * X)].  An access to an identifier the connection
    manager has freed is undefined behaviour in the source; here it is [Panic]. *)

From S2P Require Import Guid Prelude Bytes Errors Verbs CmVerbs Sim Context CompletionQueue QueuePair BringUp Stable.

(** ** Private data

    The structures are sent as they are in memory. *)
Class Wire (T : Type) := { to_bytes : T -> list Z; of_bytes : list Z -> T }.

(** [usize] and [u64]; the handlers read the first eight bytes. *)
#[export] Instance wire_u64 : Wire Z := {| to_bytes := le 8; of_bytes := word_at 0 8 |}.

(** [to_string] of an unsigned number of at most 64 bits: its decimal digits. *)
Fixpoint decimal (fuel : nat) (z : Z) : list Z :=
  match fuel with
  | O => []
  | S fuel => if z <? 10 then [48 + z] else decimal fuel (z / 10) ++ [48 + z mod 10]
  end.
Definition to_string (z : Z) : list Z := decimal 20 z.

(** ** Completions *)
Record completion := mkCompletion { done_count : Z }.

Definition completion_init : completion := mkCompletion 0.
(** [complete]: the counter stops at the maximum of its type. *)
Definition completion_done (c : completion) : completion :=
  mkCompletion (if done_count c =? 2 ^ 32 - 1 then done_count c else done_count c + 1).

(** [wait]: a signal that arrives first ends it with a negative value; it is 0
    when the time is over. *)
Definition completion_wait (signal : Z) (c : completion) : Result Error unit * completion :=
  let ret := if signal <? 0 then signal else if 0 <? done_count c then 1 else 0 in
  if ret =? 0 then (Err (from_kernel_errno 0), c)
  else if ret <? 0 then (Err (from_kernel_errno (i32 ret)), c)
  else (Ok (), mkCompletion (if done_count c =? 2 ^ 32 - 1 then done_count c else done_count c - 1)).

(** [CMCallbacker]: the handlers, which by default accept the event. *)
Record CMCallbacker (S : Type) := mkCallbacker {
  handle_req : ptr -> ib_cm_event -> M S (Result CMError unit);
  handle_rep : ptr -> ib_cm_event -> M S (Result CMError unit);
  handle_rtu : ptr -> ib_cm_event -> M S (Result CMError unit);
  handle_rej : ptr -> ib_cm_event -> M S (Result CMError unit);
  handle_dreq : ptr -> ib_cm_event -> M S (Result CMError unit);
  handle_sidr_req : ptr -> ib_cm_event -> M S (Result CMError unit);
  handle_sidr_rep : ptr -> ib_cm_event -> M S (Result CMError unit) }.
Arguments mkCallbacker {S}.
Arguments handle_req {S}.
Arguments handle_rep {S}.
Arguments handle_rtu {S}.
Arguments handle_rej {S}.
Arguments handle_dreq {S}.
Arguments handle_sidr_req {S}.
Arguments handle_sidr_rep {S}.

Definition accept {S} (reply_cm : ptr) (ev : ib_cm_event) : M S (Result CMError unit) := mret (Ok ()).

Module CMWrapper.
Section wrapper.
Context {W : Type} `{!CmOps W}.

Record CMWrapper := mkWrapper { dev : ptr; inner : ptr; callbacker : ptr }.

(** Reads and writes of the field [context] of an identifier. *)
Definition context (cm : ptr) : M W ptr := fun w =>
  match cm_context w cm with Some c => Done (c, w) | None => Panic end.
Definition set_context (cm c : ptr) : M W unit :=
  _ ← context cm; call (cm_set_context cm c).

Definition create_raw_cm_id (dev ctx : ptr) : M W (Result CMError ptr) :=
  cm ← call (ib_create_cm_id dev ctx);
  mret (if negb (is_null cm) then Ok cm else Err (Creation 0)).

Definition new (dev ctx cm_ptr : ptr) : option CMWrapper :=
  if is_null cm_ptr then None else Some (mkWrapper dev cm_ptr ctx).

Definition new_from_callbacker (dev callbacker : ptr) : M W (Result CMError CMWrapper) :=
  cm_id ←? create_raw_cm_id dev callbacker;
  if is_null cm_id then mret (Err (Creation 0)) else mret (Ok (mkWrapper dev cm_id callbacker)).

Definition cm_is_destroyed (self : CMWrapper) : M W bool :=
  c ← context (inner self); mret (is_null c).

Definition explicit_drop (self : CMWrapper) : M W unit :=
  destroyed ← cm_is_destroyed self;
  if negb destroyed then
    _ ← set_context (inner self) null;
    call (ib_destroy_cm_id (inner self))
  else mret ().

(** One message with its error report. *)
Definition send (cm : ptr) (m : cm_mad) (what : string) : M W (Result CMError unit) :=
  err ← call (ib_send_cm cm m);
  mret (if negb (err =? 0) then Err (SendError what (from_kernel_errno err)) else Ok ()).

(** The private data replaces what the caller left in the parameters. *)
Definition req_with {T} `{!Wire T} (pri : T) (r : ib_cm_req_param) : ib_cm_req_param :=
  mkReq (req_primary_path r) (req_service_id r) (req_qp_num r) (req_qp_type r) (req_starting_psn r)
    (to_bytes pri) (u8 (Z.of_nat (length (to_bytes pri)))) (req_responder_resources r)
    (req_initiator_depth r) (req_remote_cm_response_timeout r) (req_flow_control r)
    (req_local_cm_response_timeout r) (req_retry_count r) (req_rnr_retry_count r)
    (req_max_cm_retries r).
Definition rep_with {T} `{!Wire T} (pri : T) (r : ib_cm_rep_param) : ib_cm_rep_param :=
  mkRep (rep_qp_num r) (rep_starting_psn r) (to_bytes pri) (u8 (Z.of_nat (length (to_bytes pri))))
    (rep_responder_resources r) (rep_initiator_depth r) (rep_flow_control r) (rep_rnr_retry_count r).
Definition sidr_req_with {T} `{!Wire T} (pri : T) (r : ib_cm_sidr_req_param) : ib_cm_sidr_req_param :=
  mkSidrReq (sreq_path r) (sreq_service_id r) (sreq_timeout_ms r) (to_bytes pri)
    (u8 (Z.of_nat (length (to_bytes pri)))) (sreq_max_cm_retries r).
Definition sidr_rep_with {T} `{!Wire T} (info : T) (r : ib_cm_sidr_rep_param) : ib_cm_sidr_rep_param :=
  mkSidrRep (srep_qp_num r) (srep_qkey r) (srep_status r) (to_bytes info)
    (u8 (Z.of_nat (length (to_bytes info)))).

Definition send_reply {T} `{!Wire T} (self : CMWrapper) (rep : ib_cm_rep_param) (pri : T) :=
  send (inner self) (MRep (rep_with pri rep)) "Send reply".
Definition send_req {T} `{!Wire T} (self : CMWrapper) (req : ib_cm_req_param) (pri : T) :=
  send (inner self) (MReq (req_with pri req)) "Send request".
Definition send_sidr {T} `{!Wire T} (self : CMWrapper) (req : ib_cm_sidr_req_param) (pri : T) :=
  send (inner self) (MSidrReq (sidr_req_with pri req)) "Send SIDR".

End wrapper.
End CMWrapper.

(** The temporary wrapper a handler replies with is the pointer itself. *)
Module CMReplyer.
Section replyer.
Context {W : Type} `{!CmOps W}.
Import CMWrapper.

Definition send_sidr_reply {T} `{!Wire T} (cm : ptr) (rep : ib_cm_sidr_rep_param) (info : T) :=
  send cm (MSidrRep (sidr_rep_with info rep)) "Send SIDR reply".
Definition send_reply {T} `{!Wire T} (cm : ptr) (rep : ib_cm_rep_param) (private_data : T) :=
  send cm (MRep (rep_with private_data rep)) "Send reply".
Definition send_reject {T} `{!Wire T} (cm : ptr) (private_data : T) :=
  send cm (MRej 0 (to_bytes private_data)) "Send reject".
(** The callers pass an [i32]. *)
Definition send_rtu (cm : ptr) (private_data : Z) := send cm (MRtu (le 4 private_data)) "Send rtu".

End replyer.
End CMReplyer.

Module CMSender.
Section sender.
Context {W : Type} `{!CmOps W}.

Record CMSender := mkSender { inner : CMWrapper.CMWrapper }.

Definition new (context dev : ptr) : M W (Result CMError CMSender) :=
  raw_cm ←? CMWrapper.create_raw_cm_id dev context;
  match CMWrapper.new dev context raw_cm with
  | Some cm => mret (Ok (mkSender cm))
  | None => panic
  end.

Definition send_sidr {T} `{!Wire T} (self : CMSender) (req : ib_cm_sidr_req_param) (pri : T) :=
  CMWrapper.send_sidr (inner self) req pri.
Definition drop (self : CMSender) : M W unit := CMWrapper.explicit_drop (inner self).

End sender.
End CMSender.

Module CMServer.
Section server.
Context {W : Type} `{!CmOps W}.

Record CMServer := mkServer { inner : CMWrapper.CMWrapper; listen_id : Z }.

Definition drop (self : CMServer) : M W unit := CMWrapper.explicit_drop (inner self).

(** When listening fails, [res] is dropped. *)
Definition new (listen_id : Z) (context dev : ptr) : M W (Result CMError CMServer) :=
  raw_cm ←? CMWrapper.create_raw_cm_id dev context;
  match CMWrapper.new dev context raw_cm with
  | None => panic
  | Some cm =>
      let res := mkServer cm listen_id in
      err ← call (ib_cm_listen raw_cm listen_id);
      if negb (err =? 0) then _ ← drop res; mret (Err (Creation err)) else mret (Ok res)
  end.

End server.
End CMServer.

(** ** The event handler *)
Section handler.
Context {W X : Type} `{!CmOps W}.

Definition event_code (t : ib_cm_event_type) : Z := match t with IB_CM_OTHER n => n | _ => 0 end.

Definition dispatch_event (cb : CMCallbacker (W * X)) (cm : ptr) (ev : ib_cm_event) :
  M (W * X) (Result CMError unit) :=
  match event ev with
  | IB_CM_REQ_RECEIVED => handle_req cb cm ev
  | IB_CM_REP_RECEIVED => handle_rep cb cm ev
  | IB_CM_REJ_RECEIVED => handle_rej cb cm ev
  | IB_CM_RTU_RECEIVED => handle_rtu cb cm ev
  | IB_CM_DREQ_RECEIVED => handle_dreq cb cm ev
  | IB_CM_SIDR_REQ_RECEIVED => handle_sidr_req cb cm ev
  | IB_CM_SIDR_REP_RECEIVED => handle_sidr_rep cb cm ev
  | t => mret (Err (CallbackError (event_code t)))
  end.

Definition cm_handler (cb : CMCallbacker (W * X)) (cm_id : ptr) (ev : ib_cm_event) : M (W * X) Z :=
  ctx ← onW (CMWrapper.context cm_id);
  if is_null ctx then mret 0
  else
    res ← dispatch_event cb cm_id ev;
    match res with
    | Err _ => _ ← onW (CMWrapper.set_context cm_id null); mret (-1)
    | Ok _ => mret 0
    end.

(** What ib_cm does with an event: it calls the handler, and frees the identifier
    if the handler returns a non-zero value.  The result says whether the
    identifier is still there. *)
Definition deliver (cb : CMCallbacker (W * X)) (cm : ptr) (ev : ib_cm_event) : M (W * X) bool :=
  ret ← cm_handler cb cm ev;
  if ret =? 0 then mret true else _ ← onW (call (ib_destroy_cm_id cm)); mret false.

Fixpoint deliver_all (cb : CMCallbacker (W * X)) (cm : ptr) (evs : list ib_cm_event) : M (W * X) bool :=
  match evs with
  | [] => mret true
  | ev :: evs =>
      alive ← deliver cb cm ev;
      if alive : bool then deliver_all cb cm evs else mret false
  end.

(** What happens while a thread waits: the events that arrive, and a signal that
    interrupts the wait if it is negative. *)
Record wait_env := mkWait { arrivals : list ib_cm_event; signal : Z }.

End handler.

(** ** The path explorer *)
Module Explorer.
Section explorer.
Context {W : Type} `{!Cfg, !DeviceOps W, !SaOps W}.

Record Explorer := mkExplorer {
  inner_dev : Device.Device; done : completion; result : option sa_path_rec }.

Definition EXPLORE_TIMEOUT_MS : Z := 5000.

Definition new (dev : Device.Device) : Explorer := mkExplorer dev completion_init None.

(** The callback of the query. *)
Definition explore_complete_handler (status : Z) (resp : sa_path_rec) (e : Explorer) : Explorer :=
  mkExplorer (inner_dev e) (completion_done (done e))
    (if negb (status =? 0) then None else Some resp).

(** [callback] is the answer of the subnet administrator, if one arrives in time;
    the client is unregistered by its drop on every path. *)
Definition resolve_inner (self : Explorer) (service_id source_port_id : Z) (dst_gid : ib_gid)
  (callback : option (Z * sa_path_rec)) (signal : Z) : M W (Result CMError sa_path_rec) :=
  let self := mkExplorer (inner_dev self) completion_init (result self) in
  sa_client ← call ib_sa_register_client;
  sgid ← Device.query_gid (inner_dev self) source_port_id 0;
  match sgid with
  | Err _ =>
      _ ← call (ib_sa_unregister_client sa_client);
      mret (Err (CMInvalidArg "Source port number" (to_string source_port_id)))
  | Ok sgid =>
      let path_request := mkPath dst_gid sgid 1 service_id [] in
      ret ← call (ib_sa_path_rec_get sa_client (Device.raw_ptr (inner_dev self)) source_port_id path_request
                    [path_rec_service_id; path_rec_dgid; path_rec_sgid; path_rec_numb_path]
                    EXPLORE_TIMEOUT_MS);
      if ret <? 0 then
        _ ← call (ib_sa_unregister_client sa_client);
        mret (Err (Creation ret))
      else
        let self := match callback with
                    | Some (status, resp) => explore_complete_handler status resp self
                    | None => self
                    end in
        let '(waited, _) := completion_wait signal (done self) in
        _ ← call (ib_sa_unregister_client sa_client);
        mret match waited with
             | Err e => Err (if to_kernel_errno e =? 0 then Timeout else Unknown)
             | Ok _ => ok_or Timeout (result self)
             end
  end.

(** The member [raw] of a GID and its two words. *)
Definition gid_of_raw (raw : list Z) : ib_gid := mkGid (word_at 0 8 raw) (word_at 8 8 raw).

Definition resolve (self : Explorer) (service_id source_port_id : Z) (dst_gid : list Z)
  (callback : option (Z * sa_path_rec)) (signal : Z) : M W (Result CMError sa_path_rec) :=
  raw ←? lift (Guid.Explorer.string_to_gid dst_gid);
  resolve_inner self service_id source_port_id (gid_of_raw raw) callback signal.

End explorer.
End Explorer.

(** ** Documented behaviour *)

(** The state of all identifiers is the same, or that of all but one. *)
Definition cm_state_eq {W} `{!CmOps W} (outbox : W -> ptr -> list cm_mad) (p : ptr) (w w' : W) : Prop :=
  cm_context w' p = cm_context w p /\ outbox w' p = outbox w p.

(** [cm_outbox] is what an identifier has sent.  Calls of the connection manager
    concern neither resources of the driver nor queue pairs, and the other way
    round. *)
Class CmLaws (W : Type) `{!DeviceOps W, !QueueOps W, !VerbsLaws W, !CmOps W} := {
  cm_outbox : W -> ptr -> list cm_mad;
  cm_stable :: Stable (fun w w' : W => forall p, cm_state_eq cm_outbox p w w');
  create_cm_law dev c w p w' :
    ib_create_cm_id dev c w = (p, w') ->
    quiet w w' /\ (forall p', p' <> p \/ p = null -> cm_state_eq cm_outbox p' w w') /\
    (p <> null -> cm_context w p = None /\ cm_context w' p = Some c /\ cm_outbox w' p = []) /\
    (healthy w -> p <> null);
  incoming_law l w p w' :
    cm_incoming l w = (p, w') ->
    quiet w w' /\ (forall p', p' <> p \/ p = null -> cm_state_eq cm_outbox p' w w') /\
    (p <> null -> cm_context w p = None /\ cm_context w' p = cm_context w l /\ cm_outbox w' p = []);
  destroy_cm_law p w u w' :
    ib_destroy_cm_id p w = (u, w') ->
    quiet w w' /\ (forall p', p' <> p -> cm_state_eq cm_outbox p' w w') /\ cm_context w' p = None;
  set_context_law p c w u w' :
    cm_set_context p c w = (u, w') ->
    quiet w w' /\ (forall p', p' <> p -> cm_state_eq cm_outbox p' w w') /\
    cm_outbox w' p = cm_outbox w p /\ (is_Some (cm_context w p) -> cm_context w' p = Some c);
  listen_law p id w r w' :
    ib_cm_listen p id w = (r, w') -> quiet w w' /\ forall p', cm_state_eq cm_outbox p' w w';
  send_law p m w r w' :
    ib_send_cm p m w = (r, w') ->
    quiet w w' /\ (forall p', p' <> p -> cm_state_eq cm_outbox p' w w') /\
    cm_context w' p = cm_context w p /\
    cm_outbox w' p = (if r =? 0 then cm_outbox w p ++ [m] else cm_outbox w p) /\
    (healthy w -> is_Some (cm_context w p) -> r = 0)
}.

(** ** The laws of the simulated driver *)
Definition set_cm (m : gmap Z (Z * list cm_mad)) (s : sim) : sim :=
  mkSim (s_live s) (s_qps s) (s_faults s) (s_sent s) (s_received s) (s_mem s) (s_mail s) m (s_wcs s) (s_links s).

Definition sim_new_cm (c : Z) (s : sim) : ptr * sim :=
  let '(e, s) := fault s in
  if e =? 0 then
    let p := fresh ({[null]} ∪ dom (s_cm s) : gset Z) in (p, set_cm (<[p := (c, [])]> (s_cm s)) s)
  else (null, s).

Definition sim_send (p : ptr) (m : cm_mad) (s : sim) : Z * sim :=
  let '(e, s) := fault s in
  match s_cm s !! p with
  | Some (c, out) => (e, if e =? 0 then set_cm (<[p := (c, out ++ [m])]> (s_cm s)) s else s)
  | None => (if e =? 0 then libc_EINVAL else e, s)
  end.

#[export] Instance sim_cm_ops : CmOps sim := {|
  ib_create_cm_id _ c := sim_new_cm c;
  ib_destroy_cm_id p s := ((), set_cm (delete p (s_cm s)) s);
  cm_incoming l s :=
    match s_cm s !! l with Some (c, _) => sim_new_cm c s | None => (null, s) end;
  cm_context s p := fst <$> s_cm s !! p;
  cm_set_context p c s :=
    ((), match s_cm s !! p with Some (_, out) => set_cm (<[p := (c, out)]> (s_cm s)) s | None => s end);
  ib_cm_listen _ _ s := fault s;
  ib_send_cm := sim_send
|}.

Lemma set_cm_quiet m (s : sim) : quiet s (set_cm m s).
Proof. by split_and!. Qed.

(** The state of the connection manager. *)
Definition sim_cm_kept (s s' : sim) : Prop := s_cm s' = s_cm s /\ s_links s' = s_links s.

Lemma fault_kept s e s' : fault s = (e, s') -> sim_cm_kept s s'.
Proof. unfold fault. by destruct (s_faults s); intros [= <- <-]. Qed.

Lemma alloc_kept k s p s' : alloc k s = (p, s') -> sim_cm_kept s s'.
Proof.
  unfold alloc. destruct (fault s) as [e s1] eqn:Hf. apply fault_kept in Hf.
  by destruct (e =? 0); intros [= <- <-].
Qed.

Lemma fault_cm s e s' : fault s = (e, s') -> s_cm s' = s_cm s.
Proof. by intros [? _]%fault_kept. Qed.

(** Verbs calls keep it, so a relation that only concerns it is stable. *)
Lemma sim_stable (R : sim -> sim -> Prop) :
  PreOrder R -> (forall s s', sim_cm_kept s s' -> R s s') -> Stable R.
Proof.
  intros HR Hk. constructor; [exact HR|..].
  - intros dev n. apply pres_call. intros w a w' ?%alloc_kept. by apply Hk.
  - intros p. apply pres_call. intros w a w' [= <- <-]. by apply Hk.
  - intros p. apply pres_call. intros w a w' [= <- <-]. by apply Hk.
  - intros pd init. apply pres_call. intros w a w'. cbn. unfold sim_create_qp.
    destruct (alloc RQp w) as [p s] eqn:Ha. apply alloc_kept in Ha.
    destruct (p =? null); intros [= <- <-]; by apply Hk.
  - intros p. apply pres_call. intros w a w' [= <- <-]. by apply Hk.
  - intros p. apply pres_call. intros w a w'. cbn. unfold sim_query_qp.
    destruct (fault w) as [e s] eqn:Hf. apply fault_kept in Hf.
    destruct (s_qps s !! p); intros [= <- <-]; by apply Hk.
  - intros p x m. apply pres_call. intros w a w'. cbn. unfold sim_modify_qp.
    destruct (fault w) as [e s] eqn:Hf. apply fault_kept in Hf.
    repeat case_match; intros [= <- <-]; by apply Hk.
  - intros c p. apply pres_call. intros w a w'. cbn. destruct (fault w) as [e s] eqn:Hf.
    intros [= <- <-]. by eapply Hk, fault_kept.
  - intros c p i. apply pres_call. intros w a w'. cbn. destruct (fault w) as [e s] eqn:Hf.
    intros [= <- <-]. by eapply Hk, fault_kept.
  - intros pd x. apply pres_call. intros w a w' ?%alloc_kept. by apply Hk.
  - intros p. apply pres_call. intros w a w' [= <- <-]. by apply Hk.
Qed.

Definition sim_outbox (s : sim) (p : ptr) : list cm_mad := default [] (snd <$> s_cm s !! p).

Lemma sim_cm_eq s s' : s_cm s' = s_cm s -> forall p, cm_state_eq sim_outbox p s s'.
Proof. intros Hc p. unfold cm_state_eq, sim_outbox. cbn. by rewrite Hc. Qed.

Lemma sim_new_cm_law c s p s' :
  sim_new_cm c s = (p, s') ->
  quiet s s' /\ (forall p', p' <> p \/ p = null -> cm_state_eq sim_outbox p' s s') /\
  (p <> null -> cm_context s p = None /\ cm_context s' p = Some c /\ sim_outbox s' p = []) /\
  (healthy s -> p <> null).
Proof.
  unfold sim_new_cm. destruct (fault s) as [e s1] eqn:Hf. pose proof (fault_cm _ _ _ Hf) as Hcm.
  apply fault_quiet in Hf as [Hq Hh]. destruct (Z.eqb_spec e 0) as [->|He]; intros [= <- <-].
  - set (p := fresh ({[null]} ∪ dom (s_cm s1) : gset Z)) in *.
    pose proof (is_fresh ({[null]} ∪ dom (s_cm s1) : gset Z)) as Hf.
    assert (Hn : p <> null) by (unfold p; set_solver).
    assert (Hd : s_cm s !! p = None). { rewrite <- Hcm. apply not_elem_of_dom. unfold p. set_solver. }
    split; [eapply quiet_trans; [exact Hq|apply set_cm_quiet]|]. split; [|split; [|done]].
    + intros p' [Hp|Hp]; [|done]. unfold cm_state_eq, sim_outbox. cbn.
      by rewrite lookup_insert_ne, Hcm by done.
    + intros _. unfold sim_outbox. cbn. by rewrite Hd, lookup_insert_eq.
  - split; [done|]. split; [intros; by apply sim_cm_eq|]. split; [done|]. intros Hw. by specialize (Hh Hw).
Qed.

#[export] Instance sim_cm_stable : Stable (fun s s' => forall p, cm_state_eq sim_outbox p s s').
Proof.
  apply sim_stable; [|intros s s' [Hc _]; by apply sim_cm_eq]. split.
  - intros s p. by split.
  - intros s1 s2 s3 H12 H23 p. destruct (H12 p), (H23 p). split; congruence.
Qed.

#[export] Instance sim_cm_laws : CmLaws sim.
Proof.
  refine {| cm_outbox := sim_outbox |}.
  - intros dev c w p w'. apply sim_new_cm_law.
  - intros l w p w'. cbn. destruct (s_cm w !! l) as [[c out]|] eqn:Hl.
    + by intros (? & ? & ? & _)%sim_new_cm_law.
    + intros [= <- <-]. split; [apply quiet_refl|]. split; [|done]. intros. by apply sim_cm_eq.
  - intros p w u w' [= <- <-]. split; [apply set_cm_quiet|]. split; [|by cbn; rewrite lookup_delete_eq].
    intros p' Hp. unfold cm_state_eq, sim_outbox. cbn. by rewrite lookup_delete_ne.
  - intros p c w u w' [= <- <-]. unfold sim_outbox. destruct (s_cm w !! p) as [[c' out]|] eqn:Hp.
    + split; [apply set_cm_quiet|]. cbn. rewrite lookup_insert_eq. split; [|done].
      intros p' Hne. unfold cm_state_eq, sim_outbox. cbn. by rewrite lookup_insert_ne.
    + split; [apply quiet_refl|]. split; [intros; by apply sim_cm_eq|]. rewrite Hp. split; [done|].
      cbn. rewrite Hp. by intros [? [=]].
  - intros p id w r w'. cbn. intros Hf. split; [by apply (fault_quiet _ _ _ Hf)|].
    by eapply sim_cm_eq, fault_cm.
  - intros p m w r w'. cbn. unfold sim_send. destruct (fault w) as [e s] eqn:Hf.
    pose proof (fault_cm _ _ _ Hf) as Hcm. apply fault_quiet in Hf as [Hq Hh]. unfold sim_outbox.
    rewrite Hcm. destruct (s_cm w !! p) as [[c out]|] eqn:Hp; intros [= <- <-].
    + destruct (Z.eqb_spec e 0) as [->|He].
      * split; [eapply quiet_trans; [exact Hq|apply set_cm_quiet]|]. cbn. rewrite lookup_insert_eq.
        split; [|done]. intros p' Hne. unfold cm_state_eq, sim_outbox. cbn. by rewrite lookup_insert_ne, <- Hcm by done.
      * split; [done|]. split; [intros; by apply sim_cm_eq|]. cbn. rewrite Hcm, Hp.
        split_and!; [done..|]. intros Hw _. by specialize (Hh Hw).
    + split; [done|]. split; [intros; by apply sim_cm_eq|]. cbn. rewrite Hcm, Hp. split; [done|].
      destruct (Z.eqb_spec e 0) as [->|He]; (split; [|by intros _ [? [=]]]); [done|].
      destruct (Z.eqb_spec e 0); done.
Defined.

(** ** The life of an identifier *)
Section lifecycle.
Context {W X : Type} `{!DeviceOps W, !QueueOps W, !VerbsLaws W, !CmOps W, !CmLaws W}.
Implicit Types (w : W) (s : W * X) (cb : CMCallbacker (W * X)).

Lemma context_read cm w c : cm_context w cm = Some c -> CMWrapper.context cm w = Done (c, w).
Proof. intros E. unfold CMWrapper.context. by rewrite E. Qed.

Lemma set_context_spec cm x w c :
  cm_context w cm = Some c ->
  exists w', CMWrapper.set_context cm x w = Done ((), w') /\ quiet w w' /\
    (forall p', p' <> cm -> cm_state_eq cm_outbox p' w w') /\ cm_context w' cm = Some x.
Proof.
  intros E. unfold CMWrapper.set_context. rewrite (bind_done _ _ _ _ _ (context_read _ _ _ E)).
  destruct (cm_set_context cm x w) as [[] w'] eqn:Hc. exists w'. unfold call. rewrite Hc.
  apply set_context_law in Hc as (? & ? & _ & Hs). split_and!; try done. apply Hs. by exists c.
Qed.

Lemma explicit_drop_live (self : CMWrapper.CMWrapper) w c :
  cm_context w (CMWrapper.inner self) = Some c -> c <> null ->
  exists w', CMWrapper.explicit_drop self w = Done ((), w') /\ quiet w w' /\
    (forall p', p' <> CMWrapper.inner self -> cm_state_eq cm_outbox p' w w') /\
    cm_context w' (CMWrapper.inner self) = None.
Proof.
  intros E Hc. unfold CMWrapper.explicit_drop, CMWrapper.cm_is_destroyed.
  rewrite bind_assoc, (bind_done _ _ _ _ _ (context_read _ _ _ E)), bind_ret.
  assert (is_null c = false) as -> by by apply Z.eqb_neq. cbn [negb].
  destruct (set_context_spec (CMWrapper.inner self) null w c E) as (w1 & Hs & Hq1 & Ho1 & _).
  rewrite (bind_done _ _ _ _ _ Hs). unfold call.
  destruct (ib_destroy_cm_id (CMWrapper.inner self) w1) as [[] w2] eqn:Hd.
  apply destroy_cm_law in Hd as (Hq2 & Ho2 & Hn). exists w2. split; [done|].
  split; [by eapply quiet_trans|]. split; [|done]. intros p Hp.
  destruct (Ho1 p Hp), (Ho2 p Hp). split; congruence.
Qed.

(** A drop reads the identifier, also one that the connection manager has freed. *)
Lemma explicit_drop_freed (self : CMWrapper.CMWrapper) w :
  cm_context w (CMWrapper.inner self) = None -> CMWrapper.explicit_drop self w = Panic.
Proof.
  intros E. unfold CMWrapper.explicit_drop, CMWrapper.cm_is_destroyed, CMWrapper.context.
  by rewrite bind_assoc, bind_run, E.
Qed.

Lemma create_raw_spec dev ctx w :
  exists r w', CMWrapper.create_raw_cm_id dev ctx w = Done (r, w') /\ quiet w w' /\
    (healthy w -> is_Ok r = true) /\
    match r with
    | Ok p => p <> null /\ cm_context w p = None /\ cm_context w' p = Some ctx /\ cm_outbox w' p = [] /\
        forall p', p' <> p -> cm_state_eq cm_outbox p' w w'
    | Err e => e = Creation 0 /\ forall p', cm_state_eq cm_outbox p' w w'
    end.
Proof.
  unfold CMWrapper.create_raw_cm_id. mgoal. apply create_cm_law in E as (Hq & Ho & Hn & Hh).
  eexists _, _. split; [done|]. split; [done|]. unfold is_null.
  destruct (Z.eqb_spec z null) as [->|Hz]; cbn.
  - split; [intros Hw; by destruct (Hh Hw)|]. split; [done|]. intros p'. apply Ho. by right.
  - destruct (Hn Hz) as (? & ? & ?). split_and!; try done. intros p' Hp. apply Ho. by left.
Qed.

Definition same_contexts w w' : Prop := forall p, cm_context w' p = cm_context w p.

(** Delivery of an event, from what its handler does. *)
Lemma deliver_run cb cm ev s c r w1 (x1 : X) :
  cm_context (fst s) cm = Some c -> c <> null -> dispatch_event cb cm ev s = Done (r, (w1, x1)) ->
  same_contexts (fst s) w1 ->
  exists w2, deliver cb cm ev s = Done (is_Ok r, (w2, x1)) /\ quiet w1 w2 /\
    cm_context w2 cm = (if is_Ok r then Some c else None) /\
    (forall p, p <> cm -> cm_state_eq cm_outbox p w1 w2) /\ (is_Ok r = true -> w2 = w1).
Proof.
  intros E Hc Hd Hs. unfold deliver, cm_handler.
  rewrite bind_assoc, (bind_done _ _ _ _ _ (onW_run _ _ _ _ (context_read _ _ _ E))).
  assert (is_null c = false) as -> by by apply Z.eqb_neq. rewrite <- surjective_pairing.
  rewrite bind_assoc, (bind_done _ _ _ _ _ Hd). destruct r as [u|e]; cbn [is_Ok].
  - exists w1. split; [done|]. split; [apply quiet_refl|]. split; [by rewrite Hs|]. by split.
  - destruct (set_context_spec cm null w1 c) as (w2 & Hset & Hq2 & Ho2 & _); [by rewrite Hs|].
    rewrite bind_assoc, (bind_done _ _ _ _ _ (onW_run _ (w1, x1) _ _ Hset)), bind_ret. cbn [Z.eqb snd].
    destruct (ib_destroy_cm_id cm w2) as [[] w3] eqn:Hde.
    rewrite (bind_done _ _ _ () (w3, x1)) by (unfold onW, call; cbn; by rewrite Hde).
    apply destroy_cm_law in Hde as (Hq3 & Ho3 & Hn3). exists w3. split; [done|].
    split; [by eapply quiet_trans|]. split; [done|]. split; [|done]. intros p Hp.
    destruct (Ho2 p Hp), (Ho3 p Hp). split; congruence.
Qed.

(** Handlers that leave the identifiers to the connection manager. *)
Definition tame cb : Prop := forall cm ev s r s',
  dispatch_event cb cm ev s = Done (r, s') -> same_contexts (fst s) (fst s').

Lemma deliver_context cb cm ev s c alive s' :
  tame cb -> cm_context (fst s) cm = Some c -> c <> null -> deliver cb cm ev s = Done (alive, s') ->
  cm_context (fst s') cm = (if alive then Some c else None) /\
  forall p, p <> cm -> cm_context (fst s') p = cm_context (fst s) p.
Proof.
  intros Ht E Hc Hd. destruct (dispatch_event cb cm ev s) as [[r [w1 x1]]|] eqn:Hdis.
  - pose proof (Ht _ _ _ _ _ Hdis) as Hs.
    destruct (deliver_run cb cm ev s c r w1 x1 E Hc Hdis Hs) as (w2 & Hd2 & _ & Hcm & Ho & _).
    rewrite Hd in Hd2. injection Hd2 as -> ->. split; [done|]. intros p Hp.
    cbn. destruct (Ho p Hp) as [-> _]. apply Hs.
  - unfold deliver, cm_handler in Hd.
    rewrite bind_assoc, (bind_done _ _ _ _ _ (onW_run _ _ _ _ (context_read _ _ _ E))) in Hd.
    assert (is_null c = false) as Hn by by apply Z.eqb_neq. rewrite Hn in Hd.
    rewrite <- surjective_pairing, bind_assoc, bind_run, Hdis in Hd. done.
Qed.

Lemma deliver_all_context cb cm evs s c alive s' :
  tame cb -> cm_context (fst s) cm = Some c -> c <> null -> deliver_all cb cm evs s = Done (alive, s') ->
  cm_context (fst s') cm = (if alive then Some c else None) /\
  forall p, p <> cm -> cm_context (fst s') p = cm_context (fst s) p.
Proof.
  intros Ht. revert s. induction evs as [|ev evs IH]; intros s E Hc Hd.
  - injection Hd as <- <-. done.
  - cbn [deliver_all] in Hd. apply bind_done_inv in Hd as (a & s1 & H1 & Hd).
    destruct (deliver_context _ _ _ _ _ _ _ Ht E Hc H1) as [E1 Ho1]. destruct a.
    + destruct (IH _ E1 Hc Hd) as [E2 Ho2]. split; [done|]. intros p Hp. by rewrite Ho2, Ho1.
    + injection Hd as <- <-. done.
Qed.

(** The life of the identifier in what [mk] makes, from its creation to its
    [explicit_drop]. *)
Definition lives {S} cb (inner : S -> CMWrapper.CMWrapper) (mk : M W (Result CMError S)) w : Prop :=
  exists r w1, mk w = Done (r, w1) /\
    match r with
    | Err _ => same_contexts w w1
    | Ok made => forall evs x alive s,
        deliver_all cb (CMWrapper.inner (inner made)) evs (w1, x) = Done (alive, s) ->
        if alive : bool then
          exists w', CMWrapper.explicit_drop (inner made) (fst s) = Done ((), w') /\ same_contexts w w'
        else CMWrapper.explicit_drop (inner made) (fst s) = Panic /\ same_contexts w (fst s)
    end.

Lemma lives_intro {S} cb (inner : S -> CMWrapper.CMWrapper) mk w made w1 ctx :
  let p := CMWrapper.inner (inner made) in
  tame cb -> mk w = Done (Ok made, w1) -> ctx <> null -> cm_context w p = None ->
  cm_context w1 p = Some ctx -> (forall p', p' <> p -> cm_context w1 p' = cm_context w p') ->
  lives cb inner mk w.
Proof.
  intros p Ht Hmk Hc Hn E Ho. exists (Ok made), w1. split; [done|]. intros evs x alive s Hd.
  destruct (deliver_all_context cb p evs (w1, x) ctx alive s Ht E Hc Hd) as [E1 Ho1]. cbn [fst] in Ho1.
  destruct alive.
  - destruct (explicit_drop_live (inner made) (fst s) ctx E1 Hc) as (w3 & Hr & _ & Ho3 & E3).
    exists w3. split; [done|]. intros p'. destruct (decide (p' = p)) as [->|Hne]; [unfold p in *; congruence|].
    destruct (Ho3 p' Hne) as [-> _]. by rewrite Ho1, Ho.
  - split; [by apply explicit_drop_freed|]. intros p'.
    destruct (decide (p' = p)) as [->|Hne]; [congruence|]. by rewrite Ho1, Ho.
Qed.


End lifecycle.

(** The default handlers, which leave identifiers alone. *)
Definition default_callbacker {S} : CMCallbacker S :=
  mkCallbacker accept accept accept accept accept accept accept.


(** ** Helpers for the clients of this file *)

Lemma wire_u64_roundtrip z : in_width 64 z -> of_bytes (to_bytes (z : Z)) = z.
Proof.
  intros Hz. change (word_at 0 8 (le 8 z) = z). pose proof (word_at_le [] 8 z []) as E.
  cbn [app length] in E. rewrite app_nil_r in E. rewrite E. by apply (wrap_small 64).
Qed.

Section helpers.
Context {W : Type} `{!DeviceOps W, !QueueOps W, !VerbsLaws W, !CmOps W, !CmLaws W}.

Definition cm_same (w w' : W) : Prop := forall p, cm_state_eq cm_outbox p w w'.

#[export] Instance cm_same_stable : Stable cm_same := cm_stable.

Lemma send_spec cm m what (w : W) :
  exists r w', CMWrapper.send cm m what w = Done (r, w') /\ quiet w w' /\
    (forall p, p <> cm -> cm_state_eq cm_outbox p w w') /\ cm_context w' cm = cm_context w cm /\
    cm_outbox w' cm = (if is_Ok r then cm_outbox w cm ++ [m] else cm_outbox w cm) /\
    (healthy w -> is_Some (cm_context w cm) -> r = Ok ()).
Proof.
  unfold CMWrapper.send. mgoal. apply send_law in E as (? & ? & ? & Ho & Hh).
  eexists _, _. split; [done|]. destruct (Z.eqb_spec z 0) as [->|Hz]; cbn; split_and!; try done.
  intros Hw Hs. by specialize (Hh Hw Hs).
Qed.

Lemma send_contexts cm m what (w : W) r w' :
  CMWrapper.send cm m what w = Done (r, w') -> same_contexts w w'.
Proof.
  intros Hs p. destruct (send_spec cm m what w) as (r1 & w1 & Hs1 & _ & Ho & Hc & _).
  rewrite Hs in Hs1. injection Hs1 as <- <-. destruct (decide (p = cm)) as [->|Hne]; [done|by apply Ho].
Qed.

End helpers.
