(* ===== verification/Services.v ===== *)
(** * The services of the kernel build

    src/KRdmaKit/src/services: [ConnectionService], which answers queries for
    datagram queue pairs and DC targets by the hint they are registered under
    (mod.rs, ud.rs, dc.rs, with [get_datagram_meta] of the two kinds of queue
    pairs), and [ReliableConnectionServer] (rc.rs), which makes a queue pair for
    every connection request and keeps it under the address of the connection's
    identifier.

    The queue pairs of a [ConnectionService] are shared with their owners
    ([Arc]), so registering and deregistering does not drop them. *)

From S2P Require Import Prelude Bytes Errors Verbs CmVerbs Sim Context CompletionQueue QueuePair BringUp.
From S2P Require Import Endpoint Registry Stable CommManager.

(** ** What is sent *)
Record DatagramMeta := mkMeta { meta_lid : Z; meta_gid : ib_gid }.
Record DynamicConnectedMeta := mkDcMeta { datagram_addr : DatagramMeta; meta_dct_num : Z; meta_dc_key : Z }.
Record RCConnectionData := mkRC { rc_lid : Z; rc_gid : ib_gid }.

(** [#[repr(C, align(8))]]: a [u16], six bytes of padding, the two words of the GID. *)
Definition address_bytes (lid : Z) (gid : ib_gid) : list Z :=
  le 2 lid ++ replicate 6 0 ++ le 8 (subnet_prefix gid) ++ le 8 (interface_id gid).
Definition gid_at (off : nat) (l : list Z) : ib_gid := mkGid (word_at off 8 l) (word_at (off + 8) 8 l).

#[export] Instance wire_meta : Wire DatagramMeta := {|
  to_bytes m := address_bytes (meta_lid m) (meta_gid m);
  of_bytes l := mkMeta (word_at 0 2 l) (gid_at 8 l) |}.
#[export] Instance wire_rc : Wire RCConnectionData := {|
  to_bytes m := address_bytes (rc_lid m) (rc_gid m);
  of_bytes l := mkRC (word_at 0 2 l) (gid_at 8 l) |}.
#[export] Instance wire_dc : Wire DynamicConnectedMeta := {|
  to_bytes m := to_bytes (datagram_addr m) ++ le 4 (meta_dct_num m) ++ replicate 4 0 ++ le 8 (meta_dc_key m);
  of_bytes l := mkDcMeta (of_bytes l) (word_at 24 4 l) (word_at 32 8 l) |}.

Section meta.
Context {W C : Type} `{!Cfg, !DeviceOps W, !QueueOps W}.

(** The address of a port: the queries [RCConnectionData::new] and both versions of
    [get_datagram_meta] make. *)
Definition port_address (dev : Device.Device) (port : Z) : M W (Result CMError (Z * ib_gid)) :=
  port_attr ←? map_errM (fun err => Creation (to_kernel_errno err)) (Device.get_port_attr dev port);
  gid ←? map_errM (fun err => Creation (to_kernel_errno err)) (Device.query_gid dev port 0);
  mret (Ok (u16 (port_lid port_attr), gid)).

Definition get_datagram_meta (self : QueuePair.QueuePair C) : M W (Result CMError DatagramMeta) :=
  a ←? port_address (Context.get_dev_ref (QueuePair.ctx self)) (QueuePair.port_num self);
  mret (Ok (mkMeta (fst a) (snd a))).
Definition dct_datagram_meta (self : DynamicConnectedTarget.DynamicConnectedTarget) :
  M W (Result CMError DatagramMeta) :=
  a ←? port_address (Context.get_dev_ref (DynamicConnectedTarget.ctx self))
         (DynamicConnectedTarget.port_num self);
  mret (Ok (mkMeta (fst a) (snd a))).

(** [RCConnectionData::new]. *)
Definition rc_data (qp : QueuePair.QueuePair C) : M W (Result CMError RCConnectionData) :=
  a ←? port_address (Context.get_dev_ref (QueuePair.ctx qp)) (QueuePair.port_num qp);
  mret (Ok (mkRC (fst a) (snd a))).

End meta.

(** ** Queries by hint *)
Class GenerateConnectionReply (W R QP : Type) := {
  generate_connection_reply : QP -> M W (Result CMError R) }.
Class GetQueuePairInfo (W QP : Type) := { get_qkey : QP -> Z; get_qp_num : QP -> M W Z }.

Section replies.
Context {W C : Type} `{!Cfg, !DeviceOps W, !QueueOps W}.

#[export] Instance qp_numbers : GetQueuePairInfo W (QueuePair.QueuePair C) := {|
  get_qkey := QueuePair.qkey; get_qp_num := QueuePair.qp_num |}.
(** A DC target has neither; the client does not use them. *)
#[export] Instance dct_numbers : GetQueuePairInfo W DynamicConnectedTarget.DynamicConnectedTarget := {|
  get_qkey _ := 0; get_qp_num _ := mret 0 |}.

(** Without and with the [dct] feature. *)
#[export] Instance qp_reply : GenerateConnectionReply W DatagramMeta (QueuePair.QueuePair C) := {|
  generate_connection_reply := get_datagram_meta |}.
#[export] Instance qp_dct_reply :
  GenerateConnectionReply W DynamicConnectedMeta (QueuePair.QueuePair C) := {|
  generate_connection_reply self :=
    addr ←? get_datagram_meta self; mret (Ok (mkDcMeta addr 0 0)) |}.
#[export] Instance dct_reply :
  GenerateConnectionReply W DynamicConnectedMeta DynamicConnectedTarget.DynamicConnectedTarget := {|
  generate_connection_reply self :=
    addr ←? dct_datagram_meta self;
    num ← gets (fun w => dct_num w (DynamicConnectedTarget.inner_target self));
    mret (Ok (mkDcMeta addr num (DynamicConnectedTarget.key self))) |}.

End replies.

Module ConnectionService.

Record ConnectionService (QP : Type) := mkService { registered_qps : gmap Z QP }.
Arguments mkService {QP}.
Arguments registered_qps {QP}.

Section service.
Context {W R QP : Type} `{!CmOps W, !GenerateConnectionReply W R QP, !GetQueuePairInfo W QP, !Wire R}.

Definition create : ConnectionService QP := mkService ∅.
Definition reg_qp (qd_hint : Z) (qp : QP) (self : ConnectionService QP) : ConnectionService QP :=
  mkService (<[qd_hint := qp]> (registered_qps self)).
Definition dereg_qp (qd_hint : Z) (self : ConnectionService QP) : ConnectionService QP :=
  mkService (delete qd_hint (registered_qps self)).
Definition get_qp (qd_hint : Z) (self : ConnectionService QP) : option QP :=
  registered_qps self !! qd_hint.

Definition generate_all_reply_data (self : ConnectionService QP) (qd_hint : Z) :
  M W (Result CMError (R * Z * Z)) :=
  match get_qp qd_hint self with
  | None => mret (Err (CMInvalidArg "QP hint unfound: " (to_string qd_hint)))
  | Some qp =>
      reply ←? generate_connection_reply qp;
      num ← get_qp_num qp;
      mret (Ok (reply, get_qkey qp, num))
  end.

Definition handle_sidr_req (reply_cm : ptr) (ev : ib_cm_event) :
  M (W * ConnectionService QP) (Result CMError unit) :=
  let qd_hint : Z := of_bytes (private_data ev) in
  self ← getX;
  data ← onW (generate_all_reply_data self qd_hint);
  match data with
  | Ok (reply, qkey, num) =>
      onW (CMReplyer.send_sidr_reply reply_cm (mkSidrRep num qkey IB_SIDR_SUCCESS [] 0) reply)
  | Err _ => onW (CMReplyer.send_sidr_reply reply_cm (mkSidrRep 0 0 IB_SIDR_NO_QP [] 0) (0 : Z))
  end.

Definition callbacks : CMCallbacker (W * ConnectionService QP) :=
  mkCallbacker accept accept accept accept accept handle_sidr_req accept.

End service.
End ConnectionService.

(** ** The server of reliable connections *)
Module RcServer.

Record ReliableConnectionServer (C : Type) := mkServer {
  ctx : Context.Context; port_num : Z; registered_rc : gmap Z (QueuePair.QueuePair C) }.
Arguments mkServer {C}.
Arguments ctx {C}.
Arguments port_num {C}.
Arguments registered_rc {C}.

Section server.
Context {W C : Type} `{!Cfg, !DeviceOps W, !QueueOps W, !DataOps W, !CmOps W, !Peer W C}.

Definition create (ctx : Context.Context) (port_num : Z) : ReliableConnectionServer C :=
  mkServer ctx port_num ∅.

Definition encode_rc_key_by_cm (cm_id : ptr) : Z := u64 cm_id.

Definition set_rc (m : gmap Z (QueuePair.QueuePair C)) (s : ReliableConnectionServer C) :=
  mkServer (ctx s) (port_num s) m.

(** [insert] and [remove] of the map; the value they return is dropped. *)
Definition drop_old (old : option (QueuePair.QueuePair C)) : M (W * ReliableConnectionServer C) unit :=
  match old with Some qp => onW (QueuePair.drop qp) | None => mret () end.
Definition insert_rc (key : Z) (qp : QueuePair.QueuePair C) : M (W * ReliableConnectionServer C) unit :=
  self ← getX;
  _ ← onX (set_rc (<[key := qp]> (registered_rc self)));
  drop_old (registered_rc self !! key).
Definition remove_rc (key : Z) : M (W * ReliableConnectionServer C) unit :=
  self ← getX;
  _ ← onX (set_rc (delete key (registered_rc self)));
  drop_old (registered_rc self !! key).

(** The settings of the queue pairs the server makes. *)
Definition builder_for (self : ReliableConnectionServer C) (req : ib_cm_req_event_param) :
  Builder.QueuePairBuilder :=
  Builder.allow_remote_atomic (Builder.allow_remote_rw (Builder.set_max_send_wr 64
    (Builder.set_port_num (port_num self)
      (Builder.set_rnr_retry (u8 (rq_rnr_retry_count req)) (Builder.new (ctx self)))))).

(** An error of the first two steps is also told to the client. *)
Definition or_reject {E A} (reply_cm : ptr) (code : Z) (m : M W (Result E A)) :
  M (W * ReliableConnectionServer C) (Result CMError A) :=
  r ← onW m;
  match r with
  | Ok a => mret (Ok a)
  | Err _ => _ ← onW (CMReplyer.send_reject reply_cm code); mret (Err (Creation 0))
  end.

(** The reply, once the queue pair is up. *)
Definition reply (reply_cm : ptr) (req : ib_cm_req_event_param) (rc_qp : QueuePair.QueuePair C) :
  M (W * ReliableConnectionServer C) (Result CMError unit) :=
  data ← onW (rc_data rc_qp);
  match data with
  | Err e => _ ← onW (QueuePair.drop rc_qp); mret (Err e)
  | Ok rc_reply_data =>
      rc_qpn ← onW (QueuePair.qp_num rc_qp);
      let rep := mkRep rc_qpn rc_qpn [] 0 (rq_responder_resources req) (rq_initiator_depth req)
                   (u8 (rq_flow_control req)) (u8 (rq_rnr_retry_count req)) in
      _ ← insert_rc (encode_rc_key_by_cm reply_cm) rc_qp;
      onW (CMReplyer.send_reply reply_cm rep rc_reply_data)
  end.

(** Reading a member of the event's union that was not written is undefined. *)
Definition handle_req (reply_cm : ptr) (ev : ib_cm_event) :
  M (W * ReliableConnectionServer C) (Result CMError unit) :=
  let data : RCConnectionData := of_bytes (private_data ev) in
  match param ev with
  | ReqRcvd req =>
      self ← getX;
      rc_qp ←? or_reject reply_cm 2 (Builder.build_rc (builder_for self req));
      rc_qp ←? or_reject reply_cm 3
                 (bring_up_rc rc_qp (rc_lid data) (rc_gid data) (rq_remote_qpn req) (rq_starting_psn req));
      reply reply_cm req rc_qp
  | _ => panic
  end.

Definition handle_dreq (reply_cm : ptr) (ev : ib_cm_event) :
  M (W * ReliableConnectionServer C) (Result CMError unit) :=
  _ ← remove_rc (encode_rc_key_by_cm reply_cm); mret (Ok ()).

Definition callbacks : CMCallbacker (W * ReliableConnectionServer C) :=
  mkCallbacker handle_req accept accept accept handle_dreq accept accept.

(** What reaches the server: a request for its listening identifier, for which the
    connection manager makes a new one, or a message for one it made.  Only
    identifiers that exist get messages. *)
Inductive arrival := Incoming (listener : ptr) (ev : ib_cm_event) | Message (cm : ptr) (ev : ib_cm_event).

Definition arrive (a : arrival) : M (W * ReliableConnectionServer C) unit :=
  match a with
  | Incoming l ev =>
      c ← onW (gets (fun w => cm_context w l));
      match c with
      | Some _ =>
          cm ← onW (call (cm_incoming l));
          if is_null cm then mret () else _ ← deliver callbacks cm ev; mret ()
      | None => mret ()
      end
  | Message cm ev =>
      c ← onW (gets (fun w => cm_context w cm));
      match c with Some _ => _ ← deliver callbacks cm ev; mret () | None => mret () end
  end.

Fixpoint arrive_all (l : list arrival) : M (W * ReliableConnectionServer C) unit :=
  match l with [] => mret () | a :: l => _ ← arrive a; arrive_all l end.

End server.
End RcServer.

(** ** The formats *)
Definition norm_gid (g : ib_gid) : ib_gid := mkGid (u64 (subnet_prefix g)) (u64 (interface_id g)).

Lemma read_address lid gid post :
  let l := address_bytes lid gid ++ post in
  word_at 0 2 l = u16 lid /\ gid_at 8 l = norm_gid gid.
Proof.
  intros l. unfold l, address_bytes, gid_at. rewrite <- !app_assoc. split.
  - exact (word_at_le [] 2 lid _).
  - unfold norm_gid. f_equal.
    + pose proof (word_at_le (le 2 lid ++ replicate 6 0) 8 (subnet_prefix gid) (le 8 (interface_id gid) ++ post)) as E.
      rewrite <- app_assoc in E. exact E.
    + pose proof (word_at_le (le 2 lid ++ replicate 6 0 ++ le 8 (subnet_prefix gid)) 8 (interface_id gid) post) as E.
      rewrite <- !app_assoc in E. exact E.
Qed.

Lemma meta_roundtrip m : of_bytes (to_bytes m) = mkMeta (u16 (meta_lid m)) (norm_gid (meta_gid m)).
Proof.
  destruct (read_address (meta_lid m) (meta_gid m) []) as [H1 H2]. rewrite app_nil_r in H1, H2.
  cbn [to_bytes of_bytes wire_meta]. by rewrite H1, H2.
Qed.

Lemma rc_roundtrip m : of_bytes (to_bytes m) = mkRC (u16 (rc_lid m)) (norm_gid (rc_gid m)).
Proof.
  destruct (read_address (rc_lid m) (rc_gid m) []) as [H1 H2]. rewrite app_nil_r in H1, H2.
  cbn [to_bytes of_bytes wire_rc]. by rewrite H1, H2.
Qed.

Lemma dc_roundtrip m :
  of_bytes (to_bytes m) =
  mkDcMeta (mkMeta (u16 (meta_lid (datagram_addr m))) (norm_gid (meta_gid (datagram_addr m))))
    (u32 (meta_dct_num m)) (u64 (meta_dc_key m)).
Proof.
  destruct (read_address (meta_lid (datagram_addr m)) (meta_gid (datagram_addr m))
    (le 4 (meta_dct_num m) ++ replicate 4 0 ++ le 8 (meta_dc_key m))) as [H1 H2].
  cbn [to_bytes of_bytes wire_dc wire_meta] in *. rewrite H1, H2. f_equal.
  - exact (word_at_le (address_bytes _ _) 4 (meta_dct_num m) _).
  - pose proof (word_at_le (address_bytes (meta_lid (datagram_addr m)) (meta_gid (datagram_addr m)) ++
      le 4 (meta_dct_num m) ++ replicate 4 0) 8 (meta_dc_key m) []) as E.
    rewrite app_nil_r, <- !app_assoc in E. exact E.
Qed.

(** ** Queries of the port *)
Section address.
Context {W : Type} `{!Cfg, !DeviceOps W, !QueueOps W, !VerbsLaws W, !PortLaws W}.

Definition address_of (dev : Device.Device) (port : Z) : Z * ib_gid :=
  (u16 (port_lid (port_info (W := W) (Device.raw_ptr dev) port)), gid_info (W := W) (Device.raw_ptr dev) port 0).

Lemma stable_port_address (R : W -> W -> Prop) `{!Stable R} dev port : preserves R (port_address dev port).
Proof. unfold port_address. preserve. Qed.

Lemma port_address_spec dev port (w : W) :
  exists r w', port_address dev port w = Done (r, w') /\ quiet w w' /\ (healthy w -> is_Ok r = true) /\
    forall a, r = Ok a -> a = address_of dev port.
Proof.
  unfold port_address. rewrite try_as_bind.
  destruct (device_port_attr_spec dev port w) as (ra & w1 & Ha & Hq1 & Hh1 & Hpa).
  rewrite (bind_done _ _ _ _ _ (map_errM_done _ _ _ _ _ Ha)).
  destruct ra as [attr|e]; cbn [map_err]; [|by eexists _, w1].
  rewrite try_as_bind. destruct (device_gid_spec dev port 0 w1) as (rg & w2 & Hg & Hq2 & Hh2 & Hpg).
  rewrite (bind_done _ _ _ _ _ (map_errM_done _ _ _ _ _ Hg)). pose proof (quiet_trans _ _ _ Hq1 Hq2) as Hq.
  assert (Hh : healthy w -> healthy w1) by apply Hq1.
  destruct rg as [gid|e]; cbn [map_err]; eexists _, w2; (split; [done|]; split; [done|]; split; [by auto|]); [|done].
  intros a [= <-]. unfold address_of. by rewrite (Hpa attr eq_refl), (Hpg gid eq_refl).
Qed.

End address.
#[export] Hint Resolve stable_port_address : preserves.

(** ** The server of reliable connections *)
Section rc_server.
Import RcServer.
Context {W C : Type} `{!Cfg, !DeviceOps W, !QueueOps W, !DataOps W, !CmOps W, !Peer W C}.
Context `{!VerbsLaws W, !PortLaws W, !CmLaws W}.
Implicit Types (w : W) (srv : ReliableConnectionServer C) (s : W * ReliableConnectionServer C).

Definition server_ok (base : gset res) (s : W * ReliableConnectionServer C) : Prop :=
  shares base (registered_rc (snd s)) (fst s).

Lemma rc_data_spec (qp : QueuePair.QueuePair C) w :
  exists r w', rc_data qp w = Done (r, w') /\ quiet w w' /\ cm_same w w' /\ (healthy w -> is_Ok r = true) /\
    forall d, r = Ok d ->
      let a := address_of (W := W) (Context.get_dev_ref (QueuePair.ctx qp)) (QueuePair.port_num qp) in
      d = mkRC a.1 a.2.
Proof.
  unfold rc_data. rewrite try_as_bind.
  destruct (port_address_spec (Context.get_dev_ref (QueuePair.ctx qp)) (QueuePair.port_num qp) w)
    as (r & w' & Hr & Hq & Hh & Ha). rewrite (bind_done _ _ _ _ _ Hr).
  assert (Hc : cm_same w w') by by eapply (stable_port_address cm_same).
  destruct r as [a|e]; eexists _, w'; (split; [done|]; split; [done|]; split; [done|]); [|done].
  split; [done|]. intros d [= <-]. by rewrite <- (Ha a eq_refl).
Qed.

(** A connection that was accepted: the queue pair, its place, its state and the
    reply that went out. *)
Definition accepted srv (w' : W) srv' (cm : ptr) (data : RCConnectionData) (req : ib_cm_req_event_param)
  (out : list cm_mad) (qp : QueuePair.QueuePair C) : Prop :=
  let q := QueuePair.inner_qp qp in
  let key := encode_rc_key_by_cm cm in
  let a := address_of (W := W) (Context.get_dev_ref (ctx srv)) (port_num srv) in
  exists n, registered_rc srv' = <[key := qp]> (registered_rc srv) /\
  (registered_rc srv !! key = None -> n = Verbs.qp_num w' q) /\
  (exists init, qp_view w' q = Some (mkQpInfo init
     (rc_configured (builder_for srv req) (rc_lid data) (rc_gid data) (rq_remote_qpn req)
        (rq_starting_psn req) n))) /\
  cm_outbox w' cm = out ++ [MRep (CMWrapper.rep_with (mkRC a.1 a.2)
     (mkRep n n [] 0 (rq_responder_resources req) (rq_initiator_depth req)
        (u8 (rq_flow_control req)) (u8 (rq_rnr_retry_count req))))].

(** What a handler of the server leaves behind, whatever its result. *)
Definition handled base s s' : Prop :=
  server_ok base s' /\ same_contexts (fst s) (fst s') /\ ctx (snd s') = ctx (snd s) /\
  port_num (snd s') = port_num (snd s).

Lemma insert_rc_spec base w w1 srv key qp v :
  shares base (registered_rc srv) w -> fresh_qp w w1 qp -> QueuePair.srq qp = None ->
  qp_view w1 (QueuePair.inner_qp qp) = Some v -> refers_own (qi_init v) qp ->
  qp_state (qi_attr v) = IB_QPS_RTS ->
  exists w', insert_rc key qp (w1, srv) = Done ((), (w', set_rc (<[key := qp]> (registered_rc srv)) srv)) /\
    shares base (<[key := qp]> (registered_rc srv)) w' /\ cm_same w1 w' /\ (healthy w1 -> healthy w') /\
    qp_view w' (QueuePair.inner_qp qp) = Some v /\ (registered_rc srv !! key = None -> w' = w1).
Proof.
  intros Hok Hf Hsrq Hv Hown Hst. unfold insert_rc, getX, onX. rewrite !bind_run. cbn [fst snd].
  destruct (registered_rc srv !! key) as [old|] eqn:Hkey; cbn [drop_old].
  - destruct (shares_replace _ _ _ _ _ _ _ _ Hok Hkey Hf Hsrq Hv Hown Hst) as (w' & Hd & Hs & Hh & Hv').
    exists w'. rewrite (onW_run _ (w1, _) _ _ Hd). split; [done|]. split; [done|]. split; [|done].
    eapply (stable_qp_drop cm_same old); [|exact Hd]. by destruct (reg_keeps _ _ _ Hok _ _ Hkey).
  - exists w1. split; [done|]. split; [by eapply shares_add|]. split; [|done]. intros p. by split.
Qed.

Lemma reply_spec base w w1 srv cm data req qp init :
  let q := QueuePair.inner_qp qp in
  shares base (registered_rc srv) w -> cm_same w w1 -> fresh_qp w w1 qp -> QueuePair.srq qp = None ->
  QueuePair.ctx qp = ctx srv -> QueuePair.port_num qp = port_num srv -> refers_own init qp ->
  qp_view w1 q = Some (mkQpInfo init
    (rc_configured (builder_for srv req) (rc_lid data) (rc_gid data) (rq_remote_qpn req)
       (rq_starting_psn req) (Verbs.qp_num w1 q))) ->
  exists r s', reply cm req qp (w1, srv) = Done (r, s') /\ handled base (w, srv) s' /\
    (r = Ok () -> accepted srv (fst s') (snd s') cm data req (cm_outbox w cm) qp) /\
    (healthy w1 -> is_Some (cm_context w cm) -> r = Ok () /\ healthy (fst s')).
Proof.
  intros q Hok Hc1 Hf Hsrq Hctx Hport Hown Hv. unfold reply.
  destruct (rc_data_spec qp w1) as (rd & w2 & Hrd & Hq2 & Hc2 & Hh2 & Hd).
  rewrite (bind_done _ _ _ _ _ (onW_run _ (w1, srv) _ _ Hrd)). pose proof (fresh_qp_quiet _ _ _ _ Hf Hq2) as Hf2.
  assert (Hc12 : cm_same w w2) by by transitivity w1. destruct rd as [d|e]; cbn [fst snd].
  2: { destruct (fresh_qp_drop _ _ _ Hf2) as (w3 & Hdr & Hl3 & Hs3).
       rewrite (bind_done _ _ _ _ _ (onW_run _ (w2, srv) _ _ Hdr)). eexists _, _. split; [done|].
       split; [|split; [done|intros Hw; by specialize (Hh2 Hw)]].
       split; [exact (shares_quiet _ _ _ _ Hl3 Hs3 Hok)|]. split; [|done]. intros p.
       assert (Hc3 : cm_same w2 w3) by (eapply (stable_qp_drop cm_same qp); [apply Hf|exact Hdr]).
       cbn. destruct (Hc3 p) as [-> _]. apply Hc12. }
  rewrite bind_run. cbn [onW QueuePair.qp_num gets fst snd]. fold q.
  set (n := Verbs.qp_num w2 q). assert (Hn : Verbs.qp_num w1 q = n) by (symmetry; apply Hq2).
  rewrite Hn in Hv. assert (Hv2 : qp_view w2 q = _) by (rewrite (proj1 (proj2 Hq2)); exact Hv).
  destruct (insert_rc_spec base w w2 srv (encode_rc_key_by_cm cm) qp _ Hok Hf2 Hsrq Hv2 Hown eq_refl)
    as (w3 & Hins & Hok3 & Hc3 & Hh3 & Hv3 & Hw3).
  rewrite (bind_done _ _ _ _ _ Hins). unfold CMReplyer.send_reply.
  match goal with |- context [CMWrapper.send cm ?m ?e] =>
    destruct (send_spec cm m e w3) as (r & w4 & Hs & Hq4 & Ho4 & Hctx4 & Hout4 & Hh4) end.
  rewrite (onW_run _ (w3, _) _ _ Hs). eexists _, _. split; [done|]. cbn [fst snd].
  assert (Hc : cm_same w w3) by by transitivity w2.
  split; [|split].
  - split; [apply (shares_quiet _ _ w3); [apply Hq4|apply Hq4|exact Hok3]|]. split; [|done].
    intros p. cbn. rewrite (send_contexts _ _ _ _ _ _ Hs p). apply Hc.
  - intros ->. exists n. split; [done|]. split; [|split].
    + intros Hk. rewrite (proj1 (proj2 (proj2 Hq4))). by rewrite (Hw3 Hk).
    + exists init. by rewrite (proj1 (proj2 Hq4)).
    + rewrite Hout4. cbn [is_Ok]. destruct (Hc cm) as [_ ->]. by rewrite (Hd d eq_refl), Hctx, Hport.
  - intros Hw Hs4. assert (Hw3' : healthy w3) by (apply Hh3, Hq2, Hw). split; [|by apply Hq4].
    apply Hh4; [done|]. by rewrite (proj1 (Hc cm)).
Qed.

Lemma handled_refl base s : server_ok base s -> handled base s s.
Proof. intros Hok. by split; [|split]. Qed.

(** Calls that concern neither resources nor queue pairs nor identifiers. *)
Lemma handled_quiet base s w' :
  server_ok base s -> live w' = live (fst s) -> same_qps qp_view (fst s) w' -> same_contexts (fst s) w' ->
  handled base s (w', snd s).
Proof. intros Hok Hl Hs Hc. split; [exact (shares_quiet _ _ _ _ Hl Hs Hok)|]. by split_and!. Qed.

Lemma rejected base s w1 cm code :
  server_ok base s -> live w1 = live (fst s) -> same_qps qp_view (fst s) w1 -> same_contexts (fst s) w1 ->
  exists s', (_ ← onW (CMReplyer.send_reject cm (code : Z)); mret (Err (Creation 0) : Result CMError unit))
      (w1, snd s) = Done (Err (Creation 0), s') /\ handled base s s'.
Proof.
  intros Hok Hl Hs Hc. unfold CMReplyer.send_reject.
  match goal with |- context [CMWrapper.send cm ?m ?e] =>
    destruct (send_spec cm m e w1) as (r & w2 & Hsend & (Hl2 & Hs2 & _) & _) end.
  rewrite (bind_done _ _ _ _ _ (onW_run _ (w1, snd s) _ _ Hsend)). eexists. split; [done|].
  apply (handled_quiet base s w2); [done|congruence| |].
  - intros q. by rewrite Hs2, Hs.
  - intros p. by rewrite (send_contexts _ _ _ _ _ _ Hsend p), Hc.
Qed.

Lemma or_reject_ok {E A} cm code (m : M W (Result E A)) w srv a w1 :
  m w = Done (Ok a, w1) -> or_reject cm code m (w, srv) = Done (Ok a, (w1, srv)).
Proof. intros Hm. unfold or_reject. by rewrite (bind_done _ _ _ _ _ (onW_run _ (w, srv) _ _ Hm)). Qed.

Lemma or_reject_err {E A B} cm code (m : M W (Result E A)) w srv e w1 (k : A -> M _ (Result CMError B)) :
  m w = Done (Err e, w1) ->
  (x ←? or_reject cm code m; k x) (w, srv) =
  (_ ← onW (CMReplyer.send_reject cm code); mret (Err (Creation 0))) (w1, srv).
Proof.
  intros Hm. unfold or_reject. rewrite try_as_bind, bind_assoc.
  by rewrite (bind_done _ _ _ _ _ (onW_run _ (w, srv) _ _ Hm)), bind_assoc.
Qed.

Lemma handle_req_spec base cm ev s :
  server_ok base s -> well_formed ev = true -> event ev = IB_CM_REQ_RECEIVED ->
  exists req, param ev = ReqRcvd req /\
  exists r s', handle_req cm ev s = Done (r, s') /\ handled base s s' /\
    (r = Ok () -> exists qp,
       accepted (snd s) (fst s') (snd s') cm (of_bytes (private_data ev)) req (cm_outbox (fst s) cm) qp) /\
    (healthy (fst s) -> is_Some (cm_context (fst s) cm) -> r = Ok () /\ healthy (fst s')).
Proof.
  destruct s as [w srv]. intros Hok Hwf Hev. unfold well_formed in Hwf. rewrite Hev in Hwf.
  unfold handle_req. destruct (param ev) as [req| | |] eqn:Hp; try done. exists req. split; [done|].
  set (data := of_bytes (private_data ev) : RCConnectionData). unfold getX. rewrite bind_run. cbn [fst snd].
  destruct (rc_connect_split (C := C) (builder_for srv req) (rc_lid data) (rc_gid data) (rq_remote_qpn req)
    (rq_starting_psn req) w) as (r1 & w1 & H1 & Hh1 & Hr1).
  assert (Hc1 : cm_same w w1) by by eapply (stable_build_rc cm_same).
  destruct r1 as [pq|e].
  2: { rewrite (or_reject_err _ _ _ _ _ _ _ _ H1).
       destruct (rejected base (w, srv) w1 cm 2 Hok) as (s' & Hrun & Hhd); [apply Hr1|apply Hr1|intros p; apply Hc1|].
       eexists _, s'. split; [exact Hrun|]. split; [done|]. split; [done|]. intros Hw. by specialize (Hh1 Hw). }
  destruct Hr1 as (Hcomm & r2 & w2 & H2 & Hh2 & Hr2).
  rewrite try_as_bind, (bind_done _ _ _ _ _ (or_reject_ok _ _ _ _ _ _ _ H1)).
  assert (Hc2 : cm_same w w2) by (transitivity w1; [done|by eapply (stable_bring_up_rc cm_same)]).
  destruct r2 as [qp|e].
  2: { rewrite (or_reject_err _ _ _ _ _ _ _ _ H2).
       destruct (rejected base (w, srv) w2 cm 3 Hok) as (s' & Hrun & Hhd); [apply Hr2|apply Hr2|intros p; apply Hc2|].
       eexists _, s'. split; [exact Hrun|]. split; [done|]. split; [done|]. intros Hw. by destruct (Hh2 Hw). }
  destruct Hr2 as ((init & Hown & Hv) & Hf & Hctx & Hsrq & Hport).
  rewrite try_as_bind, (bind_done _ _ _ _ _ (or_reject_ok _ _ _ _ _ _ _ H2)).
  destruct (reply_spec base w w2 srv cm data req qp init) as (r & s' & Hrun & Hhd & Ha & Hh); try done.
  exists r, s'. split; [exact Hrun|]. split; [done|]. split; [intros Hr; exists qp; by apply Ha|].
  intros Hw Hsome. apply Hh; [by apply Hh2|done].
Qed.

Lemma handle_dreq_spec base cm ev s :
  server_ok base s ->
  exists s', handle_dreq cm ev s = Done (Ok (), s') /\ handled base s s' /\
    registered_rc (snd s') = delete (encode_rc_key_by_cm cm) (registered_rc (snd s)).
Proof.
  destruct s as [w srv]. intros Hok. unfold handle_dreq, remove_rc, getX, onX.
  rewrite !bind_assoc, bind_run. cbn [snd]. rewrite bind_assoc, bind_run. cbn [fst snd].
  set (key := encode_rc_key_by_cm cm).
  destruct (registered_rc srv !! key) as [qp|] eqn:Hq; cbn [drop_old].
  - destruct (shares_remove _ _ _ _ _ Hok Hq) as (w' & Hd & _ & Hok' & _).
    rewrite (bind_done _ _ _ _ _ (onW_run _ (w, set_rc (delete key (registered_rc srv)) srv) _ _ Hd)). eexists. split; [done|]. split; [|done].
    split; [exact Hok'|]. split; [|done]. intros p.
    assert (Hc : cm_same w w'). { eapply (stable_qp_drop cm_same qp); [|exact Hd]. by destruct (reg_keeps _ _ _ Hok _ _ Hq). }
    apply Hc.
  - rewrite bind_ret. eexists. split; [done|]. cbn. split; [|done].
    split; [|by split_and!]. unfold server_ok. cbn. by rewrite delete_id.
Qed.

Lemma dispatch_spec base cm ev s :
  server_ok base s -> well_formed ev = true ->
  exists r s', dispatch_event callbacks cm ev s = Done (r, s') /\ handled base s s'.
Proof.
  intros Hok Hwf. unfold dispatch_event, callbacks, accept. pose proof (handled_refl base s Hok) as Hr.
  destruct (event ev) eqn:Hev; cbn; try by eexists _, s.
  - destruct (handle_req_spec base cm ev s Hok Hwf Hev) as (req & _ & r & s' & Hrun & Hh & _). by exists r, s'.
  - destruct (handle_dreq_spec base cm ev s Hok) as (s' & Hrun & Hh & _). by eexists _, s'.
Qed.

(** An event for an identifier that exists. *)
Lemma server_deliver base cm ev s :
  server_ok base s -> well_formed ev = true -> is_Some (cm_context (fst s) cm) ->
  exists alive s', deliver callbacks cm ev s = Done (alive, s') /\ server_ok base s' /\
    ctx (snd s') = ctx (snd s) /\ port_num (snd s') = port_num (snd s).
Proof.
  intros Hok Hwf [c Hc]. destruct (Z.eqb_spec c null) as [->|Hn].
  { exists true, s. split; [|done]. unfold deliver, cm_handler.
    rewrite bind_assoc, (bind_done _ _ _ _ _ (onW_run _ _ _ _ (context_read _ _ _ Hc))).
    by rewrite <- surjective_pairing. }
  destruct (dispatch_spec base cm ev s Hok Hwf) as (r & [w1 srv1] & Hd & Hok1 & Hc1 & Hx & Hp).
  destruct (deliver_run callbacks cm ev s c r w1 srv1 Hc Hn Hd Hc1) as (w2 & Hrun & (Hl & Hs & _) & _).
  exists (is_Ok r), (w2, srv1). split; [done|]. split; [|done]. exact (shares_quiet _ _ _ _ Hl Hs Hok1).
Qed.

Lemma arrive_spec base (a : arrival) s :
  server_ok base s -> well_formed (match a with Incoming _ ev | Message _ ev => ev end) = true ->
  exists s', arrive a s = Done ((), s') /\ server_ok base s'.
Proof.
  intros Hok Hwf. destruct a as [l ev|cm ev]; unfold arrive; rewrite bind_run; cbn [onW gets].
  - rewrite <- surjective_pairing. destruct (cm_context (fst s) l) as [c|] eqn:Hc; [|by exists s].
    destruct (cm_incoming l (fst s)) as [cm w1] eqn:Hin.
    rewrite (bind_done _ _ _ cm (w1, snd s)) by (unfold onW, call; by rewrite Hin).
    apply incoming_law in Hin as ((Hl & Hs & _) & _ & Hn).
    pose proof (shares_quiet _ _ _ _ Hl Hs Hok : server_ok base (w1, snd s)) as Hok1.
    unfold is_null. destruct (Z.eqb_spec cm null) as [->|Hcm]; [by eexists|].
    destruct (Hn Hcm) as (_ & Hc1 & _).
    destruct (server_deliver base cm ev (w1, snd s) Hok1 Hwf) as (alive & s' & Hd & Hok' & _);
      [cbn; rewrite Hc1, Hc; by eexists|].
    rewrite (bind_done _ _ _ _ _ Hd). by exists s'.
  - rewrite <- surjective_pairing. destruct (cm_context (fst s) cm) as [c|] eqn:Hc; [|by exists s].
    destruct (server_deliver base cm ev s Hok Hwf) as (alive & s' & Hd & Hok' & _); [by rewrite Hc; eexists|].
    rewrite (bind_done _ _ _ _ _ Hd). by exists s'.
Qed.


End rc_server.

(** ** Queries by hint *)
Section service.
Import ConnectionService.
Context {W C : Type} `{!Cfg, !DeviceOps W, !QueueOps W, !CmOps W, !VerbsLaws W, !PortLaws W, !CmLaws W}.
Abbreviation QP := (QueuePair.QueuePair C).

Lemma meta_spec (qp : QP) (w : W) :
  let a := address_of (W := W) (Context.get_dev_ref (QueuePair.ctx qp)) (QueuePair.port_num qp) in
  exists r w', get_datagram_meta qp w = Done (r, w') /\ quiet w w' /\ cm_same w w' /\
    (healthy w -> r = Ok (mkMeta a.1 a.2)).
Proof.
  intros a. unfold get_datagram_meta. rewrite try_as_bind.
  destruct (port_address_spec (Context.get_dev_ref (QueuePair.ctx qp)) (QueuePair.port_num qp) w)
    as (r & w' & Hr & Hq & Hh & Ha). rewrite (bind_done _ _ _ _ _ Hr).
  assert (Hc : cm_same w w') by by eapply (stable_port_address cm_same).
  destruct r as [b|e]; eexists _, w'; (split; [done|]; split; [done|]; split; [done|]); intros Hw.
  - by rewrite (Ha b eq_refl).
  - by specialize (Hh Hw).
Qed.

(** The answer for a hint. *)
Definition answer (svc : ConnectionService QP) (w : W) (hint : Z) : ib_cm_sidr_rep_param :=
  match get_qp hint svc with
  | Some qp =>
      let a := address_of (W := W) (Context.get_dev_ref (QueuePair.ctx qp)) (QueuePair.port_num qp) in
      CMWrapper.sidr_rep_with (mkMeta a.1 a.2)
        (mkSidrRep (Verbs.qp_num w (QueuePair.inner_qp qp)) (QueuePair.qkey qp) IB_SIDR_SUCCESS [] 0)
  | None => CMWrapper.sidr_rep_with (0 : Z) (mkSidrRep 0 0 IB_SIDR_NO_QP [] 0)
  end.

Lemma handle_sidr_req_spec cm ev (w : W) (svc : ConnectionService QP) :
  healthy w -> is_Some (cm_context w cm) ->
  exists w', handle_sidr_req (R := DatagramMeta) cm ev (w, svc) = Done (Ok (), (w', svc)) /\
    same_contexts w w' /\ quiet w w' /\
    cm_outbox w' cm = cm_outbox w cm ++ [MSidrRep (answer svc w (of_bytes (private_data ev)))].
Proof.
  intros Hw Hc. unfold handle_sidr_req, getX. rewrite bind_run. cbn [snd].
  set (hint := of_bytes (private_data ev) : Z).
  assert (Hgen : exists r w1, generate_all_reply_data (R := DatagramMeta) svc hint w = Done (r, w1) /\ quiet w w1 /\
    cm_same w w1 /\ match r with
    | Ok (reply, qkey, num) => answer svc w hint =
        CMWrapper.sidr_rep_with (reply : DatagramMeta) (mkSidrRep num qkey IB_SIDR_SUCCESS [] 0)
    | Err _ => answer svc w hint = CMWrapper.sidr_rep_with (0 : Z) (mkSidrRep 0 0 IB_SIDR_NO_QP [] 0)
    end).
  { unfold generate_all_reply_data, answer. destruct (get_qp hint svc) as [qp|].
    - rewrite try_as_bind. cbn [generate_connection_reply qp_reply].
      destruct (meta_spec qp w) as (r & w1 & Hr & Hq & Hs & Hok). rewrite (Hok Hw) in Hr.
      rewrite (bind_done _ _ _ _ _ Hr), bind_run. cbn. eexists _, w1. split; [done|]. split; [done|].
      split; [done|]. by rewrite (proj1 (proj2 (proj2 Hq))).
    - eexists _, w. split; [done|]. split; [apply quiet_refl|]. split; [|done]. intros p. by split. }
  destruct Hgen as (r & w1 & Hr & Hq1 & Hs1 & Hans).
  rewrite (bind_done _ _ _ _ _ (onW_run _ (w, svc) _ _ Hr)). unfold CMReplyer.send_sidr_reply.
  assert (Hsend : exists w2, CMWrapper.send cm (MSidrRep (answer svc w hint)) "Send SIDR reply" w1 = Done (Ok (), w2) /\
    same_contexts w w2 /\ quiet w w2 /\
    cm_outbox w2 cm = cm_outbox w cm ++ [MSidrRep (answer svc w hint)]).
  { destruct (send_spec cm (MSidrRep (answer svc w hint)) "Send SIDR reply" w1) as (rs & w2 & Hs & Hq2 & _ & _ & Hob & Hok).
    assert (rs = Ok ()) as -> by (apply Hok; [by apply Hq1|by rewrite (proj1 (Hs1 _))]). exists w2. split; [done|].
    split; [intros p; rewrite (send_contexts _ _ _ _ _ _ Hs p); apply Hs1|]. split; [by eapply quiet_trans|].
    rewrite Hob. cbn. by rewrite (proj2 (Hs1 _)). }
  destruct Hsend as (w2 & Hs & Hpost). exists w2. split; [|done].
  destruct r as [[[reply qkey] num]|e]; rewrite <- Hans; exact (onW_run _ (w1, svc) _ _ Hs).
Qed.

End service.

(** A listening server that gets two requests and, on the first one's identifier, a
    disconnection. *)
Definition sample_listener : sim := set_cm {[7 := (5, [])]} sim_init.
Definition sample_req : ib_cm_event :=
  mkEvent IB_CM_REQ_RECEIVED (to_bytes (mkRC 7 (mkGid 1 2))) (ReqRcvd (mkReqEvent 1003 1003 16 16 1 7)).
Definition sample_arrivals : list RcServer.arrival :=
  [RcServer.Incoming 7 sample_req; RcServer.Incoming 7 sample_req;
   RcServer.Message (fresh ({[null; 7]} : gset Z)) (mkEvent IB_CM_DREQ_RECEIVED [] NoParam)].

Section witnesses.
#[local] Existing Instance kernel_cfg.


(** In that run both requests are accepted and one queue pair stays. *)
Example sample_arrivals_run :
  match RcServer.arrive_all (C := Empty_set) sample_arrivals (sample_listener, RcServer.create (Builder.ctx sample_builder) 1) with
  | Done (_, (w, srv)) => (size (RcServer.registered_rc srv), size (s_live w)) = (1, 3)%nat
  | Panic => False
  end.
Proof. by vm_compute. Qed.

End witnesses.
