(* ===== verification/KernelClient.v ===== *)
(** * The clients of the kernel build

    [RCCommStruct] (src/KRdmaKit/src/queue_pairs/rc_comm.rs), the callbacks of a
    connecting queue pair (callbacks.rs), [PreparedQueuePair::handshake]
    (handshake_kernel.rs) and the [DatagramEndpointQuerier] (endpoint.rs).

    A client sends its request and waits for a completion that its callbacks
    signal.  What arrives in the meantime is an argument of the model
    ([wait_env]), so the theorems hold for every behaviour of the network and of
    the peer.  The completion of a connecting queue pair is the state of its
    callbacks, the queue pair itself is fixed. *)

From S2P Require Import Prelude Bytes Errors Verbs CmVerbs Sim Context CompletionQueue QueuePair BringUp.
From S2P Require Import Endpoint Registry Stable CommManager Services.

Module RcComm.
Section comm.
Context {W : Type} `{!CmOps W}.

Record RCCommStruct := mkComm { cm : CMWrapper.CMWrapper }.

Definition new (dev cm_ctx : ptr) : M W (Result CMError RCCommStruct) :=
  cm ←? CMWrapper.new_from_callbacker dev cm_ctx; mret (Ok (mkComm cm)).
Definition send_req {T} `{!Wire T} (self : RCCommStruct) (req : ib_cm_req_param) (pri : T) :=
  CMWrapper.send_req (cm self) req pri.
Definition send_rep {T} `{!Wire T} (self : RCCommStruct) (rep : ib_cm_rep_param) (pri : T) :=
  CMWrapper.send_reply (cm self) rep pri.
Definition explicit_drop (self : RCCommStruct) : M W unit := CMWrapper.explicit_drop (cm self).

(** The drop of a connected queue pair destroys its identifier. *)
#[export] Instance comm_peer : Peer W RCCommStruct := {| release_peer := explicit_drop |}.

End comm.
End RcComm.

(** ** Connecting a queue pair *)
Module Handshake.
Import RcComm.
Section handshake.
Context {W : Type} `{!Cfg, !DeviceOps W, !QueueOps W, !DataOps W, !CmOps W}.

(** [self.rc_comm.as_mut().unwrap().done()]. *)
Definition signal_done (self : QueuePair.QueuePair RCCommStruct) : M (W * completion) unit :=
  match QueuePair.comm self with Some _ => onX completion_done | None => panic end.

Definition handle_rep (self : QueuePair.QueuePair RCCommStruct) (reply_cm : ptr) (ev : ib_cm_event) :
  M (W * completion) (Result CMError unit) :=
  let data : RCConnectionData := of_bytes (private_data ev) in
  match param ev with
  | RepRcvd rep =>
      _ ←? onW (map_errM (fun _ => Creation 0)
             (bring_up_rc_inner self (rc_lid data) (rc_gid data) (rp_remote_qpn rep) (rp_starting_psn rep)));
      _ ← signal_done self;
      _ ← onW (CMReplyer.send_rtu reply_cm 0);
      mret (Ok ())
  | _ => panic
  end.

Definition handle_rej (self : QueuePair.QueuePair RCCommStruct) (reply_cm : ptr) (ev : ib_cm_event) :
  M (W * completion) (Result CMError unit) :=
  _ ← signal_done self; mret (Ok ()).

Definition callbacks (self : QueuePair.QueuePair RCCommStruct) : CMCallbacker (W * completion) :=
  mkCallbacker accept (handle_rep self) accept (handle_rej self) accept accept accept.

(** [RCCommStruct::wait]: the events that arrive are handled meanwhile. *)
Definition wait (self : QueuePair.QueuePair RCCommStruct) (cm_id : ptr) (env : wait_env) :
  M W (Result Error unit) := fun w =>
  match deliver_all (callbacks self) cm_id (arrivals env) (w, completion_init) with
  | Done (_, (w, done)) => Done (fst (completion_wait (signal env) done), w)
  | Panic => Panic
  end.

Definition request (self : Builder.PreparedQueuePair RCCommStruct) (remote_service_id : Z)
  (path : sa_path_rec) (qpn : Z) : ib_cm_req_param :=
  mkReq path remote_service_id qpn IB_QPT_RC qpn [] 0 16 16 20 1 20
    (Builder.p_retry_count self) (Builder.p_rnr_retry self) 15.

(** The part in which an error drops the connected queue pair. *)
Definition connect (self : Builder.PreparedQueuePair RCCommStruct) (comm : RCCommStruct)
  (remote_service_id : Z) (path : sa_path_rec) (env : wait_env) : M W (Result ControlpathError unit) :=
  let rc_qp := QueuePair.with_comm comm (Builder.inner self) in
  data ←? map_errM (fun err => CreationError "RC queue pair"
             (from_kernel_errno match err with Creation errno => errno | _ => 0 end)) (rc_data rc_qp);
  qpn ← QueuePair.qp_num rc_qp;
  _ ←? map_errM (fun _ => QueryError "send request error" (from_kernel_errno 0))
         (send_req comm (request self remote_service_id path qpn) data);
  _ ←? map_errM (fun err => ContextError "wait completion error" err)
         (wait rc_qp (CMWrapper.inner (cm comm)) env);
  status ←? QueuePair.status rc_qp;
  mret (if bool_decide (status = ReadyToSend) then Ok ()
        else Err (CreationError "qp status error" (from_kernel_errno 0))).

(** [arc] is the address of the [Arc] that becomes the context of the identifier. *)
Definition handshake (self : Builder.PreparedQueuePair RCCommStruct) (arc : ptr)
  (remote_service_id : Z) (path : sa_path_rec) (env : wait_env) :
  M W (Result ControlpathError (QueuePair.QueuePair RCCommStruct)) :=
  let rc_qp := Builder.inner self in
  if bool_decide (QueuePair.mode rc_qp <> RC) then
    match QueuePair.comm rc_qp with
    | None => panic
    | Some _ =>
        _ ← QueuePair.drop rc_qp;
        mret (Err (CreationError "QP mode that is not RC does not need handshake to bring it up!"
                     (from_kernel_errno 0)))
    end
  else
    Builder.try_or
      (map_errM (fun _ => CreationError "ib_cm_id" (from_kernel_errno 0))
         (RcComm.new (Device.raw_ptr (Context.get_dev_ref (QueuePair.ctx rc_qp))) arc))
      (QueuePair.drop rc_qp)
      (fun comm =>
         let rc_qp := QueuePair.with_comm comm rc_qp in
         Builder.try_or (connect self comm remote_service_id path env) (QueuePair.drop rc_qp)
           (fun _ => mret (Ok rc_qp))).

End handshake.
End Handshake.

(** ** Querying a datagram endpoint *)
Module Querier.
Section querier.
Context {W : Type} `{!Cfg, !DeviceOps W, !CmOps W}.

Record DatagramQuerierInner := mkInner {
  q_completion : completion; q_ctx : Context.Context;
  q_endpoint : option Endpoint.DatagramEndpoint; q_port_num : Z }.
Record DatagramEndpointQuerier := mkQuerier { sender : CMSender.CMSender; inner : DatagramQuerierInner }.

Definition inner_create (ctx : Context.Context) (port_num : Z) : DatagramQuerierInner :=
  mkInner completion_init ctx None port_num.

Definition create (ctx : Context.Context) (local_port_num : Z) (arc : ptr) :
  M W (Result ControlpathError DatagramEndpointQuerier) :=
  sender ←? map_errM (fun err => match err with
                                 | Creation i => CreationError "UD Querier" (from_kernel_errno i)
                                 | _ => CreationError "UD Querier unknown error" EAGAIN
                                 end)
              (CMSender.new arc (Device.raw_ptr (Context.get_dev_ref ctx)));
  mret (Ok (mkQuerier sender (inner_create ctx local_port_num))).

Definition drop_endpoint (e : option Endpoint.DatagramEndpoint) : M W unit :=
  match e with
  | Some e => Context.drop_address_handler (Endpoint.address_handler e)
  | None => mret ()
  end.

Definition with_endpoint (e : option Endpoint.DatagramEndpoint) (self : DatagramQuerierInner) :=
  mkInner (q_completion self) (q_ctx self) e (q_port_num self).
Definition inner_done (self : DatagramQuerierInner) : DatagramQuerierInner :=
  mkInner (completion_done (q_completion self)) (q_ctx self) (q_endpoint self) (q_port_num self).

(** The reply with and without the [dct] feature. *)
Definition endpoint_of (dct : bool) (self : DatagramQuerierInner) (rep : ib_cm_sidr_rep_event_param) :
  M W (Result ControlpathError Endpoint.DatagramEndpoint) :=
  if dct then
    let reply : DynamicConnectedMeta := of_bytes (sr_info rep) in
    Endpoint.new (q_ctx self) (q_port_num self) (meta_lid (datagram_addr reply))
      (meta_gid (datagram_addr reply)) (sr_qpn rep) (sr_qkey rep) (meta_dct_num reply) (meta_dc_key reply)
  else
    let reply : DatagramMeta := of_bytes (sr_info rep) in
    Endpoint.new (q_ctx self) (q_port_num self) (meta_lid reply) (meta_gid reply) (sr_qpn rep)
      (sr_qkey rep) 0 0.

Definition is_success (st : ib_cm_sidr_status) : bool :=
  match st with IB_SIDR_SUCCESS => true | _ => false end.

(** An endpoint of an earlier reply is dropped when the field is assigned. *)
Definition handle_sidr_rep (dct : bool) (reply_cm : ptr) (ev : ib_cm_event) :
  M (W * DatagramQuerierInner) (Result CMError unit) :=
  match param ev with
  | SidrRepRcvd rep =>
      self ← getX;
      _ ← (if negb (is_success (sr_status rep)) then mret ()
           else
             e ← onW (endpoint_of dct self rep);
             _ ← onX (with_endpoint (ok e));
             onW (drop_endpoint (q_endpoint self)));
      _ ← onX inner_done;
      mret (Ok ())
  | _ => panic
  end.

Definition callbacks (dct : bool) : CMCallbacker (W * DatagramQuerierInner) :=
  mkCallbacker accept accept accept accept accept accept (handle_sidr_rep dct).

(** What [query] does up to its result; the state is the one of the callbacks. *)
Definition query_steps (dct : bool) (self : DatagramEndpointQuerier) (remote_service_id qd_hint : Z)
  (path : sa_path_rec) (env : wait_env) :
  M (W * DatagramQuerierInner) (Result ControlpathError Endpoint.DatagramEndpoint) :=
  _ ←? onW (map_errM (fun err => match err with
                                 | Creation i => QueryError "" (from_kernel_errno i)
                                 | _ => QueryError "" EAGAIN
                                 end)
         (CMSender.send_sidr (sender self) (mkSidrReq path remote_service_id 20 [] 0 3) (qd_hint : Z)));
  _ ← deliver_all (callbacks dct) (CMWrapper.inner (CMSender.inner (sender self))) (arrivals env);
  inner ← getX;
  match fst (completion_wait (signal env) (q_completion inner)) with
  | Err err => mret (Err (QueryError "Datagram Endpoint" err))
  | Ok _ =>
      _ ← onX (with_endpoint None);
      mret (ok_or (QueryError "Failed to get the endpoint" EAGAIN) (q_endpoint inner))
  end.

(** At the end the local [querier_inner] is dropped, then the sender. *)
Definition query (dct : bool) (self : DatagramEndpointQuerier) (remote_service_id qd_hint : Z)
  (path : sa_path_rec) (env : wait_env) : M W (Result ControlpathError Endpoint.DatagramEndpoint) :=
  fun w =>
  match query_steps dct self remote_service_id qd_hint path env (w, inner self) with
  | Panic => Panic
  | Done (r, (w, inner)) =>
      (_ ← drop_endpoint (q_endpoint inner); _ ← CMSender.drop (sender self); mret r) w
  end.

End querier.
End Querier.

(** ** The handshake against any peer *)
Section handshake_proofs.
Import RcComm Handshake.
Context {W : Type} `{!Cfg, !DeviceOps W, !QueueOps W, !DataOps W, !CmOps W}.
Context `{!VerbsLaws W, !PortLaws W, !CmLaws W}.
Implicit Types (w : W) (x : completion).

Section connecting.
Context (qp : QueuePair.QueuePair RCCommStruct) (comm : RCCommStruct) (v : qp_info) (arc : ptr).
Context (Hcomm : QueuePair.comm qp = Some comm) (Hmode : QueuePair.mode qp = RC).
Context (Hreset : qp_state (qi_attr v) = IB_QPS_RESET) (Htype : init_qp_type (qi_init v) = IB_QPT_RC).
Context (Harc : arc <> null).
Abbreviation q := (QueuePair.inner_qp qp).
Abbreviation cm_id := (CMWrapper.inner (cm comm)).

(** The state of a queue pair that a reply has connected. *)
Definition ready (ev : ib_cm_event) (rep : ib_cm_rep_event_param) (num : Z) : qp_info :=
  let data : RCConnectionData := of_bytes (private_data ev) in
  mkQpInfo (qi_init v) (rc_ready qp (rc_lid data) (rc_gid data) (rp_remote_qpn rep) (rp_starting_psn rep)
    num (qi_attr v)).
Definition ready_by (evs : list ib_cm_event) (num : Z) (u : qp_info) : Prop :=
  exists ev rep, ev ∈ evs /\ event ev = IB_CM_REP_RECEIVED /\ param ev = RepRcvd rep /\ u = ready ev rep num.

(** Events whose handler can fail. *)
Definition culprit (evs : list ib_cm_event) w : Prop :=
  exists ev, ev ∈ evs /\
    ((event ev = IB_CM_REP_RECEIVED /\ ~ healthy w) \/ exists n, event ev = IB_CM_OTHER n).

Definition progress (evs : list ib_cm_event) w (alive : bool) w' : Prop :=
  only_qp q w w' /\ (forall p, p <> cm_id -> cm_context w' p = cm_context w p) /\
  cm_context w' cm_id = (if alive then Some arc else None) /\
  (exists u, qp_view w' q = Some u /\
     (u = v \/ ready_by evs (Verbs.qp_num w q) u \/ (alive = false /\ qp_state (qi_attr u) <> IB_QPS_RTS))) /\
  if alive then healthy w -> healthy w' else culprit evs w.

Lemma rep_bring_up evs ev rep w u :
  let data : RCConnectionData := of_bytes (private_data ev) in
  ev ∈ evs -> event ev = IB_CM_REP_RECEIVED -> param ev = RepRcvd rep ->
  qp_view w q = Some u -> (u = v \/ ready_by evs (Verbs.qp_num w q) u) ->
  exists r w1, bring_up_rc_inner qp (rc_lid data) (rc_gid data) (rp_remote_qpn rep) (rp_starting_psn rep) w =
      Done (r, w1) /\ only_qp q w w1 /\ (healthy w -> r = Ok () /\ healthy w1) /\
    exists u', qp_view w1 q = Some u' /\
      (u' = v \/ ready_by evs (Verbs.qp_num w q) u' \/ (is_Ok r = false /\ qp_state (qi_attr u') <> IB_QPS_RTS)).
Proof.
  intros data Hin Hev Hp Hu [->|Hr].
  - destruct (bring_up_rc_inner_spec qp (rc_lid data) (rc_gid data) (rp_remote_qpn rep) (rp_starting_psn rep)
      w v Hmode Hu Hreset) as (r & w1 & Hrun & Ho & Hout & Hh).
    exists r, w1. split; [done|]. split; [done|]. split; [by auto|]. destruct r as [[]|e]; cbn in Hout.
    + eexists. split; [exact Hout|]. right. left. by exists ev, rep.
    + destruct Hout as [[(u & Hu1 & Hs) _]|[[(u & Hu1 & Hs) _]|[(u & Hu1 & Hs) _]]];
        exists u; (split; [done|]); right; right; by rewrite Hs.
  - assert (Hs : qp_state (qi_attr u) <> IB_QPS_RESET) by (by destruct Hr as (? & ? & _ & _ & _ & ->)).
    destruct (bring_up_rc_inner_idle qp (rc_lid data) (rc_gid data) (rp_remote_qpn rep) (rp_starting_psn rep)
      w u Hmode Hu Hs) as (r & w1 & Hrun & Ho & Hu1 & Hh).
    exists r, w1. split; [done|]. split; [done|]. split; [done|]. exists u. split; [done|]. by right; left.
Qed.

Lemma dispatch_qp evs ev w x u :
  ev ∈ evs -> well_formed ev = true -> qp_view w q = Some u ->
  (u = v \/ ready_by evs (Verbs.qp_num w q) u) ->
  exists r w1 x1, dispatch_event (callbacks qp) cm_id ev (w, x) = Done (r, (w1, x1)) /\ only_qp q w w1 /\
    same_contexts w w1 /\
    (is_Ok r = true -> healthy w -> healthy w1) /\ (is_Ok r = false -> culprit evs w) /\
    exists u', qp_view w1 q = Some u' /\
      (u' = v \/ ready_by evs (Verbs.qp_num w q) u' \/ (is_Ok r = false /\ qp_state (qi_attr u') <> IB_QPS_RTS)).
Proof.
  intros Hin Hwf Hu Hst. assert (Hid : only_qp q w w) by by apply quiet_only, quiet_refl.
  assert (Hst' : exists u', qp_view w q = Some u' /\
    (u' = v \/ ready_by evs (Verbs.qp_num w q) u' \/ (true = false /\ qp_state (qi_attr u') <> IB_QPS_RTS)))
    by (exists u; split; [done|]; destruct Hst; auto).
  unfold dispatch_event, callbacks, accept. unfold well_formed in Hwf.
  destruct (event ev) eqn:Hev; cbn; try (eexists _, w, x; split; [done|]; by split_and!).
  - unfold handle_rep. destruct (param ev) as [|rep| |] eqn:Hp; try done.
    destruct (rep_bring_up evs ev rep w u Hin Hev Hp Hu Hst) as (r & w1 & Hrun & Ho & Hh & u' & Hu' & Hst1).
    assert (Hc : cm_same w w1) by by eapply (stable_bring_up cm_same).
    rewrite try_as_bind, (bind_done _ _ _ _ _ (onW_run _ (w, x) _ _ (map_errM_done _ _ _ _ _ Hrun))).
    destruct r as [[]|e]; cbn [map_err].
    + unfold signal_done. rewrite Hcomm. unfold onX. rewrite bind_run. cbn [fst snd]. unfold CMReplyer.send_rtu.
      match goal with |- context [CMWrapper.send cm_id ?m ?e] =>
        destruct (send_spec cm_id m e w1) as (r & w2 & Hs & Hq & _) end.
      rewrite (bind_done _ _ _ _ _ (onW_run _ (w1, completion_done x) _ _ Hs)).
      eexists _, w2, _. split; [done|]. split; [eapply only_qp_trans; [exact Ho|by apply quiet_only]|].
      split; [intros p; rewrite (send_contexts _ _ _ _ _ _ Hs p); apply Hc|].
      split; [intros _ Hw; apply Hq, Hh, Hw|]. split; [done|]. exists u'.
      split; [by rewrite (proj1 (proj2 Hq))|]. done.
    + eexists _, w1, x. split; [done|]. split; [done|]. split; [intros p; apply Hc|]. split; [done|].
      split; [|by exists u']. intros _. exists ev. split; [done|]. left. split; [done|].
      intros Hw. by destruct (Hh Hw).
  - unfold handle_rej, signal_done. rewrite Hcomm. eexists _, w, _. split; [done|]. by split_and!.
  - eexists _, w, x. split; [done|]. split_and!; try done; [intros _; exists ev; eauto|].
    exists u. split; [done|]. destruct Hst; auto.
Qed.

Lemma deliver_all_qp evs evs' w x u :
  evs' ⊆ evs -> Forall (fun ev => well_formed ev = true) evs' -> qp_view w q = Some u ->
  (u = v \/ ready_by evs (Verbs.qp_num w q) u) -> cm_context w cm_id = Some arc ->
  exists alive w' x', deliver_all (callbacks qp) cm_id evs' (w, x) = Done (alive, (w', x')) /\
    progress evs w alive w'.
Proof.
  revert w x u. induction evs' as [|ev evs' IH]; intros w x u Hsub Hwf Hu Hst Hc.
  - exists true, w, x. split; [done|]. split; [by apply quiet_only, quiet_refl|].
    split; [done|]. split; [done|]. split; [|done]. exists u. split; [done|]. destruct Hst; auto.
  - apply Forall_cons in Hwf as [Hw1 Hwf]. cbn [deliver_all].
    assert (Hin : ev ∈ evs) by (apply Hsub; left).
    destruct (dispatch_qp evs ev w x u Hin Hw1 Hu Hst) as (r & w1 & x1 & Hd & Ho & Hs & Hh & Hcu & u' & Hu' & Hst1).
    destruct (deliver_run (callbacks qp) cm_id ev (w, x) arc r w1 x1 Hc Harc Hd Hs)
      as (w2 & Hrun & Hq & Hc2 & Ho2 & Hw2). rewrite (bind_done _ _ _ _ _ Hrun).
    assert (Ho12 : only_qp q w w2) by (eapply only_qp_trans; [exact Ho|by apply quiet_only]).
    assert (Hctx : forall p, p <> cm_id -> cm_context w2 p = cm_context w p).
    { intros p Hp. destruct (Ho2 p Hp) as [-> _]. apply Hs. }
    assert (Hu2 : qp_view w2 q = Some u') by by rewrite (proj1 (proj2 Hq)).
    destruct (is_Ok r) eqn:Hr.
    + rewrite (Hw2 eq_refl) in *. assert (Hn : Verbs.qp_num w1 q = Verbs.qp_num w q) by apply Ho.
      destruct (IH w1 x1 u') as (alive & w' & x' & Hrun' & Hop & Hctx' & Hc' & Hview & Hfin); try done.
      { intros e He. apply Hsub. by right. }
      { rewrite Hn. destruct Hst1 as [?|[?|[? _]]]; auto. done. }
      exists alive, w', x'. split; [done|]. split; [by eapply only_qp_trans|].
      split; [intros p Hp; by rewrite Hctx', Hctx|]. split; [done|]. rewrite Hn in Hview. split; [done|].
      destruct alive; [by auto|]. destruct Hfin as (e & He & Hf). exists e. split; [done|].
      destruct Hf as [[? Hf]|?]; [left|by right]. split; [done|]. by auto.
    + exists false, w2, x1. split; [done|]. split; [done|]. split; [done|]. split; [done|]. split; [by exists u'|]. by auto.
Qed.

End connecting.
Lemma culprit_frame evs w w' : (healthy w -> healthy w') -> culprit evs w' -> culprit evs w.
Proof.
  intros Hh (ev & Hin & Hc). exists ev. split; [done|]. destruct Hc as [[? Hn]|?]; [left|by right].
  split; [done|]. by auto.
Qed.

(** The drop of a queue pair with its identifier. *)
Lemma drop_connected (qp : QueuePair.QueuePair RCCommStruct) comm arc w :
  let p := CMWrapper.inner (cm comm) in
  QueuePair.comm qp = Some comm -> exclusive w qp -> cm_context w p = Some arc -> arc <> null ->
  exists w', QueuePair.drop qp w = Done ((), w') /\ live w' = live w ∖ owned qp /\
    (forall q, q <> QueuePair.inner_qp qp -> qp_view w' q = qp_view w q) /\
    cm_context w' p = None /\ forall p', p' <> p -> cm_context w' p' = cm_context w p'.
Proof.
  intros p Hc Hx Hctx Harc.
  assert (Hrel : forall w1, cm_same w w1 -> exists w2, explicit_drop comm w1 = Done ((), w2) /\ quiet w1 w2 /\
    cm_context w2 p = None /\ forall p', p' <> p -> cm_context w2 p' = cm_context w p').
  { intros w1 Hs. destruct (explicit_drop_live (cm comm) w1 arc) as (w2 & Hr & Hq & Ho & Hn);
      [by rewrite (proj1 (Hs _))|done|]. exists w2. split; [done|]. split; [done|]. split; [done|].
    intros p' Hp. destruct (Ho p' Hp) as [-> _]. apply Hs. }
  destruct (qp_drop_peer qp w Hx) as (rw1 & w2 & w' & H1 & H2 & H3 & Hd & Hl & _ & _ & Hv).
  { intros r w1 Hde. rewrite Hc. destruct (Hrel w1) as (w2 & ? & ? & _); [|by exists w2].
    eapply (stable_destroy_qp (R := cm_same) (QueuePair.inner_qp qp)). unfold call. by rewrite Hde. }
  destruct rw1 as [r w1]. cbn [snd] in H2. rewrite Hc in H2.
  destruct (Hrel w1) as (w2' & Hr & _ & Hn & Ho).
  { eapply (stable_destroy_qp (R := cm_same) (QueuePair.inner_qp qp)). unfold call. by rewrite H1. }
  assert (w2' = w2) as -> by (cbn in H2; congruence).
  assert (Hs : cm_same w2 w') by by eapply (stable_drop_queues cm_same).
  exists w'. split; [done|]. split; [done|]. split; [done|].
  split; [by rewrite (proj1 (Hs p))|]. intros p' Hp. rewrite (proj1 (Hs p')). by apply Ho.
Qed.

Lemma drop_freed (qp : QueuePair.QueuePair RCCommStruct) comm w :
  QueuePair.comm qp = Some comm -> cm_context w (CMWrapper.inner (cm comm)) = None ->
  QueuePair.drop qp w = Panic.
Proof.
  intros Hc Hn. unfold QueuePair.drop. mgoal.
  assert (Hs : cm_same w w0).
  { eapply (stable_destroy_qp (R := cm_same) (QueuePair.inner_qp qp)). unfold call. by rewrite E. }
  rewrite Hc, bind_run. cbn. unfold explicit_drop. rewrite explicit_drop_freed; [done|].
  by rewrite (proj1 (Hs _)).
Qed.

Section connect.
Context (self : Builder.PreparedQueuePair RCCommStruct) (comm : RCCommStruct) (v : qp_info) (arc : ptr).
Abbreviation qp := (QueuePair.with_comm comm (Builder.inner self)).
Abbreviation q := (QueuePair.inner_qp (Builder.inner self)).
Abbreviation cm_id := (CMWrapper.inner (cm comm)).
Context (Hmode : QueuePair.mode (Builder.inner self) = RC).
Context (Hreset : qp_state (qi_attr v) = IB_QPS_RESET) (Htype : init_qp_type (qi_init v) = IB_QPT_RC).
Context (Harc : arc <> null).

Lemma wait_spec (env : wait_env) w :
  Forall (fun ev => well_formed ev = true) (arrivals env) -> qp_view w q = Some v ->
  cm_context w cm_id = Some arc ->
  exists r alive w', wait qp cm_id env w = Done (r, w') /\ progress qp comm v arc (arrivals env) w alive w'.
Proof.
  intros Hwf Hv Hc. unfold wait.
  destruct (deliver_all_qp qp comm v arc eq_refl Hmode Hreset Htype Harc (arrivals env) (arrivals env) w
    completion_init v) as (alive & w' & x' & -> & Hp); try done; [by left|].
  by eexists _, alive, w'.
Qed.

Definition connected (evs : list ib_cm_event) w (alive : bool) w' (r : Result ControlpathError unit) : Prop :=
  only_qp q w w' /\ (forall p, p <> cm_id -> cm_context w' p = cm_context w p) /\
  cm_context w' cm_id = (if alive then Some arc else None) /\ (alive = false -> culprit evs w) /\
  (r = Ok () -> exists u, qp_view w' q = Some u /\ ready_by qp v evs (Verbs.qp_num w q) u).

Lemma connect_spec svc path (env : wait_env) w :
  Forall (fun ev => well_formed ev = true) (arrivals env) -> qp_view w q = Some v ->
  cm_context w cm_id = Some arc ->
  exists r alive w', connect self comm svc path env w = Done (r, w') /\ connected (arrivals env) w alive w' r.
Proof.
  intros Hwf Hv Hc. unfold connect. rewrite try_as_bind.
  destruct (rc_data_spec qp w) as (rd & w1 & Hrd & Hq1 & Hc1 & _).
  rewrite (bind_done _ _ _ _ _ (map_errM_done _ _ _ _ _ Hrd)).
  assert (Hstop : forall e w2, quiet w w2 -> same_contexts w w2 -> connected (arrivals env) w true w2 (Err e)).
  { intros e w2 Hq Hs. split; [by apply quiet_only|]. split; [by intros p _|]. by rewrite Hs. }
  destruct rd as [d|e]; cbn [map_err].
  2: { eexists _, true, w1. split; [done|]. apply Hstop; [done|]. intros p. apply Hc1. }
  rewrite bind_run. cbn [QueuePair.qp_num gets]. rewrite try_as_bind. unfold send_req, CMWrapper.send_req.
  match goal with |- context [CMWrapper.send cm_id ?m ?e] =>
    destruct (send_spec cm_id m e w1) as (rs & w2 & Hs & Hq2 & _) end.
  rewrite (bind_done _ _ _ _ _ (map_errM_done _ _ _ _ _ Hs)). pose proof (quiet_trans _ _ _ Hq1 Hq2) as Hq.
  assert (Hs2 : same_contexts w w2).
  { intros p. rewrite (send_contexts _ _ _ _ _ _ Hs p). apply Hc1. }
  destruct rs as [[]|e]; cbn [map_err]; [|eexists _, true, w2; split; [done|]; by apply Hstop].
  rewrite try_as_bind. destruct (wait_spec env w2) as (rw & alive & w3 & Hw & Ho3 & Hs3 & Hc3 & Hv3 & Hal);
    [done|by rewrite (proj1 (proj2 Hq))|by rewrite Hs2|].
  rewrite (bind_done _ _ _ _ _ (map_errM_done _ _ _ _ _ Hw)).
  assert (Hn : Verbs.qp_num w2 q = Verbs.qp_num w q) by apply Hq.
  assert (Hbase : forall r w4, only_qp q w3 w4 -> cm_same w3 w4 -> r <> Ok () \/
      (exists u, qp_view w4 q = Some u /\ ready_by qp v (arrivals env) (Verbs.qp_num w q) u) ->
    connected (arrivals env) w alive w4 r).
  { intros r w4 Ho4 Hc4 Hr. split; [eapply only_qp_trans, Ho4; eapply only_qp_trans, Ho3; by apply quiet_only|].
    split; [intros p Hp; rewrite (proj1 (Hc4 p)), Hs3 by done; apply Hs2|].
    split; [by rewrite (proj1 (Hc4 _))|]. split; [|by intros ->; destruct Hr].
    intros ->. eapply culprit_frame, Hal. apply Hq. }
  destruct rw as [[]|e]; cbn [map_err].
  2: { eexists _, alive, w3. split; [done|]. apply Hbase; [by apply quiet_only, quiet_refl|done|by left]. }
  destruct Hv3 as (u & Hu & Hst). destruct (status_spec qp w3 u Hu) as (r4 & w4 & H4 & Ho4 & Hu4 & _ & Hr4).
  assert (Hc4 : cm_same w3 w4) by by eapply (stable_status cm_same).
  rewrite try_as_bind, (bind_done _ _ _ _ _ H4). destruct r4 as [s|e].
  2: { eexists _, alive, w4. split; [done|]. apply Hbase; [done|done|by left]. }
  eexists _, alive, w4. split; [done|]. apply Hbase; [done|done|]. subst s.
  case_bool_decide as Hrts; [|by left]. right. exists u. split; [done|]. rewrite <- Hn.
  destruct Hst as [->|[?|[_ Hst]]]; [by rewrite Hreset in Hrts|done|].
  by destruct (qp_state (qi_attr u)).
Qed.

End connect.


(** *** A reply from a server, with a driver that accepts it *)
Section connect_ok.
Context (self : Builder.PreparedQueuePair RCCommStruct) (comm : RCCommStruct) (init : ib_qp_init_attr).
Abbreviation qp := (QueuePair.with_comm comm (Builder.inner self)).
Abbreviation q := (QueuePair.inner_qp (Builder.inner self)).
Abbreviation cm_id := (CMWrapper.inner (cm comm)).
Context (Hmode : QueuePair.mode (Builder.inner self) = RC) (Htype : init_qp_type init = IB_QPT_RC).

Lemma rep_ok ev rep w x :
  event ev = IB_CM_REP_RECEIVED -> param ev = RepRcvd rep -> qp_view w q = Some (reset_info init) ->
  healthy w -> is_Some (cm_context w cm_id) ->
  exists w', dispatch_event (callbacks qp) cm_id ev (w, x) = Done (Ok (), (w', completion_done x)) /\
    only_qp q w w' /\ same_contexts w w' /\ healthy w' /\
    qp_view w' q = Some (ready qp (reset_info init) ev rep (Verbs.qp_num w q)) /\
    cm_outbox w' cm_id = cm_outbox w cm_id ++ [MRtu (le 4 0)].
Proof.
  intros Hev Hp Hv Hw Hc. unfold dispatch_event. rewrite Hev. cbn. unfold handle_rep. rewrite Hp.
  set (data := of_bytes (private_data ev) : RCConnectionData).
  destruct (bring_up_rc_inner_spec qp (rc_lid data) (rc_gid data) (rp_remote_qpn rep) (rp_starting_psn rep)
    w (reset_info init) Hmode Hv eq_refl) as (r & w1 & Hrun & Ho & Hout & Hh).
  destruct (Hh Hw Htype) as [-> Hw1]. cbn in Hout.
  assert (Hs1 : cm_same w w1) by by eapply (stable_bring_up cm_same).
  rewrite try_as_bind, (bind_done _ _ _ _ _ (onW_run _ (w, x) _ _ (map_errM_done _ _ _ _ _ Hrun))).
  cbn [map_err]. unfold signal_done. cbn [QueuePair.comm QueuePair.with_comm]. unfold onX. rewrite bind_run.
  cbn [fst snd]. unfold CMReplyer.send_rtu.
  destruct (send_spec cm_id (MRtu (le 4 0)) "Send rtu" w1) as (r & w2 & Hs & Hq & _ & Hc2 & Hob & Hok).
  rewrite (bind_done _ _ _ _ _ (onW_run _ (w1, completion_done x) _ _ Hs)).
  rewrite (Hok Hw1) in Hob by by rewrite (proj1 (Hs1 _)). exists w2. split; [done|].
  split; [eapply only_qp_trans; [exact Ho|by apply quiet_only]|].
  split; [intros p; rewrite (send_contexts _ _ _ _ _ _ Hs p); apply Hs1|]. split; [by apply Hq|].
  split; [rewrite (proj1 (proj2 Hq)); exact Hout|]. rewrite Hob. cbn. by rewrite (proj2 (Hs1 _)).
Qed.

(** The request a client sends. *)
Definition request_sent svc path (w : W) : ib_cm_req_param :=
  let a := address_of (W := W) (Context.get_dev_ref (QueuePair.ctx qp)) (QueuePair.port_num qp) in
  CMWrapper.req_with (mkRC a.1 a.2) (request self svc path (Verbs.qp_num w q)).

Lemma connect_ok svc path sig ev rep w arc :
  event ev = IB_CM_REP_RECEIVED -> param ev = RepRcvd rep -> qp_view w q = Some (reset_info init) ->
  healthy w -> cm_context w cm_id = Some arc -> arc <> null -> 0 <= sig ->
  exists w', connect self comm svc path (mkWait [ev] sig) w = Done (Ok (), w') /\ only_qp q w w' /\
    qp_view w' q = Some (ready qp (reset_info init) ev rep (Verbs.qp_num w q)) /\
    cm_context w' cm_id = Some arc /\
    cm_outbox w' cm_id = cm_outbox w cm_id ++ [MReq (request_sent svc path w); MRtu (le 4 0)].
Proof.
  intros Hev Hp Hv Hw Hc Harc Hsig. unfold connect. rewrite try_as_bind.
  destruct (rc_data_spec qp w) as (rd & w1 & Hrd & Hq1 & Hc1 & Hh1 & Hd1).
  rewrite (bind_done _ _ _ _ _ (map_errM_done _ _ _ _ _ Hrd)). specialize (Hh1 Hw).
  destruct rd as [d|]; [|done]. specialize (Hd1 d eq_refl). cbn [map_err].
  rewrite bind_run. cbn [QueuePair.qp_num gets]. rewrite try_as_bind. unfold send_req, CMWrapper.send_req.
  assert (Hn1 : Verbs.qp_num w1 q = Verbs.qp_num w q) by apply Hq1. cbn [QueuePair.inner_qp QueuePair.with_comm].
  rewrite Hn1, Hd1. change (CMWrapper.req_with _ _) with (request_sent svc path w).
  destruct (send_spec cm_id (MReq (request_sent svc path w)) "Send request" w1)
    as (rs & w2 & Hs & Hq2 & _ & Hc2 & Hob2 & Hok2).
  assert (Hctx1 : cm_context w1 cm_id = Some arc) by by rewrite (proj1 (Hc1 _)).
  rewrite (Hok2 (proj2 (proj2 (proj2 Hq1)) Hw)) in Hs, Hob2 by by eexists.
  rewrite (bind_done _ _ _ _ _ (map_errM_done _ _ _ _ _ Hs)). cbn [map_err]. rewrite try_as_bind.
  pose proof (quiet_trans _ _ _ Hq1 Hq2) as Hq.
  destruct (rep_ok ev rep w2 completion_init Hev Hp) as (w3 & Hd & Ho3 & Hs3 & Hw3 & Hv3 & Hob3);
    [by rewrite (proj1 (proj2 Hq))|by apply Hq|by rewrite Hc2, Hctx1; eexists|].
  destruct (deliver_run (callbacks qp) cm_id ev (w2, completion_init) arc (Ok ()) w3 (completion_done completion_init))
    as (w3' & Hrun & _ & Hc3 & _ & Hw3'); [by cbn; rewrite Hc2|done|done|done|].
  rewrite (Hw3' eq_refl) in *. clear w3' Hw3'.
  assert (Hwait : wait qp cm_id (mkWait [ev] sig) w2 = Done (Ok (), w3)).
  { unfold wait. cbn [arrivals deliver_all]. rewrite (bind_done _ _ _ _ _ Hrun). cbn.
    unfold completion_wait. rewrite (proj2 (Z.ltb_ge sig 0)) by done. done. }
  rewrite (bind_done _ _ _ _ _ (map_errM_done _ _ _ _ _ Hwait)). cbn [map_err].
  destruct (status_spec qp w3 _ Hv3) as (r4 & w4 & H4 & Ho4 & Hu4 & Hh4 & Hr4).
  assert (Hc4 : cm_same w3 w4) by by eapply (stable_status cm_same).
  rewrite try_as_bind, (bind_done _ _ _ _ _ H4). destruct (Hh4 Hw3) as [Hr4' _].
  destruct r4 as [s|]; [|done]. subst s. exists w4. split; [done|].
  split; [eapply only_qp_trans, Ho4; eapply only_qp_trans, Ho3; by apply quiet_only|].
  assert (Hn2 : Verbs.qp_num w2 q = Verbs.qp_num w q) by apply Hq. rewrite Hn2 in Hu4.
  split; [done|]. split; [by rewrite (proj1 (Hc4 _))|].
  rewrite (proj2 (Hc4 _)), Hob3, Hob2. cbn. rewrite (proj2 (Hc1 _)), <- app_assoc. done.
Qed.

End connect_ok.

End handshake_proofs.

(** ** A client and a server *)
Section pair.
Import RcComm Handshake.
Context {Wc Ws : Type} `{!Cfg}.
Context `{!DeviceOps Wc, !QueueOps Wc, !DataOps Wc, !CmOps Wc, !VerbsLaws Wc, !PortLaws Wc, !CmLaws Wc}.
Context `{!DeviceOps Ws, !QueueOps Ws, !DataOps Ws, !CmOps Ws, !VerbsLaws Ws, !PortLaws Ws, !CmLaws Ws}.

(** C12. A kernel handshake connects two queue pairs to each other.  Let a client
    with a prepared RC queue pair and a server in a consistent state, both with
    drivers that accept legal requests, be connected by a network that delivers
    the client's request to the server, on a new identifier, and the server's
    reply to the client while it waits.  Then the server's handler accepts the
    request and registers a queue pair, the client's handshake succeeds, having
    sent exactly that request and the final acknowledgement, and the two queue
    pairs are paired: both in RTS, each with the other's number, sequence numbers
    and address. *)
Theorem kernel_handshake_connects (self : Builder.PreparedQueuePair RCCommStruct) arc svc path (w : Wc) init
  (ws : Ws) (srv : RcServer.ReliableConnectionServer RCCommStruct) base cm_s ctx_s :
  let qp := Builder.inner self in
  let q := QueuePair.inner_qp qp in
  let key := RcServer.encode_rc_key_by_cm cm_s in
  let a_c := address_of (W := Wc) (Context.get_dev_ref (QueuePair.ctx qp)) (QueuePair.port_num qp) in
  let a_s := address_of (W := Ws) (Context.get_dev_ref (RcServer.ctx srv)) (RcServer.port_num srv) in
  QueuePair.mode qp = RC -> qp_view w q = Some (reset_info init) -> init_qp_type init = IB_QPT_RC ->
  healthy w -> arc <> null ->
  server_ok base (ws, srv) -> healthy ws -> cm_context ws cm_s = Some ctx_s -> ctx_s <> null ->
  RcServer.registered_rc srv !! key = None ->
  exists req rep ws' srv' qp_s,
    deliver RcServer.callbacks cm_s (as_event (MReq req)) (ws, srv) = Done (true, (ws', srv')) /\
    cm_outbox ws' cm_s = cm_outbox ws cm_s ++ [MRep rep] /\
    RcServer.registered_rc srv' = <[key := qp_s]> (RcServer.registered_rc srv) /\
    forall sig, 0 <= sig ->
    exists comm w', handshake self arc svc path (mkWait [as_event (MRep rep)] sig) w =
        Done (Ok (QueuePair.with_comm comm qp), w') /\
      cm_outbox w' (CMWrapper.inner (cm comm)) = [MReq req; MRtu (le 4 0)] /\
      paired w' ws' q (QueuePair.inner_qp qp_s) a_c.1 a_s.1 (norm_gid a_c.2) (norm_gid a_s.2).
Proof.
  intros qp q key a_c a_s Hm Hv Ht Hw Harc Hok Hws Hcs Hctx Hkey.
  destruct (create_raw_spec (Device.raw_ptr (Context.get_dev_ref (QueuePair.ctx qp))) arc w)
    as (r & w1 & Hr & Hq1 & Hh1 & Hpost). specialize (Hh1 Hw). destruct r as [p|]; [|done].
  destruct Hpost as (Hp & _ & Hpc & Hpo & _).
  set (comm := mkComm (CMWrapper.mkWrapper (Device.raw_ptr (Context.get_dev_ref (QueuePair.ctx qp))) p arc)).
  assert (Hn1 : Verbs.qp_num w1 q = Verbs.qp_num w q) by apply Hq1.
  set (req := request_sent self comm svc path w1).
  destruct (handle_req_spec base cm_s (as_event (MReq req)) (ws, srv) Hok eq_refl eq_refl)
    as (rq & Hrq & r & [ws' srv'] & Hrun & (_ & Hsc & _) & Hacc & Hh). injection Hrq as <-.
  destruct (Hh Hws ltac:(by eexists)) as [-> _]. destruct (Hacc eq_refl) as (qp_s & n & Hreg & Hn & (init_s & Hvs) & Hout).
  specialize (Hn Hkey). cbn [fst snd] in *.
  destruct (deliver_run RcServer.callbacks cm_s (as_event (MReq req)) (ws, srv) ctx_s (Ok ()) ws' srv' Hcs Hctx Hrun Hsc)
    as (ws2 & Hdel & _ & _ & _ & Hws2). rewrite (Hws2 eq_refl) in Hdel.
  eexists req, _, ws', srv', qp_s. split; [exact Hdel|]. split; [exact Hout|]. split; [exact Hreg|].
  intros sig Hsig. set (rep := CMWrapper.rep_with _ _).
  destruct (connect_ok self comm init Hm Ht svc path sig (as_event (MRep rep))
    (mkRepEvent (rep_qp_num rep) (rep_starting_psn rep)) w1 arc) as (w' & Hrun' & Ho & Hv' & _ & Hob);
    try done; [by rewrite (proj1 (proj2 Hq1))|by apply Hq1|].
  exists comm, w'. split; [|split].
  - unfold handshake. rewrite bool_decide_false by (intros Hn'; by apply Hn'). unfold Builder.try_or.
    rewrite (bind_done _ _ w (Ok comm) w1).
    + by rewrite (bind_done _ _ _ _ _ Hrun').
    + refine (map_errM_done _ _ w (Ok comm) w1 _). unfold RcComm.new, CMWrapper.new_from_callbacker.
      rewrite try_as_bind, bind_run, try_as_bind. unfold qp in Hr. rewrite (bind_done _ _ _ _ _ Hr).
      unfold is_null. by destruct (Z.eqb_spec p null).
  - rewrite Hob. cbn. by rewrite Hpo.
  - assert (Hn' : Verbs.qp_num w' q = Verbs.qp_num w1 q) by apply Ho.
    eexists _, _. split; [exact Hv'|]. split; [exact Hvs|]. cbn zeta. rewrite Hn'. unfold ready, rep, as_event.
    cbn [private_data rep_private_data CMWrapper.rep_with]. change (req_private_data req) with (to_bytes (mkRC a_c.1 a_c.2)).
    rewrite !rc_roundtrip. fold a_s.
    unfold rc_ready, rc_configured, rc_av, rc_av_kernel, rc_av_user.
    destruct feat; cbn; split_and!; try done; by rewrite ?wrap_wrap.
Qed.

End pair.

(** ** The querier against any peer *)
Section query_proofs.
Import Querier.
Context {W : Type} `{!Cfg, !DeviceOps W, !QueueOps W, !CmOps W}.
Context `{!VerbsLaws W, !AddressLaws W, !CmLaws W}.
Implicit Types (w : W) (x : DatagramQuerierInner).

Section querying.
Context (dct : bool) (ctx : Context.Context) (port : Z) (evs : list ib_cm_event) (w0 : W).

(** The endpoint a reply describes, with the address handle [p]. *)
Definition described (rep : ib_cm_sidr_rep_event_param) (p : ptr) : Endpoint.DatagramEndpoint :=
  let ah := Context.mkAddressHandler ctx p in
  if dct then
    let r : DynamicConnectedMeta := of_bytes (sr_info rep) in
    Endpoint.mkEndpoint ah (sr_qpn rep) (sr_qkey rep) (meta_lid (datagram_addr r))
      (meta_gid (datagram_addr r)) (meta_dct_num r) (meta_dc_key r)
  else
    let r : DatagramMeta := of_bytes (sr_info rep) in
    Endpoint.mkEndpoint ah (sr_qpn rep) (sr_qkey rep) (meta_lid r) (meta_gid r) 0 0.

(** An endpoint that was made for a reply that arrived, and its share of the
    resources. *)
Definition holds (e : option Endpoint.DatagramEndpoint) w : Prop :=
  match e with
  | None => live w = live w0
  | Some e => exists rep ev p, e = described rep p /\ ev ∈ evs /\ param ev = SidrRepRcvd rep /\
      sr_status rep = IB_SIDR_SUCCESS /\ ((RAh, p) ∉ live w0) /\ live w = {[(RAh, p)]} ∪ live w0
  end.

Definition querying w x : Prop :=
  q_ctx x = ctx /\ q_port_num x = port /\ same_qps qp_view w0 w /\ (healthy w0 -> healthy w) /\
  holds (q_endpoint x) w.

Lemma described_handle rep p : Context.ah_inner (Endpoint.address_handler (described rep p)) = p.
Proof. unfold described. by destruct dct. Qed.

Lemma endpoint_of_spec x rep w :
  q_ctx x = ctx ->
  exists r w1, endpoint_of dct x rep w = Done (r, w1) /\ same_qps qp_view w w1 /\ cm_same w w1 /\
    (healthy w -> is_Ok r = true /\ healthy w1) /\
    match r with
    | Ok e => exists p, e = described rep p /\ ((RAh, p) ∉ live w) /\ live w1 = {[(RAh, p)]} ∪ live w
    | Err _ => live w1 = live w
    end.
Proof.
  intros Hctx. assert (Hs : preserves cm_same (endpoint_of dct x rep)) by (unfold endpoint_of; preserve).
  assert (Hnew : forall lid gid n k, exists r w1,
    Endpoint.new (q_ctx x) (q_port_num x) lid gid (sr_qpn rep) (sr_qkey rep) n k w = Done (r, w1) /\
    same_qps qp_view w w1 /\ (healthy w -> is_Ok r = true /\ healthy w1) /\
    match r with
    | Ok e => exists p, e = Endpoint.mkEndpoint (Context.mkAddressHandler ctx p) (sr_qpn rep) (sr_qkey rep) lid gid n k /\
        ((RAh, p) ∉ live w) /\ live w1 = {[(RAh, p)]} ∪ live w
    | Err _ => live w1 = live w
    end).
  { intros lid gid n k. unfold Endpoint.new, Context.create_address_handler. rewrite try_as_bind, bind_assoc.
    mgoal. apply create_ah_law in E as (Hq & Hh & Hl). destruct (ptr_is_err z).
    - eexists _, _. split; [done|]. split; [done|]. split; [|done]. intros Hw. by destruct (Hh Hw).
    - eexists _, _. split; [done|]. split; [done|]. split; [intros Hw; by destruct (Hh Hw)|].
      exists z. by rewrite Hctx. }
  unfold endpoint_of, described in *. destruct dct;
    match goal with |- context [Endpoint.new _ _ ?lid ?gid _ _ ?n ?k] =>
      destruct (Hnew lid gid n k) as (r & w1 & Hrun & ? & ? & ?) end;
    exists r, w1; (split; [done|]; split; [done|]; split; [by eapply Hs|done]).
Qed.

Lemma drop_endpoint_spec e w :
  exists w1, drop_endpoint e w = Done ((), w1) /\ same_qps qp_view w w1 /\ cm_same w w1 /\
    (healthy w -> healthy w1) /\
    live w1 = match e with
              | Some e => live w ∖ {[(RAh, Context.ah_inner (Endpoint.address_handler e))]}
              | None => live w
              end.
Proof.
  destruct e as [e|]; cbn [drop_endpoint]; [|by exists w].
  assert (Hs : preserves cm_same (Context.drop_address_handler (Endpoint.address_handler e))) by preserve.
  unfold Context.drop_address_handler in *.
  destruct (rdma_destroy_ah (Context.ah_inner (Endpoint.address_handler e)) w) as [r w1] eqn:E.
  exists w1. assert (Hrun : (_ ← call (rdma_destroy_ah (Context.ah_inner (Endpoint.address_handler e))); mret ()) w =
    Done ((), w1)) by (rewrite bind_run; unfold call; by rewrite E).
  split; [done|]. apply destroy_ah_law in E as (? & ? & ?). by split; [|split; [by eapply Hs|]].
Qed.

(** Assigning the endpoint of a new reply. *)
Lemma assign_endpoint ev rep w x :
  querying w x -> ev ∈ evs -> param ev = SidrRepRcvd rep -> sr_status rep = IB_SIDR_SUCCESS ->
  exists r w1 w2, endpoint_of dct x rep w = Done (r, w1) /\ drop_endpoint (q_endpoint x) w1 = Done ((), w2) /\
    cm_same w w2 /\ querying w2 (with_endpoint (ok r) x) /\ (healthy w0 -> is_Ok r = true).
Proof.
  intros (Hctx & Hport & Hs & Hh & Hold) Hin Hp Hst.
  destruct (endpoint_of_spec x rep w Hctx) as (r & w1 & H1 & Hs1 & Hc1 & Hh1 & Hr).
  destruct (drop_endpoint_spec (q_endpoint x) w1) as (w2 & H2 & Hs2 & Hc2 & Hh2 & Hl2).
  exists r, w1, w2. split; [done|]. split; [done|]. split; [by transitivity w1|].
  split; [|intros Hw; apply Hh1, Hh, Hw].
  split; [done|]. split; [done|]. split; [intros q; by rewrite Hs2, Hs1, Hs|].
  split; [intros Hw; apply Hh2, Hh1, Hh, Hw|]. unfold holds in *. cbn [with_endpoint q_endpoint].
  destruct (q_endpoint x) as [o|]; [destruct Hold as (rep' & ev' & p' & -> & _ & _ & _ & Hn' & Hl');
    rewrite described_handle in Hl2|]; destruct r as [e|e]; cbn [ok].
  - destruct Hr as (p & -> & Hn & Hl). exists rep, ev, p. split_and!; try done; [set_solver|].
    rewrite Hl2, Hl, Hl'. clear -Hn Hn' Hl'. set_solver.
  - rewrite Hl2, Hr, Hl'. clear -Hn'. set_solver.
  - destruct Hr as (p & -> & Hn & Hl). exists rep, ev, p. split_and!; try done; congruence.
  - congruence.
Qed.

Lemma dispatch_query cm ev w x :
  querying w x -> ev ∈ evs -> well_formed ev = true ->
  exists r w1 x1, dispatch_event (callbacks dct) cm ev (w, x) = Done (r, (w1, x1)) /\ same_contexts w w1 /\
    querying w1 x1 /\ (is_Ok r = false -> exists n, event ev = IB_CM_OTHER n).
Proof.
  intros Hq Hin Hwf. unfold dispatch_event, callbacks, accept. unfold well_formed in Hwf.
  destruct (event ev) eqn:Hev; cbn; try (eexists _, w, x; split; [done|]; by split_and!; eauto).
  unfold handle_sidr_rep. destruct (param ev) as [| |rep|] eqn:Hp; try done.
  unfold getX, onX. rewrite bind_run. cbn [snd].
  destruct (sr_status rep) eqn:Hst; cbn [is_success negb];
    [|rewrite bind_ret, bind_run; eexists _, w, (inner_done x); split; [done|]; by split_and!..].
  destruct (assign_endpoint ev rep w x Hq Hin Hp Hst) as (r & w1 & w2 & H1 & H2 & Hc & Hq2 & _).
  rewrite bind_assoc, (bind_done _ _ _ _ _ (onW_run _ (w, x) _ _ H1)).
  rewrite bind_assoc, bind_run. cbn [fst snd].
  rewrite (bind_done _ _ _ _ _ (onW_run _ (w1, with_endpoint (ok r) x) _ _ H2)), bind_run. cbn [fst snd].
  eexists _, w2, _. split; [done|]. split; [intros p; apply Hc|]. split; [|done]. exact Hq2.
Qed.

Lemma deliver_all_query cm arc evs' w x :
  arc <> null -> querying w x -> evs' ⊆ evs -> Forall (fun ev => well_formed ev = true) evs' ->
  cm_context w cm = Some arc ->
  exists alive w1 x1, deliver_all (callbacks dct) cm evs' (w, x) = Done (alive, (w1, x1)) /\ querying w1 x1 /\
    (forall p, p <> cm -> cm_context w1 p = cm_context w p) /\
    cm_context w1 cm = (if alive then Some arc else None) /\
    (alive = false -> exists ev n, ev ∈ evs /\ event ev = IB_CM_OTHER n).
Proof.
  intros Harc. revert w x. induction evs' as [|ev evs' IH]; intros w x Hq Hsub Hwf Hc.
  - by exists true, w, x.
  - apply Forall_cons in Hwf as [Hw1 Hwf]. assert (Hin : ev ∈ evs) by (apply Hsub; left).
    destruct (dispatch_query cm ev w x Hq Hin Hw1) as (r & w1 & x1 & Hd & Hs & Hq1 & Hbad).
    destruct (deliver_run (callbacks dct) cm ev (w, x) arc r w1 x1 Hc Harc Hd Hs)
      as (w2 & Hrun & (Hl2 & Hs2 & _ & Hh2) & Hc2 & Ho2 & _).
    cbn [deliver_all]. rewrite (bind_done _ _ _ _ _ Hrun).
    assert (Hq2 : querying w2 x1).
    { destruct Hq1 as (? & ? & Hs1 & Hh1 & Hh). split; [done|]. split; [done|].
      split; [intros q; by rewrite Hs2|]. split; [by auto|]. unfold holds in *. by rewrite Hl2. }
    assert (Ho : forall p, p <> cm -> cm_context w2 p = cm_context w p).
    { intros p Hp. destruct (Ho2 p Hp) as [-> _]. apply Hs. }
    destruct (is_Ok r) eqn:Hr.
    + destruct (IH w2 x1 Hq2) as (alive & w3 & x3 & Hrun3 & Hq3 & Ho3 & Hc3 & Hbad3); [|done|done|].
      { intros e He. apply Hsub. by right. }
      exists alive, w3, x3. split; [done|]. split; [done|]. split; [intros p Hp; by rewrite Ho3, Ho|]. done.
    + exists false, w2, x1. split; [done|]. split; [done|]. split; [done|]. split; [done|].
      intros _. destruct (Hbad eq_refl) as [n Hn]. by exists ev, n.
Qed.

End querying.
(** What [query_steps] leaves behind, for an identifier [cm] of its own. *)
Definition queried dct ctx port evs w cm arc (alive : bool) w' x'
  (r : Result ControlpathError Endpoint.DatagramEndpoint) : Prop :=
  querying dct ctx port evs w w' (match r with Ok e => with_endpoint (Some e) x' | Err _ => x' end) /\
  (is_Ok r = true -> q_endpoint x' = None) /\
  (forall p, p <> cm -> cm_context w' p = cm_context w p) /\
  cm_context w' cm = (if alive then Some arc else None) /\
  (alive = false -> exists ev n, ev ∈ evs /\ event ev = IB_CM_OTHER n).

Lemma query_steps_spec dct (self : DatagramEndpointQuerier) svc hint path env w arc :
  let cm := CMWrapper.inner (CMSender.inner (sender self)) in
  q_endpoint (inner self) = None -> cm_context w cm = Some arc -> arc <> null ->
  Forall (fun ev => well_formed ev = true) (arrivals env) ->
  exists r alive w' x', query_steps dct self svc hint path env (w, inner self) = Done (r, (w', x')) /\
    queried dct (q_ctx (inner self)) (q_port_num (inner self)) (arrivals env) w cm arc alive w' x' r.
Proof.
  intros cm He Hc Harc Hwf. unfold query_steps, CMSender.send_sidr, CMWrapper.send_sidr. rewrite try_as_bind.
  match goal with |- context [CMWrapper.send ?c ?m ?e] =>
    destruct (send_spec c m e w) as (rs & w1 & Hs & Hq1 & _) end.
  rewrite (bind_done _ _ _ _ _ (onW_run _ (w, inner self) _ _ (map_errM_done _ _ _ _ _ Hs))).
  pose proof (send_contexts _ _ _ _ _ _ Hs) as Hc1.
  assert (Hinit : querying dct (q_ctx (inner self)) (q_port_num (inner self)) (arrivals env) w w1 (inner self)).
  { split; [done|]. split; [done|]. split; [apply Hq1|]. split; [apply Hq1|]. rewrite He. apply Hq1. }
  destruct rs as [[]|e]; cbn [map_err].
  2: { eexists _, true, w1, _. split; [done|]. split; [done|]. split; [done|]. split; [done|]. by rewrite Hc1. }
  destruct (deliver_all_query dct (q_ctx (inner self)) (q_port_num (inner self)) (arrivals env) w cm arc
    (arrivals env) w1 (inner self)) as (alive & w2 & x2 & Hd & Hq2 & Ho2 & Hc2 & Hbad); [done..|by rewrite Hc1|].
  cbn [snd]. rewrite (bind_done _ _ _ _ _ Hd). unfold getX. rewrite bind_run. cbn [snd].
  assert (Ho : forall p, p <> cm -> cm_context w2 p = cm_context w p) by (intros p Hp; by rewrite Ho2, Hc1).
  destruct (fst (completion_wait (signal env) (q_completion x2))) as [[]|e].
  2: { eexists _, alive, w2, x2. split; [done|]. by split_and!. }
  unfold onX. rewrite bind_run. cbn [fst snd]. eexists _, alive, w2, _. split; [done|].
  destruct x2 as [done ctx2 e2 port2]. cbn [q_endpoint ok_or]. by destruct e2 as [e|].
Qed.

Lemma querier_create_spec ctx port arc w :
  exists r w1, Querier.create ctx port arc w = Done (r, w1) /\ quiet w w1 /\ (healthy w -> is_Ok r = true) /\
    match r with
    | Err _ => same_contexts w w1
    | Ok self => exists p, p <> null /\
        self = mkQuerier (CMSender.mkSender (CMWrapper.mkWrapper (Device.raw_ptr (Context.get_dev_ref ctx)) p arc))
                 (inner_create ctx port) /\
        cm_context w p = None /\ cm_context w1 p = Some arc /\ cm_outbox w1 p = [] /\
        forall p', p' <> p -> cm_context w1 p' = cm_context w p'
    end.
Proof.
  unfold Querier.create, CMSender.new, map_errM. rewrite try_as_bind, bind_assoc, bind_run, try_as_bind.
  destruct (create_raw_spec (Device.raw_ptr (Context.get_dev_ref ctx)) arc w) as (r & w1 & Hr & Hq1 & Hh & Hpost).
  rewrite (bind_done _ _ _ _ _ Hr). destruct r as [p|e].
  - destruct Hpost as (Hp & Hpn & Hpc & Hpb & Hpo). unfold CMWrapper.new.
    assert (is_null p = false) as -> by by apply Z.eqb_neq. eexists _, w1. split; [done|].
    split; [done|]. split; [done|]. exists p. split_and!; try done. intros p' Hne. apply Hpo, Hne.
  - eexists _, w1. split; [done|]. split; [done|]. split; [done|]. intros p. apply (proj2 Hpost).
Qed.

(** A query for a datagram endpoint is safe against any network and any
    server: a new querier that asks and waits leaves no identifier behind and
    touches no queue pair, whatever arrives while it waits, in any order and
    number; an error leaves no address handle behind, a success exactly the one
    of the endpoint it returns, which describes a positive reply that arrived.
    It is undefined (it reads a freed identifier) only if an event without
    handler arrived. *)
Theorem datagram_query_safe dct ctx port arc svc hint path env w :
  arc <> null -> Forall (fun ev => well_formed ev = true) (arrivals env) ->
  match (self ←? Querier.create ctx port arc; Querier.query dct self svc hint path env) w with
  | Panic => exists ev n, ev ∈ arrivals env /\ event ev = IB_CM_OTHER n
  | Done (r, w') => same_contexts w w' /\ same_qps qp_view w w' /\
      match r with
      | Err _ => live w' = live w
      | Ok e => exists rep ev p, e = described dct ctx rep p /\ ev ∈ arrivals env /\
          param ev = SidrRepRcvd rep /\ sr_status rep = IB_SIDR_SUCCESS /\
          ((RAh, p) ∉ live w) /\ live w' = {[(RAh, p)]} ∪ live w
      end
  end.
Proof.
  intros Harc Hwf. destruct (querier_create_spec ctx port arc w) as (r & w1 & Hr & Hq1 & _ & Hpost).
  rewrite try_as_bind, (bind_done _ _ _ _ _ Hr).
  destruct r as [self|e]; [|split; [exact Hpost|split; apply Hq1]].
  destruct Hpost as (p & Hp & -> & Hpn & Hpc & _ & Hpo). set (self := mkQuerier _ _). unfold query.
  destruct (query_steps_spec dct self svc hint path env w1 arc eq_refl Hpc Harc Hwf)
    as (r & alive & w2 & x2 & Hrun & (_ & _ & Hs2 & Hh2 & Hhold) & Hnone & Ho2 & Hc2 & Hbad).
  rewrite Hrun. destruct (drop_endpoint_spec (q_endpoint x2) w2) as (w3 & Hd & Hs3 & Hc3 & _ & Hl3).
  rewrite (bind_done _ _ _ _ _ Hd). unfold CMSender.drop.
  destruct alive.
  2: { rewrite bind_run, explicit_drop_freed; [by apply Hbad|]. by rewrite (proj1 (Hc3 _)). }
  destruct (explicit_drop_live (CMSender.inner (sender self)) w3 arc) as (w4 & Hd4 & (Hl4 & Hs4 & _) & Ho4 & Hn4);
    [by rewrite (proj1 (Hc3 _))|done|]. rewrite (bind_done _ _ _ _ _ Hd4).
  split; [|split].
  - intros p'. destruct (decide (p' = p)) as [->|Hne]; [cbn in Hn4; congruence|].
    cbn. destruct (Ho4 p' Hne) as [-> _]. rewrite (proj1 (Hc3 p')), Ho2 by done. by apply Hpo.
  - intros q. rewrite Hs4, Hs3, Hs2. apply Hq1.
  - cbn. rewrite <- (proj1 Hq1), Hl4, Hl3. destruct r as [e|e]; cbn in Hhold.
    + rewrite (Hnone eq_refl). exact Hhold.
    + destruct (q_endpoint x2) as [e2|]; [|exact Hhold].
      destruct Hhold as (rep & ev & p' & -> & _ & _ & _ & Hn & Hl). rewrite described_handle, Hl.
      clear -Hn. set_solver.
Qed.

(** *** An answer from a server, with a driver that accepts it *)
Lemma dispatch_answer dct ctx port cm (rep : ib_cm_sidr_rep_param) w :
  let ev := as_event (MSidrRep rep) in
  let rcv := mkSidrRepEvent (srep_status rep) (srep_qkey rep) (srep_qp_num rep) (srep_info rep) in
  healthy w ->
  exists w1 e, dispatch_event (callbacks dct) cm ev (w, inner_create ctx port) =
      Done (Ok (), (w1, inner_done (with_endpoint e (inner_create ctx port)))) /\
    same_contexts w w1 /\
    if is_success (srep_status rep) then exists p, e = Some (described dct ctx rcv p) else e = None.
Proof.
  intros ev rcv Hw. unfold dispatch_event, callbacks. cbn. unfold handle_sidr_rep. cbn [param ev as_event].
  fold rcv. unfold getX, onX. rewrite bind_run. cbn [snd].
  assert (Hq : querying dct ctx port [ev] w w (inner_create ctx port)) by by split_and!.
  destruct (srep_status rep) eqn:Hst; cbn [is_success negb sr_status rcv];
    [|rewrite bind_ret; exists w, None; by split..].
  destruct (assign_endpoint dct ctx port [ev] w ev rcv w (inner_create ctx port) Hq) as (r & w1 & w2 & H1 & H2 & Hc & (_ & _ & _ & _ & Hh) & Hok);
    [left|by unfold ev, rcv; cbn; rewrite Hst|done|].
  specialize (Hok Hw). destruct r as [e|]; [|done].
  rewrite bind_assoc, (bind_done _ _ _ _ _ (onW_run _ (w, inner_create ctx port) _ _ H1)).
  rewrite bind_assoc, bind_run. cbn [fst snd].
  rewrite (bind_done _ _ _ _ _ (onW_run _ (w1, with_endpoint (ok (Ok e)) (inner_create ctx port)) _ _ H2)), bind_run.
  cbn [fst snd]. exists w2, (Some e). split; [done|]. split; [intros p; apply Hc|].
  cbn in Hh. destruct Hh as (rep' & ev' & p & -> & Hin & Hp & _). apply list_elem_of_singleton in Hin as ->.
  unfold ev in Hp. cbn in Hp. injection Hp as <-. exists p. unfold rcv. by rewrite Hst.
Qed.

Lemma query_answered dct ctx port arc svc hint path sig (rep : ib_cm_sidr_rep_param) w :
  let rcv := mkSidrRepEvent (srep_status rep) (srep_qkey rep) (srep_qp_num rep) (srep_info rep) in
  healthy w -> arc <> null -> 0 <= sig ->
  exists r w', (self ←? Querier.create ctx port arc;
                Querier.query dct self svc hint path (mkWait [as_event (MSidrRep rep)] sig)) w = Done (r, w') /\
    if is_success (srep_status rep) then exists p, r = Ok (described dct ctx rcv p)
    else r = Err (QueryError "Failed to get the endpoint" EAGAIN).
Proof.
  intros rcv Hw Harc Hsig. destruct (querier_create_spec ctx port arc w) as (r & w1 & Hr & Hq1 & Hh1 & Hpost).
  rewrite try_as_bind, (bind_done _ _ _ _ _ Hr). specialize (Hh1 Hw). destruct r as [self|]; [|done].
  destruct Hpost as (cm & Hp & -> & _ & Hpc & _). set (self := mkQuerier _ _).
  match goal with |- context [Querier.query _ _ _ _ _ ?env] => set (env0 := env) end.
  assert (Hsteps : exists w3 e, query_steps dct self svc hint path env0 (w1, inner self) =
      Done (ok_or (QueryError "Failed to get the endpoint" EAGAIN) e,
            (w3, with_endpoint None (inner_done (with_endpoint e (inner_create ctx port))))) /\
    cm_context w3 cm = Some arc /\
    if is_success (srep_status rep) then exists p, e = Some (described dct ctx rcv p) else e = None).
  { unfold query_steps, CMSender.send_sidr, CMWrapper.send_sidr. rewrite try_as_bind.
    match goal with |- context [CMWrapper.send ?c ?m ?e] =>
      destruct (send_spec c m e w1) as (rs & w2 & Hs & Hq2 & _ & Hc2 & _ & Hok2) end.
    cbn in Hc2, Hok2. assert (Hw1 : healthy w1) by by apply Hq1.
    rewrite (Hok2 Hw1 ltac:(by rewrite Hpc; eexists)) in Hs.
    rewrite (bind_done _ _ _ _ _ (onW_run _ (w1, inner self) _ _ (map_errM_done _ _ _ _ _ Hs))). cbn [map_err snd].
    destruct (dispatch_answer dct ctx port cm rep w2) as (w3 & e & Hd & Hc3 & He); [by apply Hq2|].
    destruct (deliver_run (callbacks dct) cm (as_event (MSidrRep rep)) (w2, inner_create ctx port) arc (Ok ()) w3 _
      ltac:(by cbn; rewrite Hc2) Harc Hd Hc3) as (w3' & Hrun & _ & Hc4 & _ & Hw3).
    rewrite (Hw3 eq_refl) in Hrun, Hc4. cbn [env0 arrivals deliver_all inner self sender CMSender.inner CMWrapper.inner].
    rewrite bind_assoc, (bind_done _ _ _ _ _ Hrun). cbn [is_Ok]. rewrite bind_ret. unfold getX. rewrite bind_run.
    exists w3, e. split; [|done]. unfold completion_wait. cbn.
    by rewrite (proj2 (Z.ltb_ge sig 0)) by done. }
  destruct Hsteps as (w3 & e & Hsteps & Hc3 & He). unfold query. rewrite Hsteps.
  cbn [q_endpoint with_endpoint drop_endpoint]. rewrite bind_ret. unfold CMSender.drop.
  destruct (explicit_drop_live (CMSender.inner (sender self)) w3 arc Hc3 Harc) as (w4 & Hd4 & _).
  rewrite (bind_done _ _ _ _ _ Hd4). eexists _, w4. split; [done|].
  destruct (is_success (srep_status rep)); [|by rewrite He]. destruct He as [p ->]. by exists p.
Qed.

End query_proofs.

(** ** A querier and a service *)
Section query_pair.
Context {Wc Ws C : Type} `{!Cfg}.
Context `{!DeviceOps Wc, !QueueOps Wc, !CmOps Wc, !VerbsLaws Wc, !AddressLaws Wc, !CmLaws Wc}.
Context `{!DeviceOps Ws, !QueueOps Ws, !CmOps Ws, !VerbsLaws Ws, !PortLaws Ws, !CmLaws Ws}.

(** Registration and query of a datagram queue pair.  After [reg_qp] a client
    that asks for the hint gets an endpoint with the number, the Q_Key and the
    address of the registered queue pair; after [dereg_qp] it gets the error "Failed
    to get the endpoint".  Between them, the client's request reaches the service and
    the service's reply the client while it waits, and both drivers accept legal
    requests; the service itself does not change. *)
Theorem datagram_query_roundtrip (service : ConnectionService.ConnectionService (QueuePair.QueuePair C))
  (qp : QueuePair.QueuePair C) (registered : bool) (ws : Ws) cm_s ctx_s (ctx : Context.Context)
  port arc svc hint path (w : Wc) :
  let req := CMWrapper.sidr_req_with hint (mkSidrReq path svc 20 [] 0 3) in
  let service' := if registered then ConnectionService.reg_qp hint qp service
                  else ConnectionService.dereg_qp hint service in
  let a := address_of (W := Ws) (Context.get_dev_ref (QueuePair.ctx qp)) (QueuePair.port_num qp) in
  0 <= hint < 2 ^ 64 -> healthy ws -> cm_context ws cm_s = Some ctx_s -> ctx_s <> null ->
  healthy w -> arc <> null ->
  exists rep ws', deliver (ConnectionService.callbacks (R := DatagramMeta)) cm_s (as_event (MSidrReq req))
      (ws, service') = Done (true, (ws', service')) /\
    cm_outbox ws' cm_s = cm_outbox ws cm_s ++ [MSidrRep rep] /\
    forall sig, 0 <= sig ->
    exists r w', (self ←? Querier.create ctx port arc;
                  Querier.query false self svc hint path (mkWait [as_event (MSidrRep rep)] sig)) w = Done (r, w') /\
      if registered then
        exists p, r = Ok (Endpoint.mkEndpoint (Context.mkAddressHandler ctx p)
          (Verbs.qp_num ws (QueuePair.inner_qp qp)) (QueuePair.qkey qp) (u16 a.1) (norm_gid a.2) 0 0)
      else r = Err (QueryError "Failed to get the endpoint" EAGAIN).
Proof.
  intros req service' a Hhint Hws Hcs Hctx Hw Harc.
  destruct (handle_sidr_req_spec cm_s (as_event (MSidrReq req)) ws service' Hws) as (ws' & Hd & Hs & _ & Hout);
    [by eexists|].
  destruct (deliver_run (ConnectionService.callbacks (R := DatagramMeta)) cm_s (as_event (MSidrReq req)) (ws, service')
    ctx_s (Ok ()) ws' service' Hcs Hctx Hd Hs) as (ws2 & Hdel & _ & _ & _ & Hws2). rewrite (Hws2 eq_refl) in Hdel.
  eexists _, ws'. split; [exact Hdel|]. split; [exact Hout|]. intros sig Hsig.
  assert (Hread : (of_bytes (private_data (as_event (MSidrReq req))) : Z) = hint).
  { by apply wire_u64_roundtrip. }
  rewrite Hread. match goal with |- context [MSidrRep ?r] => set (rep := r) end.
  destruct (query_answered false ctx port arc svc hint path sig rep w Hw Harc Hsig) as (r & w' & Hrun & Hr).
  exists r, w'. split; [done|]. unfold rep, answer, ConnectionService.get_qp in Hr.
  unfold service' in Hr. destruct registered; cbn [ConnectionService.registered_qps ConnectionService.reg_qp
    ConnectionService.dereg_qp] in Hr; [rewrite lookup_insert_eq in Hr|by rewrite lookup_delete_eq in Hr].
  destruct Hr as [p ->]. exists p. set (m := mkMeta a.1 a.2).
  change (described false ctx _ p) with (Endpoint.mkEndpoint (Context.mkAddressHandler ctx p)
    (Verbs.qp_num ws (QueuePair.inner_qp qp)) (QueuePair.qkey qp) (meta_lid (of_bytes (to_bytes m)))
    (meta_gid (of_bytes (to_bytes m))) 0 0).
  by rewrite meta_roundtrip.
Qed.

End query_pair.

(** ** Sample runs *)
Module Sample.
Import RcComm.
#[export] Existing Instance kernel_cfg.

Definition client_qp : Builder.PreparedQueuePair RCCommStruct :=
  built sample_builder 3
    (CompletionQueue.mkCQ (Builder.ctx sample_builder) 1)
    (CompletionQueue.mkCQ (Builder.ctx sample_builder) 2) RC None.
Definition client_world : sim := set_qps {[3 := reset_info sample_init]} sim_init.

Definition path : sa_path_rec := mkPath (mkGid 1 2) (mkGid 3 4) 1 73 [].
Definition server : RcServer.ReliableConnectionServer RCCommStruct :=
  RcServer.create (Builder.ctx sample_builder) 1.

(** A rejection, a reply, and the reply again. *)
Definition reply_event : ib_cm_event :=
  as_event (MRep (CMWrapper.rep_with (mkRC 7 (mkGid 1 2)) (mkRep 1005 1005 [] 0 16 16 1 7))).
Definition arriving : wait_env :=
  mkWait [mkEvent IB_CM_REJ_RECEIVED [] NoParam; reply_event; reply_event] 1.

(** A datagram queue pair and the reply of its service. *)
Definition datagram_qp : QueuePair.QueuePair RCCommStruct :=
  Builder.inner (built sample_builder 4
    (CompletionQueue.mkCQ (Builder.ctx sample_builder) 1)
    (CompletionQueue.mkCQ (Builder.ctx sample_builder) 2) UD None).
Definition endpoint_event : ib_cm_event :=
  as_event (MSidrRep (CMWrapper.sidr_rep_with (mkMeta 7 (mkGid 1 2)) (mkSidrRep 1004 73 IB_SIDR_SUCCESS [] 0))).

End Sample.

Section witnesses.
Import RcComm Handshake Sample.


(** The handshake of that run succeeds. *)
Example arriving_run :
  match handshake client_qp 5 73 path arriving client_world with
  | Done (Ok qp, w) => (qp_state <$> (qi_attr <$> qp_view w 3), size (s_cm w)) = (Some IB_QPS_RTS, 1%nat)
  | _ => False
  end.
Proof. by vm_compute. Qed.

Lemma kernel_handshake_connects_witness :
  let a := address_of (W := sim) (Context.get_dev_ref (Builder.ctx sample_builder)) 1 in
  exists req rep ws' srv' qp_s,
    deliver RcServer.callbacks 7 (as_event (MReq req)) (sample_listener, server) = Done (true, (ws', srv')) /\
    cm_outbox ws' 7 = cm_outbox sample_listener 7 ++ [MRep rep] /\
    RcServer.registered_rc srv' = <[7 := qp_s]> (RcServer.registered_rc server) /\
    forall sig, 0 <= sig ->
    exists comm w', handshake client_qp 5 73 path (mkWait [as_event (MRep rep)] sig) client_world =
        Done (Ok (QueuePair.with_comm comm (Builder.inner client_qp)), w') /\
      cm_outbox w' (CMWrapper.inner (cm comm)) = [MReq req; MRtu (le 4 0)] /\
      paired w' ws' 3 (QueuePair.inner_qp qp_s) a.1 a.1 (norm_gid a.2) (norm_gid a.2).
Proof.
  apply (kernel_handshake_connects client_qp 5 73 path client_world sample_init sample_listener server ∅ 7 5);
    try done. exact (shares_empty sample_listener).
Defined.

Lemma datagram_query_safe_witness :
  match (self ←? Querier.create (Builder.ctx sample_builder) 1 5;
         Querier.query false self 73 2 path (mkWait [endpoint_event; endpoint_event] 1)) sim_init with
  | Panic => exists ev n, ev ∈ [endpoint_event; endpoint_event] /\ event ev = IB_CM_OTHER n
  | Done (r, w') => same_contexts sim_init w' /\ same_qps qp_view sim_init w' /\
      match r with
      | Err _ => live w' = live sim_init
      | Ok e => exists rep ev p, e = described false (Builder.ctx sample_builder) rep p /\
          ev ∈ [endpoint_event; endpoint_event] /\ param ev = SidrRepRcvd rep /\
          sr_status rep = IB_SIDR_SUCCESS /\ ((RAh, p) ∉ live sim_init) /\
          live w' = {[(RAh, p)]} ∪ live sim_init
      end
  end.
Proof.
  apply (datagram_query_safe false (Builder.ctx sample_builder) 1 5 73 2 path
    (mkWait [endpoint_event; endpoint_event] 1) sim_init); [done|]. repeat constructor.
Defined.

(** The querier of that run returns an endpoint and keeps one address handle. *)
Example endpoint_run :
  match (self ←? Querier.create (Builder.ctx sample_builder) 1 5;
         Querier.query false self 73 2 path (mkWait [endpoint_event; endpoint_event] 1)) sim_init with
  | Done (Ok e, w) => (Endpoint.qpn e, size (s_live w), size (s_cm w)) = (1004, 1%nat, 0%nat)
  | _ => False
  end.
Proof. by vm_compute. Qed.

Lemma datagram_query_roundtrip_witness :
  let req := CMWrapper.sidr_req_with 2 (mkSidrReq path 73 20 [] 0 3) in
  let service := ConnectionService.reg_qp 2 datagram_qp ConnectionService.create in
  let a := address_of (W := sim) (Context.get_dev_ref (Builder.ctx sample_builder)) 1 in
  exists rep ws', deliver (ConnectionService.callbacks (R := DatagramMeta)) 7 (as_event (MSidrReq req))
      (sample_listener, service) = Done (true, (ws', service)) /\
    cm_outbox ws' 7 = cm_outbox sample_listener 7 ++ [MSidrRep rep] /\
    forall sig, 0 <= sig ->
    exists r w', (self ←? Querier.create (Builder.ctx sample_builder) 1 5;
                  Querier.query false self 73 2 path (mkWait [as_event (MSidrRep rep)] sig)) sim_init = Done (r, w') /\
      exists p, r = Ok (Endpoint.mkEndpoint (Context.mkAddressHandler (Builder.ctx sample_builder) p)
        (Verbs.qp_num sample_listener 4) (QueuePair.qkey datagram_qp) (u16 a.1) (norm_gid a.2) 0 0).
Proof.
  apply (datagram_query_roundtrip ConnectionService.create datagram_qp true sample_listener 7 5
    (Builder.ctx sample_builder) 1 5 73 2 path sim_init); done.
Defined.

End witnesses.
