(* ===== verification/SysQp.v ===== *)
(** * Queue pairs of the system-call stack

    The RDMA library under src/KRdmaKit-syscall/two-sided-dc/KRdmaKit, on which the
    KRCORE system calls are built: devices and contexts (device.rs), the
    configuration and creation of queue pairs (qp/mod.rs), the connection
    identifier (cm/client.rs), reliable connections (qp/rc.rs, qp/rc_op.rs),
    datagrams (qp/ud.rs, qp/ud_op.rs), dynamically connected transport (qp/dc.rs,
    qp/dc_op.rs), remote end points (cm/sidr.rs) and the messages of the handshakes
    (qp/conn.rs).

    The values are the ones the code keeps in an [Arc]; the fields that a callback
    changes while the owner waits are the state of the callback. *)

From S2P Require Import Prelude Bytes Errors Verbs CmVerbs Sim Context CompletionQueue QueuePair BringUp.
From S2P Require Import Guid Stable CommManager RecvHelper.

(** Calls of the kernel that only this stack makes.  [ib_cm_init_qp_attr] fills in
    the attributes that the connection determines, with the mask that names them;
    [cm_receive] is what the connection manager does with a message for an
    identifier before it calls the handler. *)
Class SysOps (W : Type) := {
  ib_query_device : ptr -> W -> Z * W;
  cm_receive : ptr -> ib_cm_event -> W -> unit * W;
  ib_cm_init_qp_attr : ptr -> ib_qp_state -> W -> (Z * (ib_qp_attr * list ib_qp_attr_mask)) * W
}.

(** [TempMR] (mem/mod.rs). *)
Record TempMR := mkTempMR { mr_addr : Z; mr_capacity : Z; mr_key : Z }.
Definition default_mr : TempMR := mkTempMR 0 0 0.

(** ** Devices and contexts *)
Module RNIC.
Section nic.
Context {W : Type} `{!DeviceOps W, !SysOps W}.

Record RNIC := mkRNIC { hca : ptr; default_gid : ib_gid; port : Z; lid : Z }.

(** A port that is not active is reported with the error code of the query, 0. *)
Definition create (hca_ptr : ptr) (port : Z) : M W (Result Error RNIC) :=
  '(err, port_attr) ← call (ib_query_port hca_ptr (u8 port));
  if negb (err =? 0) then mret (Err (from_kernel_errno err))
  else if negb (bool_decide (port_state port_attr = IB_PORT_ACTIVE)) then
    mret (Err (from_kernel_errno err))
  else
    err ← call (ib_query_device hca_ptr);
    if negb (err =? 0) then mret (Err (from_kernel_errno err))
    else
      '(err, gid) ← call (ib_query_gid hca_ptr (u8 port) 0);
      if negb (err =? 0) then mret (Err (from_kernel_errno err))
      else mret (Ok (mkRNIC hca_ptr gid port (u16 (port_lid port_attr)))).

End nic.
End RNIC.

Module RContext.
Section context.
Context {W : Type} `{!DeviceOps W}.

Record RContext := mkRContext { nic : RNIC.RNIC; kmr : ptr; pd : ptr }.

Definition all_access : list ib_access_flag :=
  [IB_ACCESS_LOCAL_WRITE; IB_ACCESS_REMOTE_READ; IB_ACCESS_REMOTE_WRITE; IB_ACCESS_REMOTE_ATOMIC].

(** The protection domain is not released when the registration fails. *)
Definition create (nic : RNIC.RNIC) : M W (option RContext) :=
  pd ← call (ib_alloc_pd (RNIC.hca nic));
  if is_null pd then mret None
  else
    kmr ← call (ib_get_dma_mr pd all_access);
    if is_null kmr then mret None else mret (Some (mkRContext nic kmr pd)).

Definition get_raw_dev (self : RContext) : ptr := RNIC.hca (nic self).
Definition get_gid (self : RContext) : ib_gid := RNIC.default_gid (nic self).
Definition get_port (self : RContext) : Z := u8 (RNIC.port (nic self)).
Definition get_lid (self : RContext) : Z := RNIC.lid (nic self).
Definition get_rkey (self : RContext) : M W Z := gets (fun w => mr_rkey w (kmr self)).
Definition get_lkey (self : RContext) : M W Z := gets (fun w => mr_lkey w (kmr self)).

Definition reset (self : RContext) : M W RContext :=
  _ ← call (ib_dereg_mr (kmr self));
  _ ← call (ib_dealloc_pd (pd self));
  mret (mkRContext (nic self) (kmr self) null).

End context.
End RContext.

(** ** Configuration *)
Module Config.

Record Config := mkConfig {
  max_rd_atomic : Z; max_send_wr_sz : Z; max_recv_wr_sz : Z; max_cqe : Z; max_recv_cqe : Z;
  max_send_sge : Z; max_recv_sge : Z; qkey : Z }.

(** [random] is the byte that [getrandom] writes. *)
Definition default (random : Z) : Config := mkConfig 16 2048 4096 2048 4096 16 1 random.

Definition set_max_rd_atomic (v : Z) (c : Config) : Config :=
  mkConfig v (max_send_wr_sz c) (max_recv_wr_sz c) (max_cqe c) (max_recv_cqe c) (max_send_sge c) (max_recv_sge c) (qkey c).
Definition set_max_send_wr_sz (v : Z) (c : Config) : Config :=
  mkConfig (max_rd_atomic c) (Z.min (max_cqe c) v) (max_recv_wr_sz c) (max_cqe c) (max_recv_cqe c) (max_send_sge c) (max_recv_sge c) (qkey c).
Definition set_max_recv_wr_sz (v : Z) (c : Config) : Config :=
  mkConfig (max_rd_atomic c) (max_send_wr_sz c) (Z.min (max_recv_cqe c) v) (max_cqe c) (max_recv_cqe c) (max_send_sge c) (max_recv_sge c) (qkey c).
Definition set_max_send_sge (v : Z) (c : Config) : Config :=
  mkConfig (max_rd_atomic c) (max_send_wr_sz c) (max_recv_wr_sz c) (max_cqe c) (max_recv_cqe c) v (max_recv_sge c) (qkey c).
Definition set_max_recv_sge (v : Z) (c : Config) : Config :=
  mkConfig (max_rd_atomic c) (max_send_wr_sz c) (max_recv_wr_sz c) (max_cqe c) (max_recv_cqe c) (max_send_sge c) v (qkey c).
Definition set_max_cqe (v : Z) (c : Config) : Config :=
  mkConfig (max_rd_atomic c) (max_send_wr_sz c) (max_recv_wr_sz c) (Z.max (max_send_wr_sz c) v) (max_recv_cqe c) (max_send_sge c) (max_recv_sge c) (qkey c).
Definition set_max_recv_cqe (v : Z) (c : Config) : Config :=
  mkConfig (max_rd_atomic c) (max_send_wr_sz c) (max_recv_wr_sz c) (max_cqe c) (Z.max (max_recv_wr_sz c) v) (max_send_sge c) (max_recv_sge c) (qkey c).

End Config.

(** ** Shared helpers of qp/mod.rs *)
Section helpers.
Context {W : Type} `{!Cfg, !DeviceOps W, !QueueOps W}.

Definition create_qp (config : Config.Config) (pd : ptr) (qp_type : ib_qp_type) (cq recv_cq srq : ptr) : M W ptr :=
  call (ib_create_qp pd
    (mkQpInit (mkCap (u32 (Config.max_send_wr_sz config)) (u32 (Config.max_recv_wr_sz config))
                 (u32 (Config.max_send_sge config)) (u32 (Config.max_recv_sge config)) 64)
       qp_type cq recv_cq srq)).

Definition get_qp_status (qp : ptr) : M W (option ib_qp_state) :=
  '(ret, st) ← call (ib_query_qp qp);
  mret (if negb (ret =? 0) then None else Some st).

Definition create_ib_ah (pd : ptr) (lid : Z) (gid : ib_gid) : M W ptr :=
  res ← call (rdma_create_ah pd (mkAh 1 lid 0 0 gid 0 0 0));
  mret (if ptr_is_err res then null else res).

(** [ib_modify_qp] with its error code as a result. *)
Definition modify_qp (qp : ptr) (attr : ib_qp_attr) (mask : list ib_qp_attr_mask) : M W (Result Error unit) :=
  ret ← call (ib_modify_qp qp attr mask);
  mret (if negb (ret =? 0) then Err (from_kernel_errno ret) else Ok ()).

(** The initiator of dynamically connected transport: the queue pair, its
    completion queue, and the one it receives with. *)
Definition create_dc_qp (ctx : RContext.RContext) (srq recv_cq : ptr) : M W (ptr * ptr * ptr) :=
  let pd := RContext.pd ctx in
  if is_null pd then mret (null, null, null)
  else
    cq ← call (ib_create_cq (RContext.get_raw_dev ctx) 128);
    if is_null cq then mret (null, null, null)
    else
      let recv_cq := if is_null recv_cq then cq else recv_cq in
      qp ← Builder.ib_create_qp_dct pd (mkQpInit (mkCap 128 0 1 1 64) IB_EXP_QPT_DC_INI cq recv_cq srq);
      mret (qp, cq, recv_cq).

Definition modified_ok (qp : ptr) (attr : ib_qp_attr) (mask : list ib_qp_attr_mask) : M W bool :=
  ret ← call (ib_modify_qp qp attr mask); mret (ret =? 0).

Definition bring_dc_to_reset (qp : ptr) : M W bool :=
  modified_ok qp (default_qp_attr |> with_qp_state IB_QPS_RESET) [IB_QP_STATE].
Definition bring_dc_to_init (qp : ptr) : M W bool :=
  modified_ok qp (default_qp_attr |> with_qp_state IB_QPS_INIT |> with_pkey_index 0 |> with_port_num 1)
    [IB_QP_STATE; IB_QP_PKEY_INDEX; IB_QP_PORT; IB_QP_DC_KEY].
Definition bring_dc_to_rtr (qp : ptr) : M W bool :=
  modified_ok qp (default_qp_attr |> with_qp_state IB_QPS_RTR |> with_path_mtu IB_MTU_4096
                    |> with_av (mkAh 1 0 0 0 Verbs.default_gid 0 0 0))
    [IB_QP_STATE; IB_QP_PATH_MTU; IB_QP_AV].
Definition bring_dc_to_rts (qp : ptr) : M W bool :=
  modified_ok qp (default_qp_attr |> with_qp_state IB_QPS_RTS |> with_timeout 50 |> with_retry_cnt 5
                    |> with_rnr_retry 5 |> with_max_rd_atomic 16)
    [IB_QP_STATE; IB_QP_TIMEOUT; IB_QP_RETRY_CNT; IB_QP_RNR_RETRY; IB_QP_MAX_QP_RD_ATOMIC].

Definition bring_dc_to_ready (qp : ptr) : M W bool :=
  init ← bring_dc_to_init qp;
  if negb init then mret false
  else
    rtr ← bring_dc_to_rtr qp;
    if negb rtr then mret false
    else
      rts ← bring_dc_to_rts qp;
      if negb rts then mret false else mret true.

End helpers.

(** ** Connection identifiers *)
Module ClientCM.
Section client.
Context {W : Type} `{!CmOps W}.

Record ClientCM := mkClient { inner_cm : ptr }.

Definition default : ClientCM := mkClient null.
Definition new_from_raw (cm : ptr) : ClientCM := mkClient cm.

Definition new (hca context : ptr) : M W (option ClientCM) :=
  cm ← call (ib_create_cm_id hca context);
  mret (if is_null cm then None else Some (mkClient cm)).

(** [bd_cpu_to_be64]. *)
Definition swap64 (z : Z) : Z := unle (rev (le 8 z)).

Definition listen (self : ClientCM) (id : Z) : M W (Result Error unit) :=
  err ← call (ib_cm_listen (inner_cm self) (swap64 id));
  mret (if negb (err =? 0) then Err (from_kernel_errno err) else Ok ()).

Definition reset (self : ClientCM) : M W ClientCM :=
  _ ← (if negb (is_null (inner_cm self)) then call (ib_destroy_cm_id (inner_cm self)) else mret ());
  mret default.

Definition set_context (self : ClientCM) (val : Z) : M W unit := CMWrapper.set_context (inner_cm self) val.

(** The identifier and what is left. *)
Definition handoff_raw_cm (self : ClientCM) : ptr * ClientCM := (inner_cm self, default).

Definition send (cm : ptr) (m : cm_mad) : M W (Result Error unit) :=
  err ← call (ib_send_cm cm m);
  mret (if negb (err =? 0) then Err (from_kernel_errno err) else Ok ()).

Definition send_reply {T} `{!Wire T} (self : ClientCM) (rep : ib_cm_rep_param) (pri : T) :=
  send (inner_cm self) (MRep (CMWrapper.rep_with pri rep)).
Definition send_req {T} `{!Wire T} (self : ClientCM) (req : ib_cm_req_param) (pri : T) :=
  send (inner_cm self) (MReq (CMWrapper.req_with pri req)).
(** The caller passes a [u8]. *)
Definition send_rtu (self : ClientCM) (pri : Z) := send (inner_cm self) (MRtu (le 1 pri)).
Definition send_sidr {T} `{!Wire T} (self : ClientCM) (req : ib_cm_sidr_req_param) (pri : T) :=
  send (inner_cm self) (MSidrReq (CMWrapper.sidr_req_with pri req)).
Definition send_sidr_reply {T} `{!Wire T} (self : ClientCM) (rep : ib_cm_sidr_rep_param) (info : T) :=
  send (inner_cm self) (MSidrRep (CMWrapper.sidr_rep_with info rep)).

Definition ud_conn_reply {T} `{!Wire T} (ib_cm : ptr) (qpn qkey : Z) (reply : T) : M W (Result Error unit) :=
  send_sidr_reply (new_from_raw ib_cm) (mkSidrRep qpn qkey IB_SIDR_SUCCESS [] 0) reply.

End client.
End ClientCM.

(** ** Messages of the handshakes *)
Module Reply.

Inductive Status : Set := Ok | Err | Nil | Exist | NotExist.
Definition status_code (s : Status) : Z :=
  match s with Ok => 1 | Err => 2 | Nil => 3 | Exist => 4 | NotExist => 5 end.

(** The [enum] a peer's bytes stand for; other values are undefined. *)
Definition status_of (n : Z) : option Status :=
  match n with 1 => Some Ok | 2 => Some Err | 3 => Some Nil | 4 => Some Exist | 5 => Some NotExist | _ => None end.

Record Payload := mkPayload { qd : Z; mr : TempMR; status : Z }.
Record SidrPayload := mkSidr {
  sidr_qd : Z; sidr_lid : Z; sidr_gid : ib_gid; sidr_dct_num : Z; sidr_mr : TempMR; sidr_status : Z }.

Definition new_from_null (qd : Z) : Payload := mkPayload qd default_mr (status_code Nil).

(** [#[repr(C, align(8))]], with padding. *)
Definition payload_layout : list nat := [8; 8; 4; 4; 2; 6]%nat.
Definition sidr_layout : list nat := [8; 2; 6; 8; 8; 4; 4; 8; 4; 4; 2; 6]%nat.

#[global] Instance wire_payload : Wire Payload := {|
  to_bytes p := pack payload_layout
    [qd p; mr_addr (mr p); mr_capacity (mr p); mr_key (mr p); status p; 0];
  of_bytes l := let f i := field payload_layout i l in
    mkPayload (f 0%nat) (mkTempMR (f 1%nat) (f 2%nat) (f 3%nat)) (f 4%nat) |}.

#[global] Instance wire_sidr : Wire SidrPayload := {|
  to_bytes p := pack sidr_layout
    [sidr_qd p; sidr_lid p; 0; subnet_prefix (sidr_gid p); interface_id (sidr_gid p); sidr_dct_num p; 0;
     mr_addr (sidr_mr p); mr_capacity (sidr_mr p); mr_key (sidr_mr p); sidr_status p; 0];
  of_bytes l := let f i := field sidr_layout i l in
    mkSidr (f 0%nat) (f 1%nat) (mkGid (f 3%nat) (f 4%nat)) (f 5%nat)
      (mkTempMR (f 7%nat) (f 8%nat) (f 9%nat)) (f 10%nat) |}.

End Reply.

(** ** Reliable connections *)
Module Rc.
Section rc.
Context {W : Type} `{!Cfg, !DeviceOps W, !QueueOps W, !DataOps W, !CmOps W, !SysOps W}.

Record RC := mkRC {
  qp : ptr; cq : ptr; recv_cq : ptr; srq : ptr; remote_mr : option TempMR; cm : ClientCM.ClientCM }.

Definition default : RC := mkRC null null null null None ClientCM.default.

Definition with_remote_mr (mr : TempMR) (self : RC) : RC :=
  mkRC (qp self) (cq self) (recv_cq self) (srq self) (Some mr) (cm self).
Definition with_cm (c : ClientCM.ClientCM) (self : RC) : RC :=
  mkRC (qp self) (cq self) (recv_cq self) (srq self) (remote_mr self) c.

(** The number is read from the structure of the driver; a null pointer faults. *)
Definition get_qp_num (self : RC) : M W Z :=
  if is_null (qp self) then panic else gets (fun w => Verbs.qp_num w (qp self)).
Definition get_status (self : RC) : M W (option ib_qp_state) := get_qp_status (qp self).
Definition get_remote_mr (self : RC) : M W TempMR := unwrap (remote_mr self).

(** [Drop]; the number is read first. *)
Definition drop (self : RC) : M W unit :=
  _ ← get_qp_num self;
  _ ← (if negb (is_null (qp self)) then _ ← call (ib_destroy_qp (qp self)); mret () else mret ());
  _ ← (if negb (is_null (cq self)) then _ ← call (ib_free_cq (cq self)); mret () else mret ());
  _ ← ClientCM.reset (cm self);
  mret ().

(** [arc] is the address of the [Arc], the context of a new identifier.  On an
    early return the value made so far is dropped. *)
Definition new_with_srq (config : Config.Config) (ctx : RContext.RContext) (cm_ptr srq recv_cq arc : ptr) :
  M W (option RC) :=
  cq ← call (ib_create_cq (RContext.get_raw_dev ctx) (u32 (Config.max_cqe config)));
  if is_null cq then _ ← drop default; mret None
  else
    let recv_cq := if is_null recv_cq then cq else recv_cq in
    if is_null recv_cq then _ ← drop default; mret None
    else
      qp ← create_qp config (RContext.pd ctx) IB_QPT_RC cq recv_cq srq;
      if is_null qp then _ ← drop default; mret None
      else if is_null cm_ptr then
        cm ← ClientCM.new (RContext.get_raw_dev ctx) arc;
        match cm with
        | None => _ ← drop default; mret None
        | Some cm => mret (Some (mkRC qp cq recv_cq srq None cm))
        end
      else mret (Some (mkRC qp cq recv_cq srq None (ClientCM.new_from_raw cm_ptr))).

Definition new_from_config (config : Config.Config) (ctx : RContext.RContext) (cm_ptr recv_cq arc : ptr) :=
  new_with_srq config ctx cm_ptr null recv_cq arc.

(** The attributes of the connection for the next state. *)
Definition cm_attr (cm : ptr) (s : ib_qp_state) : M W (Result Error (ib_qp_attr * list ib_qp_attr_mask)) :=
  '(ret, a) ← call (ib_cm_init_qp_attr cm s);
  mret (if negb (ret =? 0) then Err (from_kernel_errno ret) else Ok a).

Definition status_unwrap (self : RC) : M W ib_qp_state := s ← get_status self; unwrap s.

Definition access_flags : list ib_access_flag :=
  [IB_ACCESS_LOCAL_WRITE; IB_ACCESS_REMOTE_ATOMIC; IB_ACCESS_REMOTE_READ; IB_ACCESS_REMOTE_WRITE].

Definition bring_to_init (self : RC) (cm : ptr) : M W (Result Error unit) :=
  s ← status_unwrap self;
  again ← (if bool_decide (s = IB_QPS_RESET) then mret true
           else s ← status_unwrap self; mret (bool_decide (s = IB_QPS_ERR)));
  if again : bool then
    a ←? cm_attr cm IB_QPS_INIT;
    let '(attr, mask) := a in
    modify_qp (qp self)
      (attr |> with_access (qp_access_flags attr ++ access_flags)) (mask ++ [IB_QP_ACCESS_FLAGS])
  else mret (Ok ()).

Definition bring_to_rtr (self : RC) (cm : ptr) : M W (Result Error unit) :=
  _ ←? bring_to_init self cm;
  s ← status_unwrap self;
  if bool_decide (s = IB_QPS_INIT) then
    a ←? cm_attr cm IB_QPS_RTR;
    let '(attr, mask) := a in
    num ← get_qp_num self;
    modify_qp (qp self) (attr |> with_rq_psn num |> with_max_dest_rd_atomic 16)
      (mask ++ [IB_QP_RQ_PSN; IB_QP_MAX_DEST_RD_ATOMIC])
  else mret (Ok ()).

Definition bring_to_rts (self : RC) (cm : ptr) : M W (Result Error unit) :=
  s ← status_unwrap self;
  if bool_decide (s = IB_QPS_RTR) then
    a ←? cm_attr cm IB_QPS_RTS;
    let '(attr, mask) := a in modify_qp (qp self) attr mask
  else mret (Ok ()).

Definition bring_to_err (self : RC) : M W (Result Error unit) :=
  modify_qp (qp self) (default_qp_attr |> with_qp_state IB_QPS_ERR) [IB_QP_STATE].
Definition bring_to_reset (self : RC) : M W (Result Error unit) :=
  modify_qp (qp self) (default_qp_attr |> with_qp_state IB_QPS_RESET) [IB_QP_STATE].

Definition connect_reply (self : RC) (ev : ib_cm_event) (cm : ClientCM.ClientCM) (reply : Reply.Payload) :
  M W (Result Error unit) :=
  match param ev with
  | ReqRcvd req =>
      num ← get_qp_num self;
      ClientCM.send_reply cm
        (mkRep num num [] 0 (rq_responder_resources req) (rq_initiator_depth req) (u8 (rq_flow_control req))
           (u8 (rq_rnr_retry_count req))) reply
  | _ => panic
  end.

(** The state of the callback: the connection and what its owner waits for. *)
Definition waiting : Type := RC * completion.

(** A failed bring-up is only printed; the wait ends all the same. *)
Definition handle_reply (ev : ib_cm_event) : M (W * waiting) unit :=
  '(self, _) ← getX;
  _ ← onW (r ← bring_to_rtr self (ClientCM.inner_cm (cm self));
           match r with
           | Ok _ => _ ← bring_to_rts self (ClientCM.inner_cm (cm self)); mret ()
           | Err _ => mret ()
           end);
  let reply : Reply.Payload := of_bytes (private_data ev) in
  onX (fun '(self, done) => (with_remote_mr (Reply.mr reply) self, completion_done done)).

(** The code of [IB_CM_DREP_RECEIVED] in the kernel's enumeration. *)
Definition IB_CM_DREP_RECEIVED : Z := 8.

Definition cm_handler (ev : ib_cm_event) : M (W * waiting) Z :=
  _ ← match event ev with
      | IB_CM_REP_RECEIVED => handle_reply ev
      | IB_CM_OTHER n =>
          if n =? IB_CM_DREP_RECEIVED then onX (fun '(self, done) => (self, completion_done done)) else mret ()
      | _ => mret ()
      end;
  mret 0.

(** The arrival of an event at the identifier [cm]. *)
Definition deliver (cm : ptr) (ev : ib_cm_event) : M (W * waiting) unit :=
  _ ← onW (call (cm_receive cm ev)); _ ← cm_handler ev; mret ().
Fixpoint deliver_all (cm : ptr) (evs : list ib_cm_event) : M (W * waiting) unit :=
  match evs with [] => mret () | ev :: evs => _ ← deliver cm ev; deliver_all cm evs end.

Definition CONNECT_TIME_OUT_MS : Z := 5000.

Definition request (num : Z) (path : sa_path_rec) (service_id : Z) : ib_cm_req_param :=
  mkReq path (ClientCM.swap64 service_id) num IB_QPT_RC num [] 0 16 16 20 1 20 0 7 15.

(** [env] is what arrives while [connect] waits. *)
Definition connect (qd : Z) (path : sa_path_rec) (service_id : Z) (env : wait_env) :
  M (W * waiting) (Result Error unit) :=
  _ ← onX (fun '(self, _) => (self, completion_init));
  '(self, _) ← getX;
  num ← onW (get_qp_num self);
  _ ←? onW (ClientCM.send_req (cm self) (request num path service_id) (qd : Z));
  _ ← deliver_all (ClientCM.inner_cm (cm self)) (arrivals env);
  '(self, done) ← getX;
  match completion_wait (signal env) done with
  | (Err e, _) => mret (Err e)
  | (Ok _, done) =>
      _ ← onX (fun '(self, _) => (self, done));
      onW (ClientCM.send_rtu (cm self) 0)
  end.

End rc.
End Rc.

(** ** Datagrams *)
Module Ud.
Section ud.
Context {W : Type} `{!Cfg, !DeviceOps W, !QueueOps W}.

Record UD := mkUD { qp : ptr; cq : ptr; recv_cq : ptr; qkey : Z; shared_recv_cq : bool }.

Definition get_qp_num (self : UD) : M W Z :=
  if is_null (qp self) then panic else gets (fun w => Verbs.qp_num w (qp self)).

Definition bring_ud_to_ready (self : UD) : M W (Result Error unit) :=
  s ← get_qp_status (qp self);
  s ← unwrap s;
  if bool_decide (s = IB_QPS_RESET) then
    _ ←? modify_qp (qp self)
           (default_qp_attr |> with_qp_state IB_QPS_INIT |> with_pkey_index 0 |> with_port_num 1
              |> with_qkey (qkey self))
           [IB_QP_STATE; IB_QP_PKEY_INDEX; IB_QP_PORT; IB_QP_QKEY];
    _ ←? modify_qp (qp self) (default_qp_attr |> with_qp_state IB_QPS_RTR) [IB_QP_STATE];
    num ← get_qp_num self;
    modify_qp (qp self) (default_qp_attr |> with_qp_state IB_QPS_RTS |> with_sq_psn num) [IB_QP_STATE; IB_QP_SQ_PSN]
  else mret (Ok ()).

Definition bring_to_err (self : UD) : M W (Result Error unit) :=
  modify_qp (qp self) (default_qp_attr |> with_qp_state IB_QPS_ERR) [IB_QP_STATE].

Definition drop (self : UD) : M W unit :=
  _ ← get_qp_num self;
  _ ← (if negb (is_null (qp self)) then _ ← call (ib_destroy_qp (qp self)); mret () else mret ());
  _ ← (if negb (is_null (cq self)) then _ ← call (ib_free_cq (cq self)); mret () else mret ());
  if negb (shared_recv_cq self) && negb (is_null (recv_cq self)) then
    _ ← call (ib_free_cq (recv_cq self)); mret ()
  else mret ().

(** A failed bring-up is only printed. *)
Definition new_from_config (config : Config.Config) (ctx : RContext.RContext) (recv_cq srq : ptr) : M W (option UD) :=
  let shared := negb (is_null recv_cq) in
  let res := mkUD null null null (Config.qkey config) shared in
  cq ← call (ib_create_cq (RContext.get_raw_dev ctx) (u32 (Config.max_cqe config)));
  if is_null cq then _ ← drop res; mret None
  else
    recv_cq ← (if is_null recv_cq then
                 call (ib_create_cq (RContext.get_raw_dev ctx) (u32 (Config.max_recv_cqe config)))
               else mret recv_cq);
    if is_null recv_cq then _ ← drop res; mret None
    else
      qp ← create_qp config (RContext.pd ctx) IB_QPT_UD cq recv_cq srq;
      if is_null qp then _ ← drop res; mret None
      else
        let self := mkUD qp cq recv_cq (Config.qkey config) shared in
        _ ← bring_ud_to_ready self;
        mret (Some self).

Definition MAX_UD_RECV_WR : Z := 2048.
Definition MAX_UD_RECV_CQE : Z := 2048.
Definition ud_config (random : Z) : Config.Config :=
  Config.set_max_recv_cqe MAX_UD_RECV_CQE (Config.set_max_recv_wr_sz MAX_UD_RECV_WR (Config.default random)).

Definition new_with_srq (random : Z) (ctx : RContext.RContext) (recv_cq srq : ptr) : M W (option UD) :=
  new_from_config (ud_config random) ctx recv_cq srq.
Definition new (random : Z) (ctx : RContext.RContext) : M W (option UD) :=
  new_from_config (ud_config random) ctx null null.

End ud.
End Ud.

(** ** Dynamically connected transport *)
Module Dc.
Section dc.
Context {W : Type} `{!Cfg, !DeviceOps W, !QueueOps W}.

Record DCTServer := mkDCTServer { dct : ptr; dct_cq : ptr; dct_srq : ptr; dct_recv_cq : ptr }.

(** Null results are printed and kept. *)
Definition server_from_config (config : Config.Config) (ctx : RContext.RContext) : M W DCTServer :=
  cq ← call (ib_create_cq (RContext.get_raw_dev ctx) (u32 (Config.max_cqe config)));
  recv_cq ← call (ib_create_cq (RContext.get_raw_dev ctx) (u32 (Config.max_cqe config)));
  srq ← call (ib_create_srq (RContext.pd ctx) (u32 (Config.max_send_wr_sz config)) (u32 (Config.max_send_sge config)));
  dct ← DynamicConnectedTarget.safe_ib_create_dct (RContext.pd ctx)
          (mkDctInit (RContext.pd ctx) cq srq 73 1
             [IB_ACCESS_LOCAL_WRITE; IB_ACCESS_REMOTE_READ; IB_ACCESS_REMOTE_WRITE; IB_ACCESS_REMOTE_ATOMIC]
             2 60 1 IB_MTU_4096);
  mret (mkDCTServer dct cq srq recv_cq).
Definition server_new (random : Z) (ctx : RContext.RContext) : M W DCTServer :=
  server_from_config (Config.set_max_recv_wr_sz 4096 (Config.default random)) ctx.

Definition get_dct_num (self : DCTServer) : M W Z :=
  if is_null (dct self) then panic else gets (fun w => Verbs.dct_num w (dct self)).

Definition unless_null (p : ptr) (release : ptr -> W -> Z * W) : M W unit :=
  if negb (is_null p) then _ ← call (release p); mret () else mret ().

Definition server_drop (self : DCTServer) : M W unit :=
  _ ← unless_null (dct self) ib_destroy_dct;
  _ ← unless_null (dct_srq self) ib_destroy_srq;
  _ ← unless_null (dct_cq self) ib_free_cq;
  unless_null (dct_recv_cq self) ib_free_cq.

Record DC := mkDC { qp : ptr; cq : ptr; recv_cq : ptr }.

Definition drop (self : DC) : M W unit :=
  _ ← unless_null (qp self) ib_destroy_qp;
  unless_null (cq self) ib_free_cq.

(** The value that is dropped on an early return is still empty. *)
Definition new_with_srq (ctx : RContext.RContext) (srq recv_cq : ptr) : M W (option DC) :=
  '(p, cq, recv_cq) ← create_dc_qp ctx srq recv_cq;
  if is_null p || is_null cq || is_null recv_cq then
    _ ← drop (mkDC null null null); mret None
  else
    ready ← bring_dc_to_ready p;
    if negb ready then _ ← drop (mkDC null null null); mret None
    else mret (Some (mkDC p cq recv_cq)).

End dc.
End Dc.

(** ** Remote end points *)
Module EndPoint.
Section endpoint.
Context {W : Type} `{!DeviceOps W}.

Record EndPoint := mkEndPoint {
  qpn : Z; qkey : Z; lid : Z; gid : ib_gid; dct_num : Z; mr : TempMR; ah : ptr }.

Definition default : EndPoint := mkEndPoint 0 0 0 default_gid 0 default_mr null.

Definition new (pd : ptr) (qpn qkey lid : Z) (gid : ib_gid) (dct_num : Z) (mr : TempMR) : M W EndPoint :=
  ah ← create_ib_ah pd lid gid; mret (mkEndPoint qpn qkey lid gid dct_num mr ah).

Definition valid (self : EndPoint) : bool := negb (is_null (ah self)).
Definition with_ah (ah : ptr) (self : EndPoint) : EndPoint :=
  mkEndPoint (qpn self) (qkey self) (lid self) (gid self) (dct_num self) (mr self) ah.

(** The handle moves to the result; the second component is what stays. *)
Definition transfer (self : EndPoint) : EndPoint * EndPoint := (self, with_ah null self).

Definition drop (self : EndPoint) : M W unit :=
  if valid self then _ ← call (rdma_destroy_ah (ah self)); mret () else mret ().

Definition bind_pd (self : EndPoint) (pd : ptr) : M W EndPoint :=
  _ ← drop self;
  ah ← create_ib_ah pd (lid self) (gid self); mret (with_ah ah self).

End endpoint.
End EndPoint.

(** ** Queries for an end point *)
Module SidrCM.
Section sidr.
Context {W : Type} `{!DeviceOps W, !CmOps W}.

(** [arc] is the address of the box, the context of a new identifier. *)
Record SidrCM := mkSidrCM {
  context : RContext.RContext; done : completion; cm : ClientCM.ClientCM; end_point : EndPoint.EndPoint }.

(** The state of the callback; the identifier is fixed. *)
Definition new (ctx : RContext.RContext) (cm arc : ptr) : M W (option SidrCM) :=
  if is_null cm then
    c ← ClientCM.new (RContext.get_raw_dev ctx) arc;
    mret (match c with
          | None => None
          | Some c => Some (mkSidrCM ctx completion_init c EndPoint.default)
          end)
  else mret (Some (mkSidrCM ctx completion_init (ClientCM.new_from_raw cm) EndPoint.default)).

Definition with_end_point (e : EndPoint.EndPoint) (self : SidrCM) : SidrCM :=
  mkSidrCM (context self) (done self) (cm self) e.
Definition with_done (d : completion) (self : SidrCM) : SidrCM :=
  mkSidrCM (context self) d (cm self) (end_point self).

(** The end point of an earlier reply is dropped by the assignment.  A status that
    is none of the enumeration's values is undefined behaviour. *)
Definition handle_sidr_reply (ev : ib_cm_event) : M (W * SidrCM) unit :=
  match param ev with
  | SidrRepRcvd rep =>
      self ← getX;
      let reply : Reply.SidrPayload := of_bytes (sr_info rep) in
      _ ← match Reply.status_of (Reply.sidr_status reply) with
          | None => panic
          | Some Reply.Ok =>
              e ← onW (EndPoint.new (RContext.pd (context self)) (sr_qpn rep) (sr_qkey rep)
                         (Reply.sidr_lid reply) (Reply.sidr_gid reply) (Reply.sidr_dct_num reply)
                         (Reply.sidr_mr reply));
              _ ← onW (EndPoint.drop (end_point self));
              onX (with_end_point e)
          | Some Reply.NotExist =>
              _ ← onW (EndPoint.drop (end_point self));
              onX (with_end_point EndPoint.default)
          | Some _ => mret ()
          end;
      onX (fun self => with_done (completion_done (done self)) self)
  | _ => panic
  end.

(** The code of [IB_CM_SIDR_REQ_ERROR] in the kernel's enumeration. *)
Definition IB_CM_SIDR_REQ_ERROR : Z := 15.

Definition cm_handler (ev : ib_cm_event) : M (W * SidrCM) Z :=
  _ ← match event ev with
      | IB_CM_SIDR_REP_RECEIVED => handle_sidr_reply ev
      | IB_CM_OTHER n =>
          if n =? IB_CM_SIDR_REQ_ERROR then onX (fun self => with_done (completion_done (done self)) self)
          else mret ()
      | _ => mret ()
      end;
  mret 0.

Fixpoint handle_all (evs : list ib_cm_event) : M (W * SidrCM) unit :=
  match evs with [] => mret () | ev :: evs => _ ← cm_handler ev; handle_all evs end.

Definition sidr_connect (path : sa_path_rec) (service_id qd_hint : Z) (env : wait_env) :
  M (W * SidrCM) (Result Error EndPoint.EndPoint) :=
  _ ← onX (with_done completion_init);
  self ← getX;
  _ ←? onW (ClientCM.send_sidr (cm self) (mkSidrReq path (ClientCM.swap64 service_id) 20 [] 0 3) (qd_hint : Z));
  _ ← handle_all (arrivals env);
  self ← getX;
  match completion_wait (signal env) (done self) with
  | (Err e, _) => mret (Err e)
  | (Ok _, d) =>
      _ ← onX (with_done d);
      if negb (EndPoint.valid (end_point self)) then mret (Err EINVAL)
      else
        let '(e, rest) := EndPoint.transfer (end_point self) in
        _ ← onX (with_end_point rest);
        mret (Ok e)
  end.

(** [Drop], then the field that owns a handle. *)
Definition drop (self : SidrCM) : M W unit :=
  _ ← ClientCM.reset (cm self);
  EndPoint.drop (end_point self).

End sidr.
End SidrCM.

(** ** Operations on connected queue pairs

    [pop] returns a pointer to a local variable of its own frame; what a caller
    reads there later is [dead_slot] of the completion that was written. *)
Class Frame := { dead_slot : ib_wc -> ib_wc }.

Section ops.
Context {W : Type} `{!DataOps W}.

Definition post_one (qp : ptr) (sge : ib_sge) (op : ib_wr_opcode) (flags : list ib_send_flag) (imm : Z)
  (ext : wr_body) : M W (Result Error unit) :=
  err ← call (ib_post_send qp [mkSendWr 0 op flags imm [sge] ext]);
  mret (if negb (err =? 0) then Err (from_kernel_errno err) else Ok ()).

(** The completion a poll of one entry wrote; a successful poll that reports an
    entry has written it. *)
Definition pop_cq (cq : ptr) : M W (option ib_wc) :=
  '(ret, got) ← call (ib_poll_cq cq 1);
  mret (if ret <? 0 then None else if ret =? 1 then Some (default RecvHelper.zeroed_wc (head got)) else None).

(** The loops of [wait_til_comp] have no bound; [None] is a wait of more than
    [fuel] polls. *)
Fixpoint until_some {A} (fuel : nat) (poll : M W (option A)) : M W (option A) :=
  match fuel with
  | O => mret None
  | S fuel => ret ← poll; match ret with Some a => mret (Some a) | None => until_some fuel poll end
  end.

End ops.

Module RCOp.
Section op.
Context {W : Type} `{!DataOps W}.

Definition push_with_imm (self : Rc.RC) (op : ib_wr_opcode) (local_ptr lkey sz remote_addr rkey imm_data : Z)
  (send_flag : list ib_send_flag) : M W (Result Error unit) :=
  post_one (Rc.qp self) (mkSge local_ptr (u32 sz) lkey) op send_flag imm_data (WrRdma remote_addr rkey).
Definition push (self : Rc.RC) (op : ib_wr_opcode) (local_ptr lkey sz remote_addr rkey : Z)
  (send_flag : list ib_send_flag) := push_with_imm self op local_ptr lkey sz remote_addr rkey 0 send_flag.

Definition pop (self : Rc.RC) : M W (option ib_wc) := pop_cq (Rc.cq self).

Definition wait_til_comp (fuel : nat) (self : Rc.RC) : M W (option ib_wc) := until_some fuel (pop self).

End op.
End RCOp.

Module DCOp.
Section op.
Context {W : Type} `{!DataOps W}.

Definition push_with_imm (self : Dc.DC) (op : ib_wr_opcode) (local_ptr lkey sz remote_addr rkey : Z)
  (end_point : EndPoint.EndPoint) (send_flag : list ib_send_flag) (imm_data : Z) : M W (Result Error unit) :=
  post_one (Dc.qp self) (mkSge local_ptr (u32 sz) lkey) op send_flag imm_data
    (WrDc remote_addr rkey (EndPoint.ah end_point) 73 (EndPoint.dct_num end_point)).
Definition push (self : Dc.DC) (op : ib_wr_opcode) (local_ptr lkey sz remote_addr rkey : Z)
  (end_point : EndPoint.EndPoint) (send_flag : list ib_send_flag) : M W (Result Error unit) :=
  post_one (Dc.qp self) (mkSge local_ptr (u32 sz) lkey) op send_flag 0
    (WrDc remote_addr rkey (EndPoint.ah end_point) 73 (EndPoint.dct_num end_point)).

Definition pop (self : Dc.DC) : M W (option ib_wc) := pop_cq (Dc.cq self).

(** The loop with its counter; [None] inside is a time-out, outside a loop that
    outlives its fuel. *)
Fixpoint wait_loop (fuel : nat) (cnt : Z) (self : Dc.DC) : M W (option (option ib_wc)) :=
  match fuel with
  | O => mret None
  | S fuel =>
      ret ← pop self;
      match ret with
      | Some wc => mret (Some (Some wc))
      | None => let cnt := cnt + 1 in if 10000 <? cnt then mret (Some None) else wait_loop fuel cnt self
      end
  end.
Definition wait_til_comp (fuel : nat) (self : Dc.DC) : M W (option (option ib_wc)) := wait_loop fuel 0 self.

End op.
End DCOp.

Module UDOp.
Section op.
Context {W : Type} `{!DataOps W}.

Definition push (self : Ud.UD) (op : ib_wr_opcode) (local_ptr lkey : Z) (end_point : EndPoint.EndPoint)
  (sz imm_data : Z) (send_flag : list ib_send_flag) : M W (Result Error unit) :=
  post_one (Ud.qp self) (mkSge local_ptr (u32 sz) lkey) op send_flag imm_data
    (WrUd (EndPoint.ah end_point) (u32 (EndPoint.qpn end_point)) (u32 (EndPoint.qkey end_point))).

Definition pop (self : Ud.UD) : M W (option ib_wc) := pop_cq (Ud.cq self).

Definition wait_til_comp (fuel : nat) (self : Ud.UD) : M W (option ib_wc) := until_some fuel (pop self).

(** A poll error and a time-out return the completion as it is, zeroed. *)
Fixpoint wait_one_loop (fuel : nat) (idx : Z) (self : Ud.UD) : M W (option ib_wc) :=
  match fuel with
  | O => mret None
  | S fuel =>
      '(ret, got) ← call (ib_poll_cq (Ud.cq self) 1);
      if ret <? 0 then mret (Some RecvHelper.zeroed_wc)
      else if ret =? 1 then mret (Some (default RecvHelper.zeroed_wc (head got)))
      else let idx := idx + 1 in if 1000 <? idx then mret (Some RecvHelper.zeroed_wc) else wait_one_loop fuel idx self
  end.
Definition wait_one_cq (fuel : nat) (self : Ud.UD) : M W (option ib_wc) := wait_one_loop fuel 0 self.

Definition send (fuel : nat) (self : Ud.UD) (local_ptr lkey : Z) (end_point : EndPoint.EndPoint) (sz : Z) :
  M W (Result Error (option ib_wc)) :=
  _ ←? post_one (Ud.qp self) (mkSge local_ptr (u32 sz) lkey) IB_WR_SEND [IB_SEND_SIGNALED] 0
         (WrUd (EndPoint.ah end_point) (u32 (EndPoint.qpn end_point)) (u32 (EndPoint.qkey end_point)));
  wc ← wait_one_cq fuel self; mret (Ok wc).

Definition post_recv (self : Ud.UD) (local_ptr lkey sz : Z) : M W (Result Error unit) :=
  err ← call (ib_post_recv (Ud.qp self) [mkRecvWr 0 [mkSge local_ptr (u32 sz) (u32 lkey)]]);
  mret (if negb (err =? 0) then Err (from_kernel_errno err) else Ok ()).

End op.
End UDOp.

(** ** Paths *)
Module IBExplorer.
Section explorer.
Context {W : Type} `{!SaOps W}.

(** [str_to_gid] and [gid_to_str] (net_util.rs); a text that is no GID panics. *)
Definition str_to_gid (addr : list Z) : outcome ib_gid :=
  match Guid.Guid.from_str addr with
  | Done (Ok g) => Done (Explorer.gid_of_raw (Guid.Guid.get_raw g))
  | Done (Err _) | Panic => Panic
  end.
Definition gid_to_str (raw : list Z) : list Z := Guid.Guid.fmt (Guid.Guid.new_u8 raw).

(** [path_rec_completion]: a failed query panics in the callback. *)
Definition path_rec_completion (status : Z) (resp : sa_path_rec) (done : completion) :
  outcome (option sa_path_rec * completion) :=
  if negb (status =? 0) then Panic else Done (Some resp, completion_done done).

(** [callback] is the answer of the subnet administrator, if one arrives while
    [resolve] waits; the result of the wait, and the path it has stored. *)
Definition resolve (service_id : Z) (ctx : RContext.RContext) (dst_gid : list Z) (sa_client : ptr)
  (callback : option (Z * sa_path_rec)) (signal : Z) : M W (Result Error unit * option sa_path_rec) :=
  gid ← lift (str_to_gid dst_gid);
  ret ← call (ib_sa_path_rec_get sa_client (RContext.get_raw_dev ctx) (RContext.get_port ctx)
                (mkPath gid (RContext.get_gid ctx) 1 service_id [])
                [path_rec_service_id; path_rec_dgid; path_rec_sgid; path_rec_numb_path] Rc.CONNECT_TIME_OUT_MS);
  if ret <? 0 then mret (Err (from_kernel_errno ret), None)
  else
    '(result, done) ← lift match callback with
                           | Some (status, resp) => path_rec_completion status resp completion_init
                           | None => Done (None, completion_init)
                           end;
    mret (fst (completion_wait signal done), result).

End explorer.
End IBExplorer.

(** ** Bounded waits *)
Section waits.
Context {W : Type} `{!DataOps W}.

Lemma dc_wait_loop_total fuel cnt dc (w : W) :
  10001 - cnt <= Z.of_nat fuel -> cnt <= 10000 ->
  exists r w', DCOp.wait_loop fuel cnt dc w = Done (Some r, w') /\
    forall n, DCOp.wait_loop (fuel + n) cnt dc w = Done (Some r, w').
Proof.
  revert cnt w. induction fuel as [|fuel IH]; intros cnt w Hf Hc; [lia|]. cbn [DCOp.wait_loop Nat.add].
  unfold DCOp.pop, pop_cq. destruct (ib_poll_cq (Dc.cq dc) 1 w) as [[ret got] w1] eqn:E.
  setoid_rewrite bind_assoc. setoid_rewrite bind_call. rewrite E. setoid_rewrite bind_ret.
  destruct (ret <? 0), (ret =? 1); try (by eexists _, _);
    (destruct (Z.ltb_spec 10000 (cnt + 1)); [by eexists _, _|apply IH; lia]).
Qed.

Lemma ud_wait_loop_total fuel idx ud (w : W) :
  1001 - idx <= Z.of_nat fuel -> idx <= 1000 ->
  exists r w', UDOp.wait_one_loop fuel idx ud w = Done (Some r, w') /\
    forall n, UDOp.wait_one_loop (fuel + n) idx ud w = Done (Some r, w').
Proof.
  revert idx w. induction fuel as [|fuel IH]; intros idx w Hf Hc; [lia|]. cbn [UDOp.wait_one_loop Nat.add].
  destruct (ib_poll_cq (Ud.cq ud) 1 w) as [[ret got] w1] eqn:E.
  setoid_rewrite bind_call. rewrite E.
  destruct (ret <? 0), (ret =? 1); try (by eexists _, _);
    (destruct (Z.ltb_spec 1000 (idx + 1)); [by eexists _, _|apply IH; lia]).
Qed.

End waits.
