(* ===== verification/SysDoorbell.v ===== *)
(** * Batches of requests and memory of the system-call stack

    src/KRdmaKit-syscall/two-sided-dc/KRdmaKit/src: the doorbell helper of
    qp/doorbell.rs with [post_doorbell] of qp/rc_op.rs, the blocking operations and the
    shared receive of qp/rc_op.rs, the rest of qp/mod.rs ([send_reg_mr],
    [create_dct_server]) and of cm/client.rs (the messages that end a connection), and
    virtual memory (mem/virt.rs).

    A helper is a structure whose requests point to each other and to the entries of
    the same structure. A pointer is the address of the structure it points into and an
    index; a value that is moved keeps its pointers, which then point to where it was. *)

From S2P Require Import Prelude Bytes Errors Verbs CmVerbs Sim Guid Context CompletionQueue QueuePair BringUp.
From S2P Require Import Stable CommManager RecvHelper SysQp.

#[local] Open Scope Z_scope.

(** ** Batches (doorbell.rs) *)
Module Batch.

Definition DEFAULT_BATCH_SZ : nat := 64.

Abbreviation link := (option (Z * nat)).
Record ib_rdma_wr := mkWr {
  opcode : ib_wr_opcode; flags : list ib_send_flag; imm_data : Z; remote_addr : Z; rkey : Z;
  num_sge : Z; next_wr : link; sg_list : link }.
Definition default_wr : ib_rdma_wr := mkWr IB_WR_RDMA_WRITE [] 0 0 0 0 None None.
Definition set_next (l : link) (w : ib_rdma_wr) : ib_rdma_wr :=
  mkWr (opcode w) (flags w) (imm_data w) (remote_addr w) (rkey w) (num_sge w) l (sg_list w).

(** [at_] is the address of the structure. *)
Record DoorbellHelper := mkHelper { at_ : Z; wrs : list ib_rdma_wr; sges : list ib_sge; cur_idx : Z; capacity : Z }.
Definition set_wrs (l : list ib_rdma_wr) (h : DoorbellHelper) : DoorbellHelper := mkHelper (at_ h) l (sges h) (cur_idx h) (capacity h).
Definition set_cur (i : Z) (h : DoorbellHelper) : DoorbellHelper := mkHelper (at_ h) (wrs h) (sges h) i (capacity h).

(** A move to another address. *)
Definition moved_to (a : Z) (h : DoorbellHelper) : DoorbellHelper := mkHelper a (wrs h) (sges h) (cur_idx h) (capacity h).

(** The loop of [create], in the frame of the function at [a]. *)
Fixpoint link_all (a : Z) (op : ib_wr_opcode) (cap : nat) (is_ : list nat) (l : list ib_rdma_wr) : outcome (list ib_rdma_wr) :=
  match is_ with
  | [] => Done l
  | i :: is_ =>
      match l !! i with
      | None => Panic
      | Some _ =>
          if (DEFAULT_BATCH_SZ <=? S i mod cap)%nat then Panic
          else link_all a op cap is_ (<[i := mkWr op [] 0 0 0 1 (Some (a, S i mod cap)%nat) (Some (a, i))]> l)
      end
  end.
Definition create (a : Z) (cap : nat) (op : ib_wr_opcode) : outcome DoorbellHelper :=
  match link_all a op cap (seq 0 cap) (replicate DEFAULT_BATCH_SZ default_wr) with
  | Done l => Done (mkHelper a l (replicate DEFAULT_BATCH_SZ (mkSge 0 0 0)) (-1) (Z.of_nat cap))
  | Panic => Panic
  end.

Definition size (h : DoorbellHelper) : Z := cur_idx h + 1.
Definition is_empty (h : DoorbellHelper) : bool := size h <=? 0.
Definition empty (h : DoorbellHelper) : DoorbellHelper := set_cur (-1) h.
Definition is_full (h : DoorbellHelper) : bool := capacity h <=? size h.
Definition next (h : DoorbellHelper) : bool * DoorbellHelper :=
  if is_full h then (false, h) else (true, set_cur (cur_idx h + 1) h).

Definition cur (h : DoorbellHelper) : nat := if is_empty h then 0%nat else Z.to_nat (cur_idx h).
(** A store through [cur_wr] and through [cur_sge]; the index is checked. *)
Definition cur_wr (f : ib_rdma_wr -> ib_rdma_wr) (h : DoorbellHelper) : outcome DoorbellHelper :=
  match wrs h !! cur h with Some w => Done (set_wrs (<[cur h := f w]> (wrs h)) h) | None => Panic end.
Definition cur_sge (g : ib_sge) (h : DoorbellHelper) : outcome DoorbellHelper :=
  match sges h !! cur h with
  | Some _ => Done (mkHelper (at_ h) (wrs h) (<[cur h := g]> (sges h)) (cur_idx h) (capacity h))
  | None => Panic
  end.

Definition freeze (h : DoorbellHelper) : outcome DoorbellHelper :=
  if is_empty h then Panic else cur_wr (set_next None) h.
Definition freeze_done (h : DoorbellHelper) : outcome DoorbellHelper :=
  if is_empty h then Panic
  else cur_wr (set_next (Some (at_ h, if cur_idx h =? capacity h - 1 then 0%nat else S (cur h)))) h.
Definition clear (h : DoorbellHelper) : outcome DoorbellHelper :=
  match freeze_done h with Done h => Done (set_cur (-1) h) | Panic => Panic end.

(** What the driver reads of a chain of requests; a pointer elsewhere is memory that is
    gone. *)
Definition request (w : ib_rdma_wr) (g : ib_sge) : send_wr :=
  mkSendWr 0 (opcode w) (flags w) (imm_data w) [g] (WrRdma (remote_addr w) (rkey w)).
Fixpoint walk (fuel : nat) (h : DoorbellHelper) (l : link) : outcome (list send_wr) :=
  match l with
  | None => Done []
  | Some (a, i) =>
      match fuel with
      | O => Panic
      | S fuel =>
          if negb (a =? at_ h) then Panic
          else
            match wrs h !! i with
            | Some w =>
                match sg_list w with
                | Some (b, j) =>
                    if negb (b =? at_ h) then Panic
                    else match sges h !! j with
                      | Some g => match walk fuel h (next_wr w) with Done ws => Done (request w g :: ws) | Panic => Panic end
                      | None => Panic
                      end
                | None => Panic
                end
            | None => Panic
            end
      end
  end.

Section post.
Context {W : Type} `{!DataOps W}.

Definition onH (f : DoorbellHelper -> outcome DoorbellHelper) : M (W * DoorbellHelper) unit := fun '(w, h) =>
  match f h with Done h => Done ((), (w, h)) | Panic => Panic end.

(** [post_send] has a copy of the first request and of its entry. *)
Definition post_doorbell (qp : ptr) : M (W * DoorbellHelper) (Result Error unit) :=
  _ ← onH freeze;
  h ← getX;
  wr ← unwrap (wrs h !! 0%nat);
  sge ← unwrap (sges h !! 0%nat);
  rest ← lift (walk DEFAULT_BATCH_SZ h (next_wr wr));
  err ← onW (call (ib_post_send qp (request wr sge :: rest)));
  _ ← onH freeze_done;
  mret (if negb (err =? 0) then Err (from_kernel_errno err) else Ok ()).
End post.

(** ** What is handed to the driver *)
Definition linked (a : Z) (h : DoorbellHelper) : Prop :=
  1 <= capacity h <= Z.of_nat DEFAULT_BATCH_SZ /\ length (wrs h) = DEFAULT_BATCH_SZ /\ length (sges h) = DEFAULT_BATCH_SZ /\
  forall i, Z.of_nat i < capacity h -> exists w, wrs h !! i = Some w /\
    next_wr w = Some (a, (S i mod Z.to_nat (capacity h))%nat) /\ sg_list w = Some (a, i).

Definition req_at (h : DoorbellHelper) (i : nat) : send_wr :=
  request (default default_wr (wrs h !! i)) (default (mkSge 0 0 0) (sges h !! i)).
(** The requests of the batch. *)
Definition requests (h : DoorbellHelper) : list send_wr := req_at h <$> seq 0 (Z.to_nat (size h)).

Lemma link_all_spec a op cap k l :
  (k <= cap <= DEFAULT_BATCH_SZ)%nat -> length l = DEFAULT_BATCH_SZ ->
  exists l', link_all a op cap (seq (cap - k) k) l = Done l' /\ length l' = DEFAULT_BATCH_SZ /\
    (forall i, (i < cap - k)%nat -> l' !! i = l !! i) /\
    (forall i, (cap - k <= i < cap)%nat -> l' !! i = Some (mkWr op [] 0 0 0 1 (Some (a, (S i mod cap)%nat)) (Some (a, i)))).
Proof.
  revert l. induction k as [|k IH]; intros l Hk Hl; cbn [seq link_all].
  { exists l. split_and!; [done..|]. intros i Hi. lia. }
  destruct (lookup_lt_is_Some_2 l (cap - S k)) as [w Hw]; [lia|]. rewrite Hw.
  assert (S (cap - S k) mod cap < cap)%nat by (apply Nat.mod_upper_bound; lia).
  rewrite (proj2 (Nat.leb_gt _ _)) by lia. replace (S (cap - S k)) with (cap - k)%nat by lia.
  destruct (IH (<[(cap - S k)%nat := mkWr op [] 0 0 0 1 (Some (a, ((cap - k) mod cap)%nat)) (Some (a, (cap - S k)%nat))]> l)) as (l' & -> & Hl' & H1 & H2);
    [lia|by rewrite length_insert|]. exists l'. split_and!; [done|done| |].
  - intros i Hi. rewrite H1 by lia. apply list_lookup_insert_ne. lia.
  - intros i Hi. destruct (decide (i = cap - S k)%nat) as [->|]; [|apply H2; lia].
    rewrite H1 by lia. rewrite list_lookup_insert_eq by lia. by replace (S (cap - S k)) with (cap - k)%nat by lia.
Qed.

Lemma create_linked a cap op :
  (1 <= cap <= DEFAULT_BATCH_SZ)%nat -> exists h, create a cap op = Done h /\ linked a h /\ at_ h = a /\ cur_idx h = -1.
Proof.
  intros Hc. destruct (link_all_spec a op cap cap (replicate DEFAULT_BATCH_SZ default_wr)) as (l & Hl & Hn & _ & H2); [lia|apply length_replicate|].
  rewrite Nat.sub_diag in Hl, H2. unfold create. rewrite Hl. eexists. split; [done|]. split; [|done]. unfold linked. cbn [capacity wrs sges].
  split_and!; [lia|lia|done|apply length_replicate|]. intros i Hi. eexists. split; [apply H2; lia|]. by rewrite Nat2Z.id.
Qed.

(** The caller fills the current request and its entry. *)
Definition fill (op : ib_wr_opcode) (fl : list ib_send_flag) (imm ra rk : Z) (w : ib_rdma_wr) : ib_rdma_wr :=
  mkWr op fl imm ra rk (num_sge w) (next_wr w) (sg_list w).

Lemma fill_linked a h op fl imm ra rk h' : linked a h -> cur_wr (fill op fl imm ra rk) h = Done h' -> linked a h'.
Proof.
  intros (H1 & H2 & H3 & H4). unfold cur_wr. destruct (wrs h !! cur h) as [w|] eqn:E; [|done]. intros [= <-].
  unfold linked. cbn [capacity wrs sges set_wrs]. split_and!; [lia|lia|by rewrite length_insert|done|]. intros i Hi.
  destruct (H4 i Hi) as (w1 & Hw & Hn & Hs). destruct (decide (cur h = i)) as [<-|].
  - rewrite list_lookup_insert_eq by (by eapply lookup_lt_Some). rewrite E in Hw. injection Hw as ->. by eexists.
  - rewrite list_lookup_insert_ne by done. by exists w1.
Qed.

(** The chain that ends at [k], from [i] on. *)
Lemma walk_spec a h k d fuel w :
  linked a h -> at_ h = a -> Z.of_nat k < capacity h -> (d <= k)%nat -> (d < fuel)%nat -> wrs h !! k = Some w ->
  let h1 := set_wrs (<[k := set_next None w]> (wrs h)) h in
  walk fuel h1 (Some (a, (k - d)%nat)) = Done (req_at h <$> seq (k - d) (S d)).
Proof.
  intros (H1 & H2 & H3 & H4) Ha Hk Hd Hf Hw. cbv zeta. revert fuel Hf. induction d as [|d IH]; intros [|fuel] Hf; try lia; cbn [walk];
    cbn [at_ set_wrs wrs sges]; rewrite Ha, Z.eqb_refl; cbn [negb].
  - rewrite Nat.sub_0_r, list_lookup_insert_eq by lia. destruct (H4 k Hk) as (w' & Hw' & Hn & Hs). rewrite Hw in Hw'. injection Hw' as <-.
    cbn [sg_list set_next next_wr]. rewrite Hs, Z.eqb_refl. cbn [negb]. destruct (lookup_lt_is_Some_2 (sges h) k) as [g Hg]; [lia|].
    rewrite Hg. assert (walk fuel (set_wrs (<[k:=set_next None w]> (wrs h)) h) None = Done []) as -> by by destruct fuel.
    cbn. unfold req_at. by rewrite Hw, Hg.
  - rewrite list_lookup_insert_ne by lia. destruct (H4 (k - S d)%nat) as (w' & Hw' & Hn & Hs); [lia|].
    rewrite Hw', Hs, Z.eqb_refl. cbn [negb]. destruct (lookup_lt_is_Some_2 (sges h) (k - S d)) as [g Hg]; [lia|]. rewrite Hg, Hn.
    rewrite Nat.mod_small by lia. replace (S (k - S d)) with (k - d)%nat by lia. rewrite IH by lia.
    change (seq (k - S d) (S (S d))) with ((k - S d)%nat :: seq (S (k - S d)) (S d)). rewrite fmap_cons.
    replace (S (k - S d)) with (k - d)%nat by lia. do 2 f_equal. unfold req_at. by rewrite Hw', Hg.
Qed.

Section post_spec.
Context {W : Type} `{!DataOps W}.

(** What a post leaves: the last link points to where the helper is. *)
Definition relinked (h : DoorbellHelper) : DoorbellHelper :=
  match wrs h !! cur h with
  | Some w => set_wrs (<[cur h := set_next (Some (at_ h, (S (cur h) mod Z.to_nat (capacity h))%nat)) w]> (wrs h)) h
  | None => h
  end.

Lemma frozen_next h : cur_idx h < capacity h -> 0 <= cur_idx h ->
  (if cur_idx h =? capacity h - 1 then 0%nat else S (cur h)) = (S (cur h) mod Z.to_nat (capacity h))%nat.
Proof.
  intros Hc H0. unfold cur, is_empty, size. rewrite (proj2 (Z.leb_gt _ _)) by lia. destruct (Z.eqb_spec (cur_idx h) (capacity h - 1)) as [->|].
  - replace (S (Z.to_nat (capacity h - 1))) with (Z.to_nat (capacity h)) by lia. rewrite Nat.Div0.mod_same. done.
  - rewrite Nat.mod_small by lia. done.
Qed.

Lemma cur_nonneg h : 0 <= cur_idx h -> cur h = Z.to_nat (cur_idx h).
Proof. intros H. unfold cur, is_empty, size. by rewrite (proj2 (Z.leb_gt _ _)) by lia. Qed.

Lemma relinked_same a h : linked a h -> 0 <= cur_idx h < capacity h -> at_ h = a -> relinked h = h.
Proof.
  intros (_ & _ & _ & H4) Hc Ha. unfold relinked. destruct (H4 (cur h)) as (w & Hw & Hn & _); [rewrite cur_nonneg; lia|]. rewrite Hw, Ha.
  replace (set_next _ w) with w by (destruct w; cbn in *; by rewrite Hn). rewrite list_insert_id by done. by destruct h.
Qed.

(** The two requests a post reads first, and the helper around the call of the driver. *)
Lemma post_facts a h :
  linked a h -> 0 <= cur_idx h < capacity h -> exists wk w0 g0,
  wrs h !! cur h = Some wk /\ wrs h !! 0%nat = Some w0 /\ next_wr w0 = Some (a, (1 mod Z.to_nat (capacity h))%nat) /\ sges h !! 0%nat = Some g0 /\
  let h1 := set_wrs (<[cur h := set_next None wk]> (wrs h)) h in freeze h = Done h1 /\ freeze_done h1 = Done (relinked h).
Proof.
  intros (H1 & H2 & H3 & H4) Hc. assert (He : is_empty h = false) by (unfold is_empty, size; apply Z.leb_gt; lia).
  destruct (H4 (cur h)) as (wk & Hwk & _); [rewrite cur_nonneg; lia|]. destruct (H4 0%nat) as (w0 & Hw0 & Hn0 & _); [lia|].
  destruct (lookup_lt_is_Some_2 (sges h) 0) as [g0 Hg0]; [lia|]. exists wk, w0, g0. cbv zeta. split_and!; try done.
  - unfold freeze, cur_wr. rewrite He, Hwk. reflexivity.
  - set (h1 := set_wrs _ h). unfold freeze_done, cur_wr, relinked. change (is_empty h1) with (is_empty h). change (cur_idx h1) with (cur_idx h).
    change (capacity h1) with (capacity h). change (cur h1) with (cur h). change (at_ h1) with (at_ h). rewrite He, frozen_next, Hwk by lia.
    cbn [wrs h1 set_wrs]. rewrite list_lookup_insert_eq by (by eapply lookup_lt_Some). by rewrite list_insert_insert_eq.
Qed.

(** C39. A batch of the helper of the system-call stack. If the helper is where [create]
    built it, or holds one request, [post_doorbell] hands the driver the requests of the
    batch in order, each with its entry, returns what the driver says, and the links are
    as before. If it was moved since, as a function that returns it does, and holds more,
    the driver is sent to the memory the helper had before. *)
Theorem post_doorbell_correct qp (w : W) a h :
  linked a h -> 0 <= cur_idx h < capacity h ->
  if decide (at_ h = a \/ cur_idx h = 0) then
    post_doorbell qp (w, h) =
      (let '(err, w') := ib_post_send qp (requests h) w in
       Done (if negb (err =? 0) then Err (from_kernel_errno err) else Ok (), (w', relinked h))) /\
    (at_ h = a -> relinked h = h)
  else post_doorbell qp (w, h) = Panic.
Proof.
  intros Hlk Hc. destruct (post_facts a h Hlk Hc) as (wk & w0 & g0 & Hwk & Hw0 & Hn0 & Hg0 & Hf & Hd).
  pose proof Hlk as (H1 & H2 & H3 & H4). set (k := cur h) in *. assert (Hk : Z.of_nat k = cur_idx h) by (unfold k; rewrite cur_nonneg; lia).
  unfold post_doorbell. rewrite bind_run. cbn [onH]. rewrite Hf, bind_getX. cbn [wrs sges set_wrs]. rewrite Hg0.
  assert (Hsz : Z.to_nat (size h) = S k) by (unfold size; lia).
  destruct (decide (k = 0%nat)) as [E0|E0].
  - rewrite E0 in *. rewrite list_lookup_insert_eq by lia. cbn [unwrap]. rewrite !bind_ret. rewrite Hw0 in Hwk. injection Hwk as <-.
    change (next_wr (set_next None w0)) with (None : link). rewrite decide_True by lia. change (walk _ _ None) with (Done (A := list send_wr) []).
    assert (Hrq : requests h = [request w0 g0]) by (unfold requests, req_at; rewrite Hsz; cbn; by rewrite Hw0, Hg0).
    rewrite Hrq, bind_lift, bind_onW. change (request (set_next None w0) g0) with (request w0 g0). unfold call. destruct (ib_post_send qp _ w) as [err w'].
    rewrite bind_run. cbn [onH]. rewrite Hd. split; [done|]. by apply relinked_same.
  - rewrite list_lookup_insert_ne by done. rewrite Hw0. cbn [unwrap]. rewrite !bind_ret, Hn0.
    rewrite (Nat.mod_small 1) by lia. destruct (decide (at_ h = a)) as [Ea|Ea].
    + rewrite decide_True by (by left). pose proof (walk_spec a h k (k - 1) DEFAULT_BATCH_SZ wk Hlk Ea ltac:(lia) ltac:(lia) ltac:(lia) Hwk) as Hwalk.
      cbv zeta in Hwalk. replace (k - (k - 1))%nat with 1%nat in Hwalk by lia. rewrite Hwalk, bind_lift, bind_onW.
      assert (Hrq : requests h = request w0 g0 :: (req_at h <$> seq 1 (S (k - 1)))).
      { unfold requests. rewrite Hsz. replace (S (k - 1)) with k by lia. cbn [seq]. rewrite fmap_cons. unfold req_at at 1. by rewrite Hw0, Hg0. }
      rewrite Hrq. unfold call. destruct (ib_post_send qp _ w) as [err w']. rewrite bind_run. cbn [onH]. rewrite Hd. split; [done|]. by apply relinked_same.
    + rewrite decide_False by lia. change (walk DEFAULT_BATCH_SZ ?h1 ?l) with (walk 64 h1 l).
      cbn [walk at_ set_wrs]. by rewrite (proj2 (Z.eqb_neq a (at_ h))) by congruence.
Qed.
End post_spec.
End Batch.

(** Three requests in a helper of four, at 4096. *)
Module BatchSample.
Import Batch.
Definition push (ra : Z) (h : DoorbellHelper) : outcome DoorbellHelper :=
  match cur_wr (fill IB_WR_RDMA_READ [] 0 ra 7) (snd (next h)) with
  | Done h => cur_sge (mkSge (ra + 1) 8 9) h
  | Panic => Panic
  end.
Definition three : outcome DoorbellHelper :=
  match create 4096 4 IB_WR_RDMA_READ with
  | Done h => match push 100 h with Done h => match push 200 h with Done h => push 300 h | Panic => Panic end | Panic => Panic end
  | Panic => Panic
  end.

Lemma cur_sge_linked a h g h' : linked a h -> cur_sge g h = Done h' -> linked a h'.
Proof.
  intros (H1 & H2 & H3 & H4). unfold cur_sge. destruct (sges h !! cur h); [|done]. intros [= <-].
  unfold linked. cbn [capacity wrs sges]. by rewrite length_insert.
Qed.
Lemma next_linked a h : linked a h -> linked a (snd (next h)).
Proof. unfold next. by destruct (is_full h). Qed.
Lemma push_linked a ra h h' : linked a h -> push ra h = Done h' -> linked a h'.
Proof.
  unfold push. intros Hl. destruct (cur_wr _ (snd (next h))) as [h1|] eqn:E; [|done]. intros H.
  eapply cur_sge_linked; [|exact H]. eapply fill_linked; [|exact E]. by apply next_linked.
Qed.
Lemma three_linked h : three = Done h -> linked 4096 h.
Proof.
  unfold three. destruct (create_linked 4096 4 IB_WR_RDMA_READ) as (h0 & -> & H0 & _); [unfold DEFAULT_BATCH_SZ; lia|].
  destruct (push 100 h0) as [h1|] eqn:E1; [|done]. pose proof (push_linked _ _ _ _ H0 E1) as H1.
  destruct (push 200 h1) as [h2|] eqn:E2; [|done]. pose proof (push_linked _ _ _ _ H1 E2) as H2.
  intros H3. by eapply push_linked.
Qed.
End BatchSample.

Example post_doorbell_correct_witness :
  match BatchSample.three with
  | Done h => map (fun r => wr_ext r) (Batch.requests h) = [WrRdma 100 7; WrRdma 200 7; WrRdma 300 7] /\
      (exists r w', Batch.post_doorbell 5 (sim_init, h) = Done (r, (w', h))) /\
      Batch.post_doorbell 5 (sim_init, Batch.moved_to 8192 h) = Panic
  | Panic => False
  end.
Proof.
  destruct BatchSample.three as [h|] eqn:E; [|by vm_compute in E]. pose proof (BatchSample.three_linked h E) as Hl.
  assert (Hc : 0 <= Batch.cur_idx h < Batch.capacity h /\ Batch.at_ h = 4096 /\ Batch.cur_idx h = 2 /\
    map (fun r => wr_ext r) (Batch.requests h) = [WrRdma 100 7; WrRdma 200 7; WrRdma 300 7])
    by (vm_compute in E; injection E as <-; vm_compute; repeat split; congruence).
  clear E. destruct Hc as (Hc & Ha & H2 & Hr). split; [exact Hr|]. split.
  - pose proof (Batch.post_doorbell_correct 5 sim_init 4096 h Hl Hc) as H. rewrite decide_True in H by (by left). destruct H as [H Hs].
    rewrite (Hs Ha) in H. rewrite H. destruct (ib_post_send 5 (Batch.requests h) sim_init) as [err w']. by do 2 eexists.
  - pose proof (Batch.post_doorbell_correct 5 sim_init 4096 (Batch.moved_to 8192 h) Hl Hc) as H.
    rewrite decide_False in H by (cbn; lia). exact H.
Defined.

(** ** The rest of the operations *)

(** [IB_WR_REG_MR] is posted like a request; the allocation and the mapping of a
    region, and the pages of memory of [vmalloc]. *)
Class RegOps (W : Type) := {
  ib_post_reg_mr : ptr -> ptr -> Z -> Z -> list ib_send_flag -> W -> Z * W;
  page_size : Z;
  vmalloc_to_page : Z -> W -> Z;
  ib_alloc_mr : ptr -> Z -> W -> ptr * W;
  ib_dma_map_sg : list Z -> W -> (Z * Z) * W;
  ib_map_mr_sg : ptr -> list Z -> Z -> W -> Z * W
}.

Section rest.
Context {W : Type} `{!DeviceOps W, !QueueOps W, !DataOps W, !CmOps W, !RegOps W, !PhysOps, !SrqOps W}.

(** [read], [write] and [send] of qp/rc_op.rs: a request and the wait for it; a wait of
    more than [fuel] polls is [None]. *)
Definition and_wait (fuel : nat) (qp : Rc.RC) (push : M W (Result Error unit)) : M W (Result Error (option ib_wc)) :=
  r ← push;
  match r with Err e => mret (Err e) | Ok _ => wc ← RCOp.wait_til_comp fuel qp; mret (Ok wc) end.
Definition rc_read (fuel : nat) (qp : Rc.RC) (local_ptr lkey sz remote_addr rkey : Z) :=
  and_wait fuel qp (RCOp.push qp IB_WR_RDMA_READ local_ptr lkey sz remote_addr rkey [IB_SEND_SIGNALED]).
Definition rc_write (fuel : nat) (qp : Rc.RC) (local_ptr lkey sz remote_addr rkey : Z) :=
  and_wait fuel qp (RCOp.push qp IB_WR_RDMA_WRITE local_ptr lkey sz remote_addr rkey [IB_SEND_SIGNALED]).
Definition rc_send (fuel : nat) (qp : Rc.RC) (local_ptr lkey sz remote_addr rkey : Z) :=
  and_wait fuel qp (RCOp.push qp IB_WR_SEND local_ptr lkey sz remote_addr rkey [IB_SEND_SIGNALED]).

(** [pop_recv_with_shared]: the completions from the start of the ring, and their number. *)
Definition pop_recv_with_shared (recv_cnt offset : Z) (recv_cq : ptr) :
    M (W * RecvHelper.RecvHelper) (option (list ib_wc) * Z) :=
  r ← RecvHelper.pop_recvs (Z.to_nat 2048) recv_cq recv_cnt offset;
  match r with
  | Err _ => mret (None, 0)
  | Ok ret => if 0 <? ret then h ← getX; mret (Some (RecvHelper.wcs h), ret) else mret (None, 0)
  end.

(** qp/mod.rs *)
Definition send_reg_mr (qp mr : ptr) (access_flags : Z) (whether_signaled : bool) : M W Z :=
  rkey ← gets (fun w => mr_rkey w mr);
  call (ib_post_reg_mr qp mr rkey (i32 access_flags) (if whether_signaled then [IB_SEND_SIGNALED] else [])).

Definition DC_KEY : Z := 73.
Definition create_dct_server (pd device : ptr) : M W ptr :=
  cq ← call (ib_create_cq device 128);
  if is_null cq then mret null
  else
    srq ← call (ib_create_srq pd 128 1);
    if is_null srq then mret null
    else
      DynamicConnectedTarget.safe_ib_create_dct pd
        (mkDctInit pd cq srq DC_KEY 1 [IB_ACCESS_REMOTE_WRITE; IB_ACCESS_REMOTE_READ] 2 60 1 IB_MTU_4096).

(** cm/client.rs *)
Definition send_dreq {T} `{!Wire T} (self : ClientCM.ClientCM) (pri : T) : M W (Result Error unit) :=
  ClientCM.send (ClientCM.inner_cm self) (MDreq (to_bytes pri)).
Definition send_drep (self : ClientCM.ClientCM) : M W (Result Error unit) :=
  ClientCM.send (ClientCM.inner_cm self) (MDrep []).

(** ** Virtual memory (mem/virt.rs) *)
Record RMemVirt := mkVirt { buf : Z; v_dma_buf : Z; mr : ptr; v_capacity : Z }.
Record RegAttr := mkRegAttr { r_buf : Z; r_size : Z; r_lkey : Z; r_rkey : Z }.

Definition entry_len (pg_sz size : Z) : Z := if negb (size mod pg_sz =? 0) then 1 + size / pg_sz else size / pg_sz.

(** The pages of the entries; errors of the two mappings are only printed. The first
    entry is looked at before the loop. *)
Definition virt_create (pd : ptr) (base_addr size : Z) : M W RMemVirt :=
  let n := entry_len page_size size in
  if n =? 0 then panic
  else
    pages ← gets (fun w => (fun i => vmalloc_to_page (base_addr + i * page_size) w) <$> seqZ 0 n);
    mr ← call (ib_alloc_mr pd (u32 n));
    '(_, dma) ← call (ib_dma_map_sg pages);
    _ ← call (ib_map_mr_sg mr pages (u32 page_size));
    mret (mkVirt base_addr dma mr (page_size * n)).

Definition virt_get_ptr (m : RMemVirt) : Z := buf m.
Definition virt_get_pa (m : RMemVirt) (off : Z) : Z := v_dma_buf m + off.
Definition virt_get_sz (m : RMemVirt) : Z := v_capacity m.
Definition extract_reg_attr (m : RMemVirt) : M W RegAttr :=
  if is_null (mr m) then panic
  else lkey ← gets (fun w => mr_lkey w (mr m)); rkey ← gets (fun w => mr_rkey w (mr m)); mret (mkRegAttr (v_dma_buf m) (v_capacity m) lkey rkey).
Definition virt_drop (m : RMemVirt) : M W unit :=
  if negb (is_null (mr m)) then _ ← call (ib_dereg_mr (mr m)); mret () else mret ().

(** The pages cover the block, without a page too many. *)
Lemma entry_len_covers pg_sz size :
  0 < pg_sz -> 0 <= size -> size <= pg_sz * entry_len pg_sz size < size + pg_sz.
Proof.
  intros Hp Hs. unfold entry_len. pose proof (Z.div_mod size pg_sz ltac:(lia)). pose proof (Z.mod_pos_bound size pg_sz Hp).
  destruct (Z.eqb_spec (size mod pg_sz) 0); cbn [negb]; nia.
Qed.

Lemma virt_create_covers pd base_addr size (w : W) m w' :
  0 < page_size (W := W) -> 0 <= size -> virt_create pd base_addr size w = Done (m, w') ->
  0 < size /\ buf m = base_addr /\ size <= v_capacity m < size + page_size (W := W).
Proof.
  intros Hp Hs. unfold virt_create. destruct (Z.eqb_spec (entry_len page_size size) 0); [done|]. rewrite bind_gets, bind_call.
  destruct (ib_alloc_mr _ _ w) as [mr1 w1]. rewrite bind_call. destruct (ib_dma_map_sg _ w1) as [[r dma] w2].
  rewrite bind_call. destruct (ib_map_mr_sg _ _ _ w2) as [r' w3]. intros [= <- _]. cbn. split_and!; [|done|by apply entry_len_covers..].
  destruct (decide (size = 0)) as [->|]; [|lia]. unfold entry_len in *. by rewrite Z.mod_0_l, Z.div_0_l in * by lia.
Qed.
End rest.
