(* ===== verification/SysBringUp.v ===== *)
(** * Bringing up the queue pairs of the system-call stack

    The attributes of a reliable connection come from the connection manager
    ([ib_cm_init_qp_attr]); [LinkLaws] states what it documents of them.  The
    theorems: a reply makes a queue pair ready to send, with the numbers of its
    peer, and two ends that have each other's messages agree on their sequence
    numbers; creation and release of every kind of queue pair balance; a query for
    an end point keeps no address handle but the one it returns. *)

From S2P Require Import Prelude Bytes Errors Verbs CmVerbs Sim Context CompletionQueue QueuePair BringUp.
From S2P Require Import Stable CommManager RecvHelper SysQp.

(** ** What the connection manager knows of a connection

    The peer's number, and the sequence number the peer expects first.  A message
    carries both for its receiver. *)
Record cm_link := mkLink { link_qpn : Z; link_psn : Z }.

Definition link_of_req (p : ib_cm_req_param) : cm_link := mkLink (req_qp_num p) (req_starting_psn p).
Definition link_of_rep (p : ib_cm_rep_param) : cm_link := mkLink (rep_qp_num p) (rep_starting_psn p).

Definition cm_mask (s : ib_qp_state) : list ib_qp_attr_mask :=
  match s with
  | IB_QPS_INIT => [IB_QP_STATE; IB_QP_ACCESS_FLAGS; IB_QP_PKEY_INDEX; IB_QP_PORT]
  | IB_QPS_RTR => [IB_QP_STATE; IB_QP_AV; IB_QP_PATH_MTU; IB_QP_DEST_QPN; IB_QP_RQ_PSN;
                   IB_QP_MAX_DEST_RD_ATOMIC; IB_QP_MIN_RNR_TIMER]
  | IB_QPS_RTS => [IB_QP_STATE; IB_QP_SQ_PSN; IB_QP_TIMEOUT; IB_QP_RETRY_CNT; IB_QP_RNR_RETRY;
                   IB_QP_MAX_QP_RD_ATOMIC]
  | _ => [IB_QP_STATE]
  end.

Definition link_of_event (ev : ib_cm_event) : option cm_link :=
  match param ev with
  | ReqRcvd p => Some (mkLink (rq_remote_qpn p) (rq_starting_psn p))
  | RepRcvd p => Some (mkLink (rp_remote_qpn p) (rp_starting_psn p))
  | _ => None
  end.

(** A link is made by a message; the other calls keep it. *)
Class LinkLaws (W : Type) `{!DeviceOps W, !QueueOps W, !VerbsLaws W, !CmOps W, !CmLaws W, !SysOps W} := {
  cm_link_of : W -> ptr -> option cm_link;
  link_stable :: Stable (fun w w' : W => forall p, cm_link_of w' p = cm_link_of w p);
  send_link_law p m w r w' : ib_send_cm p m w = (r, w') -> forall p', cm_link_of w' p' = cm_link_of w p';
  receive_law cm ev w u w' :
    cm_receive cm ev w = (u, w') ->
    quiet w w' /\ (forall p, cm_state_eq cm_outbox p w w') /\
    (forall l, link_of_event ev = Some l -> cm_link_of w' cm = Some l);
  init_attr_law cm s w r a m w' :
    ib_cm_init_qp_attr cm s w = ((r, (a, m)), w') ->
    quiet w w' /\ (forall p, cm_state_eq cm_outbox p w w') /\ (forall p, cm_link_of w' p = cm_link_of w p) /\
    (r = 0 -> qp_state a = s /\ m = cm_mask s /\
       forall l, cm_link_of w cm = Some l ->
         (s = IB_QPS_RTR -> dest_qp_num a = link_qpn l) /\ (s = IB_QPS_RTS -> sq_psn a = link_psn l)) /\
    (healthy w -> is_Some (cm_link_of w cm) -> r = 0)
}.

Section bring_up.
Context {W : Type} `{!Cfg, !DeviceOps W, !QueueOps W, !DataOps W, !CmOps W, !SysOps W, !VerbsLaws W, !CmLaws W, !LinkLaws W}.
Implicit Types (w : W).

Definition same_links w w' : Prop := forall p, cm_link_of w' p = cm_link_of w p.
#[export] Instance same_links_stable : Stable same_links := link_stable.

(** One or more calls on the queue pair [q] of a healthy driver, which leave it as [v]. *)
Definition reaches (q : ptr) w (v : qp_info) w' : Prop :=
  only_qp q w w' /\ qp_view w' q = Some v /\ healthy w' /\ same_links w w' /\ cm_same w w'.

Lemma reaches_trans q w1 v2 w2 v3 w3 : reaches q w1 v2 w2 -> reaches q w2 v3 w3 -> reaches q w1 v3 w3.
Proof.
  intros (Ho & _ & _ & Hl & Hc) (Ho' & Hv' & Hh' & Hl' & Hc'). unfold reaches.
  split_and!; [by eapply only_qp_trans|done..| |by etransitivity]. intros p. by rewrite Hl'.
Qed.

Lemma query_run q w v :
  qp_view w q = Some v -> healthy w ->
  exists w', get_qp_status q w = Done (Some (qp_state (qi_attr v)), w') /\ reaches q w v w'.
Proof.
  intros Hv Hh. unfold get_qp_status. rewrite bind_call. destruct (ib_query_qp q w) as [[ret st] w'] eqn:E.
  assert (Hcall : call (ib_query_qp q) w = Done ((ret, st), w')) by (unfold call; by rewrite E).
  pose proof (stable_query_qp (R := same_links) _ _ _ _ Hcall) as Hl.
  pose proof (stable_query_qp (R := cm_same) _ _ _ _ Hcall) as Hc.
  apply query_qp_law in E as (Hlive & Hs & Hn & Hst & Hok). destruct (Hok v Hh Hv) as [-> Hh'].
  exists w'. rewrite (Hst v eq_refl Hv). split; [done|]. unfold reaches, only_qp. split_and!; try done. by rewrite Hs.
Qed.

Lemma modify_run q a m w v :
  qp_view w q = Some v -> healthy w -> legal v m a ->
  exists w', modify_qp q a m w = Done (Ok (), w') /\ reaches q w (modified m a v) w'.
Proof.
  intros Hv Hh Hleg. unfold modify_qp. rewrite bind_call. destruct (ib_modify_qp q a m w) as [ret w'] eqn:E.
  assert (Hcall : call (ib_modify_qp q a m) w = Done (ret, w')) by (unfold call; by rewrite E).
  pose proof (stable_modify_qp (R := same_links) _ _ _ _ _ _ Hcall) as Hl.
  pose proof (stable_modify_qp (R := cm_same) _ _ _ _ _ _ Hcall) as Hc.
  apply modify_qp_law in E as (Hlive & Hn & Ho & _ & Hset & Hok). destruct (Hok v Hh Hv Hleg) as [-> Hh'].
  exists w'. split; [done|]. unfold reaches, only_qp. split_and!; try done. by apply Hset.
Qed.

(** The connection manager's attributes for the next state of a queue pair. *)
Lemma cm_attr_run q cm s l w v :
  qp_view w q = Some v -> healthy w -> cm_link_of w cm = Some l ->
  exists a w', Rc.cm_attr cm s w = Done (Ok (a, cm_mask s), w') /\ reaches q w v w' /\ qp_state a = s /\
    (s = IB_QPS_RTR -> dest_qp_num a = link_qpn l) /\ (s = IB_QPS_RTS -> sq_psn a = link_psn l).
Proof.
  intros Hv Hh Hl. unfold Rc.cm_attr. rewrite bind_call.
  destruct (ib_cm_init_qp_attr cm s w) as [[ret [a m]] w'] eqn:E.
  apply init_attr_law in E as (Hq & Hc & Hlk & Ha & Hok). rewrite (Hok Hh ltac:(by eexists)) in *.
  destruct (Ha eq_refl) as (Hs & -> & Hlink). exists a, w'. split; [done|]. split; [|by auto].
  pose proof (quiet_only q _ _ Hq). destruct Hq as (_ & Hsame & _ & Hhealth).
  unfold reaches. split_and!; [done|by rewrite Hsame|by auto|done|done].
Qed.

Lemma status_unwrap_run self w v :
  qp_view w (Rc.qp self) = Some v -> healthy w ->
  exists w', Rc.status_unwrap self w = Done (qp_state (qi_attr v), w') /\ reaches (Rc.qp self) w v w'.
Proof.
  intros Hv Hh. destruct (query_run _ _ _ Hv Hh) as (w' & Hr & Hs). exists w'. split; [|done].
  unfold Rc.status_unwrap, Rc.get_status. by rewrite (bind_done _ _ _ _ _ Hr).
Qed.

(** A connection that is ready to send, with what the code sets itself and what
    the link determines. *)
Definition linked (init : ib_qp_init_attr) (num : Z) (l : cm_link) (v : qp_info) : Prop :=
  qi_init v = init /\
  let a := qi_attr v in
  qp_state a = IB_QPS_RTS /\ dest_qp_num a = link_qpn l /\ sq_psn a = link_psn l /\ rq_psn a = num /\
  max_dest_rd_atomic a = 16 /\ RContext.all_access ⊆ qp_access_flags a.

Section one.
Context (self : Rc.RC) (cm : ptr) (l : cm_link) (init : ib_qp_init_attr).
Context (Hqp : is_null (Rc.qp self) = false) (Htype : init_qp_type init = IB_QPT_RC).
Abbreviation q := (Rc.qp self).

Lemma init_run w a0 :
  qp_view w q = Some (mkQpInfo init a0) -> qp_state a0 = IB_QPS_RESET -> healthy w -> cm_link_of w cm = Some l ->
  exists a1 w', Rc.bring_to_init self cm w = Done (Ok (), w') /\ reaches q w (mkQpInfo init a1) w' /\
    qp_state a1 = IB_QPS_INIT /\ RContext.all_access ⊆ qp_access_flags a1.
Proof.
  intros Hv Hs Hh Hl. destruct (status_unwrap_run self w _ Hv Hh) as (w1 & H1 & R1).
  pose proof R1 as (_ & Hv1 & Hh1 & Hl1 & _). rewrite <- Hl1 in Hl.
  destruct (cm_attr_run q cm IB_QPS_INIT l w1 _ Hv1 Hh1 Hl) as (a & w2 & H2 & R2 & Ha & _).
  pose proof R2 as (_ & Hv2 & Hh2 & _ & _).
  set (attr := a |> with_access (qp_access_flags a ++ Rc.access_flags)). set (mask := cm_mask IB_QPS_INIT ++ [IB_QP_ACCESS_FLAGS]).
  destruct (modify_run q attr mask w2 _ Hv2 Hh2) as (w3 & H3 & R3).
  { unfold legal, legal_modify. cbn [qi_init qi_attr]. rewrite Htype, Hs.
    assert (qp_state attr = IB_QPS_INIT) as -> by by destruct a. done. }
  exists (apply_attr mask attr a0), w3. split; [|split; [|split]].
  - unfold Rc.bring_to_init. rewrite (bind_done _ _ _ _ _ H1). cbn [qi_attr]. rewrite Hs.
    rewrite bool_decide_eq_true_2, bind_ret, try_as_bind, (bind_done _ _ _ _ _ H2) by done. exact H3.
  - by eapply reaches_trans; [|eapply reaches_trans].
  - by destruct a.
  - destruct a as [? ? ? ? ? ? acc]. cbn. intros x Hx. apply list_elem_of_In, in_or_app. right.
    apply list_elem_of_In. revert Hx. unfold RContext.all_access, Rc.access_flags. set_solver.
Qed.

Lemma rtr_run w a0 :
  qp_view w q = Some (mkQpInfo init a0) -> qp_state a0 = IB_QPS_RESET -> healthy w -> cm_link_of w cm = Some l ->
  exists a2 w', Rc.bring_to_rtr self cm w = Done (Ok (), w') /\ reaches q w (mkQpInfo init a2) w' /\
    qp_state a2 = IB_QPS_RTR /\ dest_qp_num a2 = link_qpn l /\ rq_psn a2 = Verbs.qp_num w q /\
    max_dest_rd_atomic a2 = 16 /\ RContext.all_access ⊆ qp_access_flags a2.
Proof.
  intros Hv Hs Hh Hl. destruct (init_run w a0 Hv Hs Hh Hl) as (a1 & w1 & H1 & R1 & Hs1 & Hacc).
  pose proof R1 as (Ho1 & Hv1 & Hh1 & Hl1 & _). destruct (status_unwrap_run self w1 _ Hv1 Hh1) as (w2 & H2 & R2).
  pose proof R2 as (Ho2 & Hv2 & Hh2 & Hl2 & _). rewrite <- Hl1, <- Hl2 in Hl.
  destruct (cm_attr_run q cm IB_QPS_RTR l w2 _ Hv2 Hh2 Hl) as (a & w3 & H3 & R3 & Ha & Hdest & _).
  pose proof R3 as (Ho3 & Hv3 & Hh3 & _ & _). specialize (Hdest eq_refl).
  assert (Hnum : Verbs.qp_num w3 q = Verbs.qp_num w q).
  { destruct (only_qp_trans _ _ _ _ Ho1 (only_qp_trans _ _ _ _ Ho2 Ho3)) as (_ & Hn & _). exact Hn. }
  set (attr := a |> with_rq_psn (Verbs.qp_num w q) |> with_max_dest_rd_atomic 16).
  set (mask := cm_mask IB_QPS_RTR ++ [IB_QP_RQ_PSN; IB_QP_MAX_DEST_RD_ATOMIC]).
  destruct (modify_run q attr mask w3 _ Hv3 Hh3) as (w4 & H4 & R4).
  { unfold legal, legal_modify. cbn [qi_init qi_attr]. rewrite Htype, Hs1.
    assert (qp_state attr = IB_QPS_RTR) as -> by by destruct a. done. }
  exists (apply_attr mask attr a1), w4. split; [|split; [|destruct a; by split_and!]].
  - unfold Rc.bring_to_rtr. rewrite try_as_bind, (bind_done _ _ _ _ _ H1), (bind_done _ _ _ _ _ H2).
    cbn [qi_attr]. rewrite Hs1, bool_decide_eq_true_2, try_as_bind, (bind_done _ _ _ _ _ H3) by done.
    unfold Rc.get_qp_num. rewrite Hqp, bind_gets, Hnum. exact H4.
  - by eapply reaches_trans; [|eapply reaches_trans; [|eapply reaches_trans]].
Qed.

(** Both steps of [handle_reply] and of [rc_conn_callback]. *)
Lemma rts_run w a0 :
  qp_view w q = Some (mkQpInfo init a0) -> qp_state a0 = IB_QPS_RESET -> healthy w -> cm_link_of w cm = Some l ->
  exists v w1 w', Rc.bring_to_rtr self cm w = Done (Ok (), w1) /\ Rc.bring_to_rts self cm w1 = Done (Ok (), w') /\
    reaches q w v w' /\ linked init (Verbs.qp_num w q) l v.
Proof.
  intros Hv Hs Hh Hl. destruct (rtr_run w a0 Hv Hs Hh Hl) as (a2 & w1 & H1 & R1 & Hs1 & Hd & Hp & Hm & Hacc).
  pose proof R1 as (Ho1 & Hv1 & Hh1 & Hl1 & _). destruct (status_unwrap_run self w1 _ Hv1 Hh1) as (w2 & H2 & R2).
  pose proof R2 as (Ho2 & Hv2 & Hh2 & Hl2 & _). rewrite <- Hl1, <- Hl2 in Hl.
  destruct (cm_attr_run q cm IB_QPS_RTS l w2 _ Hv2 Hh2 Hl) as (a & w3 & H3 & R3 & Ha & _ & Hsq).
  pose proof R3 as (Ho3 & Hv3 & Hh3 & _ & _). specialize (Hsq eq_refl).
  destruct (modify_run q a (cm_mask IB_QPS_RTS) w3 _ Hv3 Hh3) as (w4 & H4 & R4).
  { unfold legal, legal_modify. cbn [qi_init qi_attr]. by rewrite Htype, Hs1, Ha. }
  eexists _, w1, w4. split; [done|]. split; [|split].
  - unfold Rc.bring_to_rts. rewrite (bind_done _ _ _ _ _ H2). cbn [qi_attr].
    rewrite Hs1, bool_decide_eq_true_2, try_as_bind, (bind_done _ _ _ _ _ H3) by done. exact H4.
  - by eapply reaches_trans; [|eapply reaches_trans; [|eapply reaches_trans]].
  - split; [done|]. by destruct a, a2.
Qed.

End one.

(** ** The client *)

(** Both sides send and the other's identifiers are not concerned. *)
Lemma client_send_run cm m w q v :
  qp_view w q = Some v -> healthy w -> is_Some (cm_context w cm) ->
  exists w', ClientCM.send cm m w = Done (Ok (), w') /\ only_qp q w w' /\ qp_view w' q = Some v /\ healthy w' /\
    same_links w w' /\ cm_outbox w' cm = cm_outbox w cm ++ [m] /\ cm_context w' cm = cm_context w cm /\
    live w' = live w.
Proof.
  intros Hv Hh Hc. unfold ClientCM.send. rewrite bind_call. destruct (ib_send_cm cm m w) as [err w'] eqn:E.
  pose proof (send_link_law _ _ _ _ _ E) as Hl. apply send_law in E as (Hq & _ & Hctx & Hout & Hok).
  rewrite (Hok Hh Hc) in *. exists w'. split; [done|]. split; [by apply quiet_only|].
  destruct Hq as (Hlive & Hs & _ & Hhealth). split_and!; auto; by rewrite Hs.
Qed.

(** The handler of a reply makes the connection ready and stores the region. *)
Lemma reply_run self done rep data w init a0 :
  let ev := mkEvent IB_CM_REP_RECEIVED data (RepRcvd rep) in
  let cm := ClientCM.inner_cm (Rc.cm self) in
  is_null (Rc.qp self) = false -> init_qp_type init = IB_QPT_RC ->
  qp_view w (Rc.qp self) = Some (mkQpInfo init a0) -> qp_state a0 = IB_QPS_RESET -> healthy w ->
  exists v w', Rc.deliver cm ev (w, (self, done)) =
      Done ((), (w', (Rc.with_remote_mr (Reply.mr (of_bytes data)) self, completion_done done))) /\
    only_qp (Rc.qp self) w w' /\ qp_view w' (Rc.qp self) = Some v /\ healthy w' /\ cm_same w w' /\
    linked init (Verbs.qp_num w (Rc.qp self)) (mkLink (rp_remote_qpn rep) (rp_starting_psn rep)) v.
Proof.
  intros ev cm Hqp Ht Hv Hs Hh. unfold Rc.deliver.
  destruct (cm_receive cm ev w) as [[] w1] eqn:E. apply receive_law in E as R.
  destruct R as (Hq & Hc & Hl). specialize (Hl _ eq_refl).
  rewrite (bind_done _ _ _ () (w1, (self, done))).
  2: { unfold onW, call. cbn [fst snd]. by rewrite E. }
  pose proof (quiet_only (Rc.qp self) _ _ Hq) as Ho. destruct Hq as (_ & Hsame & Hnum & Hhealth).
  rewrite <- Hsame in Hv.
  destruct (rts_run self cm _ init Hqp Ht w1 a0 Hv Hs (Hhealth Hh) Hl) as (v & w2 & w3 & H2 & H3 & R & Hlk).
  destruct R as (Ho' & Hv' & Hh' & _ & Hc'). rewrite Hnum in Hlk.
  exists v, w3. split; [|split_and!; [by eapply only_qp_trans|done..|by etransitivity|done]].
  unfold Rc.cm_handler, ev at 1. cbn [event]. unfold Rc.handle_reply.
  rewrite !bind_assoc, bind_getX, !bind_assoc. erewrite bind_done.
  2: { apply (onW_run _ (w1, (self, done))). fold cm. rewrite (bind_done _ _ _ _ _ H2), (bind_done _ _ _ _ _ H3).
       reflexivity. }
  by rewrite bind_onX.
Qed.

(** [connect] with the reply of a server. *)
Lemma connect_run self done0 rep data qd path svc w init a0 :
  let cm := ClientCM.inner_cm (Rc.cm self) in
  let num := Verbs.qp_num w (Rc.qp self) in
  is_null (Rc.qp self) = false -> init_qp_type init = IB_QPT_RC ->
  qp_view w (Rc.qp self) = Some (mkQpInfo init a0) -> qp_state a0 = IB_QPS_RESET -> healthy w ->
  is_Some (cm_context w cm) ->
  exists v w' done, Rc.connect qd path svc (mkWait [mkEvent IB_CM_REP_RECEIVED data (RepRcvd rep)] 0) (w, (self, done0)) =
      Done (Ok (), (w', (Rc.with_remote_mr (Reply.mr (of_bytes data)) self, done))) /\
    only_qp (Rc.qp self) w w' /\ qp_view w' (Rc.qp self) = Some v /\ healthy w' /\
    cm_outbox w' cm = cm_outbox w cm ++ [MReq (CMWrapper.req_with (qd : Z) (Rc.request num path svc)); MRtu [0]] /\
    linked init num (mkLink (rp_remote_qpn rep) (rp_starting_psn rep)) v.
Proof.
  intros cm num Hqp Ht Hv Hs Hh Hc. unfold Rc.connect. rewrite bind_onX, bind_getX. unfold Rc.get_qp_num.
  rewrite Hqp, (bind_done _ _ _ num (w, (self, completion_init))) by done.
  destruct (client_send_run cm (MReq (CMWrapper.req_with (qd : Z) (Rc.request num path svc))) w _ _ Hv Hh Hc)
    as (w1 & H1 & Ho1 & Hv1 & Hh1 & _ & Hout1 & Hc1 & _).
  rewrite try_as_bind, (bind_done _ _ _ _ _ (onW_run _ (w, (self, completion_init)) _ _ H1)). cbn [snd].
  destruct (reply_run self completion_init rep data w1 init a0 Hqp Ht Hv1 Hs Hh1)
    as (v & w2 & H2 & Ho2 & Hv2 & Hh2 & Hc2 & Hlk). fold cm in H2.
  rewrite (bind_done _ _ _ () (w2, (Rc.with_remote_mr (Reply.mr (of_bytes data)) self, mkCompletion 1))).
  2: { cbn [Rc.deliver_all arrivals]. by rewrite (bind_done _ _ _ _ _ H2). }
  rewrite bind_getX. cbn [signal].
  assert (Hw : completion_wait 0 (mkCompletion 1) = (Ok (), completion_init)) by done. rewrite Hw.
  assert (Hcx : is_Some (cm_context w2 cm)). { destruct (Hc2 cm) as [-> _]. by rewrite Hc1. }
  destruct (client_send_run cm (MRtu (le 1 0)) w2 _ _ Hv2 Hh2 Hcx) as (w3 & H3 & Ho3 & Hv3 & Hh3 & _ & Hout3 & _).
  exists v, w3, completion_init. split; [|split_and!; try done].
  - rewrite bind_onX. exact (onW_run _ (w2, (_, completion_init)) _ _ H3).
  - eapply only_qp_trans; [exact Ho1|by eapply only_qp_trans].
  - destruct (Hc2 cm) as [_ Ho]. by rewrite Hout3, Ho, Hout1, <- app_assoc.
  - assert (Hn : Verbs.qp_num w1 (Rc.qp self) = num) by apply Ho1. by rewrite Hn in Hlk.
Qed.

End bring_up.

(** ** Creation and release balance *)
Section balance.
Context {W : Type} `{!Cfg, !DeviceOps W, !QueueOps W, !DataOps W, !CmOps W, !SysOps W, !VerbsLaws W, !CmLaws W}.
Context `{!LinkLaws W}.
Implicit Types (w : W) (cs : gset Z).

Definition cqs (cs : gset Z) : gset res := set_map (fun c => (RCq, c)) cs.

(** The world [w0] with the unused completion queues [cs], and with a queue pair [q]
    in addition. *)
Definition spare w0 cs w : Prop :=
  same_qps qp_view w0 w /\ live w = cqs cs ∪ live w0 /\ cqs cs ## live w0 /\
  forall c, c ∈ cs -> ~ in_use qp_view w0 (RCq, c).
Definition held w0 (q : ptr) cs w : Prop :=
  (forall q', q' <> q -> qp_view w q' = qp_view w0 q') /\ qp_view w0 q = None /\
  ((RQp, q) ∉ live w0) /\ live w = {[(RQp, q)]} ∪ cqs cs ∪ live w0 /\ cqs cs ## live w0 /\
  forall c, c ∈ cs -> ~ in_use qp_view w0 (RCq, c).

Lemma spare_refl w : spare w ∅ w.
Proof. split_and!; [done|unfold cqs; set_solver..]. Qed.

Lemma spare_none w0 w : spare w0 ∅ w -> live w = live w0 /\ same_qps qp_view w0 w.
Proof. intros (Hs & -> & _). split; [|done]. unfold cqs. clear. set_solver. Qed.

Lemma spare_create w0 cs w dev n c w' :
  spare w0 cs w -> ib_create_cq dev n w = (c, w') -> is_null c = false ->
  spare w0 ({[c]} ∪ cs) w' /\ (c ∉ cs) /\ c <> null.
Proof.
  intros (Hs & Hl & Hd & Hu) E Hn. apply create_cq_law in E as (Hc & Hs' & Hu' & _).
  assert (Hne : c <> null) by by apply Z.eqb_neq in Hn.
  apply created_nonnull in Hc as [Hf Hl']; [|done]. rewrite Hl in Hf.
  split; [|split; [|done]].
  - split; [intros q; by rewrite Hs', Hs|]. rewrite Hl', Hl. unfold cqs in *.
    split; [clear; set_solver|]. split; [clear -Hf Hd; set_solver|].
    intros d [->%elem_of_singleton|Hd']%elem_of_union; [|by apply Hu].
    eapply in_use_same; [|exact (Hu' Hne)]. intros q. by rewrite Hs', Hs.
  - intros Hin. apply Hf. unfold cqs. clear -Hin. set_solver.
Qed.

Lemma spare_qp w0 cs w pd init q w' :
  spare w0 cs w -> ib_create_qp pd init w = (q, w') -> is_null q = false -> held w0 q cs w'.
Proof.
  intros (Hs & Hl & Hd & Hu) E Hn. apply create_qp_law in E as (Hc & _ & Hnew & _).
  destruct (Hnew ltac:(by apply Z.eqb_neq in Hn)) as (Hv & _ & Ho).
  apply created_nonnull in Hc as [Hf Hl']; [|done]. rewrite Hl in Hf, Hl'.
  split_and!; try done; [|by rewrite <- Hs|clear -Hf; set_solver|rewrite Hl'; clear; set_solver].
  intros q' Hq. by rewrite Ho, Hs.
Qed.

Lemma held_only w0 q cs w w' : held w0 q cs w -> only_qp q w w' -> held w0 q cs w'.
Proof.
  intros (Hs & Hv & Hf & Hl & Hd & Hu) (Hl' & _ & Ho). split_and!; try done; [|by rewrite Hl'].
  intros q' Hq. by rewrite Ho, Hs.
Qed.

Lemma held_destroy w0 q cs w r w' : held w0 q cs w -> ib_destroy_qp q w = (r, w') -> spare w0 cs w'.
Proof.
  intros (Hs & Hv & Hf & Hl & Hd & Hu) E. apply destroy_qp_law in E as (Hl' & Hv' & Ho & _).
  split_and!; try done.
  - intros q'. destruct (decide (q' = q)) as [->|Hq]; [by rewrite Hv', Hv|by rewrite Ho, Hs].
  - rewrite Hl', Hl. unfold cqs. clear -Hf. set_solver.
Qed.

Lemma spare_free w0 cs w c r w' : spare w0 cs w -> c ∈ cs -> ib_free_cq c w = (r, w') -> spare w0 (cs ∖ {[c]}) w'.
Proof.
  intros (Hs & Hl & Hd & Hu) Hc E. apply free_cq_law in E as (Hl' & Hs' & _).
  2: { eapply in_use_same; [exact Hs|by apply Hu]. }
  assert (Hf : (RCq, c) ∉ live w0). { revert Hd. unfold cqs. clear -Hc. set_solver. }
  split_and!.
  - intros q. by rewrite Hs', Hs.
  - rewrite Hl', Hl. unfold cqs. clear -Hf Hc. set_solver.
  - revert Hd. unfold cqs. clear. set_solver.
  - intros d Hd'. apply Hu. clear -Hd'. set_solver.
Qed.

Lemma spare_quiet w0 cs w w' : spare w0 cs w -> quiet w w' -> spare w0 cs w'.
Proof.
  intros (Hs & Hl & Hd & Hu) (Hl' & Hs' & _). split_and!; [|by rewrite Hl', Hl|done|done].
  intros q. by rewrite Hs', Hs.
Qed.

Lemma reset_quiet c w : exists w', ClientCM.reset c w = Done (ClientCM.default, w') /\ quiet w w'.
Proof.
  unfold ClientCM.reset. destruct (is_null (ClientCM.inner_cm c)); cbn [negb].
  - exists w. split; [done|apply quiet_refl].
  - rewrite bind_call. destruct (ib_destroy_cm_id _ w) as [[] w'] eqn:E. exists w'. split; [done|].
    by apply destroy_cm_law in E as [? _].
Qed.

(** Dropping a connection that owns its queue pair and one completion queue. *)
Lemma rc_drop_run w0 self w :
  is_null (Rc.qp self) = false -> is_null (Rc.cq self) = false -> held w0 (Rc.qp self) {[Rc.cq self]} w ->
  exists w', Rc.drop self w = Done ((), w') /\ live w' = live w0 /\ same_qps qp_view w0 w'.
Proof.
  intros Hq Hc Hh. unfold Rc.drop, Rc.get_qp_num. rewrite Hq, Hc, bind_gets. cbn [negb].
  rewrite bind_assoc, bind_call. destruct (ib_destroy_qp (Rc.qp self) w) as [r w1] eqn:E1. rewrite bind_ret.
  apply (held_destroy w0 _ {[Rc.cq self]}) in E1; [|done].
  rewrite bind_assoc, bind_call. destruct (ib_free_cq (Rc.cq self) w1) as [r' w2] eqn:E2. rewrite bind_ret.
  apply (spare_free w0 {[Rc.cq self]}) in E2; [|done|set_solver].
  destruct (reset_quiet (Rc.cm self) w2) as (w3 & H3 & Hquiet). rewrite (bind_done _ _ _ _ _ H3).
  exists w3. split; [done|]. apply spare_none, spare_quiet with (w := w2); [|done].
  by rewrite difference_diag_L in E2.
Qed.

Lemma drop_default_faults w : Rc.drop Rc.default w = Panic.
Proof. done. Qed.

(** The creation of a reliable connection never reports an error: where it fails,
    the release of the half-made value reads through a null pointer. *)
Lemma rc_new_run config ctx cm_ptr srq recv_cq arc w :
  match Rc.new_with_srq config ctx cm_ptr srq recv_cq arc w with
  | Done (Some rc, w') =>
      is_null (Rc.qp rc) = false /\ is_null (Rc.cq rc) = false /\ Rc.recv_cq rc = (if is_null recv_cq then Rc.cq rc else recv_cq) /\
      held w (Rc.qp rc) {[Rc.cq rc]} w' /\ Rc.remote_mr rc = None
  | Done (None, _) => False
  | Panic => ~ healthy w
  end.
Proof.
  unfold Rc.new_with_srq. rewrite bind_call. destruct (ib_create_cq _ _ w) as [c w1] eqn:E1.
  pose proof (create_cq_law _ _ _ _ _ E1) as (_ & _ & _ & Hh1). destruct (is_null c) eqn:Hc.
  { rewrite bind_run, drop_default_faults. intros Hw. destruct (Hh1 Hw). by apply Z.eqb_eq in Hc. }
  destruct (spare_create w ∅ w _ _ _ _ (spare_refl w) E1 Hc) as (Hsp & _ & _). rewrite union_empty_r_L in Hsp.
  assert (is_null (if is_null recv_cq then c else recv_cq) = false) as -> by by destruct (is_null recv_cq) eqn:?.
  unfold create_qp. rewrite bind_call. destruct (ib_create_qp _ _ w1) as [q w2] eqn:E2.
  pose proof (create_qp_law _ _ _ _ _ E2) as (_ & _ & _ & Hh2). destruct (is_null q) eqn:Hq.
  { rewrite bind_run, drop_default_faults. intros Hw. destruct (Hh1 Hw) as [_ Hw1].
    destruct (Hh2 Hw1). by apply Z.eqb_eq in Hq. }
  pose proof (spare_qp w {[c]} w1 _ _ _ _ Hsp E2 Hq) as Hheld. destruct (is_null cm_ptr); [|by split_and!].
  unfold ClientCM.new. rewrite bind_assoc, bind_call. destruct (ib_create_cm_id _ arc w2) as [cm w3] eqn:E3.
  apply create_cm_law in E3 as (Hquiet & _ & _ & Hh3). rewrite bind_ret. destruct (is_null cm) eqn:Hcm.
  - rewrite bind_run, drop_default_faults. intros Hw. destruct (Hh1 Hw) as [_ Hw1]. destruct (Hh2 Hw1) as [_ Hw2].
    apply (Hh3 Hw2). by apply Z.eqb_eq in Hcm.
  - split_and!; try done. eapply held_only; [exact Hheld|by apply quiet_only].
Qed.

(** Calls that concern one queue pair. *)
#[local] Instance only_qp_preorder q : PreOrder (only_qp (W := W) q).
Proof. split; [by intros w|intros w1 w2 w3; apply only_qp_trans]. Qed.

Lemma query_only q : preserves (only_qp q) (get_qp_status q).
Proof.
  unfold get_qp_status. apply pres_bind; [exact _| |intros [? ?]; apply pres_ret; exact _].
  apply pres_call. intros w [r s] w' E. apply query_qp_law in E as (Hl & Hs & Hn & _). by split_and!.
Qed.

Lemma modify_call_only q a m : preserves (only_qp q) (call (ib_modify_qp q a m)).
Proof. apply pres_call. intros w r w' E. apply modify_qp_law in E as (Hl & Hn & Ho & _). by split_and!. Qed.
#[local] Hint Resolve query_only modify_call_only : preserves.

Lemma ud_ready_only self : preserves (only_qp (Ud.qp self)) (Ud.bring_ud_to_ready self).
Proof. unfold Ud.bring_ud_to_ready, unwrap, modify_qp, Ud.get_qp_num. preserve. Qed.

Lemma dc_ready_only q : preserves (only_qp q) (bring_dc_to_ready q).
Proof. unfold bring_dc_to_ready, bring_dc_to_init, bring_dc_to_rtr, bring_dc_to_rts, modified_ok. preserve. Qed.

Lemma dc_ready_total q w : exists r w', bring_dc_to_ready q w = Done (r, w').
Proof.
  unfold bring_dc_to_ready, bring_dc_to_init, bring_dc_to_rtr, bring_dc_to_rts, modified_ok.
  rewrite bind_assoc, bind_call. destruct (ib_modify_qp _ _ _ w) as [r1 w1]. rewrite bind_ret.
  destruct (negb _); [by eexists _, _|]. rewrite bind_assoc, bind_call.
  destruct (ib_modify_qp _ _ _ w1) as [r2 w2]. rewrite bind_ret. destruct (negb _); [by eexists _, _|].
  rewrite bind_assoc, bind_call. destruct (ib_modify_qp _ _ _ w2) as [r3 w3]. rewrite bind_ret.
  by destruct (negb _); eexists _, _.
Qed.

(** The completion queues a datagram queue pair owns. *)
Definition ud_cqs (ud : Ud.UD) : gset Z :=
  {[Ud.cq ud]} ∪ (if Ud.shared_recv_cq ud then ∅ else {[Ud.recv_cq ud]}).

Lemma ud_drop_run w0 self w :
  is_null (Ud.qp self) = false -> is_null (Ud.cq self) = false -> is_null (Ud.recv_cq self) = false ->
  (Ud.shared_recv_cq self = false -> Ud.recv_cq self <> Ud.cq self) ->
  held w0 (Ud.qp self) (ud_cqs self) w ->
  exists w', Ud.drop self w = Done ((), w') /\ live w' = live w0 /\ same_qps qp_view w0 w'.
Proof.
  intros Hq Hc Hr Hne Hh. unfold Ud.drop, Ud.get_qp_num. rewrite Hq, Hc, Hr, bind_gets. cbn [negb].
  rewrite bind_assoc, bind_call. destruct (ib_destroy_qp (Ud.qp self) w) as [r w1] eqn:E1. rewrite bind_ret.
  apply (held_destroy w0 _ (ud_cqs self)) in E1; [|done]. unfold ud_cqs in *.
  rewrite bind_assoc, bind_call. destruct (ib_free_cq (Ud.cq self) w1) as [r' w2] eqn:E2. rewrite bind_ret.
  eapply spare_free in E2; [|exact E1|set_solver].
  destruct (Ud.shared_recv_cq self); cbn [negb andb].
  - exists w2. split; [done|]. apply spare_none. revert E2.
    by replace (({[Ud.cq self]} ∪ ∅) ∖ {[Ud.cq self]}) with (∅ : gset Z) by set_solver.
  - rewrite bind_call. destruct (ib_free_cq (Ud.recv_cq self) w2) as [r2 w3] eqn:E3. exists w3. split; [done|].
    specialize (Hne eq_refl). eapply spare_free in E3; [|exact E2|set_solver]. apply spare_none. revert E3.
    by replace ((({[Ud.cq self]} ∪ {[Ud.recv_cq self]}) ∖ {[Ud.cq self]}) ∖ {[Ud.recv_cq self]})
      with (∅ : gset Z) by set_solver.
Qed.

Lemma ud_ready_total self w v :
  is_null (Ud.qp self) = false -> qp_view w (Ud.qp self) = Some v -> healthy w ->
  exists r w', Ud.bring_ud_to_ready self w = Done (r, w').
Proof.
  intros Hq Hv Hh. unfold Ud.bring_ud_to_ready, Ud.get_qp_num.
  destruct (query_run _ _ _ Hv Hh) as (w1 & H1 & _). rewrite (bind_done _ _ _ _ _ H1). cbn [unwrap].
  rewrite bind_ret. destruct (bool_decide _); [|by eexists _, _].
  unfold modify_qp. rewrite Hq, try_as_bind, bind_assoc, bind_call. destruct (ib_modify_qp _ _ _ w1) as [r1 w2].
  rewrite bind_ret. destruct (negb (r1 =? 0)); [by eexists _, _|].
  rewrite try_as_bind, bind_assoc, bind_call. destruct (ib_modify_qp _ _ _ w2) as [r2 w3].
  rewrite bind_ret. destruct (negb (r2 =? 0)); [by eexists _, _|].
  rewrite bind_gets, bind_call. destruct (ib_modify_qp _ _ _ w3) as [r3 w4]. by eexists _, _.
Qed.

(** The queue that is received with, made or shared. *)
Lemma ud_recv_run ctx n recv_cq c w0 w :
  spare w0 {[c]} w ->
  match (if is_null recv_cq then call (ib_create_cq (RContext.get_raw_dev ctx) n) else mret recv_cq) w with
  | Panic => False
  | Done (r, w') =>
      (is_null r = false -> spare w0 ({[c]} ∪ (if is_null recv_cq then {[r]} else ∅)) w' /\
         (is_null recv_cq = true -> r <> c)) /\
      (healthy w -> is_null r = false /\ healthy w')
  end.
Proof.
  intros Hsp. destruct (is_null recv_cq) eqn:Hr.
  - unfold call. destruct (ib_create_cq _ n w) as [r w'] eqn:E.
    pose proof (create_cq_law _ _ _ _ _ E) as (_ & _ & _ & Hh). split.
    + intros Hn. destruct (spare_create w0 {[c]} w _ _ _ _ Hsp E Hn) as (Hs & Hc & _).
      rewrite (comm_L _ {[c]}). split; [done|]. intros _ ->. apply Hc. clear. set_solver.
    + intros Hw. destruct (Hh Hw). split; [by apply Z.eqb_neq|done].
  - split; [|done]. intros _. by rewrite union_empty_r_L.
Qed.

Lemma ud_new_run config ctx recv_cq srq w :
  match Ud.new_from_config config ctx recv_cq srq w with
  | Done (Some ud, w') =>
      is_null (Ud.qp ud) = false /\ is_null (Ud.cq ud) = false /\ is_null (Ud.recv_cq ud) = false /\
      (Ud.shared_recv_cq ud = false -> Ud.recv_cq ud <> Ud.cq ud) /\ held w (Ud.qp ud) (ud_cqs ud) w'
  | Done (None, _) => False
  | Panic => ~ healthy w
  end.
Proof.
  unfold Ud.new_from_config. rewrite bind_call. destruct (ib_create_cq _ _ w) as [c w1] eqn:E1.
  pose proof (create_cq_law _ _ _ _ _ E1) as (_ & _ & _ & Hh1). destruct (is_null c) eqn:Hc.
  { cbn. intros Hw. destruct (Hh1 Hw). by apply Z.eqb_eq in Hc. }
  destruct (spare_create w ∅ w _ _ _ _ (spare_refl w) E1 Hc) as (Hsp & _ & _). rewrite union_empty_r_L in Hsp.
  rewrite bind_run. pose proof (ud_recv_run ctx (u32 (Config.max_recv_cqe config)) recv_cq c w w1 Hsp) as Hrecv.
  match type of Hrecv with match ?m with _ => _ end => destruct m as [[r w2]|]; [|done] end.
  destruct Hrecv as [Hsp2 Hh2].
  destruct (is_null r) eqn:Hr.
  { cbn. intros Hw. destruct (Hh1 Hw) as [_ Hw1]. by destruct (Hh2 Hw1). }
  destruct (Hsp2 eq_refl) as [Hs2 Hne]. unfold create_qp. rewrite bind_call.
  destruct (ib_create_qp _ _ w2) as [q w3] eqn:E3.
  pose proof (create_qp_law _ _ _ _ _ E3) as (_ & _ & Hnew & Hh3). destruct (is_null q) eqn:Hq.
  { cbn. intros Hw. destruct (Hh1 Hw) as [_ Hw1]. destruct (Hh2 Hw1) as [_ Hw2].
    destruct (Hh3 Hw2). by apply Z.eqb_eq in Hq. }
  pose proof (spare_qp w _ w2 _ _ _ _ Hs2 E3 Hq) as Hheld.
  set (ud := Ud.mkUD q c r (Config.qkey config) (negb (is_null recv_cq))). rewrite bind_run.
  destruct (Ud.bring_ud_to_ready ud w3) as [[res w4]|] eqn:Hb.
  - split_and!; try done; [by cbn; destruct (is_null recv_cq); auto|].
    apply held_only with (w := w3); [|by apply (ud_ready_only ud) in Hb]. unfold ud_cqs. cbn.
    by destruct (is_null recv_cq).
  - intros Hw. destruct (Hh1 Hw) as [_ Hw1]. destruct (Hh2 Hw1) as [_ Hw2]. destruct (Hh3 Hw2) as [Hn Hw3].
    destruct (Hnew Hn) as (_ & Hv & _). destruct (ud_ready_total ud w3 _ Hq Hv Hw3) as (? & ? & Ht). congruence.
Qed.

(** The initiator owns one completion queue. *)
Lemma dc_new_run `{!DeviceLaws W} ctx srq recv_cq w :
  match Dc.new_with_srq ctx srq recv_cq w with
  | Done (Some dc, w') => is_null (Dc.qp dc) = false /\ is_null (Dc.cq dc) = false /\ held w (Dc.qp dc) {[Dc.cq dc]} w'
  | Done (None, _) => True
  | Panic => False
  end.
Proof.
  unfold Dc.new_with_srq, create_dc_qp. destruct (is_null (RContext.pd ctx)); [done|].
  rewrite bind_assoc, bind_call. destruct (ib_create_cq _ _ w) as [c w1] eqn:E1. destruct (is_null c) eqn:Hc; [done|].
  destruct (spare_create w ∅ w _ _ _ _ (spare_refl w) E1 Hc) as (Hsp & _ & _). rewrite union_empty_r_L in Hsp.
  unfold Builder.ib_create_qp_dct. rewrite !bind_assoc, bind_call.
  destruct (ib_create_qp _ _ w1) as [q w2] eqn:E2. rewrite !bind_ret.
  destruct (ptr_is_err q) eqn:Hpe; [done|]. destruct (is_null q) eqn:Hq; [done|]. rewrite Hc. cbn [orb].
  destruct (is_null (if is_null recv_cq then c else recv_cq)); [done|].
  pose proof (spare_qp w {[c]} w1 _ _ _ _ Hsp E2 Hq) as Hheld. rewrite bind_run.
  destruct (bring_dc_to_ready q w2) as [[[] w3]|] eqn:Hb; cbn [negb].
  - split_and!; try done. eapply held_only; [exact Hheld|by apply (dc_ready_only q) in Hb].
  - done.
  - by destruct (dc_ready_total q w2) as (? & ? & Ht); congruence.
Qed.

Lemma dc_drop_run w0 self w :
  is_null (Dc.qp self) = false -> is_null (Dc.cq self) = false -> held w0 (Dc.qp self) {[Dc.cq self]} w ->
  exists w', Dc.drop self w = Done ((), w') /\ live w' = live w0 /\ same_qps qp_view w0 w'.
Proof.
  intros Hq Hc Hh. unfold Dc.drop, Dc.unless_null. rewrite Hq, Hc. cbn [negb].
  rewrite bind_assoc, bind_call. destruct (ib_destroy_qp (Dc.qp self) w) as [r w1] eqn:E1. rewrite bind_ret.
  apply (held_destroy w0 _ {[Dc.cq self]}) in E1; [|done].
  rewrite bind_call. destruct (ib_free_cq (Dc.cq self) w1) as [r' w2] eqn:E2.
  apply (spare_free w0 {[Dc.cq self]}) in E2; [|done|set_solver].
  exists w2. split; [done|]. apply spare_none. by rewrite difference_diag_L in E2.
Qed.

(** A creation whose result can be released without a trace.  It faults only with a
    driver that refuses a request. *)
Definition releases {A} (create : M W (option A)) (drop : A -> M W unit) w : Prop :=
  match create w with
  | Done (Some a, w1) => exists w2, drop a w1 = Done ((), w2) /\ live w2 = live w /\ same_qps qp_view w w2
  | Done (None, _) => True
  | Panic => ~ healthy w
  end.

(**  Creation and release balance for the reliable, the datagram and the
    dynamically connected queue pairs of the system-call stack: what was created is
    given back by the drop, whether receive queues are shared or not; and the
    creation of the first two kinds never returns an error (where the driver
    refuses a request they fault). *)
Theorem sys_queue_pairs_balance `{!DeviceLaws W} config ctx cm srq recv_cq arc w :
  releases (Rc.new_with_srq config ctx cm srq recv_cq arc) Rc.drop w /\
  releases (Ud.new_from_config config ctx recv_cq srq) Ud.drop w /\
  releases (Dc.new_with_srq ctx srq recv_cq) Dc.drop w /\
  forall w', Rc.new_with_srq config ctx cm srq recv_cq arc w <> Done (None, w') /\
             Ud.new_from_config config ctx recv_cq srq w <> Done (None, w').
Proof.
  pose proof (rc_new_run config ctx cm srq recv_cq arc w) as Hrc.
  pose proof (ud_new_run config ctx recv_cq srq w) as Hud. pose proof (dc_new_run ctx srq recv_cq w) as Hdc.
  unfold releases. split; [|split; [|split]].
  - destruct (Rc.new_with_srq _ _ _ _ _ _ w) as [[[rc|] w1]|]; [|done..].
    destruct Hrc as (Hq & Hc & _ & Hh & _). by apply rc_drop_run.
  - destruct (Ud.new_from_config _ _ _ _ w) as [[[ud|] w1]|]; [|done..].
    destruct Hud as (Hq & Hc & Hr & Hne & Hh). by apply ud_drop_run.
  - destruct (Dc.new_with_srq _ _ _ w) as [[[dc|] w1]|]; [|done..]. destruct Hdc as (Hq & Hc & Hh). by apply dc_drop_run.
  - intros w'. split; intros E; [by rewrite E in Hrc|by rewrite E in Hud].
Qed.

End balance.

(** ** The simulated connection manager *)
Definition set_links (m : gmap Z (Z * Z)) (s : sim) : sim :=
  mkSim (s_live s) (s_qps s) (s_faults s) (s_sent s) (s_received s) (s_mem s) (s_mail s) (s_cm s) (s_wcs s) m.

Definition sim_link (s : sim) (cm : ptr) : option cm_link := (fun l => mkLink (fst l) (snd l)) <$> s_links s !! cm.

Definition sim_init_attr (cm : ptr) (st : ib_qp_state) (s : sim) : (Z * (ib_qp_attr * list ib_qp_attr_mask)) * sim :=
  match sim_link s cm with
  | Some l => ((0, (default_qp_attr |> with_qp_state st |> with_dest_qp_num (link_qpn l) |> with_sq_psn (link_psn l)
                      |> with_path_mtu IB_MTU_4096, cm_mask st)), s)
  | None => ((libc_EINVAL, (default_qp_attr, [])), s)
  end.

#[export] Instance sim_sys_ops : SysOps sim := {|
  ib_query_device _ := fault;
  cm_receive cm ev s :=
    ((), match link_of_event ev with
         | Some l => set_links (<[cm := (link_qpn l, link_psn l)]> (s_links s)) s
         | None => s
         end);
  ib_cm_init_qp_attr := sim_init_attr
|}.

#[export] Instance sim_link_laws : LinkLaws sim.
Proof.
  refine {| cm_link_of := sim_link |}.
  - apply sim_stable.
    + split; [by intros s p|]. intros s1 s2 s3 H1 H2 p. by rewrite H2.
    + intros s s' [_ Hl] p. unfold sim_link. by rewrite Hl.
  - intros p m s r s'. cbn. unfold sim_send. destruct (fault s) as [e s1] eqn:Hf. apply fault_kept in Hf as [_ Hl].
    intros E p'. unfold sim_link. destruct (s_cm s1 !! p) as [[c out]|]; [|injection E as <- <-; by rewrite Hl].
    injection E as <- <-. destruct (e =? 0); cbn; by rewrite Hl.
  - intros cm ev s u s' [= <- <-]. destruct (link_of_event ev) as [l|]; [|split; [apply quiet_refl|by split]].
    split; [by split_and!|]. split; [by intros p|]. intros l' [= <-]. unfold sim_link. cbn. rewrite lookup_insert_eq.
    by destruct l.
  - intros cm st s r a m s'. cbn. unfold sim_init_attr. destruct (sim_link s cm) as [l|] eqn:El; intros [= <- <- <- <-].
    + split; [apply quiet_refl|]. split; [by intros p|]. split; [done|]. split; [|done].
      intros _. split; [done|]. split; [done|]. intros l' [= <-]. done.
    + split; [apply quiet_refl|]. split; [by intros p|]. split; [done|]. split; [done|]. by intros _ [? ?].
Defined.

(** When the bring-up of the initiator fails, its queue pair and completion queue
    are not given back. *)
Example dc_new_keeps_queues :
  match Dc.new_with_srq (RContext.mkRContext (RNIC.mkRNIC 1 default_gid 1 1) 2 3) null null
          (sim_faulty [0; 0; 22]) with
  | Done (None, w) => size (live w) = 2%nat
  | _ => False
  end.
Proof. by vm_compute. Qed.
