(* ===== verification/SysCtrl.v ===== *)
(** * The control of a service

    [RCtrl] (src/KRdmaKit-syscall/two-sided-dc/KRdmaKit/src/ctrl.rs): what the
    kernel keeps for one service number: the connections clients have made, the
    datagram queue pairs, the target and initiator of dynamically connected
    transport, the ring of receive buffers, and the handler of the connection
    manager's events; with the memory block it registers (mem/phy.rs).

    The theorem composes the two ends of a connection: what the client's
    [RC::connect] sends, the server's [rc_conn_callback] answers, and the client's
    handler does with the answer. *)

From S2P Require Import Prelude Bytes Errors Verbs CmVerbs Sim Context CompletionQueue QueuePair BringUp.
From S2P Require Import Stable CommManager RecvHelper SysQp SysBringUp.

(** ** Registered memory *)
Module RMemPhy.
Section mem.
Context {W : Type} `{!DeviceOps W}.

Record RMemPhy := mkMem { inner_mem : ptr; dma_buf : option Z; capacity : Z }.

Definition new (capacity : Z) : M W RMemPhy :=
  p ← call (alloc_zeroed capacity); mret (mkMem p None capacity).

Definition pin_for_rdma (self : RMemPhy) : RMemPhy :=
  match dma_buf self with
  | None => mkMem (inner_mem self) (Some (virt_to_phys (inner_mem self))) (capacity self)
  | Some _ => self
  end.
Definition get_pa_unsafe (self : RMemPhy) (off : Z) : outcome Z :=
  match dma_buf self with Some b => Done (b + off) | None => Panic end.

(** The address is computed at the first use. *)
Definition get_pa (self : RMemPhy) (off : Z) : M W (Z * RMemPhy) :=
  let self := pin_for_rdma self in pa ← lift (get_pa_unsafe self off); mret (pa, self).
Definition get_dma_buf (self : RMemPhy) : M W (Z * RMemPhy) := get_pa self 0.
Definition get_sz (self : RMemPhy) : Z := capacity self.
Definition drop (self : RMemPhy) : M W unit := call (dealloc (inner_mem self) (capacity self)).

End mem.
End RMemPhy.

Module RCtrl.
Section ctrl.
Context {W : Type} `{!Cfg, !DeviceOps W, !QueueOps W, !DataOps W, !CmOps W, !SysOps W, !PhysOps, !SrqOps W}.

Definition DEFAULT_RPC_HINT : Z := 73.
Definition RING : nat := Z.to_nat 2048.

(** [in_qps] is the heap of [InQPContext]s: the keys by their addresses. *)
Record RCtrl := mkCtrl {
  id : Z; context : RContext.RContext; registered_rcs : gmap Z Rc.RC; registered_uds : gmap Z Ud.UD;
  dct_server : Dc.DCTServer; dc : option Dc.DC; registered_test_mr : RMemPhy.RMemPhy;
  recv_buffer : option RecvHelper.RecvHelper; cm : ClientCM.ClientCM; free_in_qp_key : Z;
  in_qps : gmap Z Z }.

Definition set_rcs x (c : RCtrl) : RCtrl := mkCtrl (id c) (context c) x (registered_uds c) (dct_server c) (dc c) (registered_test_mr c) (recv_buffer c) (cm c) (free_in_qp_key c) (in_qps c).
Definition set_uds x (c : RCtrl) : RCtrl := mkCtrl (id c) (context c) (registered_rcs c) x (dct_server c) (dc c) (registered_test_mr c) (recv_buffer c) (cm c) (free_in_qp_key c) (in_qps c).
Definition set_mem x (c : RCtrl) : RCtrl := mkCtrl (id c) (context c) (registered_rcs c) (registered_uds c) (dct_server c) (dc c) x (recv_buffer c) (cm c) (free_in_qp_key c) (in_qps c).
Definition set_recv x (c : RCtrl) : RCtrl := mkCtrl (id c) (context c) (registered_rcs c) (registered_uds c) (dct_server c) (dc c) (registered_test_mr c) x (cm c) (free_in_qp_key c) (in_qps c).
Definition set_cm x (c : RCtrl) : RCtrl := mkCtrl (id c) (context c) (registered_rcs c) (registered_uds c) (dct_server c) (dc c) (registered_test_mr c) (recv_buffer c) x (free_in_qp_key c) (in_qps c).
Definition set_key x (c : RCtrl) : RCtrl := mkCtrl (id c) (context c) (registered_rcs c) (registered_uds c) (dct_server c) (dc c) (registered_test_mr c) (recv_buffer c) (cm c) x (in_qps c).
Definition set_in_qps x (c : RCtrl) : RCtrl := mkCtrl (id c) (context c) (registered_rcs c) (registered_uds c) (dct_server c) (dc c) (registered_test_mr c) (recv_buffer c) (cm c) (free_in_qp_key c) x.

(** ** Getters *)
Definition get_context (self : RCtrl) : RContext.RContext := context self.
Definition get_ud (self : RCtrl) (qd : Z) : option Ud.UD := registered_uds self !! qd.
Definition get_trc (self : RCtrl) (vid : Z) : option Rc.RC := registered_rcs self !! vid.
Definition get_dc (self : RCtrl) : option Dc.DC := dc self.
Definition get_srq (self : RCtrl) : ptr := Dc.dct_srq (dct_server self).
Definition get_recv_cq (self : RCtrl) : ptr := Dc.dct_recv_cq (dct_server self).
Definition get_dct_cq (self : RCtrl) : ptr := Dc.dct_cq (dct_server self).
Definition get_dc_num (self : RCtrl) : M W Z := Dc.get_dct_num (dct_server self).

Definition get_self_test_mr : M (W * RCtrl) TempMR :=
  self ← getX;
  '(buf, mem) ← onW (RMemPhy.get_dma_buf (registered_test_mr self));
  _ ← onX (set_mem mem);
  rkey ← onW (RContext.get_rkey (get_context self));
  mret (mkTempMR buf (u32 (RMemPhy.get_sz mem)) rkey).

Record DCTargetMeta := mkMeta { meta_dct_num : Z; meta_lid : Z; meta_gid : ib_gid; meta_mr : TempMR }.

Definition get_self_dct_meta : M (W * RCtrl) DCTargetMeta :=
  self ← getX;
  num ← onW (Dc.get_dct_num (dct_server self));
  mr ← get_self_test_mr;
  mret (mkMeta num (RContext.get_lid (context self)) (RContext.get_gid (context self)) mr).

Definition get_self_endpoint (ud_id : Z) : M (W * RCtrl) (option EndPoint.EndPoint) :=
  self ← getX;
  match get_ud self ud_id with
  | Some ud =>
      qpn ← onW (Ud.get_qp_num ud);
      num ← onW (get_dc_num self);
      mr ← get_self_test_mr;
      mret (Some (EndPoint.mkEndPoint qpn (Ud.qkey ud) (RContext.get_lid (context self))
                    (RContext.get_gid (context self)) num mr null))
  | None => mret None
  end.

(** ** Receive buffers *)

(** [post_recvs] on the ring of the control. *)
Definition post_recvs (qp srq : ptr) (n : Z) : M (W * RCtrl) (Result Error unit) := fun s =>
  match recv_buffer (snd s) with
  | None => Panic
  | Some h =>
      match RecvHelper.post_recvs qp srq n (fst s, h) with
      | Done (r, (w, h)) => Done (r, (w, set_recv (Some h) (snd s)))
      | Panic => Panic
      end
  end.

Definition trc_post_recv (vid push_cnt : Z) : M (W * RCtrl) (Result Error unit) :=
  self ← getX;
  rc ← unwrap (get_trc self vid);
  post_recvs (Rc.qp rc) null push_cnt.

Definition ud_post_recv (push_cnt : Z) : M (W * RCtrl) (Result Error unit) :=
  self ← getX;
  ud ← unwrap (get_ud self DEFAULT_RPC_HINT);
  post_recvs (Ud.qp ud) null push_cnt.

(** ** Registration *)
Definition drop_opt {A} (drop : A -> M W unit) (o : option A) : M W unit :=
  match o with Some a => drop a | None => mret () end.

(** A value that is replaced or removed is dropped. *)
Definition reg_ud (qd : Z) (ud : Ud.UD) : M (W * RCtrl) unit :=
  self ← getX;
  _ ← onX (fun c => set_uds (<[qd := ud]> (registered_uds c)) c);
  onW (drop_opt Ud.drop (get_ud self qd)).
Definition dereg_ud (qd : Z) : M (W * RCtrl) unit :=
  self ← getX;
  _ ← onX (fun c => set_uds (delete qd (registered_uds c)) c);
  onW (drop_opt Ud.drop (get_ud self qd)).

(** The identifier is left to the connection manager. *)
Definition dereg_rc (qd : Z) : M (W * RCtrl) unit :=
  self ← getX;
  match get_trc self qd with
  | Some qp =>
      _ ← onX (fun c => set_rcs (delete qd (registered_rcs c)) c);
      let '(_, rest) := ClientCM.handoff_raw_cm (Rc.cm qp) in
      onW (Rc.drop (Rc.with_cm rest qp))
  | None => mret ()
  end.

Definition reg_rc (key : Z) (qp : Rc.RC) : M (W * RCtrl) unit :=
  self ← getX;
  _ ← onX (fun c => set_rcs (<[key := qp]> (registered_rcs c)) c);
  onW (drop_opt Rc.drop (get_trc self key)).

Definition get_next_in_qp_key (vid : Z) : M (W * RCtrl) Z :=
  if vid =? 0 then
    self ← getX;
    next ← lift (add_u64 overflow_checks (free_in_qp_key self) 1);
    _ ← onX (set_key next);
    mret (free_in_qp_key self)
  else mret vid.

(** ** Events *)

(** [InQPContext::new] in a box, as the context of the identifier. *)
Definition box_context (c : ClientCM.ClientCM) (key : Z) : M (W * RCtrl) unit :=
  p ← onW (call (alloc_zeroed 16));
  _ ← onX (fun s => set_in_qps (<[p := key]> (in_qps s)) s);
  onW (ClientCM.set_context c p).

(** The last steps for a connection that can receive. *)
Definition register (ev : ib_cm_event) (qp : Rc.RC) (new_key : Z) (reply : Reply.Payload) :
  M (W * RCtrl) (Result Error unit) :=
  ret ← onW (Rc.connect_reply qp ev (Rc.cm qp) reply);
  _ ← box_context (Rc.cm qp) new_key;
  _ ← reg_rc new_key qp;
  _ ← post_recvs (Rc.qp qp) null 512;
  mret ret.

(** [random] is the byte the default configuration draws for its key. *)
Definition rc_conn_callback (random : Z) (cm : ptr) (ev : ib_cm_event) : M (W * RCtrl) (Result Error unit) :=
  let conn_arg : Z := of_bytes (private_data ev) in
  self ← getX;
  in_qp ← onW (Rc.new_with_srq (Config.set_max_send_wr_sz 256 (Config.default random)) (context self) cm null
                 (get_recv_cq self) null);
  qp ← unwrap in_qp;
  new_key ← get_next_in_qp_key conn_arg;
  mr ← get_self_test_mr;
  let reply := Reply.mkPayload conn_arg mr (Reply.status_code Reply.Nil) in
  rtr ← onW (Rc.bring_to_rtr qp cm);
  match rtr with
  | Ok _ => _ ← onW (Rc.bring_to_rts qp cm); register ev qp new_key reply
  | Err _ =>
      ret ← onW (Rc.connect_reply qp ev (Rc.cm qp) reply);
      _ ← onW (Rc.drop qp);
      mret ret
  end.

Definition sidr_callback (cm : ptr) (ev : ib_cm_event) : M (W * RCtrl) (Result Error unit) :=
  let qd_hint : Z := of_bytes (private_data ev) in
  self ← getX;
  '(qpn, qkey, status) ← match get_ud self qd_hint with
                         | Some ud => qpn ← onW (Ud.get_qp_num ud); mret (qpn, Ud.qkey ud, Reply.Ok)
                         | None => mret (0, 0, Reply.NotExist)
                         end;
  meta ← get_self_dct_meta;
  let reply := Reply.mkSidr qd_hint (RContext.get_lid (context self)) (RContext.get_gid (context self))
                 (meta_dct_num meta) (meta_mr meta) (Reply.status_code status) in
  onW (ClientCM.ud_conn_reply cm qpn qkey reply).

(** A departing client: the context is the box made for its connection.  A context
    that is no such box (the control itself) is undefined behaviour. *)
Definition dreq (cm_id : ptr) : M (W * RCtrl) unit :=
  p ← onW (CMWrapper.context cm_id);
  self ← getX;
  match in_qps self !! p with
  | None => panic
  | Some key =>
      _ ← dereg_rc key;
      _ ← onX (fun s => set_in_qps (delete p (in_qps s)) s);
      onW (call (dealloc p 16))
  end.

Definition cm_handler (random : Z) (cm_id : ptr) (ev : ib_cm_event) : M (W * RCtrl) Z :=
  _ ← match event ev with
      | IB_CM_REQ_RECEIVED => _ ← rc_conn_callback random cm_id ev; mret ()
      | IB_CM_DREQ_RECEIVED => dreq cm_id
      | IB_CM_SIDR_REQ_RECEIVED => _ ← sidr_callback cm_id ev; mret ()
      | _ => mret ()
      end;
  mret 0.

(** The arrival of an event. *)
Definition deliver (random : Z) (cm_id : ptr) (ev : ib_cm_event) : M (W * RCtrl) Z :=
  _ ← onW (call (cm_receive cm_id ev)); cm_handler random cm_id ev.

(** ** Life cycle *)

(** [reset], then the fields in the order of their declaration. *)
Definition drop_rcs (m : gmap Z Rc.RC) : M W unit :=
  map_fold (fun _ rc acc => _ ← acc; Rc.drop rc) (mret ()) m.
Definition drop_uds (m : gmap Z Ud.UD) : M W unit :=
  map_fold (fun _ ud acc => _ ← acc; Ud.drop ud) (mret ()) m.
Definition reset (self : RCtrl) : M W unit :=
  _ ← ClientCM.reset (cm self); drop_uds (registered_uds self).
Definition drop (self : RCtrl) : M W unit :=
  _ ← reset self;
  _ ← drop_rcs (registered_rcs self);
  _ ← Dc.server_drop (dct_server self);
  _ ← drop_opt Dc.drop (dc self);
  RMemPhy.drop (registered_test_mr self).

(** The first receive requests; the result is ignored. *)
Definition post_first (qp : ptr) (helper : RecvHelper.RecvHelper) : M W RecvHelper.RecvHelper := fun w =>
  match RecvHelper.post_recvs qp null 1024 (w, helper) with
  | Panic => Panic
  | Done (_, (w, helper)) => Done (helper, w)
  end.

(** [me] is the address of the pinned box; [r1], [r2] are the random bytes. *)
Definition create (id : Z) (ctx : RContext.RContext) (me r1 r2 : Z) : M W (option RCtrl) :=
  server ← Dc.server_new r1 ctx;
  mem ← RMemPhy.new (4 * 1024 * 1024);
  ud ← Ud.new_with_srq r2 ctx (Dc.dct_recv_cq server) null;
  ud ← unwrap ud;
  dc ← Dc.new_with_srq ctx null (Dc.dct_recv_cq server);
  '(pa, mem) ← RMemPhy.get_dma_buf mem;
  lkey ← RContext.get_lkey ctx;
  helper ← RecvHelper.create RING 2048 lkey pa;
  helper ← post_first (Ud.qp ud) helper;
  let self := mkCtrl id ctx ∅ {[DEFAULT_RPC_HINT := ud]} server dc mem (Some helper) ClientCM.default 0 ∅ in
  cm ← ClientCM.new (RContext.get_raw_dev ctx) me;
  match cm with
  | None => _ ← drop self; mret None
  | Some cm =>
      listening ← ClientCM.listen cm id;
      match listening with Ok _ => mret (Some (set_cm cm self)) | Err _ => panic end
  end.

End ctrl.
End RCtrl.

(** ** A connection *)

(** Allocation of kernel memory and the posting of receive requests concern neither
    queue pairs nor the connection manager. *)
Class BufferLaws (W : Type)
  `{!DeviceOps W, !QueueOps W, !DataOps W, !VerbsLaws W, !CmOps W, !CmLaws W} : Prop := {
  alloc_quiet_law n w p w' :
    alloc_zeroed n w = (p, w') ->
    same_qps qp_view w w' /\ (forall q, Verbs.qp_num w' q = Verbs.qp_num w q) /\
    (healthy w -> healthy w') /\ cm_same w w';
  post_recv_law q l w r w' : ib_post_recv q l w = (r, w') -> quiet w w' /\ cm_same w w'
}.

Section connection.
Context {W : Type} `{!Cfg, !DeviceOps W, !QueueOps W, !DataOps W, !CmOps W, !SysOps W, !PhysOps, !SrqOps W}.
Context `{!VerbsLaws W, !CmLaws W, !LinkLaws W, !BufferLaws W}.
Import RCtrl.
Implicit Types (w : W).

(** Creation with a driver that works: the queues, then the identifier. *)
Lemma rc_queues_healthy config ctx cm srq recv_cq arc w :
  healthy w ->
  exists q c rcq init w', is_null q = false /\ init_qp_type init = IB_QPT_RC /\ qp_view w' q = Some (reset_info init) /\
    healthy w' /\ cm_same w w' /\ same_links w w' /\
    Rc.new_with_srq config ctx cm srq recv_cq arc w =
      (if is_null cm then
         (cm ← ClientCM.new (RContext.get_raw_dev ctx) arc;
          match cm with
          | None => _ ← Rc.drop Rc.default; mret None
          | Some cm => mret (Some (Rc.mkRC q c rcq srq None cm))
          end) w'
       else Done (Some (Rc.mkRC q c rcq srq None (ClientCM.new_from_raw cm)), w')).
Proof.
  intros Hh. unfold Rc.new_with_srq. rewrite bind_call. destruct (ib_create_cq _ _ w) as [c w1] eqn:E1.
  assert (H1 : call (ib_create_cq (RContext.get_raw_dev ctx) (u32 (Config.max_cqe config))) w = Done (c, w1))
    by (unfold call; by rewrite E1).
  apply create_cq_law in E1 as (_ & _ & _ & Hh1). destruct (Hh1 Hh) as [Hc Hw1]. apply Z.eqb_neq in Hc.
  assert (Hcn : is_null c = false) by exact Hc. rewrite Hcn. cbv zeta.
  assert (is_null (if is_null recv_cq then c else recv_cq) = false) as -> by by destruct (is_null recv_cq) eqn:?.
  unfold create_qp. rewrite bind_call. match goal with |- context [ib_create_qp ?pd ?i w1] => set (init := i) end.
  destruct (ib_create_qp _ init w1) as [q w2] eqn:E2.
  assert (H2 : call (ib_create_qp (RContext.pd ctx) init) w1 = Done (q, w2)) by (unfold call; by rewrite E2).
  apply create_qp_law in E2 as (_ & _ & Hnew & Hh2). destruct (Hh2 Hw1) as [Hq Hw2].
  destruct (Hnew Hq) as (_ & Hv & _). apply Z.eqb_neq in Hq.
  eexists q, c, _, init, w2. split; [exact Hq|]. split_and!; try done.
  - transitivity w1; [by apply (stable_create_cq (R := cm_same) _ _ _ _ _ H1)|
      by apply (stable_create_qp (R := cm_same) _ _ _ _ _ H2)].
  - transitivity w1; [by apply (stable_create_cq (R := same_links) _ _ _ _ _ H1)|
      by apply (stable_create_qp (R := same_links) _ _ _ _ _ H2)].
  - assert (is_null q = false) as -> by exact Hq. by destruct (is_null cm).
Qed.

(** Creation on a given identifier. *)
Lemma rc_new_healthy config ctx cm srq recv_cq arc w :
  is_null cm = false -> healthy w ->
  exists rc init w', Rc.new_with_srq config ctx cm srq recv_cq arc w = Done (Some rc, w') /\
    is_null (Rc.qp rc) = false /\ Rc.cm rc = ClientCM.mkClient cm /\ init_qp_type init = IB_QPT_RC /\
    qp_view w' (Rc.qp rc) = Some (reset_info init) /\ healthy w' /\ cm_same w w' /\ same_links w w'.
Proof.
  intros Hcm Hh. destruct (rc_queues_healthy config ctx cm srq recv_cq arc w Hh)
    as (q & c & rcq & init & w' & Hq & Ht & Hv & Hh' & Hs & Hl & Hrun).
  eexists _, init, w'. rewrite Hrun, Hcm. split; [reflexivity|]. by split_and!.
Qed.

(** Creation of an own identifier. *)
Lemma rc_new_client config ctx srq recv_cq arc w :
  healthy w ->
  exists rc init w', Rc.new_with_srq config ctx null srq recv_cq arc w = Done (Some rc, w') /\
    is_null (Rc.qp rc) = false /\ init_qp_type init = IB_QPT_RC /\ Rc.remote_mr rc = None /\
    qp_view w' (Rc.qp rc) = Some (reset_info init) /\ healthy w' /\
    cm_context w' (ClientCM.inner_cm (Rc.cm rc)) = Some arc /\ cm_outbox w' (ClientCM.inner_cm (Rc.cm rc)) = [].
Proof.
  intros Hh. destruct (rc_queues_healthy config ctx null srq recv_cq arc w Hh)
    as (q & c & rcq & init & w1 & Hq & Ht & Hv & Hh1 & _ & _ & Hrun).
  rewrite Hrun. cbn [is_null Z.eqb null]. unfold ClientCM.new. destruct (ib_create_cm_id (RContext.get_raw_dev ctx) arc w1) as [cm w2] eqn:E.
  rewrite bind_assoc, bind_call, E, bind_ret. apply create_cm_law in E as (Hquiet & _ & Hnew & Hok).
  specialize (Hok Hh1). destruct (Hnew Hok) as (_ & Hctx & Hout). destruct Hquiet as (_ & Hs & _ & Hhealth).
  assert (is_null cm = false) as -> by by apply Z.eqb_neq. eexists _, init, w2. split; [done|]. cbn [Rc.qp Rc.cm ClientCM.inner_cm Rc.remote_mr].
  split_and!; try done; [by rewrite Hs|by auto].
Qed.

(** The region a control tells its clients. *)
Definition base_of (c : RCtrl) : Z :=
  match RMemPhy.dma_buf (registered_test_mr c) with
  | Some b => b | None => virt_to_phys (RMemPhy.inner_mem (registered_test_mr c))
  end.
Definition region c w : TempMR :=
  mkTempMR (base_of c) (u32 (RMemPhy.capacity (registered_test_mr c))) (mr_rkey w (RContext.kmr (context c))).

Lemma test_mr_run c w :
  get_self_test_mr (w, c) = Done (region c w, (w, set_mem (RMemPhy.pin_for_rdma (registered_test_mr c)) c)).
Proof.
  unfold get_self_test_mr. rewrite bind_getX.
  assert (Hbuf : RMemPhy.get_dma_buf (registered_test_mr c) w =
    Done ((base_of c, RMemPhy.pin_for_rdma (registered_test_mr c)), w)).
  { unfold base_of, RMemPhy.get_dma_buf, RMemPhy.get_pa, RMemPhy.get_pa_unsafe, RMemPhy.pin_for_rdma.
    destruct (RMemPhy.dma_buf (registered_test_mr c)) as [b|] eqn:Eb; cbn [RMemPhy.dma_buf]; rewrite ?Eb, bind_lift;
      by rewrite Z.add_0_r. }
  rewrite (bind_done _ _ _ _ _ (onW_run _ (w, c) _ _ Hbuf)). cbn [snd]. rewrite bind_onX.
  unfold region, RMemPhy.get_sz, RMemPhy.pin_for_rdma. by destruct (RMemPhy.dma_buf (registered_test_mr c)).
Qed.

(** The context of the new connection. *)
Lemma box_context_run cm key w c :
  is_Some (cm_context w cm) ->
  exists p w', box_context (ClientCM.mkClient cm) key (w, c) = Done ((), (w', set_in_qps (<[p := key]> (in_qps c)) c)) /\
    same_qps qp_view w w' /\ (forall q, Verbs.qp_num w' q = Verbs.qp_num w q) /\ (healthy w -> healthy w') /\
    cm_context w' cm = Some p /\ cm_outbox w' cm = cm_outbox w cm.
Proof.
  intros [x Hx]. unfold box_context. destruct (alloc_zeroed 16 w) as [p w1] eqn:E1.
  rewrite (bind_done _ _ _ p (w1, c)) by (unfold onW, call; cbn; by rewrite E1). rewrite bind_onX.
  apply alloc_quiet_law in E1 as (Hs & Hn & Hh & Hc). destruct (Hc cm) as [Hctx Hout].
  unfold ClientCM.set_context, CMWrapper.set_context, CMWrapper.context. cbn [ClientCM.inner_cm].
  destruct (cm_set_context cm p w1) as [[] w2] eqn:E2. exists p, w2.
  assert (Hrun : ((fun w => match cm_context w cm with Some c => Done (c, w) | None => Panic end) ≫=
                  (fun _ : Z => call (cm_set_context cm p))) w1 = Done ((), w2)).
  { rewrite bind_run, Hctx, Hx. unfold call. by rewrite E2. }
  split. { exact (onW_run _ (w1, _) _ _ Hrun). }
  apply set_context_law in E2 as (Hq & _ & Hout2 & Hset). destruct Hq as (_ & Hs2 & Hn2 & Hh2).
  split_and!; [intros q; by rewrite Hs2, Hs|intros q; by rewrite Hn2, Hn|by auto| |by rewrite Hout2].
  apply Hset. by rewrite Hctx, Hx.
Qed.

(** What the ring is made of. *)
Definition ring_of (c : RCtrl) (h : RecvHelper.RecvHelper) : Prop :=
  recv_buffer c = Some h /\ exists e k b, ring RING e k b h.

Lemma post_512 qp w c h :
  ring_of c h ->
  exists r w' h', post_recvs qp null 512 (w, c) = Done (r, (w', set_recv (Some h') c)) /\
    quiet w w' /\ cm_same w w' /\ exists e k b, ring RING e k b h'.
Proof.
  intros [Hb (e & k & b & Hr)]. unfold post_recvs. cbn [fst snd]. rewrite Hb.
  pose proof (ring_cur _ _ _ _ _ Hr) as Hc. unfold RING in *. rewrite Z2Nat.id in * by lia.
  rewrite (post_recvs_run (Z.to_nat 2048) e k b qp 512 h w Hr) by lia. rewrite Z2Nat.id by lia.
  destruct (ib_post_recv _ _ w) as [err w'] eqn:E. apply post_recv_law in E as [Hq Hcm].
  destruct (negb (err =? 0)); eexists _, _, _; (split; [done|]); split_and!; try done; eexists e, k, b; [done|].
  apply set_cur_ring; [done|]. rewrite Z2Nat.id by lia. apply Z.mod_pos_bound. lia.
Qed.

(** The registration of a key that is free. *)
Lemma reg_rc_run key rc w c :
  get_trc c key = None ->
  reg_rc key rc (w, c) = Done ((), (w, set_rcs (<[key := rc]> (registered_rcs c)) c)).
Proof. intros Hk. unfold reg_rc. rewrite bind_getX, bind_onX, Hk. done. Qed.

(** The answer to a request of the client. *)
Definition answer (num : Z) (req : ib_cm_req_event_param) (qd : Z) (mr : TempMR) : ib_cm_rep_param :=
  CMWrapper.rep_with (Reply.mkPayload qd mr (Reply.status_code Reply.Nil))
    (mkRep num num [] 0 (rq_responder_resources req) (rq_initiator_depth req) (u8 (rq_flow_control req))
       (u8 (rq_rnr_retry_count req))).

(** A connection [rc] of the control that is ready for the peer [l]. *)
Definition serving w (rc : Rc.RC) (num : Z) (l : cm_link) : Prop :=
  Verbs.qp_num w (Rc.qp rc) = num /\
  exists v init, qp_view w (Rc.qp rc) = Some v /\ linked init num l v.

Lemma register_run cm ev req qd mr rc v init num l w c h :
  param ev = ReqRcvd req -> is_null (Rc.qp rc) = false -> Rc.cm rc = ClientCM.mkClient cm ->
  qp_view w (Rc.qp rc) = Some v -> linked init num l v -> Verbs.qp_num w (Rc.qp rc) = num ->
  healthy w -> is_Some (cm_context w cm) -> ring_of c h -> get_trc c qd = None ->
  exists w' c', register ev rc qd (Reply.mkPayload qd mr (Reply.status_code Reply.Nil)) (w, c) = Done (Ok (), (w', c')) /\
    registered_rcs c' = <[qd := rc]> (registered_rcs c) /\ serving w' rc num l /\
    cm_outbox w' cm = cm_outbox w cm ++ [MRep (answer num req qd mr)].
Proof.
  intros Hp Hqp Hrcm Hv Hlk Hn Hh Hctx Hring Hfree. unfold register.
  destruct (client_send_run cm (MRep (answer num req qd mr)) w _ _ Hv Hh Hctx)
    as (w1 & H1 & Ho1 & Hv1 & Hh1 & _ & Hout1 & Hctx1 & _).
  assert (H1' : Rc.connect_reply rc ev (Rc.cm rc) (Reply.mkPayload qd mr (Reply.status_code Reply.Nil)) w = Done (Ok (), w1)).
  { unfold Rc.connect_reply, Rc.get_qp_num. rewrite Hp, Hqp, bind_gets, Hn, Hrcm. exact H1. }
  rewrite (bind_done _ _ _ _ _ (onW_run _ (w, c) _ _ H1')), Hrcm. cbn [snd].
  destruct (box_context_run cm qd w1 c) as (p & w2 & H2 & Hs2 & Hn2 & _ & _ & Hout2); [by rewrite Hctx1|].
  rewrite (bind_done _ _ _ _ _ H2). set (c2 := set_in_qps _ c).
  rewrite (bind_done _ _ _ _ _ (reg_rc_run qd rc w2 c2 Hfree)). set (c3 := set_rcs _ c2).
  destruct (post_512 (Rc.qp rc) w2 c3 h) as (r & w3 & h' & H3 & Hq3 & Hc3 & _); [exact Hring|].
  rewrite (bind_done _ _ _ _ _ H3). exists w3, (set_recv (Some h') c3). destruct Hq3 as (_ & Hs3 & Hn3 & _).
  split; [done|]. split; [done|]. split.
  - split; [rewrite Hn3, Hn2; by destruct Ho1 as (_ & -> & _)|]. exists v, init. by rewrite Hs3, Hs2.
  - destruct (Hc3 cm) as [_ ->]. by rewrite Hout2, Hout1.
Qed.

(** The context of an event that reaches the control's handler as a request for a
    new connection. *)
Lemma accept_run random cm ev req qd w c h :
  event ev = IB_CM_REQ_RECEIVED -> param ev = ReqRcvd req -> of_bytes (private_data ev) = qd -> qd <> 0 ->
  is_null cm = false -> healthy w -> is_Some (cm_context w cm) -> ring_of c h -> get_trc c qd = None ->
  exists rc num key w' c', deliver random cm ev (w, c) = Done (0, (w', c')) /\
    registered_rcs c' = <[qd := rc]> (registered_rcs c) /\
    serving w' rc num (mkLink (rq_remote_qpn req) (rq_starting_psn req)) /\
    cm_outbox w' cm = cm_outbox w cm ++
      [MRep (answer num req qd (mkTempMR (base_of c) (u32 (RMemPhy.capacity (registered_test_mr c))) key))].
Proof.
  intros Hev Hp Hqd Hnz Hcm Hh Hctx Hring Hfree. set (l := mkLink _ _). unfold deliver.
  destruct (cm_receive cm ev w) as [[] w0] eqn:E0. apply receive_law in E0 as R0.
  destruct R0 as (Hq0 & Hc0 & Hl0). specialize (Hl0 l ltac:(by unfold link_of_event; rewrite Hp)).
  rewrite (bind_done _ _ _ () (w0, c)) by (unfold onW, call; cbn; by rewrite E0).
  unfold cm_handler. rewrite Hev, !bind_assoc. unfold rc_conn_callback. rewrite Hqd, bind_assoc, bind_getX, bind_assoc.
  destruct (rc_new_healthy (Config.set_max_send_wr_sz 256 (Config.default random)) (context c) cm null (get_recv_cq c)
    null w0 Hcm) as (rc & init & w1 & H1 & Hqp & Hrcm & Ht & Hv1 & Hh1 & Hc1 & Hl1); [by apply Hq0|].
  rewrite (bind_done _ _ _ _ _ (onW_run _ (w0, c) _ _ H1)). cbn [snd unwrap]. rewrite bind_assoc, bind_ret, bind_assoc.
  unfold get_next_in_qp_key. destruct (Z.eqb_spec qd 0) as [|_]; [done|]. rewrite bind_ret, bind_assoc.
  rewrite (bind_done _ _ _ _ _ (test_mr_run c w1)), bind_assoc. set (c1 := set_mem _ c).
  assert (Hlink : cm_link_of w1 cm = Some l) by by rewrite Hl1.
  destruct (rts_run rc cm l init Hqp Ht w1 _ Hv1 eq_refl Hh1 Hlink) as (v & w2 & w3 & H2 & H3 & R & Hlk).
  destruct R as (Ho3 & Hv3 & Hh3 & _ & Hc3).
  rewrite (bind_done _ _ _ _ _ (onW_run _ (w1, c1) _ _ H2)), bind_assoc. cbn [snd].
  rewrite (bind_done _ _ _ _ _ (onW_run _ (w2, c1) _ _ H3)). cbn [snd].
  destruct (Hc3 cm) as [Hx3 Ho3'], (Hc1 cm) as [Hx1 Ho1'], (Hc0 cm) as [Hx0 Ho0'].
  destruct (register_run cm ev req qd (region c w1) rc v init (Verbs.qp_num w1 (Rc.qp rc)) l w3 c1 h)
    as (w4 & c4 & H4 & Hreg & Hserv & Hout); try done; [apply Ho3|by rewrite Hx3, Hx1, Hx0|].
  rewrite (bind_done _ _ _ _ _ H4). eexists rc, _, (mr_rkey w1 (RContext.kmr (context c))), w4, c4.
  split; [done|]. split; [done|]. split; [exact Hserv|]. by rewrite Hout, Ho3', Ho1', Ho0'.
Qed.

End connection.

(** What a client reads of a payload. *)
Lemma payload_mr qd mr st :
  Reply.mr (of_bytes (to_bytes (Reply.mkPayload qd mr st))) =
  mkTempMR (u64 (mr_addr mr)) (u32 (mr_capacity mr)) (u32 (mr_key mr)).
Proof.
  cbn [of_bytes to_bytes Reply.wire_payload Reply.mr]. rewrite <- (app_nil_r (pack _ _)).
  by fields.
Qed.

Section established.
Context {Wc Ws : Type} `{!Cfg, !PhysOps}.
Context `{!DeviceOps Wc, !QueueOps Wc, !DataOps Wc, !CmOps Wc, !SysOps Wc, !VerbsLaws Wc, !CmLaws Wc, !LinkLaws Wc}.
Context `{!DeviceOps Ws, !QueueOps Ws, !DataOps Ws, !CmOps Ws, !SysOps Ws, !SrqOps Ws}.
Context `{!VerbsLaws Ws, !CmLaws Ws, !LinkLaws Ws, !BufferLaws Ws}.
Import RCtrl.

(** Two ends that are ready for each other. *)
Definition ends_agree (wc : Wc) (ws : Ws) (qc qs : ptr) : Prop :=
  exists vc vs, qp_view wc qc = Some vc /\ qp_view ws qs = Some vs /\
    let ac := qi_attr vc in let a_s := qi_attr vs in
    qp_state ac = IB_QPS_RTS /\ qp_state a_s = IB_QPS_RTS /\
    dest_qp_num ac = Verbs.qp_num ws qs /\ dest_qp_num a_s = Verbs.qp_num wc qc /\
    rq_psn ac = sq_psn a_s /\ rq_psn a_s = sq_psn ac.

(** A fresh queue pair of the client, and a control that can take the request. *)
Definition can_connect (wc : Wc) (self : Rc.RC) : Prop :=
  healthy wc /\ is_null (Rc.qp self) = false /\ is_Some (cm_context wc (ClientCM.inner_cm (Rc.cm self))) /\
  exists init, init_qp_type init = IB_QPT_RC /\ qp_view wc (Rc.qp self) = Some (reset_info init).
Definition can_accept (ws : Ws) (c : RCtrl) (cm : ptr) (vid : Z) : Prop :=
  healthy ws /\ is_null cm = false /\ is_Some (cm_context ws cm) /\ get_trc c vid = None /\
  in_width 64 (base_of c) /\ exists h, ring_of c h.

(** C15.  A connection between two machines: the request that [RC::connect] of the
    client sends makes the server's control register a queue pair under the virtual
    id of the client, and answer; with that answer [connect] succeeds.  Then both
    ends are ready to send to each other, with sequence numbers that match, and the
    client knows the region of the control. *)
Theorem sys_connection_established (wc : Wc) (ws : Ws) self c cm vid path svc random done0 :
  can_connect wc self -> can_accept ws c cm vid -> 0 < vid < 2 ^ 64 ->
  let req := CMWrapper.req_with (vid : Z) (Rc.request (Verbs.qp_num wc (Rc.qp self)) path svc) in
  exists rc ws' c' rep,
    deliver random cm (as_event (MReq req)) (ws, c) = Done (0, (ws', c')) /\
    registered_rcs c' = <[vid := rc]> (registered_rcs c) /\
    cm_outbox ws' cm = cm_outbox ws cm ++ [MRep rep] /\
    exists wc' self' done,
      Rc.connect vid path svc (mkWait [as_event (MRep rep)] 0) (wc, (self, done0)) = Done (Ok (), (wc', (self', done))) /\
      cm_outbox wc' (ClientCM.inner_cm (Rc.cm self)) =
        cm_outbox wc (ClientCM.inner_cm (Rc.cm self)) ++ [MReq req; MRtu [0]] /\
      Rc.qp self' = Rc.qp self /\ ends_agree wc' ws' (Rc.qp self) (Rc.qp rc) /\
      exists mr, Rc.remote_mr self' = Some mr /\ mr_addr mr = base_of c /\
        mr_capacity mr = u32 (RMemPhy.capacity (registered_test_mr c)).
Proof.
  intros (Hhc & Hqp & Hctxc & ic & Htc & Hvc) (Hhs & Hcm & Hctxs & Hfree & Hbase & h & Hring) Hvid req.
  set (num := Verbs.qp_num wc (Rc.qp self)) in *. set (rq := mkReqEvent num num 16 16 1 7).
  assert (Hqd : of_bytes (to_bytes (vid : Z)) = vid).
  { apply wire_u64_roundtrip. split; lia. }
  destruct (accept_run random cm (as_event (MReq req)) rq vid ws c h eq_refl eq_refl Hqd ltac:(lia) Hcm Hhs Hctxs Hring Hfree)
    as (rc & snum & key & ws' & c' & Hacc & Hreg & (Hnum & vs & init_s & Hvs & Hls) & Hout).
  set (mr := mkTempMR (base_of c) (u32 (RMemPhy.capacity (registered_test_mr c))) key) in Hout.
  exists rc, ws', c', (answer snum rq vid mr). split_and!; [done|done|done|].
  set (data := to_bytes (Reply.mkPayload vid mr (Reply.status_code Reply.Nil))).
  destruct (connect_run self done0 (mkRepEvent snum snum) data vid path svc wc ic _ Hqp Htc Hvc eq_refl Hhc Hctxc)
    as (vc & wc' & done & Hcon & Ho & Hvc' & _ & Houtc & Hlc).
  exists wc', (Rc.with_remote_mr (Reply.mr (of_bytes data)) self), done. split_and!; [exact Hcon|exact Houtc|done| |].
  - exists vc, vs. destruct Hlc as (_ & ? & Hd & Hsq & Hrq & _), Hls as (_ & ? & Hd' & Hsq' & Hrq' & _).
    cbn in Hd, Hsq, Hd', Hsq'. fold num in Hrq. destruct Ho as (_ & Hn & _). fold num in Hn.
    cbv zeta. split_and!; congruence.
  - eexists. split; [reflexivity|]. unfold data. rewrite payload_mr. cbn. rewrite wrap_wrap, wrap_small by done. done.
Qed.

End established.

(** ** Two machines with the simulated driver *)
Lemma sim_alloc_kept n s p s' :
  alloc_zeroed n s = (p, s') ->
  same_qps qp_view s s' /\ (forall q, Verbs.qp_num s' q = Verbs.qp_num s q) /\ (healthy s -> healthy s') /\ cm_same s s'.
Proof. cbn. unfold sim_alloc_zeroed. intros [= <- <-]. by split_and!. Qed.

#[export] Instance sim_buffer_laws : BufferLaws sim.
Proof.
  split; [exact sim_alloc_kept|]. intros q l s r s'. cbn. unfold sim_post_recv.
  destruct (fault s) as [e s1] eqn:Hf. pose proof (fault_kept _ _ _ Hf) as [Hc Hl]. apply fault_quiet in Hf as [Hq _].
  destruct (e =? 0); intros [= <- <-]; (split; [done|exact (sim_cm_eq _ _ Hc)]).
Qed.

Module PairSample.

Definition ctx : RContext.RContext := RContext.mkRContext (RNIC.mkRNIC 1 default_gid 1 17) 2 3.
Definition init : ib_qp_init_attr := mkQpInit (mkCap 2048 4096 16 1 64) IB_QPT_RC 4 4 null.
Definition client : Rc.RC := Rc.mkRC 5 4 4 null None (ClientCM.mkClient 9).
Definition client_world : sim := CommManager.set_cm {[9 := (3, [])]} (set_qps {[5 := reset_info init]} sim_init).
Definition server_world : sim := CommManager.set_cm {[7 := (5, [])]} sim_init.
Definition path : sa_path_rec := mkPath default_gid default_gid 1 1 [].

Definition helper : RecvHelper.RecvHelper :=
  match RecvHelper.create (W := sim) (H := kernel_cfg) (H0 := RingSample.phys) RCtrl.RING 2048 7 4096 sim_init with
  | Done (h, _) => h
  | Panic => RecvHelper.default 0
  end.
Definition control : RCtrl.RCtrl :=
  RCtrl.mkCtrl 1 ctx ∅ ∅ (Dc.mkDCTServer 0 0 0 11) None (RMemPhy.mkMem 4096 (Some 4096) (4 * 1024 * 1024))
    (Some helper) ClientCM.default 0 ∅.

Lemma helper_ring : @ring_of RingSample.phys control helper.
Proof.
  split; [done|]. exists 2048, 7, 4096. unfold helper.
  destruct (create_run (H := kernel_cfg) (H0 := RingSample.phys) RCtrl.RING 2048 7 4096 sim_init)
    as (h & Hh & Hr & _); [unfold RCtrl.RING; lia..|]. by rewrite Hh.
Qed.

End PairSample.

Lemma sys_connection_established_witness :
  let req := CMWrapper.req_with (3 : Z) (Rc.request (Verbs.qp_num PairSample.client_world (Rc.qp PairSample.client)) PairSample.path 1) in
  exists rc ws' c' rep,
    RCtrl.deliver (H := kernel_cfg) (SrqOps0 := RingSample.srq) 0 7 (as_event (MReq req))
      (PairSample.server_world, PairSample.control) = Done (0, (ws', c')) /\
    RCtrl.registered_rcs c' = <[3 := rc]> (RCtrl.registered_rcs PairSample.control) /\
    cm_outbox ws' 7 = cm_outbox PairSample.server_world 7 ++ [MRep rep] /\
    exists wc' self' done,
      Rc.connect 3 PairSample.path 1 (mkWait [as_event (MRep rep)] 0)
        (PairSample.client_world, (PairSample.client, completion_init)) = Done (Ok (), (wc', (self', done))) /\
      cm_outbox wc' (ClientCM.inner_cm (Rc.cm PairSample.client)) =
        cm_outbox PairSample.client_world (ClientCM.inner_cm (Rc.cm PairSample.client)) ++ [MReq req; MRtu [0]] /\
      Rc.qp self' = Rc.qp PairSample.client /\ ends_agree wc' ws' (Rc.qp PairSample.client) (Rc.qp rc) /\
      exists mr, Rc.remote_mr self' = Some mr /\ mr_addr mr = base_of PairSample.control /\
        mr_capacity mr = u32 (RMemPhy.capacity (RCtrl.registered_test_mr PairSample.control)).
Proof.
  apply (sys_connection_established (H := kernel_cfg) (H0 := RingSample.phys) (SrqOps0 := RingSample.srq)
    PairSample.client_world PairSample.server_world PairSample.client PairSample.control 7 3 PairSample.path 1 0 completion_init).
  - split_and!; [done|done|by eexists|]. exists PairSample.init. by split.
  - split_and!; [done|done|by eexists|done|by split|]. eexists. apply PairSample.helper_ring.
  - lia.
Defined.
