(* ===== verification/SysAbi.v ===== *)
(** * The interface of the system calls

    src/KRdmaKit-syscall/two-sided-dc/include/common.h: the commands, status codes
    and structures that a process and the kernel module exchange through [ioctl],
    with the layout a C compiler gives them on x86-64. *)

From S2P Require Import Prelude Bytes Errors Verbs.

(** ** Codes *)
Module lib_r_cmd.
Definition Nil : Z := 0.
Definition Connect : Z := 1.
Definition RegMR : Z := 2.
Definition Push : Z := 3.
Definition PushRecv : Z := 4.
Definition Pop : Z := 5.
Definition PopMsgs : Z := 6.
Definition Binds : Z := 7.
Definition UnBinds : Z := 8.
End lib_r_cmd.

Module reply_status.
Definition err : Z := 0.
Definition ok : Z := 1.
Definition timeout : Z := 2.
Definition already_connected : Z := 3.
Definition already_bind : Z := 4.
Definition addr_error : Z := 5.
Definition nil : Z := 6.
Definition not_connected : Z := 7.
Definition not_bind : Z := 8.
End reply_status.

(** The requests [lib_r_req] with their opcodes ([op_code_table] of lib.rs). *)
Definition op_code_table (op : Z) : outcome ib_wr_opcode :=
  match op with
  | 0 => Done IB_WR_RDMA_READ
  | 1 => Done IB_WR_RDMA_WRITE
  | 2 => Done IB_WR_SEND
  | 3 => Done IB_WR_SEND_WITH_IMM
  | 4 => Done IB_WR_RDMA_WRITE_WITH_IMM
  | _ => Panic
  end.

(** ** Structures *)

(** [req_t]: [dummy], padding, [reply_buf]. *)
Definition req_layout : list nat := [4; 4; 8]%nat.
Definition reply_layout : list nat := [4; 4; 8]%nat.
Definition connect_layout : list nat := [8; 4; 4; 4; 4; 4; 4]%nat.
Definition core_req_layout : list nat := [8; 4; 4; 8; 4; 4; 4; 4]%nat.
Definition push_core_layout : list nat := [4; 4; 8]%nat.
Definition push_ext_layout : list nat := [4; 1; 3]%nat.
Definition user_wc_layout : list nat := [4; 4; 4; 4; 8]%nat.

Definition size_of (ws : list nat) : nat := sum_list ws.
Definition pop_wc_len : Z := 2048.

Record connect_t := mkConnect { c_addr : Z; c_port : Z; c_addr_sz : Z; c_vid : Z; c_mr_handler : Z; c_length : Z }.
Record core_req_t := mkCoreReq {
  cr_addr : Z; cr_length : Z; cr_lkey : Z; cr_remote_addr : Z; cr_rkey : Z; cr_send_flags : Z; cr_vid : Z; cr_type : Z }.
Record user_wc_t := mkUserWc { u_op : Z; u_status : Z; u_imm : Z; u_wr_id : Z }.

Definition reply_buf (l : list Z) : Z := field req_layout 2 l.
Definition reply_bytes (status : Z) : list Z := pack reply_layout [status; 0; 0].

Definition connect_of (l : list Z) : connect_t :=
  let f i := field connect_layout i l in
  mkConnect (f 0%nat) (i32 (f 1%nat)) (i32 (f 2%nat)) (i32 (f 3%nat)) (i32 (f 4%nat)) (i32 (f 5%nat)).

Definition core_req_of (l : list Z) : core_req_t :=
  let f i := field core_req_layout i l in
  mkCoreReq (f 0%nat) (f 1%nat) (f 2%nat) (f 3%nat) (f 4%nat) (f 5%nat) (f 6%nat) (f 7%nat).
Definition core_req_bytes (r : core_req_t) : list Z :=
  pack core_req_layout
    [cr_addr r; cr_length r; cr_lkey r; cr_remote_addr r; cr_rkey r; cr_send_flags r; cr_vid r; cr_type r].

Definition user_wc_bytes (u : user_wc_t) : list Z :=
  pack user_wc_layout [u_op u; u_status u; u_imm u; 0; u_wr_id u].
Definition user_wc_of (l : list Z) : user_wc_t :=
  let f i := field user_wc_layout i l in mkUserWc (f 0%nat) (f 1%nat) (f 2%nat) (f 4%nat).

(** An array of [n] requests. *)
Fixpoint core_reqs_of (n : nat) (l : list Z) : list core_req_t :=
  match n with O => [] | S n => core_req_of (take 40 l) :: core_reqs_of n (drop 40 l) end.

(** The fields are in the width of their types. *)
Definition core_req_fits (r : core_req_t) : Prop :=
  in_width 64 (cr_addr r) /\ in_width 32 (cr_length r) /\ in_width 32 (cr_lkey r) /\ in_width 64 (cr_remote_addr r) /\
  in_width 32 (cr_rkey r) /\ in_width 32 (cr_send_flags r) /\ in_width 32 (cr_vid r) /\ in_width 32 (cr_type r).

(** ** Round trips *)
Lemma core_req_roundtrip r post : core_req_fits r -> core_req_of (core_req_bytes r ++ post) = r.
Proof.
  intros (H0 & H1 & H2 & H3 & H4 & H5 & H6 & H7). unfold core_req_of, core_req_bytes. fields.
  rewrite !byte_range by done. by destruct r.
Qed.

(** Arrays of requests. *)
Definition reqs_bytes (reqs : list core_req_t) : list Z := concat (map core_req_bytes reqs).

Lemma core_req_bytes_length r : length (core_req_bytes r) = 40%nat.
Proof. unfold core_req_bytes. by rewrite pack_length. Qed.

Lemma reqs_bytes_length reqs : length (reqs_bytes reqs) = (40 * length reqs)%nat.
Proof.
  induction reqs as [|r reqs IH]; [done|]. unfold reqs_bytes in *. cbn [map concat length].
  rewrite length_app, core_req_bytes_length, IH. lia.
Qed.

Lemma core_reqs_roundtrip reqs : Forall core_req_fits reqs -> core_reqs_of (length reqs) (reqs_bytes reqs) = reqs.
Proof.
  induction 1 as [|r reqs Hr Hall IH]; [done|]. unfold reqs_bytes. cbn [map concat core_reqs_of length].
  rewrite take_app_length', drop_app_length' by by rewrite core_req_bytes_length.
  f_equal; [|exact IH]. rewrite <- (app_nil_r (core_req_bytes r)). by apply core_req_roundtrip.
Qed.
