(* ===== verification/VirtualQueue.v ===== *)
(** * Virtual queues

    The KRCORE system calls of src/KRdmaKit-syscall/two-sided-dc/KRdmaKit-syscall:
    the file operations of [/dev/krdma] (virtual_queue.rs), the calls they make into
    the controls (core.rs), and the state of the module they share (client.rs).

    The state beside the driver is that of the module, the memory of the calling
    process and the queue of the open file ([sys]).  A kernel [panic!], and every
    access the source leaves undefined, is [Panic]. *)

From S2P Require Import Prelude Bytes Errors Verbs CmVerbs Sim Guid Context CompletionQueue QueuePair BringUp.
From S2P Require Import CommManager RecvHelper SysQp SysCtrl SysAbi.

(** The Cargo features; and a bound on the polls of the waits that have none, which
    hang the caller: a wait of more than [patience] polls is a [Panic] too. *)
Class SysCfg := { dct_qp : bool; feature_virtual_queue : bool; patience : nat }.

(** What the kernel's memory holds where the code treats an address as that of an
    end point, and the bytes of the stack behind a local variable. *)
Class KernelMem (W : Type) := {
  endpoint_at : W -> Z -> option EndPoint.EndPoint;
  endpoint_put : Z -> EndPoint.EndPoint -> W -> unit * W;
  stack_tail : nat -> list Z
}.

(** Answers from outside during a connect: of the subnet administrator, and of the
    connection manager. *)
Record conn_env := mkEnv {
  e_random : Z; e_arc : ptr; e_sa_client : ptr; e_path : option (Z * sa_path_rec); e_path_signal : Z;
  e_wait : wait_env }.

Module VQ.
Import RCtrl.

Record VQ := mkVQ {
  virtual_queue : option Rc.RC; local_dc : option Dc.DC; local_ud : option Ud.UD;
  path_rec_cache : gmap (list Z) sa_path_rec; dct_meta_cache : gmap (list Z) DCTargetMeta;
  reg_mem_addr : option Z; lkey : Z; bind_port : option Z; connect_port : option Z;
  cached_client_endpoint : gmap Z EndPoint.EndPoint; remote_endpoint : option EndPoint.EndPoint;
  put_ud_info : bool }.

Definition set_queue x (q : VQ) := mkVQ x (local_dc q) (local_ud q) (path_rec_cache q) (dct_meta_cache q) (reg_mem_addr q) (lkey q) (bind_port q) (connect_port q) (cached_client_endpoint q) (remote_endpoint q) (put_ud_info q).
Definition set_local x y (q : VQ) := mkVQ (virtual_queue q) x y (path_rec_cache q) (dct_meta_cache q) (reg_mem_addr q) (lkey q) (bind_port q) (connect_port q) (cached_client_endpoint q) (remote_endpoint q) (put_ud_info q).
Definition set_paths x (q : VQ) := mkVQ (virtual_queue q) (local_dc q) (local_ud q) x (dct_meta_cache q) (reg_mem_addr q) (lkey q) (bind_port q) (connect_port q) (cached_client_endpoint q) (remote_endpoint q) (put_ud_info q).
Definition set_metas x (q : VQ) := mkVQ (virtual_queue q) (local_dc q) (local_ud q) (path_rec_cache q) x (reg_mem_addr q) (lkey q) (bind_port q) (connect_port q) (cached_client_endpoint q) (remote_endpoint q) (put_ud_info q).
Definition set_memory x y (q : VQ) := mkVQ (virtual_queue q) (local_dc q) (local_ud q) (path_rec_cache q) (dct_meta_cache q) x y (bind_port q) (connect_port q) (cached_client_endpoint q) (remote_endpoint q) (put_ud_info q).
Definition set_bind x (q : VQ) := mkVQ (virtual_queue q) (local_dc q) (local_ud q) (path_rec_cache q) (dct_meta_cache q) (reg_mem_addr q) (lkey q) x (connect_port q) (cached_client_endpoint q) (remote_endpoint q) (put_ud_info q).
Definition set_port x (q : VQ) := mkVQ (virtual_queue q) (local_dc q) (local_ud q) (path_rec_cache q) (dct_meta_cache q) (reg_mem_addr q) (lkey q) (bind_port q) x (cached_client_endpoint q) (remote_endpoint q) (put_ud_info q).
Definition set_endpoints x (q : VQ) := mkVQ (virtual_queue q) (local_dc q) (local_ud q) (path_rec_cache q) (dct_meta_cache q) (reg_mem_addr q) (lkey q) (bind_port q) (connect_port q) x (remote_endpoint q) (put_ud_info q).
Definition set_remote x (q : VQ) := mkVQ (virtual_queue q) (local_dc q) (local_ud q) (path_rec_cache q) (dct_meta_cache q) (reg_mem_addr q) (lkey q) (bind_port q) (connect_port q) (cached_client_endpoint q) x (put_ud_info q).
Definition set_put x (q : VQ) := mkVQ (virtual_queue q) (local_dc q) (local_ud q) (path_rec_cache q) (dct_meta_cache q) (reg_mem_addr q) (lkey q) (bind_port q) (connect_port q) (cached_client_endpoint q) (remote_endpoint q) x.

(** The module's controls, contexts and memory blocks, the memory of the process
    that makes the call, the open queue. *)
Record sys := mkSys {
  rctrls : list RCtrl; contexts : list RContext.RContext; mems : list RMemPhy.RMemPhy; user : umem; self : VQ }.

Definition with_rctrls x (s : sys) := mkSys x (contexts s) (mems s) (user s) (self s).
Definition with_mems x (s : sys) := mkSys (rctrls s) (contexts s) x (user s) (self s).
Definition with_user x (s : sys) := mkSys (rctrls s) (contexts s) (mems s) x (self s).
Definition with_self (f : VQ -> VQ) (s : sys) := mkSys (rctrls s) (contexts s) (mems s) (user s) (f (self s)).

Section vq.
Context {W : Type} `{!Cfg, !DeviceOps W, !QueueOps W, !DataOps W, !CmOps W, !SysOps W, !PhysOps, !SrqOps W, !SaOps W}.
Context `{!SysCfg, !Frame, !KernelMem W}.
Abbreviation K := (M (W * sys)).

(** A computation on an object of the caller's own. *)
Definition local {X A} (x : X) (m : M (W * X) A) : K (A * X) := fun st =>
  match m (fst st, x) with Done (a, (w, x)) => Done ((a, x), (w, snd st)) | Panic => Panic end.

(** ** The globals (client.rs) *)
Definition MAX_SERVICE_NUM : Z := 25.

(** Indexing modulo the length; an empty vector divides by zero. *)
Definition index_mod {A} (l : list A) (idx : Z) : outcome (nat * A) :=
  match rem_u64 idx (Z.of_nat (length l)) with
  | Done i => match l !! Z.to_nat i with Some a => Done (Z.to_nat i, a) | None => Panic end
  | Panic => Panic
  end.

Definition get_global_rcontext (idx : Z) : K RContext.RContext :=
  s ← getX; '(_, c) ← lift (index_mod (contexts s) idx); mret c.
Definition get_global_rctrl (idx : Z) : K RCtrl :=
  s ← getX; '(_, c) ← lift (index_mod (rctrls s) idx); mret c.

(** A call of a method of the control [idx]. *)
Definition on_ctrl {A} (idx : Z) (m : M (W * RCtrl) A) : K A := fun st =>
  match index_mod (rctrls (snd st)) idx with
  | Done (i, c) =>
      match m (fst st, c) with
      | Done (a, (w, c)) => Done (a, (w, with_rctrls (<[i := c]> (rctrls (snd st))) (snd st)))
      | Panic => Panic
      end
  | Panic => Panic
  end.

(** The index is not used. *)
Definition get_global_test_mem_pa (idx : Z) : K Z :=
  s ← getX;
  m ← unwrap (mems s !! 0%nat);
  '(pa, m) ← onW (RMemPhy.get_dma_buf m);
  _ ← onX (with_mems (<[0%nat := m]> (mems s)));
  mret pa.

Definition get_bind_ctrl (port : Z) : K RCtrl := get_global_rctrl (port * 2).

(** ** Memory of the process *)
Definition from_user (src : Z) (n : nat) : K (list Z) :=
  s ← getX; mret (fst (copy_from_user (user s) src n)).
Definition to_user (dst : Z) (l : list Z) : K Z :=
  s ← getX;
  let '(m, n) := copy_to_user (user s) dst l in
  _ ← onX (with_user m); mret n.

(** An address in a structure of the process. *)
Definition uaddr (a off : Z) : K Z := lift (add_u64 overflow_checks a off).

(** ** core.rs *)
Definition qp_connect (vid port : Z) (path : sa_path_rec) (env : conn_env) : K (Result Error (option Rc.RC)) :=
  ctrl ← get_global_rctrl port;
  rc ← onW (Rc.new_with_srq (Config.default (e_random env)) (get_context ctrl) null null (get_recv_cq ctrl) (e_arc env));
  match rc with
  | None => mret (Ok None)
  | Some qp =>
      '(r, (qp, _)) ← local (qp, completion_init) (Rc.connect vid path port (e_wait env));
      match r with
      | Err e => _ ← onW (Rc.drop qp); mret (Err e)
      | Ok _ => mret (Ok (Some qp))
      end
  end.

Definition status_of {A} (r : Result Error A) : Z :=
  match r with Ok _ => reply_status.ok | Err _ => reply_status.err end.

Definition post_recv (core_id post_cnt vid : Z) : K Z :=
  ctrl ← get_global_rctrl core_id;
  rc ← unwrap (get_trc ctrl vid);
  r ← on_ctrl core_id (post_recvs (Rc.qp rc) null post_cnt);
  mret (status_of r).

(** [pop_recvs] on the ring of a control; the completions stay in the ring. *)
Definition ctrl_pop_recvs (pop_cnt off : Z) : M (W * RCtrl) Z := fun s =>
  match recv_buffer (snd s) with
  | None => Panic
  | Some h =>
      match RecvHelper.pop_recvs RING (get_recv_cq (snd s)) pop_cnt off (fst s, h) with
      | Done (Ok n, (w, h)) => Done (n, (w, set_recv (Some h) (snd s)))
      | Done (Err _, _) | Panic => Panic
      end
  end.

(** The completions behind the pointer, and how many were polled. *)
Definition pop_recv (core_id pop_cnt off : Z) : K (option (list ib_wc) * Z) :=
  n ← on_ctrl core_id (ctrl_pop_recvs pop_cnt off);
  ctrl ← get_global_rctrl core_id;
  h ← unwrap (recv_buffer ctrl);
  mret (Some (RecvHelper.wcs h), n).

(** One completion for the process.  The first copy takes [payload_sz] bytes from the
    address of the local structure. *)
Definition put_wc (buf : Z) (payload_sz : Z) (i : Z) (wc : ib_wc) : K unit :=
  dst ← uaddr buf (16 + i * 24);
  let bytes := user_wc_bytes (mkUserWc (wc_opcode wc) (wc_status wc) (u32 (wc_imm wc)) (wc_wr_id wc)) in
  _ ← to_user dst (take (Z.to_nat payload_sz) (bytes ++ stack_tail (Z.to_nat payload_sz - 24)));
  _ ← to_user dst bytes;
  mret ().

Fixpoint put_wcs (buf payload_sz : Z) (i : Z) (n : nat) (mem : list ib_wc) : K unit :=
  match n with
  | O => mret ()
  | S n =>
      match mem with
      | wc :: mem => _ ← put_wc buf payload_sz i wc; put_wcs buf payload_sz (i + 1) n mem
      | [] => panic
      end
  end.

Definition handle_pop_ret (pop_ret : option (list ib_wc)) (buf wc_len payload_sz : Z) : K Z :=
  match pop_ret with
  | Some mem =>
      _ ← put_wcs buf payload_sz 0 (Z.to_nat wc_len) mem;
      dst ← uaddr buf (16 + pop_wc_len * 24);
      _ ← to_user dst (le 4 wc_len);
      mret reply_status.ok
  | None => mret reply_status.nil
  end.

(** ** virtual_queue.rs *)
Definition get_self : K VQ := s ← getX; mret (self s).
Definition on_self (f : VQ -> VQ) : K unit := onX (with_self f).

Definition open : K VQ :=
  pa ← get_global_test_mem_pa 0;
  ctx ← get_global_rcontext 0;
  lkey ← onW (RContext.get_lkey ctx);
  mret (mkVQ None None None ∅ ∅ (Some pa) lkey None None ∅ None false).

(** The close of the file drops the queue. *)
Definition drop_points (m : gmap Z EndPoint.EndPoint) : M W unit :=
  map_fold (fun _ e acc => _ ← acc; EndPoint.drop e) (mret ()) m.
Definition drop (q : VQ) : M W unit :=
  _ ← drop_opt Rc.drop (virtual_queue q);
  _ ← drop_points (cached_client_endpoint q);
  drop_opt EndPoint.drop (remote_endpoint q).

(** *** Caches *)
Definition get_dct_meta_cache (k : list Z) : K (option DCTargetMeta) := q ← get_self; mret (dct_meta_cache q !! k).
Definition update_dct_meta_cache (k : list Z) (v : DCTargetMeta) : K unit :=
  on_self (fun q => set_metas (<[k := v]> (dct_meta_cache q)) q).
Definition evict_dct_meta_cache (k : list Z) : K unit :=
  on_self (fun q => set_metas (delete k (dct_meta_cache q)) q).
Definition get_path_rec_cache (k : list Z) : K (option sa_path_rec) := q ← get_self; mret (path_rec_cache q !! k).
Definition update_path_rec_cache (k : list Z) (v : sa_path_rec) : K unit :=
  on_self (fun q => set_paths (<[k := v]> (path_rec_cache q)) q).
Definition get_client_endpoint_cache (k : Z) : K (option EndPoint.EndPoint) :=
  q ← get_self; mret (cached_client_endpoint q !! k).

(** The end point at the address [point], with a handle of this host; an entry that
    is replaced is dropped. *)
Definition update_client_endpoint_cache (k : Z) (pd : ptr) (point : Z) : K unit :=
  p ← onW (gets (fun w => endpoint_at w point));
  p ← unwrap p;
  e ← onW (EndPoint.new pd (EndPoint.qpn p) (EndPoint.qkey p) (EndPoint.lid p) (EndPoint.gid p)
             (EndPoint.dct_num p) (EndPoint.mr p));
  q ← get_self;
  _ ← on_self (fun q => set_endpoints (<[k := e]> (cached_client_endpoint q)) q);
  onW (drop_opt EndPoint.drop (cached_client_endpoint q !! k)).

Definition get_dc : K Dc.DC := q ← get_self; unwrap (local_dc q).
Definition get_ud : K Ud.UD := q ← get_self; unwrap (local_ud q).

(** *** Binding *)
Definition is_bind_mode : K bool := q ← get_self; mret (bool_decide (is_Some (bind_port q))).
Definition get_self_bind_ctrl : K (option RCtrl) :=
  q ← get_self;
  match bind_port q with None => mret None | Some port => c ← get_bind_ctrl port; mret (Some c) end.
Definition get_bind_ctrl_unsafe : K RCtrl := q ← get_self; port ← unwrap (bind_port q); get_bind_ctrl port.
Definition check_bind (vid : Z) : K bool :=
  c ← get_self_bind_ctrl;
  mret (match c with None => false | Some c => bool_decide (is_Some (get_trc c vid)) end).

(** *** Paths *)
Definition explore_path (vid : Z) (addr : list Z) (env : conn_env) : K (Result Error sa_path_rec) :=
  cached ← get_path_rec_cache addr;
  match cached with
  | Some p => mret (Ok p)
  | None =>
      ctrl ← get_global_rctrl vid;
      '(r, path) ← onW (IBExplorer.resolve vid (get_context ctrl) addr (e_sa_client env) (e_path env) (e_path_signal env));
      match r with
      | Err e => mret (Err e)
      | Ok _ => ret ← unwrap path; _ ← update_path_rec_cache addr ret; mret (Ok ret)
      end
  end.

(** *** Connecting *)

(** A path, then a reliable connection.  Without the feature the connection is
    dropped again. *)
Definition connect_rc (vid : Z) (addr : list Z) (port : Z) (env : conn_env) : K Z :=
  path ← explore_path port addr env;
  match path with
  | Err _ => mret reply_status.err
  | Ok path =>
      r ← qp_connect vid port path env;
      match r with
      | Ok qp =>
          _ ← (if feature_virtual_queue then on_self (set_queue qp) else onW (drop_opt Rc.drop qp));
          mret reply_status.ok
      | Err _ => mret reply_status.err
      end
  end.

(** A query of the peer's end point, and its handle; the end point of an earlier
    query is dropped by the assignment. *)
Definition query_dct (addr key : list Z) (port : Z) (env : conn_env) : K Z :=
  path ← explore_path port addr env;
  match path with
  | Err _ => mret reply_status.err
  | Ok path =>
      ctrl ← get_global_rctrl port;
      sidr ← onW (SidrCM.new (get_context ctrl) null (e_arc env));
      sidr ← unwrap sidr;
      '(r, sidr) ← local sidr (SidrCM.sidr_connect path port DEFAULT_RPC_HINT (e_wait env));
      match r with
      | Err _ => _ ← onW (SidrCM.drop sidr); mret reply_status.err
      | Ok point =>
          let meta := mkMeta (EndPoint.dct_num point) (EndPoint.lid point) (EndPoint.gid point) (EndPoint.mr point) in
          e ← onW (EndPoint.new (RContext.pd (get_context ctrl)) (EndPoint.qpn point) (EndPoint.qkey point)
                     (EndPoint.lid point) (EndPoint.gid point) (EndPoint.dct_num point) (EndPoint.mr point));
          q ← get_self;
          _ ← onW (drop_opt EndPoint.drop (remote_endpoint q));
          _ ← on_self (set_remote (Some e));
          _ ← update_dct_meta_cache key meta;
          _ ← onW (EndPoint.drop point);
          _ ← onW (SidrCM.drop sidr);
          mret reply_status.ok
      end
  end.

Definition connect_dct (addr : list Z) (port : Z) (env : conn_env) : K Z :=
  q ← get_self;
  _ ← match local_dc q with
      | None => c ← get_global_rctrl port; on_self (set_local (RCtrl.get_dc c) (RCtrl.get_ud c DEFAULT_RPC_HINT))
      | Some _ => mret ()
      end;
  let key := addr ++ to_string port in
  cached ← get_dct_meta_cache key;
  match cached with
  | Some _ => mret reply_status.ok
  | None => query_dct addr key port env
  end.

Definition connect_impl (vid : Z) (addr : list Z) (port : Z) (env : conn_env) : K Z :=
  q ← get_self;
  match virtual_queue q with
  | Some _ => mret reply_status.already_connected
  | None =>
      addr_p ← lift (Guid.Guid.from_str addr);
      match addr_p with
      | Err _ => mret reply_status.addr_error
      | Ok _ =>
          pa ← get_global_test_mem_pa port;
          ctrl ← get_global_rctrl port;
          lkey ← onW (RContext.get_lkey (get_context ctrl));
          _ ← on_self (fun q => set_port (Some port) (set_memory (Some pa) lkey q));
          if dct_qp then connect_dct addr port env else connect_rc vid addr port env
      end
  end.

(** *** Pushing *)

(** Short writes are sent inline. *)
Definition inlined (length : Z) (op : ib_wr_opcode) : bool :=
  (length <? 64) &&
  match op with IB_WR_RDMA_WRITE | IB_WR_RDMA_WRITE_WITH_IMM => true | _ => false end.
Definition send_flag (inline : bool) (flags : Z) : list ib_send_flag :=
  (if inline then [IB_SEND_INLINE] else []) ++ (if flags =? 0 then [] else [IB_SEND_SIGNALED]).

(** The requests in order, up to the first that fails. *)
Fixpoint push_each {A} (push : core_req_t -> A -> K (Result Error unit * A)) (reqs : list core_req_t) (a : A) : K Z :=
  match reqs with
  | [] => mret reply_status.ok
  | req :: reqs =>
      '(r, a) ← push req a;
      match r with Ok _ => push_each push reqs a | Err _ => mret reply_status.err end
  end.

(** One request of a connected queue: the addresses are offsets into the two
    registered blocks; an inline request gives a virtual address. *)
Definition rc_push_one (qp : Rc.RC) (local_pa lkey : Z) (mr : TempMR) (req : core_req_t) (_ : unit) :
  K (Result Error unit * unit) :=
  laddr ← uaddr local_pa (cr_addr req);
  raddr ← uaddr (cr_remote_addr req) (mr_addr mr);
  op_code ← lift (op_code_table (cr_type req));
  let inline := inlined (cr_length req) op_code in
  let laddr := if inline then pa_to_va laddr else laddr in
  r ← onW (RCOp.push_with_imm qp op_code laddr lkey (cr_length req) raddr (mr_key mr) (cr_vid req)
             (send_flag inline (cr_send_flags req)));
  mret (r, ()).

Definition rc_push_impl (reqs : list core_req_t) : K Z :=
  q ← get_self;
  match virtual_queue q with
  | None => mret reply_status.nil
  | Some qp =>
      local_pa ← unwrap (reg_mem_addr q);
      mr ← onW (Rc.get_remote_mr qp);
      push_each (rc_push_one qp local_pa (lkey q) mr) reqs ()
  end.

Definition dc_push_one (dc : Dc.DC) (point : EndPoint.EndPoint) (local_pa lkey : Z) (req : core_req_t) (_ : unit) :
  K (Result Error unit * unit) :=
  laddr ← uaddr local_pa (cr_addr req);
  raddr ← uaddr (cr_remote_addr req) (mr_addr (EndPoint.mr point));
  op_code ← lift (op_code_table (cr_type req));
  let inline := inlined (cr_length req) op_code in
  let laddr := if inline then pa_to_va laddr else laddr in
  r ← onW (DCOp.push dc op_code laddr lkey (cr_length req) raddr (mr_key (EndPoint.mr point)) point
             (send_flag inline (cr_send_flags req)));
  mret (r, ()).

Definition dc_push_impl (reqs : list core_req_t) : K Z :=
  q ← get_self;
  match local_dc q with
  | None => mret reply_status.nil
  | Some dc =>
      point ← unwrap (remote_endpoint q);
      local_pa ← unwrap (reg_mem_addr q);
      push_each (dc_push_one dc point local_pa (lkey q)) reqs ()
  end.

(** The local address becomes the virtual one at the first inline request, and
    stays so. *)
Definition ud_push_one (ud : Ud.UD) (point : EndPoint.EndPoint) (va lkey : Z) (req : core_req_t) (laddr : Z) :
  K (Result Error unit * Z) :=
  op_code ← lift (op_code_table (cr_type req));
  let inline := inlined (cr_length req) op_code in
  let laddr := if inline then va else laddr in
  r ← onW (UDOp.push ud op_code laddr lkey point (cr_length req) (cr_vid req) (send_flag inline (cr_send_flags req)));
  mret (r, laddr).

(** The address of this end, at the head of the block; the assignment drops what was
    there. *)
Definition put_self_point (ud : Ud.UD) (port va : Z) : K unit :=
  ctrl ← get_global_rctrl port;
  qpn ← onW (Ud.get_qp_num ud);
  num ← onW (get_dc_num ctrl);
  mr ← on_ctrl port get_self_test_mr;
  old ← onW (gets (fun w => endpoint_at w va));
  old ← unwrap old;
  _ ← onW (EndPoint.drop old);
  let ctx := get_context ctrl in
  _ ← onW (call (endpoint_put va
             (EndPoint.mkEndPoint qpn (Ud.qkey ud) (RContext.get_lid ctx) (RContext.get_gid ctx) num mr null)));
  on_self (set_put true).

Definition ud_push_impl (reqs : list core_req_t) : K Z :=
  q ← get_self;
  match local_ud q, connect_port q with
  | Some ud, Some port =>
      point ← unwrap (remote_endpoint q);
      local_pa ← unwrap (reg_mem_addr q);
      let va := pa_to_va local_pa in
      _ ← (if put_ud_info q then mret () else put_self_point ud port va);
      push_each (ud_push_one ud point va (lkey q)) reqs local_pa
  | _, _ => mret reply_status.nil
  end.

(** *** Replies of a bound queue *)
Definition HOST_LEN : Z := 12.
Definition UD_HEADER_SZ : Z := 40.

(** How many requests went to each client, over its connection and as datagrams. *)
Record counts := mkCounts { rc_pop_cnt_cache : list Z; ud_pop_cnt_cache : list Z }.
Definition no_counts : counts := mkCounts (replicate 12 0) (replicate 12 0).
Definition count (l : list Z) (vid : Z) : Z := default 0 (l !! Z.to_nat vid).
Definition bump (vid : Z) (l : list Z) : list Z := alter (Z.add 1) (Z.to_nat vid) l.
Definition first_signaled (n : Z) : list ib_send_flag := if n =? 0 then [IB_SEND_SIGNALED] else [].

(** The end point of the client, read from the message it has sent. *)
Definition client_endpoint (vid : Z) (ctrl : RCtrl) (remote_addr : Z) : K EndPoint.EndPoint :=
  wr_id ← uaddr remote_addr UD_HEADER_SZ;
  cached ← get_client_endpoint_cache vid;
  match cached with
  | Some point => mret point
  | None =>
      _ ← update_client_endpoint_cache vid (RContext.pd (get_context ctrl)) wr_id;
      cached ← get_client_endpoint_cache vid; unwrap cached
  end.

Definition bind_push_one (local_pa lkey rkey : Z) (req : core_req_t) (n : counts) :
  K (Result Error unit * counts) :=
  let vid := cr_vid req mod HOST_LEN in
  bound ← check_bind vid;
  ctrl ← get_bind_ctrl_unsafe;
  if negb bound then
    endpoint ← client_endpoint vid ctrl (cr_remote_addr req);
    qp ← unwrap (RCtrl.get_ud ctrl DEFAULT_RPC_HINT);
    op_code ← lift (op_code_table (cr_type req));
    r ← onW (UDOp.push qp op_code local_pa lkey endpoint 0 0 (first_signaled (count (ud_pop_cnt_cache n) vid)));
    mret (r, mkCounts (rc_pop_cnt_cache n) (bump vid (ud_pop_cnt_cache n)))
  else
    qp ← unwrap (get_trc ctrl vid);
    laddr ← uaddr local_pa (cr_addr req);
    pa ← get_global_test_mem_pa 0;
    raddr ← uaddr (cr_remote_addr req) pa;
    op_code ← lift (op_code_table (cr_type req));
    r ← onW (RCOp.push_with_imm qp op_code laddr lkey (cr_length req) raddr rkey (u32 vid)
               (first_signaled (count (rc_pop_cnt_cache n) vid)));
    mret (r, mkCounts (bump vid (rc_pop_cnt_cache n)) (ud_pop_cnt_cache n)).

(** The requests, with the counts at the end. *)
Fixpoint bind_push_each (local_pa lkey rkey : Z) (reqs : list core_req_t) (n : counts) : K (Z * counts) :=
  match reqs with
  | [] => mret (reply_status.ok, n)
  | req :: reqs =>
      '(r, n) ← bind_push_one local_pa lkey rkey req n;
      match r with Ok _ => bind_push_each local_pa lkey rkey reqs n | Err _ => mret (reply_status.err, n) end
  end.

(** A wait without a bound. *)
Definition wait_rc (rc : Rc.RC) : K unit :=
  wc ← onW (RCOp.wait_til_comp patience rc); match wc with Some _ => mret () | None => panic end.
Definition wait_ud (ud : Ud.UD) : K unit :=
  wc ← onW (UDOp.wait_til_comp patience ud); match wc with Some _ => mret () | None => panic end.

(** As many receive requests as messages were answered, from client 1 on. *)
Definition repost (port : Z) (pop_at_once : bool) (n : counts) (vid : Z) : K unit :=
  let idx := port * 2 in
  _ ← (if 0 <? count (ud_pop_cnt_cache n) vid then
         _ ← on_ctrl idx (ud_post_recv (count (ud_pop_cnt_cache n) vid));
         if pop_at_once then
           c ← get_bind_ctrl_unsafe; qp ← unwrap (RCtrl.get_ud c DEFAULT_RPC_HINT); wait_ud qp
         else mret ()
       else mret ());
  if 0 <? count (rc_pop_cnt_cache n) vid then
    _ ← on_ctrl idx (trc_post_recv vid (count (rc_pop_cnt_cache n) vid));
    if pop_at_once then c ← get_bind_ctrl_unsafe; qp ← unwrap (get_trc c vid); wait_rc qp
    else mret ()
  else mret ().
Fixpoint repost_all (port : Z) (pop_at_once : bool) (n : counts) (vids : list Z) : K unit :=
  match vids with
  | [] => mret ()
  | vid :: vids => _ ← repost port pop_at_once n vid; repost_all port pop_at_once n vids
  end.

Definition bind_server_push_impl (reqs : list core_req_t) (pop_at_once : bool) : K Z :=
  q ← get_self;
  port ← unwrap (bind_port q);
  ctrl ← get_bind_ctrl port;
  local_pa ← unwrap (reg_mem_addr q);
  rkey ← onW (RContext.get_rkey (get_context ctrl));
  '(res, n) ← bind_push_each local_pa (lkey q) rkey reqs no_counts;
  _ ← (if res =? reply_status.ok then repost_all port pop_at_once n (seqZ 1 11) else mret ());
  mret res.

(** *** Receiving *)
Definition push_recv_impl (push_cnt : Z) : K Z :=
  q ← get_self;
  match bind_port q with
  | Some port =>
      bound ← check_bind 1;
      if negb bound then mret reply_status.not_connected else post_recv (port * 2) push_cnt 1
  | None =>
      match connect_port q with
      | None => mret reply_status.not_connected
      | Some port =>
          _ ← get_global_rctrl port;
          qp ← match virtual_queue q with Some rc => mret (Rc.qp rc) | None => ud ← get_ud; mret (Ud.qp ud) end;
          r ← on_ctrl port (post_recvs qp null push_cnt);
          mret (status_of r)
      end
  end.

(** A poll of a queue that is not bound. *)
Definition poll_msgs (connect_port : option Z) (act_pop_cnt : Z) : K (option (list ib_wc) * Z) :=
  match connect_port with None => mret (None, 0) | Some port => pop_recv port 2048 act_pop_cnt end.

(** The loop of [pop_msg_impl] of a queue that is not bound; the completions are
    gathered in the ring behind one another.  [None] is a loop that outlives its
    fuel. *)
Fixpoint pop_msg_loop (fuel : nat) (connect_port : option Z) (buf least_pop_cnt payload_sz retry act_pop_cnt : Z) :
  K (option Z) :=
  match fuel with
  | O => mret None
  | S fuel =>
      '(pop_ret, pop_cnt) ← poll_msgs connect_port act_pop_cnt;
      let act_pop_cnt := act_pop_cnt + pop_cnt in
      if (least_pop_cnt <=? act_pop_cnt) || (50000 <? retry) then
        r ← handle_pop_ret pop_ret buf act_pop_cnt payload_sz; mret (Some r)
      else pop_msg_loop fuel connect_port buf least_pop_cnt payload_sz (retry + 1) act_pop_cnt
  end.
Definition pop_msg_impl (buf least_pop_cnt payload_sz : Z) : K Z :=
  q ← get_self;
  match bind_port q with
  | Some port =>
      '(pop_ret, pop_cnt) ← pop_recv (2 * port) 2048 0;
      handle_pop_ret pop_ret buf pop_cnt payload_sz
  | None =>
      r ← pop_msg_loop (Z.to_nat 50002) (connect_port q) buf least_pop_cnt payload_sz 0 0;
      unwrap r
  end.

(** [pop] returns the address of a variable of its own. *)
Definition pop_impl (buf vid : Z) : K Z :=
  q ← get_self;
  pop_ret ← match bind_port q with
            | Some _ =>
                bound ← check_bind vid;
                if negb bound then mret None
                else ctrl ← get_bind_ctrl_unsafe; rc ← unwrap (get_trc ctrl vid); onW (RCOp.pop rc)
            | None =>
                match virtual_queue q with
                | None => ud ← get_ud; onW (UDOp.pop ud)
                | Some rc => onW (RCOp.pop rc)
                end
            end;
  handle_pop_ret ((fun wc => [dead_slot wc]) <$> pop_ret) buf 1 8.

(** *** The system call *)
Definition HEAD : Z := 16.

(** A [u32] and an [int] behind the head of the request. *)
Definition u32_arg (arg off : Z) : K Z :=
  a ← uaddr arg (HEAD + off); l ← from_user a 4; mret (word_at 0 4 l).
Definition int_arg (arg : Z) : K Z := z ← u32_arg arg 0; mret (i32 z).

(** At most 39 bytes; a text that is not UTF-8 panics. *)
Definition connect_cmd (arg : Z) (env : conn_env) : K Z :=
  a ← uaddr arg HEAD;
  l ← from_user a (size_of connect_layout);
  let conn := connect_of l in
  let sz := Z.to_nat (Z.min 39 (u64 (c_addr_sz conn))) in
  text ← from_user (c_addr conn) sz;
  let addr_buf := text ++ replicate (39 - sz) 0 in
  if valid_utf8 addr_buf then
    connect_impl (u64 (c_vid conn)) addr_buf (u64 (Z.rem (c_port conn) MAX_SERVICE_NUM)) env
  else panic.

(** One batch, by the kind of the queue. *)
Definition push_batch (reqs : list core_req_t) (pop_at_once : bool) : K Z :=
  q ← get_self;
  if bool_decide (is_Some (bind_port q)) then bind_server_push_impl reqs pop_at_once
  else if bool_decide (is_Some (virtual_queue q)) then rc_push_impl reqs else ud_push_impl reqs.

Definition DEFAULT_BATCH_SZ : Z := 64.

(** The requests by batches until one of them fails; [None] is a loop that outlives
    its fuel. *)
Fixpoint push_loop (fuel : nat) (req_list req_len : Z) (pop_at_once : bool) (send_offset ret : Z) : K (option Z) :=
  if negb (send_offset <? req_len) then mret (Some ret)
  else
    match fuel with
    | O => mret None
    | S fuel =>
        let send_len := Z.min DEFAULT_BATCH_SZ (req_len - send_offset) in
        a ← uaddr req_list (send_offset * 40);
        l ← from_user a (Z.to_nat (send_len * 40));
        ret ← push_batch (core_reqs_of (Z.to_nat send_len) l) pop_at_once;
        let send_offset := send_offset + send_len in
        if ret =? reply_status.err then mret (Some ret)
        else push_loop fuel req_list req_len pop_at_once send_offset ret
    end.

(** The completion of a push that is to wait for it. *)
Definition wait_pushed : K unit :=
  q ← get_self;
  match virtual_queue q with None => ud ← get_ud; wait_ud ud | Some rc => wait_rc rc end.

Definition push_cmd (arg : Z) : K Z :=
  a ← uaddr arg HEAD;
  l ← from_user a (size_of push_core_layout);
  b ← uaddr arg (HEAD + 16);
  x ← from_user b (size_of push_ext_layout);
  let req_len := field push_core_layout 0 l in
  let req_list := field push_core_layout 2 l in
  let push_recv_cnt := field push_ext_layout 0 x in
  let pop_at_once := negb (field push_ext_layout 1 x =? 0) in
  bind ← is_bind_mode;
  ret ← (if negb bind && (0 <? push_recv_cnt) then push_recv_impl push_recv_cnt else mret reply_status.ok);
  ret ← push_loop (Z.to_nat req_len) req_list req_len pop_at_once 0 ret;
  ret ← unwrap ret;
  _ ← (if negb bind && pop_at_once && (ret =? reply_status.ok) then wait_pushed else mret ());
  mret ret.

Definition bind_cmd (arg : Z) : K Z :=
  port ← int_arg arg;
  let port := u64 port in
  q ← get_self;
  match bind_port q with
  | Some _ => mret reply_status.already_bind
  | None =>
      if MAX_SERVICE_NUM <? port then mret reply_status.nil
      else _ ← on_self (set_bind (Some port)); mret reply_status.ok
  end.

(** The messages that have arrived are discarded. *)
Definition unbind_cmd (arg : Z) : K Z :=
  port ← int_arg arg;
  let port := u64 port in
  q ← get_self;
  match bind_port q with
  | None => mret reply_status.not_bind
  | Some bound =>
      if negb (bound =? port) then mret reply_status.not_bind
      else
        _ ← pop_recv (bound * 2) 2048 0;
        _ ← on_self (set_bind None); mret reply_status.ok
  end.

(** The status of each command. *)
Definition command (cmd arg buf : Z) (env : conn_env) : K Z :=
  if cmd =? lib_r_cmd.Nil then mret reply_status.ok
  else if cmd =? lib_r_cmd.Connect then connect_cmd arg env
  else if cmd =? lib_r_cmd.RegMR then mret reply_status.ok
  else if cmd =? lib_r_cmd.Push then push_cmd arg
  else if cmd =? lib_r_cmd.PushRecv then n ← int_arg arg; push_recv_impl (u64 n)
  else if cmd =? lib_r_cmd.Pop then vid ← u32_arg arg 0; pop_impl buf vid
  else if cmd =? lib_r_cmd.PopMsgs then
    least ← u32_arg arg 0; payload_sz ← u32_arg arg 4; pop_msg_impl buf least payload_sz
  else if cmd =? lib_r_cmd.Binds then bind_cmd arg
  else if cmd =? lib_r_cmd.UnBinds then unbind_cmd arg
  else mret reply_status.err.

(** The request, the command, the reply; the result is the number of bytes of the
    reply that could not be written.  A connected queue that is connected again
    returns its status instead, without a reply. *)
Definition ioctrl (cmd arg : Z) (env : conn_env) : K Z :=
  l ← from_user arg (size_of req_layout);
  q ← get_self;
  if (cmd =? lib_r_cmd.Connect) && bool_decide (is_Some (virtual_queue q)) then mret reply_status.already_connected
  else
    status ← command cmd arg (reply_buf l) env;
    to_user (reply_buf l) (reply_bytes status).

(** ** The module (client.rs) *)

(** [devs] are the devices the core announces at the registration of the client, one
    [_add_one] each; [boxes] the addresses and random bytes of the controls. *)
Fixpoint create_nics (devs : list ptr) : M W (list RNIC.RNIC) :=
  match devs with
  | [] => mret []
  | dev :: devs =>
      nic ← RNIC.create dev 1;
      match nic with Ok nic => nics ← create_nics devs; mret (nic :: nics) | Err _ => panic end
  end.
Fixpoint create_contexts (nics : list RNIC.RNIC) : M W (list RContext.RContext) :=
  match nics with
  | [] => mret []
  | nic :: nics => ctx ← RContext.create nic; ctx ← unwrap ctx; ctxs ← create_contexts nics; mret (ctx :: ctxs)
  end.

(** The controls of the services: one for each device, service by service. *)
Definition ctrl_ids (n : nat) (ctxs : list RContext.RContext) : list (Z * RContext.RContext) :=
  i ← seqZ 0 (Z.of_nat n); (fun c => (i, c)) <$> ctxs.
Fixpoint create_ctrls (boxes : nat -> Z * Z * Z) (ids : list (Z * RContext.RContext)) : M W (list RCtrl) :=
  match ids with
  | [] => mret []
  | (i, ctx) :: ids =>
      let '(me, r1, r2) := boxes (length ids) in
      c ← RCtrl.create i ctx me r1 r2;
      c ← unwrap c;
      cs ← create_ctrls boxes ids; mret (c :: cs)
  end.

Definition create (devs : list ptr) (boxes : nat -> Z * Z * Z) : M W (list RCtrl * list RContext.RContext * list RMemPhy.RMemPhy) :=
  nics ← create_nics devs;
  ctxs ← create_contexts nics;
  ctrls ← create_ctrls boxes (ctrl_ids (Z.to_nat MAX_SERVICE_NUM) ctxs);
  m0 ← RMemPhy.new (1024 * 1024 * 4);
  m1 ← RMemPhy.new (1024 * 1024 * 4);
  mret (ctrls, ctxs, [m0; m1]).

(** The unloading of the module; the memory blocks are static and stay. *)
Fixpoint drop_ctrls (l : list RCtrl) : M W unit :=
  match l with [] => mret () | c :: l => _ ← RCtrl.drop c; drop_ctrls l end.
Fixpoint reset_contexts (l : list RContext.RContext) : M W unit :=
  match l with [] => mret () | c :: l => _ ← RContext.reset c; reset_contexts l end.
Definition unload (ctrls : list RCtrl) (ctxs : list RContext.RContext) (sa_client : ptr) : M W unit :=
  _ ← drop_ctrls ctrls;
  _ ← reset_contexts ctxs;
  call (ib_sa_unregister_client sa_client).

End vq.
End VQ.

(** An index modulo the length names an element of a list that has one. *)
Lemma index_mod_some {A} (l : list A) idx :
  l <> [] -> exists i c, VQ.index_mod l idx = Done (i, c) /\ l !! i = Some c /\ i = Z.to_nat (idx mod Z.of_nat (length l)).
Proof.
  intros Hl. assert (0 < length l)%nat by (destruct l; [done|cbn; lia]).
  pose proof (Z.mod_pos_bound idx (Z.of_nat (length l)) ltac:(lia)) as Hb.
  unfold VQ.index_mod. rewrite rem_u64_pos by lia.
  destruct (lookup_lt_is_Some_2 l (Z.to_nat (idx mod Z.of_nat (length l)))) as [c Hc]; [lia|].
  rewrite Hc. eauto.
Qed.
