(* ===== verification/SysCalls.v ===== *)
(** * What the system calls guarantee

    Theorems about [VQ::ioctrl] of VirtualQueue.v for every command, argument,
    memory of the process and behaviour of the driver: the state of the module and
    of the queue stays well formed, and the loops end. *)

From S2P Require Import Prelude Bytes Errors Verbs CmVerbs Sim Guid Context CompletionQueue QueuePair BringUp.
From S2P Require Import Stable CommManager RecvHelper SysQp SysBringUp SysCtrl SysAbi VirtualQueue.
Import RCtrl VQ.

(** ** Well-formed queues *)
Section wf.
Context `{!PhysOps}.

Definition is_gid (k : list Z) : Prop := exists g, Guid.Guid.from_str k = Done (Ok g).
Definition connected (q : VQ) : Prop := is_Some (connect_port q).

Record vq_wf (q : VQ) : Prop := {
  wf_bind p : bind_port q = Some p -> 0 <= p <= MAX_SERVICE_NUM;
  wf_mem : is_Some (reg_mem_addr q);
  wf_queue : is_Some (virtual_queue q) -> connected q;
  wf_ud : is_Some (local_ud q) -> connected q;
  wf_dc : is_Some (local_dc q) -> connected q;
  wf_remote : is_Some (remote_endpoint q) -> connected q;
  wf_paths : map_Forall (fun k _ => is_gid k) (path_rec_cache q);
  wf_metas : map_Forall (fun k _ => exists addr port, is_gid addr /\ k = addr ++ to_string port) (dct_meta_cache q);
  wf_points : map_Forall (fun vid _ => 0 <= vid < HOST_LEN) (cached_client_endpoint q) }.

(** A control between calls: its ring is linked. *)
Definition has_ring (c : RCtrl) : Prop := exists h, ring_of c h.
Definition wf (s : sys) : Prop := Forall has_ring (rctrls s) /\ vq_wf (self s).

(** A system call changes a control only in its ring and in the address it keeps of
    its block. *)
Definition ctrl_frame (c c' : RCtrl) : Prop :=
  c' = set_recv (recv_buffer c') (set_mem (registered_test_mr c') c) /\
  RMemPhy.inner_mem (registered_test_mr c') = RMemPhy.inner_mem (registered_test_mr c) /\
  RMemPhy.capacity (registered_test_mr c') = RMemPhy.capacity (registered_test_mr c) /\
  (has_ring c -> has_ring c').

Definition frame (s s' : sys) : Prop :=
  Forall2 ctrl_frame (rctrls s) (rctrls s') /\ contexts s' = contexts s /\ dom (user s') = dom (user s).

#[export] Instance ctrl_frame_preorder : PreOrder ctrl_frame.
Proof.
  split.
  - intros c. split_and!; [by destruct c|done..].
  - intros c1 c2 c3 (E1 & M1 & N1 & R1) (E2 & M2 & N2 & R2). split_and!; [|congruence..|by auto].
    rewrite E2. rewrite E1. by destruct c1.
Qed.

#[export] Instance frame_preorder : PreOrder frame.
Proof.
  split.
  - intros s. split_and!; [|done..]. reflexivity.
  - intros s1 s2 s3 (F1 & C1 & D1) (F2 & C2 & D2). split_and!; [|congruence..]. by etransitivity.
Qed.

Lemma frame_self f s : frame s (with_self f s).
Proof. split_and!; [reflexivity|done..]. Qed.

Context {W : Type}.

(** The relation between the states around a call; and inside [connect], once the
    port is known. *)
Definition keeps (st st' : W * sys) : Prop :=
  frame (snd st) (snd st') /\ (connected (self (snd st)) -> connected (self (snd st'))) /\
  (vq_wf (self (snd st)) -> vq_wf (self (snd st'))).
Definition keeps_connected (st st' : W * sys) : Prop :=
  frame (snd st) (snd st') /\ (connected (self (snd st)) -> connected (self (snd st'))) /\
  (connected (self (snd st)) -> vq_wf (self (snd st)) -> vq_wf (self (snd st'))).

#[export] Instance keeps_preorder : PreOrder keeps.
Proof.
  split; [by intros s|]. intros s1 s2 s3 (F1 & C1 & D1) (F2 & C2 & D2). split_and!; [by etransitivity|by auto..].
Qed.
#[export] Instance keeps_connected_preorder : PreOrder keeps_connected.
Proof.
  split; [by intros s|]. intros s1 s2 s3 (F1 & C1 & D1) (F2 & C2 & D2). split_and!; [by etransitivity|by auto..].
Qed.

End wf.

(** ** Steps that keep it *)
Section steps.
Context {W : Type} `{!Cfg, !DeviceOps W, !QueueOps W, !DataOps W, !CmOps W, !SysOps W, !PhysOps, !SrqOps W, !SaOps W}.
Context `{!SysCfg, !Frame, !KernelMem W}.
Abbreviation K := (M (W * sys)).

Lemma keeps_weaken {A} (m : K A) : preserves keeps m -> preserves keeps_connected m.
Proof. intros Hm w a w' (F & C & V)%Hm. split_and!; by auto. Qed.

Lemma keeps_same s s' : snd s' = snd s -> keeps (W := W) s s'.
Proof. intros E. unfold keeps. by rewrite E. Qed.

Lemma ks_onW {A} (m : M W A) : preserves keeps (onW m).
Proof. intros s a s' [_ H']%onW_inv. by apply keeps_same. Qed.
Lemma ks_getX : preserves keeps (getX : K sys).
Proof. intros s a s' [= <- <-]. reflexivity. Qed.
Lemma ks_local {X A} (x : X) (m : M (W * X) A) : preserves keeps (local x m).
Proof.
  intros s a s' Hr. apply keeps_same. unfold local in Hr. destruct (m _) as [[b [w x']]|]; [|done].
  by injection Hr as <- <-.
Qed.
Lemma ks_unwrap {A} (o : option A) : preserves keeps (unwrap o : K A).
Proof. unfold unwrap. preserve. Qed.
Lemma ks_to_user a l : preserves keeps (to_user a l : K Z).
Proof.
  intros [w s] r [w' s'] Hr. unfold to_user in Hr. rewrite bind_getX in Hr.
  pose proof (copy_to_user_dom (user s) a l) as [Hd _]. destruct (copy_to_user (user s) a l) as [m n].
  rewrite bind_onX in Hr. injection Hr as <- <- <-. split_and!; [|done..]. split_and!; [reflexivity|done|done].
Qed.
Lemma ks_on_self f :
  (forall q, connected q -> connected (f q)) -> (forall q, vq_wf q -> vq_wf (f q)) -> preserves keeps (on_self f : K unit).
Proof. intros Hc Hf [w s] a s' [= <- <-]. split_and!; [apply frame_self|apply Hc|apply Hf]. Qed.
Lemma kc_on_self f :
  (forall q, connected q -> connected (f q)) -> (forall q, connected q -> vq_wf q -> vq_wf (f q)) ->
  preserves keeps_connected (on_self f : K unit).
Proof. intros Hc Hf [w s] a s' [= <- <-]. split_and!; [apply frame_self|apply Hc|apply Hf]. Qed.

(** From the step that stores the port on, the queue is connected. *)
Lemma ks_connect {A} f (k : unit -> K A) :
  (forall q, connected (f q)) -> (forall q, vq_wf q -> vq_wf (f q)) ->
  (forall u, preserves keeps_connected (k u)) -> preserves keeps (on_self f ≫= k).
Proof.
  intros Hc Hf Hk [w s] a s' (u & s1 & E1 & E2)%bind_done_inv. injection E1 as _ <-.
  apply Hk in E2 as (F & C & V). cbn in F, C, V. split_and!; [by etransitivity; [apply frame_self|exact F]|by intros _; apply C|].
  intros Hv. apply V; [apply Hc|by apply Hf].
Qed.

(** Calls of a control. *)
Definition ctrl_keeps (st st' : W * RCtrl) : Prop := ctrl_frame (snd st) (snd st').
#[export] Instance ctrl_keeps_preorder : PreOrder ctrl_keeps.
Proof. split; [intros ?; unfold ctrl_keeps; reflexivity|]. intros ?????. unfold ctrl_keeps in *. by etransitivity. Qed.

Lemma ks_on_ctrl {A} idx (m : M (W * RCtrl) A) : preserves ctrl_keeps m -> preserves keeps (on_ctrl idx m).
Proof.
  intros Hm [w s] a s' Hr. unfold on_ctrl in Hr. cbn [fst snd] in Hr.
  destruct (index_mod (rctrls s) idx) as [[i c]|] eqn:Ei; [|done].
  destruct (m (w, c)) as [[b [w1 c1]]|] eqn:Em; [|done]. injection Hr as <- <-. apply Hm in Em. unfold ctrl_keeps in Em.
  assert (Hi : rctrls s !! i = Some c).
  { unfold index_mod in Ei. destruct (rem_u64 _ _); [|done]. destruct (_ !! _) eqn:E; [|done]. by injection Ei as <- <-. }
  split_and!; [|done..]. split_and!; [|done..]. cbn. apply Forall2_same_length_lookup_2; [by rewrite length_insert|].
  intros j x y Hx Hy. destruct (decide (i = j)) as [->|Hne].
  - rewrite list_lookup_insert_eq in Hy by (by eapply lookup_lt_Some). simplify_eq. exact Em.
  - rewrite list_lookup_insert_ne in Hy by done. simplify_eq. reflexivity.
Qed.

Lemma ck_getX : preserves ctrl_keeps (getX : M (W * RCtrl) RCtrl).
Proof. intros s a s' [= <- <-]. reflexivity. Qed.
Lemma ck_unwrap {A} (o : option A) : preserves ctrl_keeps (unwrap o : M (W * RCtrl) A).
Proof. unfold unwrap. preserve. Qed.

Lemma set_recv_frame c h :
  (has_ring c -> has_ring (set_recv h c)) -> ctrl_frame c (set_recv h c).
Proof. intros Hr. by split_and!; [destruct c|..]. Qed.

Lemma ring_some c h0 : recv_buffer c = Some h0 -> has_ring c -> exists e k b, ring RING e k b h0.
Proof. intros E (h & Hb & Hr). rewrite E in Hb. by injection Hb as <-. Qed.

Lemma ck_post_recvs qp srq n : preserves ctrl_keeps (post_recvs qp srq n : M (W * RCtrl) _).
Proof.
  intros [w c] a [w' c'] Hr. unfold post_recvs in Hr. cbn [fst snd] in Hr.
  destruct (recv_buffer c) as [h|] eqn:Eb; [|done].
  destruct (RecvHelper.post_recvs qp srq n (w, h)) as [[r [w1 h1]]|] eqn:Ep; [|done]. injection Hr as <- <- <-.
  apply set_recv_frame. intros (e & k & b & Hring)%(ring_some c h Eb). exists h1. split; [done|].
  exists e, k, b. eapply post_recvs_ring; [done| |done]. unfold RING. lia.
Qed.

Lemma ck_pop_recvs n off : preserves ctrl_keeps (ctrl_pop_recvs n off : M (W * RCtrl) _).
Proof.
  intros [w c] a [w' c'] Hr. unfold ctrl_pop_recvs in Hr. cbn [fst snd] in Hr.
  destruct (recv_buffer c) as [h|] eqn:Eb; [|done].
  destruct (RecvHelper.pop_recvs RING _ n off (w, h)) as [[[r|r] [w1 h1]]|] eqn:Ep; [|done..]. injection Hr as <- <- <-.
  apply set_recv_frame. intros (e & k & b & Hring)%(ring_some c h Eb). exists h1. split; [done|].
  exists e, k, b. by eapply pop_recvs_ring.
Qed.

Lemma ck_test_mr : preserves ctrl_keeps (get_self_test_mr : M (W * RCtrl) _).
Proof.
  intros [w c] a s' Hr. rewrite test_mr_run in Hr. injection Hr as <- <-. unfold ctrl_keeps. cbn [snd].
  split; [by destruct c|]. cbn [set_mem registered_test_mr]. unfold RMemPhy.pin_for_rdma.
  split_and!; [by destruct (RMemPhy.dma_buf _)..|]. done.
Qed.
#[local] Hint Resolve ck_getX ck_unwrap ck_post_recvs ck_pop_recvs ck_test_mr : preserves.

Lemma ck_ud_post n : preserves ctrl_keeps (ud_post_recv n : M (W * RCtrl) _).
Proof. unfold ud_post_recv. preserve. Qed.
Lemma ck_trc_post vid n : preserves ctrl_keeps (trc_post_recv vid n : M (W * RCtrl) _).
Proof. unfold trc_post_recv. preserve. Qed.
End steps.
#[export] Hint Resolve ks_onW ks_getX ks_local ks_unwrap ks_to_user ks_on_ctrl
  ck_post_recvs ck_pop_recvs ck_test_mr ck_ud_post ck_trc_post : preserves.

(** ** Every operation keeps it *)
Section operations.
Context {W : Type} `{!Cfg, !DeviceOps W, !QueueOps W, !DataOps W, !CmOps W, !SysOps W, !PhysOps, !SrqOps W, !SaOps W}.
Context `{!SysCfg, !Frame, !KernelMem W}.
Abbreviation K := (M (W * sys)).

Ltac keep := cbv zeta; preserve.

Lemma ks_get_self : preserves keeps (get_self : K _). Proof. unfold get_self. keep. Qed.
Lemma ks_rctrl i : preserves keeps (get_global_rctrl i : K _). Proof. unfold get_global_rctrl. keep. Qed.
Lemma ks_rcontext i : preserves keeps (get_global_rcontext i : K _). Proof. unfold get_global_rcontext. keep. Qed.
Lemma ks_uaddr a o : preserves keeps (uaddr a o : K _). Proof. unfold uaddr. keep. Qed.
Lemma ks_from_user a n : preserves keeps (from_user a n : K _). Proof. unfold from_user. keep. Qed.
Lemma ks_mems x : preserves keeps (onX (with_mems x) : K _).
Proof. intros [w s] a s' [= <- <-]. split_and!; [|done..]. split_and!; [reflexivity|done..]. Qed.
#[local] Hint Resolve ks_get_self ks_rctrl ks_rcontext ks_uaddr ks_from_user ks_mems : preserves.

Lemma ks_test_mem i : preserves keeps (get_global_test_mem_pa i : K _).
Proof. unfold get_global_test_mem_pa. keep. Qed.
Lemma ks_pop_recv c n o : preserves keeps (pop_recv c n o : K _).
Proof. unfold pop_recv. keep. Qed.
Lemma ks_post_recv c n v : preserves keeps (VQ.post_recv c n v : K _).
Proof. unfold VQ.post_recv. keep. Qed.
Lemma ks_put_wcs buf sz i n l : preserves keeps (put_wcs buf sz i n l : K _).
Proof. revert i l. induction n as [|n IH]; intros i [|wc l]; cbn [put_wcs]; unfold put_wc; keep. Qed.
#[local] Hint Resolve ks_test_mem ks_pop_recv ks_post_recv ks_put_wcs : preserves.
Lemma ks_handle_pop_ret p buf n sz : preserves keeps (handle_pop_ret p buf n sz : K _).
Proof. unfold handle_pop_ret. keep. Qed.
Lemma ks_qp_connect vid port path env : preserves keeps (qp_connect vid port path env : K _).
Proof. unfold qp_connect. keep. Qed.
#[local] Hint Resolve ks_handle_pop_ret ks_qp_connect : preserves.

(** *** Updates of the queue *)
Lemma ks_paths addr p : is_gid addr -> preserves keeps (update_path_rec_cache addr p : K _).
Proof.
  intros Hg. apply ks_on_self; [done|]. intros q []. constructor; try done. cbn. by apply map_Forall_insert_2.
Qed.
Lemma ks_metas addr port v : is_gid addr -> preserves keeps (update_dct_meta_cache (addr ++ to_string port) v : K _).
Proof.
  intros Hg. apply ks_on_self; [done|]. intros q []. constructor; try done. cbn. apply map_Forall_insert_2; [|done].
  by exists addr, port.
Qed.
Lemma ks_points vid pd p : 0 <= vid < HOST_LEN -> preserves keeps (update_client_endpoint_cache vid pd p : K _).
Proof.
  intros Hv. unfold update_client_endpoint_cache. keep. apply ks_on_self; [done|]. intros q []. constructor; try done.
  cbn. by apply map_Forall_insert_2.
Qed.
Lemma ks_put b : preserves keeps (on_self (set_put b) : K _).
Proof. apply ks_on_self; [done|]. by intros q []. Qed.
Lemma ks_set_bind p : (forall x, p = Some x -> 0 <= x <= MAX_SERVICE_NUM) -> preserves keeps (on_self (set_bind p) : K _).
Proof. intros Hp. apply ks_on_self; [done|]. intros q []. by constructor. Qed.
Lemma kc_set_queue x : preserves keeps_connected (on_self (set_queue x) : K _).
Proof. apply kc_on_self; [done|]. intros q Hc []. by constructor. Qed.
Lemma kc_set_local x y : preserves keeps_connected (on_self (set_local x y) : K _).
Proof. apply kc_on_self; [done|]. intros q Hc []. by constructor. Qed.
Lemma kc_set_remote x : preserves keeps_connected (on_self (set_remote x) : K _).
Proof. apply kc_on_self; [done|]. intros q Hc []. by constructor. Qed.
#[local] Hint Resolve ks_paths ks_metas ks_points ks_put kc_set_queue kc_set_local kc_set_remote : preserves.

(** *** Connecting *)
Lemma ks_explore port addr env : is_gid addr -> preserves keeps (explore_path port addr env : K _).
Proof. intros Hg. unfold explore_path, get_path_rec_cache. keep. Qed.
#[local] Hint Resolve ks_explore keeps_weaken : preserves.
Lemma kc_connect_rc vid addr port env : is_gid addr -> preserves keeps_connected (connect_rc vid addr port env : K _).
Proof. intros Hg. unfold connect_rc. keep. Qed.
Lemma kc_query_dct addr port env :
  is_gid addr -> preserves keeps_connected (query_dct addr (addr ++ to_string port) port env : K _).
Proof. intros Hg. unfold query_dct. keep. Qed.
#[local] Hint Resolve kc_query_dct : preserves.
Lemma kc_connect_dct addr port env : is_gid addr -> preserves keeps_connected (connect_dct addr port env : K _).
Proof. intros Hg. unfold connect_dct, get_dct_meta_cache. keep. Qed.
#[local] Hint Resolve kc_connect_rc kc_connect_dct : preserves.

Lemma ks_connect_impl vid addr port env : preserves keeps (connect_impl vid addr port env : K _).
Proof.
  unfold connect_impl. apply pres_bind; [exact _|keep|intros q]. destruct (virtual_queue q); [keep|].
  apply pres_bind_lift. intros [g|e] Eg; [|keep]. assert (Hg : is_gid addr) by by exists g.
  apply pres_bind; [exact _|keep|intros pa]. apply pres_bind; [exact _|keep|intros ctrl].
  apply pres_bind; [exact _|keep|intros lkey].
  apply ks_connect; [by intros q'; eexists| |intros _; destruct dct_qp; keep]. intros q' []. constructor; try done; intros; by eexists.
Qed.
#[local] Hint Resolve ks_connect_impl : preserves.

(** *** Pushing *)
Lemma ks_push_each {A} push reqs (a : A) :
  (forall req a, preserves keeps (push req a : K _)) -> preserves keeps (push_each push reqs a : K _).
Proof. intros Hp. revert a. induction reqs as [|req reqs IH]; intros a; cbn [push_each]; keep. Qed.
Lemma ks_rc_push reqs : preserves keeps (rc_push_impl reqs : K _).
Proof. unfold rc_push_impl. keep. apply ks_push_each. intros req b. unfold rc_push_one. keep. Qed.
Lemma ks_dc_push reqs : preserves keeps (dc_push_impl reqs : K _).
Proof. unfold dc_push_impl. keep. apply ks_push_each. intros req b. unfold dc_push_one. keep. Qed.
Lemma ks_ud_push reqs : preserves keeps (ud_push_impl reqs : K _).
Proof.
  unfold ud_push_impl, put_self_point. keep; apply ks_push_each; intros req b; unfold ud_push_one; keep.
Qed.

Lemma ks_check_bind vid : preserves keeps (check_bind vid : K _).
Proof. unfold check_bind, get_self_bind_ctrl, VQ.get_bind_ctrl. keep. Qed.
Lemma ks_bind_ctrl : preserves keeps (get_bind_ctrl_unsafe : K _).
Proof. unfold get_bind_ctrl_unsafe, VQ.get_bind_ctrl. keep. Qed.
Lemma ks_wait_rc rc : preserves keeps (wait_rc rc : K _).
Proof. unfold wait_rc. keep. Qed.
Lemma ks_wait_ud ud : preserves keeps (wait_ud ud : K _).
Proof. unfold wait_ud. keep. Qed.
#[local] Hint Resolve ks_rc_push ks_dc_push ks_ud_push ks_check_bind ks_bind_ctrl ks_wait_rc ks_wait_ud : preserves.

Lemma ks_bind_push_each pa lkey rkey reqs n : preserves keeps (bind_push_each pa lkey rkey reqs n : K _).
Proof.
  revert n. induction reqs as [|req reqs IH]; intros n; cbn [bind_push_each]; [keep|].
  assert (Hv : 0 <= cr_vid req mod HOST_LEN < HOST_LEN) by by apply Z.mod_pos_bound.
  unfold bind_push_one, client_endpoint, get_client_endpoint_cache. keep.
Qed.
Lemma ks_repost_all port pop n vids : preserves keeps (repost_all port pop n vids : K _).
Proof. induction vids as [|vid vids IH]; cbn [repost_all]; [keep|]. unfold repost. keep. Qed.
#[local] Hint Resolve ks_bind_push_each ks_repost_all : preserves.
Lemma ks_bind_push reqs pop : preserves keeps (bind_server_push_impl reqs pop : K _).
Proof. unfold bind_server_push_impl, VQ.get_bind_ctrl. keep. Qed.
#[local] Hint Resolve ks_bind_push : preserves.
Lemma ks_push_loop fuel list len pop off ret : preserves keeps (push_loop fuel list len pop off ret : K _).
Proof.
  revert off ret. induction fuel as [|fuel IH]; intros off ret; cbn [push_loop]; [keep|].
  unfold push_batch. keep.
Qed.

(** *** Receiving *)
Lemma ks_push_recv n : preserves keeps (push_recv_impl n : K _).
Proof. unfold push_recv_impl, get_ud. keep. Qed.
Lemma ks_pop_msg_loop fuel port buf least sz retry act : preserves keeps (pop_msg_loop fuel port buf least sz retry act : K _).
Proof. revert retry act. induction fuel as [|fuel IH]; intros retry act; cbn [pop_msg_loop]; unfold poll_msgs; keep. Qed.
#[local] Hint Resolve ks_push_loop ks_push_recv ks_pop_msg_loop : preserves.
Lemma ks_pop_msg buf least sz : preserves keeps (pop_msg_impl buf least sz : K _).
Proof. unfold pop_msg_impl. keep. Qed.
Lemma ks_pop buf vid : preserves keeps (pop_impl buf vid : K _).
Proof. unfold pop_impl, VQ.get_ud. keep. Qed.
#[local] Hint Resolve ks_pop_msg ks_pop : preserves.

(** *** The system call *)
Lemma ks_bind_cmd arg : preserves keeps (bind_cmd arg : K _).
Proof.
  unfold bind_cmd, int_arg, u32_arg. apply pres_bind; [exact _|keep|intros port]. cbv zeta.
  apply pres_bind; [exact _|keep|intros q]. destruct (bind_port q); [keep|].
  destruct (Z.ltb_spec MAX_SERVICE_NUM (u64 port)); [keep|]. apply pres_bind; [exact _| |intros []; keep].
  apply ks_set_bind. intros x [= <-]. pose proof (wrap_range 64 port ltac:(lia)) as [? _]. lia.
Qed.
Lemma ks_command cmd arg buf env : preserves keeps (command cmd arg buf env : K _).
Proof.
  pose proof (ks_bind_cmd arg). unfold command, connect_cmd, push_cmd, unbind_cmd, int_arg, u32_arg, is_bind_mode, wait_pushed, VQ.get_ud.
  keep. apply ks_set_bind. done.
Qed.
#[local] Hint Resolve ks_command : preserves.
Lemma ks_ioctrl cmd arg env : preserves keeps (ioctrl cmd arg env : K _).
Proof. unfold ioctrl. keep. Qed.

(** The life of an open file up to its close: the commands with their arguments. *)
Fixpoint calls (l : list (Z * Z * conn_env)) : K (list Z) :=
  match l with
  | [] => mret []
  | (cmd, arg, env) :: l => r ← ioctrl cmd arg env; rs ← calls l; mret (r :: rs)
  end.
Definition session (l : list (Z * Z * conn_env)) : K (list Z) :=
  q ← open; _ ← on_self (fun _ => q); calls l.

Lemma to_user_result a l (st : W * sys) r st' : to_user a l st = Done (r, st') -> 0 <= r <= Z.of_nat (length l).
Proof.
  destruct st as [w s]. unfold to_user. rewrite bind_getX. pose proof (copy_to_user_dom (user s) a l) as [_ Hn].
  destruct (copy_to_user (user s) a l) as [m n]. rewrite bind_onX. by intros [= <- _].
Qed.

Lemma ioctrl_result cmd arg env (st : W * sys) r st' : ioctrl cmd arg env st = Done (r, st') -> 0 <= r <= 16.
Proof.
  unfold ioctrl. intros (l & s1 & _ & Hr)%bind_done_inv. apply bind_done_inv in Hr as (q & s2 & _ & Hr).
  destruct (_ && _); [by injection Hr as <- _|]. apply bind_done_inv in Hr as (status & s3 & _ & Hr).
  by apply to_user_result in Hr.
Qed.

Lemma ks_calls l : preserves keeps (calls l : K _).
Proof.
  induction l as [|[[cmd arg] env] l IH]; cbn [calls]; [keep|]. pose proof (ks_ioctrl cmd arg env). keep.
Qed.

Lemma calls_results l (st : W * sys) rs st' : calls l st = Done (rs, st') -> Forall (fun r => 0 <= r <= 16) rs.
Proof.
  revert st rs st'. induction l as [|[[cmd arg] env] l IH]; intros st rs st'; cbn [calls]; [by intros [= <- _]|].
  intros (r & s1 & Hio%ioctrl_result & Hr)%bind_done_inv. apply bind_done_inv in Hr as (rs' & s2 & Hl%IH & Hr).
  injection Hr as <- _. by constructor.
Qed.

Lemma open_run (st : W * sys) q st' : open st = Done (q, st') -> keeps st st' /\ vq_wf q.
Proof.
  intros Ho. split.
  - assert (Hk : preserves keeps (open : K _)) by (unfold open; keep). by eapply Hk.
  - unfold open in Ho. apply bind_done_inv in Ho as (pa & s1 & _ & Ho). apply bind_done_inv in Ho as (ctx & s2 & _ & Ho).
    apply bind_done_inv in Ho as (lkey & s3 & _ & Ho). injection Ho as <- _.
    constructor; cbn; try (by intros [? [=]]) || apply map_Forall_empty; [done|by eexists].
Qed.

Lemma frame_rings s s' : frame s s' -> Forall has_ring (rctrls s) -> Forall has_ring (rctrls s').
Proof.
  intros (F & _ & _). induction F as [|c c' l l' (_ & _ & _ & Hr) F IH]; [done|].
  intros [Hc Hl]%Forall_cons. constructor; auto.
Qed.

(** C6.  The system calls are type safe: whatever commands a process issues on an
    open file, with whatever arguments, memory, messages of the network and answers
    of the driver, when they return the module and the queue are well formed (the
    rings of the controls are linked, the queue is bound to a service that exists,
    what it uses of a peer it has from a connect, its caches have valid keys), the
    controls, contexts and mappings of the process are the ones before, and each
    result is a number of bytes of the reply. *)
Theorem system_calls_type_safe l w s rs w' s' :
  Forall has_ring (rctrls s) -> session l (w, s) = Done (rs, (w', s')) ->
  wf s' /\ frame s s' /\ Forall (fun r => 0 <= r <= 16) rs.
Proof.
  intros Hring (q & [w1 s1] & [(F1 & _ & _) Hq]%open_run & Hr)%bind_done_inv. cbn in F1.
  apply bind_done_inv in Hr as (u & s2 & Hs & Hr). injection Hs as _ <-.
  pose proof (calls_results _ _ _ _ Hr) as Hrs. apply ks_calls in Hr as (F2 & _ & V). cbn in F2, V.
  assert (F : frame s s') by (by etransitivity; [|etransitivity; [apply frame_self|]]).
  split_and!; [split; [by eapply frame_rings|by apply V]|done..].
Qed.

(** ** Termination *)

Lemma pop_msg_loop_total fuel port buf least sz retry act (st : W * sys) :
  50002 - retry <= Z.of_nat fuel -> retry <= 50001 ->
  (forall n, pop_msg_loop (fuel + n) port buf least sz retry act st = pop_msg_loop fuel port buf least sz retry act st) /\
  forall st', pop_msg_loop fuel port buf least sz retry act st <> Done (None, st').
Proof.
  revert retry act st. induction fuel as [|fuel IH]; intros retry act st Hf Hc; [lia|]. cbn [pop_msg_loop Nat.add].
  setoid_rewrite bind_run. destruct (poll_msgs port act st) as [[[p n] s1]|]; [|done].
  destruct ((least <=? act + n) || (50000 <? retry)) eqn:E.
  - split; [done|]. intros st'. rewrite bind_run. by destruct (handle_pop_ret _ _ _ _ _) as [[r s2]|].
  - apply orb_false_iff in E as [_ E]. apply Z.ltb_ge in E. apply IH; lia.
Qed.

Lemma push_loop_total fuel list len pop off ret (st : W * sys) :
  len - off <= Z.of_nat fuel ->
  (forall n, push_loop (fuel + n) list len pop off ret st = push_loop fuel list len pop off ret st) /\
  forall st', push_loop fuel list len pop off ret st <> Done (None, st').
Proof.
  revert off ret st. induction fuel as [|fuel IH]; intros off ret st Hf; cbn [push_loop Nat.add].
  { destruct (Z.ltb_spec off len); [lia|]. split; [|done]. intros [|n]; cbn [push_loop];
      (destruct (Z.ltb_spec off len); [lia|done]). }
  destruct (Z.ltb_spec off len); [|done]. cbn [negb]. setoid_rewrite bind_run.
  destruct (uaddr _ _ st) as [[a s1]|]; [|done]. setoid_rewrite bind_run.
  destruct (from_user _ _ s1) as [[b s2]|]; [|done]. setoid_rewrite bind_run.
  destruct (push_batch _ _ s2) as [[r s3]|]; [|done].
  destruct (r =? reply_status.err); [done|]. apply IH. unfold DEFAULT_BATCH_SZ. lia.
Qed.

(** C29.  The loops with a bound end: the waits of the transports poll at most 10001
    and 1001 times, a process that pops messages makes the kernel poll at most 50002
    times, and a push of [len] requests runs at most [len] batches; more fuel than
    that changes no result, and a result is never the lack of fuel. *)
Theorem bounded_loops_end dc ud (w : W) :
  (exists r w', forall n, DCOp.wait_til_comp (Z.to_nat 10001 + n) dc w = Done (Some r, w')) /\
  (exists r w', forall n, UDOp.wait_one_cq (Z.to_nat 1001 + n) ud w = Done (Some r, w')) /\
  (forall port buf least sz (st : W * sys),
     (forall n, pop_msg_loop (Z.to_nat 50002 + n) port buf least sz 0 0 st =
                pop_msg_loop (Z.to_nat 50002) port buf least sz 0 0 st) /\
     forall st', pop_msg_loop (Z.to_nat 50002) port buf least sz 0 0 st <> Done (None, st')) /\
  (forall list len pop ret (st : W * sys),
     (forall n, push_loop (Z.to_nat len + n) list len pop 0 ret st = push_loop (Z.to_nat len) list len pop 0 ret st) /\
     forall st', push_loop (Z.to_nat len) list len pop 0 ret st <> Done (None, st')).
Proof.
  split_and!.
  - destruct (dc_wait_loop_total (Z.to_nat 10001) 0 dc w) as (r & w' & _ & Hn); [lia..|]. by exists r, w'.
  - destruct (ud_wait_loop_total (Z.to_nat 1001) 0 ud w) as (r & w' & _ & Hn); [lia..|]. by exists r, w'.
  - intros port buf least sz st. apply pop_msg_loop_total; lia.
  - intros list len pop ret st. apply push_loop_total. lia.
Qed.

End operations.

(** ** A module with one control, on the simulated driver *)
Module SysSample.

#[export] Instance cfg : Cfg := kernel_cfg.
#[export] Instance phys : PhysOps := RingSample.phys.
#[export] Instance srq : SrqOps sim := RingSample.srq.
#[export] Instance sa : SaOps sim := {|
  ib_sa_register_client s := (1, s); ib_sa_unregister_client _ s := ((), s);
  ib_sa_path_rec_get _ _ _ _ _ _ s := (0, s) |}.
#[export] Instance sys_cfg : SysCfg := {| dct_qp := false; feature_virtual_queue := true; patience := 10 |}.
#[export] Instance stack : Frame := {| dead_slot wc := wc |}.
#[export] Instance kernel_mem : KernelMem sim := {|
  endpoint_at _ _ := None; endpoint_put _ _ s := ((), s); stack_tail n := replicate n 0 |}.

Definition path : sa_path_rec := mkPath default_gid default_gid 1 1 [].
Definition reply : ib_cm_rep_event_param := mkRepEvent 9 9.
Definition env : conn_env :=
  mkEnv 0 5 1 (Some (0, path)) 0 (mkWait [mkEvent IB_CM_REP_RECEIVED [] (RepRcvd reply)] 0).

Definition module (user : umem) (q : VQ) : sys :=
  mkSys [PairSample.control] [PairSample.ctx] [RMemPhy.mkMem 8192 None 4096] user q.
Definition opened : VQ := mkVQ None None None ∅ ∅ (Some 8192) 0 None None ∅ None false.

Lemma control_ring : has_ring PairSample.control.
Proof. exists PairSample.helper. apply PairSample.helper_ring. Qed.

(** A request at 1000 for port 3, with its reply at 1100; the commands use it. *)
Definition memory : umem :=
  block 1000 (pack req_layout [64; 0; 1100] ++ le 4 3 ++ replicate 200 0).
Definition script : list (Z * Z * conn_env) :=
  [(lib_r_cmd.Binds, 1000, env); (lib_r_cmd.PushRecv, 1000, env); (lib_r_cmd.UnBinds, 1000, env);
   (lib_r_cmd.Push, 1000, env); (17, 1000, env)].

End SysSample.
Import SysSample.

Lemma system_calls_type_safe_witness :
  match session script (sim_init, module memory opened) with
  | Done (rs, (_, s')) => rs = [0; 0; 0; 0; 0] /\ wf s' /\ frame (module memory opened) s'
  | Panic => False
  end.
Proof.
  assert (Hr : match session script (sim_init, module memory opened) with
    | Done (rs, _) => bool_decide (rs = [0; 0; 0; 0; 0]) | Panic => false end = true) by (vm_compute; reflexivity).
  destruct (session script (sim_init, module memory opened)) as [[rs [w' s']]|] eqn:E; [|discriminate].
  destruct (system_calls_type_safe script sim_init (module memory opened) rs w' s') as (Hwf & Hf & _);
    [by apply Forall_singleton, control_ring|exact E|].
  apply bool_decide_eq_true in Hr. exact (conj Hr (conj Hwf Hf)).
Defined.
