(* ===== verification/DeviceFile.v ===== *)
(** * The device of the system calls

    src/KRdmaKit-syscall/two-sided-dc/KRdmaKit-syscall/src/lib.rs (the module, whose
    device is krdma) with the implementation of [FileOperations] by [VQ] in
    virtual_queue.rs: the files of the device that are open at the same time, through
    the callbacks of FileOps.v, and the life of the module, through the registration
    of ChrDev.v.

    The world of the callbacks is the one of VirtualQueue.v; its [self] is the queue
    of the file of the current call. *)

From S2P Require Import Prelude Bytes Errors Verbs CmVerbs Sim Guid Context CompletionQueue QueuePair BringUp.
From S2P Require Import Stable CommManager RecvHelper SysQp SysBringUp SysCtrl SysAbi VirtualQueue SysCalls UserPtr FileOps ChrDev.
Import RCtrl VQ.

#[local] Open Scope Z_scope.

(** A call of the process on a descriptor; the environment is the one of the call. *)
Inductive fcall := FOpen (fd flags : Z) | FIoctl (fd cmd arg : Z) (env : conn_env) | FClose (fd : Z).

Section device.
Context {W : Type} `{!Cfg, !DeviceOps W, !QueueOps W, !DataOps W, !CmOps W, !SysOps W, !PhysOps, !SrqOps W, !SaOps W}.
Context `{!SysCfg, !Frame, !KernelMem W}.
Implicit Types (w : W) (s : sys).

(** A method of the queue of a file. *)
Definition with_queue {A} (m : M (W * sys) A) : M ((W * sys) * VQ) A := fun '((w, s), q) =>
  match m (w, with_self (fun _ => q) s) with
  | Done (a, (w, s)) => Done (a, ((w, s), self s))
  | Panic => Panic
  end.

Definition vq_ops (env : conn_env) : FileOperations (W * sys) VQ :=
  mkOps (q ← VQ.open; mret (Ok q))
    (fun cmd arg => with_queue (VQ.ioctrl cmd arg env))
    (fun _ => panic)
    None None None
    (fun q => onW (VQ.drop q)).

(** ** The files that are open *)
Abbreviation D := (M ((W * sys) * gmap Z (file VQ))).

Definition on_file {A} (f : file VQ) (m : M ((W * sys) * file VQ) A) : D (A * file VQ) := fun '(st, fs) =>
  match m (st, f) with Done (a, (st, f)) => Done ((a, f), (st, fs)) | Panic => Panic end.

(** [open] and [drop] have no use of the environment of a connect. *)
Definition no_env : conn_env := mkEnv 0 0 0 None 0 (mkWait [] 0).

(** The kernel calls the callbacks: [FOpen] with a descriptor that is free, the others
    with one that is open. *)
Definition EBADF : Z := -9.
Definition fstep (c : fcall) : D Z :=
  fs ← getX;
  match c with
  | FOpen fd flags =>
      match fs !! fd with
      | Some _ => mret EBADF
      | None =>
          '(r, f) ← on_file (mkFile None 0 flags) (open_callback (vq_ops no_env));
          _ ← (if r =? 0 then onX <[fd := f]> else mret ());
          mret r
      end
  | FIoctl fd cmd arg env =>
      match fs !! fd with
      | None => mret EBADF
      | Some f => '(r, f) ← on_file f (ioctrl_callback (vq_ops env) cmd arg); _ ← onX <[fd := f]>; mret r
      end
  | FClose fd =>
      match fs !! fd with
      | None => mret EBADF
      | Some f =>
          '(r, _) ← on_file f (release_callback (vq_ops no_env));
          _ ← onX (delete fd); mret r
      end
  end.
Fixpoint fsteps (l : list fcall) : D (list Z) :=
  match l with [] => mret [] | c :: l => r ← fstep c; rs ← fsteps l; mret (r :: rs) end.


(** The descriptors that are open after a call. *)
Definition open_after (c : fcall) (fds : gset Z) : gset Z :=
  match c with FOpen fd _ => {[fd]} ∪ fds | FIoctl _ _ _ _ => fds | FClose fd => fds ∖ {[fd]} end.
Definition file_ok (f : file VQ) : Prop := exists q, private_data f = Some q /\ vq_wf q.
Definition files_ok (fs : gmap Z (file VQ)) : Prop := map_Forall (fun _ f => file_ok f) fs.
Definition descriptor (c : fcall) : Z := match c with FOpen fd _ | FIoctl fd _ _ _ | FClose fd => fd end.

(** What a call does to the module and to the files. *)
Record fstep_ok (c : fcall) s (fs : gmap Z (file VQ)) (r : Z) s' fs' : Prop := {
  fs_frame : frame s s';
  fs_files : files_ok fs';
  fs_open : dom fs' = open_after c (dom fs);
  fs_others fd : fd <> descriptor c -> fs' !! fd = fs !! fd;
  fs_result : r = EBADF \/ 0 <= r <= 16 }.

Lemma file_open w s f r w' s' f' :
  open_callback (vq_ops no_env) ((w, s), f) = Done (r, ((w', s'), f')) -> r = 0 /\ frame s s' /\ file_ok f'.
Proof.
  unfold open_callback. rewrite bind_onW. cbn [FileOps.open vq_ops]. rewrite bind_run.
  destruct (VQ.open (w, s)) as [[q [w1 s1]]|] eqn:E; [|done]. apply open_run in E as [(F & _) Hq].
  cbn. intros [= <- <- <- <-]. split_and!; [done|done|by exists q].
Qed.

Lemma file_ioctl w s f cmd arg env r w' s' f' :
  ioctrl_callback (vq_ops env) cmd arg ((w, s), f) = Done (r, ((w', s'), f')) -> file_ok f ->
  frame s s' /\ file_ok f' /\ 0 <= r <= 16.
Proof.
  unfold ioctrl_callback, on_private. intros Hr (q & Hq & Hwf). rewrite Hq in Hr. cbn [FileOps.ioctrl vq_ops] in Hr. unfold with_queue in Hr.
  destruct (VQ.ioctrl cmd arg env (w, with_self (fun _ => q) s)) as [[r1 [w1 s1]]|] eqn:E; [|done]. injection Hr as <- <- <- <-.
  pose proof (ioctrl_result _ _ _ _ _ _ E). apply ks_ioctrl in E as (F & _ & Hk). cbn [snd] in F, Hk.
  split; [by etransitivity; [apply (frame_self (fun _ => q))|]|]. split; [|done]. exists (self s1). split; [done|by apply Hk].
Qed.

Lemma file_release w s f r w' s' f' :
  release_callback (vq_ops no_env) ((w, s), f) = Done (r, ((w', s'), f')) -> r = 0 /\ s' = s /\ private_data f' = None.
Proof.
  unfold release_callback. rewrite bind_getX, bind_onX. destruct (private_data f) as [q|]; [|done]. cbn [unwrap]. rewrite bind_ret, bind_onW.
  cbn [FileOps.drop vq_ops]. unfold onW. cbn [fst snd]. destruct (VQ.drop q w) as [[[] w1]|]; [|done]. by intros [= <- <- <- <-].
Qed.

Lemma fstep_spec c w s fs r w' s' fs' :
  files_ok fs -> fstep c ((w, s), fs) = Done (r, ((w', s'), fs')) -> fstep_ok c s fs r s' fs'.
Proof.
  intros Hfs. unfold fstep. rewrite bind_getX. destruct c as [fd flags|fd cmd arg env|fd]; cbn [open_after descriptor].
  - destruct (fs !! fd) as [f|] eqn:Ef.
    { intros [= <- <- <- <-]. split; [reflexivity|done| |done|by left]. apply elem_of_dom_2 in Ef. cbn. set_solver. }
    rewrite bind_run. unfold on_file. destruct (open_callback _ _) as [[r1 [[w1 s1] f1]]|] eqn:E; [|done].
    apply file_open in E as (-> & F & Hf). cbn. intros [= <- <- <- <-]. split; [done| |by rewrite dom_insert_L| |right; lia].
    + by apply map_Forall_insert_2.
    + intros fd' Hne. apply lookup_insert_ne. by intros ->.
  - destruct (fs !! fd) as [f|] eqn:Ef; [|intros [= <- <- <- <-]; split; [reflexivity|done|done|done|by left]].
    rewrite bind_run. unfold on_file. destruct (ioctrl_callback _ _ _ _) as [[r1 [[w1 s1] f1]]|] eqn:E; [|done].
    apply file_ioctl in E as (F & Hf & Hr); [|by eapply Hfs]. cbn. intros [= <- <- <- <-]. split; [done| | | |by right].
    + by apply map_Forall_insert_2.
    + rewrite dom_insert_L. apply elem_of_dom_2 in Ef. cbn. set_solver.
    + intros fd' Hne. apply lookup_insert_ne. by intros ->.
  - destruct (fs !! fd) as [f|] eqn:Ef.
    2:{ intros [= <- <- <- <-]. split; [reflexivity|done| |done|by left]. apply not_elem_of_dom_2 in Ef. cbn. set_solver. }
    rewrite bind_run. unfold on_file. destruct (release_callback _ _) as [[r1 [[w1 s1] f1]]|] eqn:E; [|done].
    apply file_release in E as (-> & -> & _). cbn. intros [= <- <- <- <-]. split; [reflexivity| |by rewrite dom_delete_L| |right; lia].
    + by apply map_Forall_delete.
    + intros fd' Hne. apply lookup_delete_ne. by intros ->.
Qed.

Lemma fsteps_spec l w s fs rs w' s' fs' :
  files_ok fs -> fsteps l ((w, s), fs) = Done (rs, ((w', s'), fs')) ->
  frame s s' /\ files_ok fs' /\ dom fs' = foldl (fun fds c => open_after c fds) (dom fs) l /\
  (forall fd, fd ∉ descriptor <$> l -> fs' !! fd = fs !! fd) /\ Forall (fun r => r = EBADF \/ 0 <= r <= 16) rs.
Proof.
  revert w s fs rs. induction l as [|c l IH]; intros w s fs rs Hfs; cbn [fsteps].
  { intros [= <- <- <- <-]. by split_and!. }
  intros (r & [[w1 s1] fs1] & E1 & E2)%bind_done_inv. apply bind_done_inv in E2 as (rs1 & [[w2 s2] fs2] & E2 & E3).
  injection E3 as <- <- <- <-. apply fstep_spec in E1 as [F1 K1 D1 O1 R1]; [|done]. apply IH in E2 as (F2 & K2 & D2 & O2 & R2); [|done].
  split_and!; [by etransitivity|done|cbn [foldl]; rewrite <- D1; exact D2|intros fd Hfd|by constructor].
  rewrite fmap_cons, not_elem_of_cons in Hfd. destruct Hfd as [Hne Hfd]. rewrite O2 by done. by apply O1.
Qed.

(** C18. The device under any use: let a process open, use and close any number of
    files of the device in any order, with any arguments. When the calls return, the
    module is well formed and its controls, contexts and the mappings of the process
    are the ones before; the files that are open are those that were opened and not
    closed, each with a well-formed queue of its own; a call on a descriptor leaves
    the queues of the others; and a result is a number of bytes of the reply or EBADF. *)
Theorem device_files_safe l1 l2 w s rs1 w1 s1 fs1 rs2 w2 s2 fs2 :
  Forall has_ring (rctrls s) ->
  fsteps l1 ((w, s), ∅) = Done (rs1, ((w1, s1), fs1)) -> fsteps l2 ((w1, s1), fs1) = Done (rs2, ((w2, s2), fs2)) ->
  Forall has_ring (rctrls s2) /\ frame s s2 /\ files_ok fs2 /\
  dom fs2 = foldl (fun fds c => open_after c fds) ∅ (l1 ++ l2) /\
  (forall fd, fd ∉ descriptor <$> l2 -> fs2 !! fd = fs1 !! fd) /\ Forall (fun r => r = EBADF \/ 0 <= r <= 16) (rs1 ++ rs2).
Proof.
  intros Hr E1 E2. apply fsteps_spec in E1 as (F1 & K1 & D1 & _ & R1); [|apply map_Forall_empty].
  apply fsteps_spec in E2 as (F2 & K2 & D2 & O2 & R2); [|done]. assert (F : frame s s2) by by etransitivity.
  split_and!; [by eapply frame_rings|done|done| |done|by apply Forall_app].
  rewrite foldl_app, D2, D1. by rewrite dom_empty_L.
Qed.

(** A process that maps a file of the device crashes the kernel. *)
Lemma mmap_crashes env vma w s f : mmap_callback (vq_ops env) vma ((w, s), f) = Panic.
Proof. unfold mmap_callback, on_private. by destruct (private_data f). Qed.

(** An open before the client has its memory blocks is a crash as well: the device is
    registered before the client is created. *)
Lemma open_before_client_crashes w s f :
  mems s = [] -> open_callback (vq_ops no_env) ((w, s), f) = Panic.
Proof.
  intros Hm. unfold open_callback. rewrite bind_onW. cbn [FileOps.open vq_ops]. rewrite bind_run. unfold VQ.open, get_global_test_mem_pa.
  by rewrite bind_run, bind_getX, Hm.
Qed.

(** ** The module *)
Section module.
Context {C : Type} `{!ChrOps C}.

Record KRdmaKitSyscallModule := mkModule {
  _client : list RCtrl * list RContext.RContext * list RMemPhy.RMemPhy; _chrdev_registration : Registration }.

(** The state of the character devices is beside the world of the client. *)
Definition onC {A} (m : M (C * ptr) A) : M ((C * ptr) * W) A := onW m.
Definition onD {A} (m : M W A) : M ((C * ptr) * W) A := fun '(c, w) =>
  match m w with Done (a, w) => Done (a, (c, w)) | Panic => Panic end.

Definition krdma : list Z := [107; 114; 100; 109; 97; 0].
Definition krdma_builder : outcome (Builder unit) :=
  match builder krdma 0 1 with Ok b => register_device () krdma b | Err _ => Panic end.

Definition init (devs : list ptr) (boxes : nat -> Z * Z * Z) : M ((C * ptr) * W) (Result Error KRdmaKitSyscallModule) :=
  b ← lift krdma_builder;
  r ← onC (build b);
  match r with
  | Err e => mret (Err e)
  | Ok reg => client ← onD (VQ.create devs boxes); mret (Ok (mkModule client reg))
  end.

(** The fields are dropped in their order. *)
Definition drop_KRdmaKitSyscallModule (sa_client : ptr) (m : KRdmaKitSyscallModule) : M ((C * ptr) * W) unit :=
  let '(ctrls, ctxs, _) := _client m in
  _ ← onD (VQ.unload ctrls ctxs sa_client);
  onC (drop_registration (_chrdev_registration m)).

Context `{!ChrLaws C}.

Lemma krdma_builder_ok : exists b, krdma_builder = Done b /\ builder_ok b.
Proof. eexists. split; [reflexivity|]. split; [done|]. vm_compute. discriminate. Qed.

Lemma init_spec devs boxes (c : C) cl w :
  match init devs boxes ((c, cl), w) with
  | Done (Ok m, ((c', CL), w')) => exists b : Builder unit, builder_ok b /\ length (file_ops b) = 1%nat /\ minors_len b = 1 /\
      registered (clive c) b (_chrdev_registration m) CL c' /\ VQ.create devs boxes w = Done (_client m, w')
  | _ => True
  end.
Proof.
  unfold init. destruct krdma_builder_ok as (b & Hb & Hok). assert (length (file_ops b) = 1%nat /\ minors_len b = 1) as [??] by by injection Hb as <-.
  rewrite Hb, bind_lift. unfold onC. rewrite bind_onW. pose proof (build_spec b c cl Hok) as Hs.
  destruct (build b (c, cl)) as [[[reg|e] [c' CL]]|]; [|done..]. rewrite bind_run. cbn [onD].
  destruct (VQ.create devs boxes w) as [[client w']|] eqn:E; [|done]. cbn. by exists b.
Qed.

(** C38. The life of the module: when it is loaded the kernel has its region, its class
    and its character device; and when it is unloaded, whatever happened to the client
    in between, the kernel has what it had before the load and no module is left. *)
Theorem module_lifecycle devs boxes sa_client (c : C) cl w m c1 CL w1 w2 st' :
  let drp := drop_KRdmaKitSyscallModule sa_client in
  init_module (init devs boxes) drp (((c, cl), w), None) = Done (0, (((c1, CL), w1), Some m)) ->
  cleanup_module drp (((c1, CL), w2), Some m) = Done ((), st') ->
  (let r := _chrdev_registration m in
   Region (dev r) 1 ∈ clive c1 /\ Class_ CL ∈ clive c1 /\ Cdev (dev r) ∈ clive c1) /\
  exists c3 w3, st' = (((c3, CL), w3), None) /\ clive c3 = clive c.
Proof.
  intros drp Hi Hc. unfold init_module in Hi. rewrite bind_onW in Hi. pose proof (init_spec devs boxes c cl w) as Hs.
  destruct (init devs boxes ((c, cl), w)) as [[[m'|e] [[c' CL'] w']]|]; [|by injection Hi..|done].
  unfold set_MOD in Hi. cbn in Hi. injection Hi as -> -> -> ->. destruct Hs as (b & Hok & Hn & Hm & Hr & _). split.
  { pose proof Hr as (_ & Hcn & Hcd & _ & _ & _ & _ & _ & _ & D & _ & ->). rewrite Hcd, Hcn, Hn, Hm, cdev_set_S, Z.add_0_r.
    cbv zeta. split_and!; rewrite !elem_of_union, !elem_of_singleton; auto 10. }
  apply (drop_registration_spec b) in Hr; [|done]. apply wp_done in Hr as ([] & [c3 ?] & Hd & -> & Hl).
  unfold cleanup_module, set_MOD in Hc. rewrite bind_getX, bind_onX in Hc. unfold onW, drp, drop_KRdmaKitSyscallModule in Hc.
  destruct (_client m) as [[ctrls ctxs] ?]. cbn [fst snd] in Hc. rewrite bind_run in Hc. cbn [onD] in Hc.
  destruct (VQ.unload ctrls ctxs sa_client w2) as [[[] w3]|]; [|done]. unfold onC, onW in Hc. cbn [fst snd] in Hc. rewrite Hd in Hc.
  injection Hc as <-. by exists c3, w3.
Qed.
End module.
End device.

Import SysSample.
#[local] Existing Instance ChrSim.ops.
#[local] Existing Instance ChrSim.laws.

(** Two files, one of which binds while the other is used and closed. *)
Definition files_script : list fcall :=
  [FOpen 3 0; FOpen 4 0; FIoctl 3 lib_r_cmd.Binds 1000 env; FIoctl 4 lib_r_cmd.Binds 1000 env].
Definition files_script' : list fcall := [FIoctl 4 lib_r_cmd.UnBinds 1000 env; FClose 4; FIoctl 4 17 1000 env].

Lemma device_files_safe_witness :
  match fsteps files_script ((sim_init, module memory opened), ∅) with
  | Done (rs1, ((w1, s1), fs1)) =>
      match fsteps files_script' ((w1, s1), fs1) with
      | Done (rs2, ((_, s2), fs2)) => rs1 ++ rs2 = [0; 0; 0; 0; 0; 0; -9] /\ dom fs2 = {[3]} /\ frame (module memory opened) s2 /\ fs2 !! 3 = fs1 !! 3
      | Panic => False
      end
  | Panic => False
  end.
Proof.
  assert (Hr : match fsteps files_script ((sim_init, module memory opened), ∅) with
    | Done (rs1, ((w1, s1), fs1)) =>
        match fsteps files_script' ((w1, s1), fs1) with
        | Done (rs2, _) => bool_decide (rs1 ++ rs2 = [0; 0; 0; 0; 0; 0; -9]) | Panic => false end
    | Panic => false end = true) by (vm_compute; reflexivity).
  destruct (fsteps files_script _) as [[rs1 [[w1 s1] fs1]]|] eqn:E1; [|discriminate].
  destruct (fsteps files_script' _) as [[rs2 [[w2 s2] fs2]]|] eqn:E2; [|discriminate].
  destruct (device_files_safe files_script files_script' sim_init (module memory opened) rs1 w1 s1 fs1 rs2 w2 s2 fs2)
    as (_ & Hf & _ & Hd & Ho & _); [by apply Forall_singleton, control_ring|exact E1|exact E2|].
  apply bool_decide_eq_true in Hr. split; [exact Hr|]. split; [rewrite Hd; vm_compute; reflexivity|]. split; [exact Hf|].
  apply Ho. cbn. rewrite !not_elem_of_cons. by split_and!; [..|apply not_elem_of_nil].
Defined.

Definition load : outcome (Z * (((ChrSim.kernel * ptr) * sim) * option KRdmaKitSyscallModule)) :=
  init_module (init [] (fun _ => (0, 0, 0))) (drop_KRdmaKitSyscallModule 1) (((ChrSim.empty [] [], null), sim_init), None).

Lemma module_lifecycle_witness :
  match load with
  | Done (0, (((c1, CL), w1), Some m)) =>
      match cleanup_module (drop_KRdmaKitSyscallModule 1) (((c1, CL), w1), Some m) with
      | Done (_, (((c3, _), _), None)) => CL = 7 /\ clive c3 = ∅
      | _ => False
      end
  | _ => False
  end.
Proof.
  assert (Hr : match load with
    | Done (0, (((c1, CL), w1), Some m)) => bool_decide (CL = 7) && match cleanup_module (drop_KRdmaKitSyscallModule 1) (((c1, CL), w1), Some m) with Done _ => true | Panic => false end
    | _ => false end = true) by (vm_compute; reflexivity).
  destruct load as [[[| |] [[[c1 CL] w1] [m|]]]|] eqn:E; try discriminate Hr. apply andb_prop in Hr as [HCL Hr].
  destruct (cleanup_module (drop_KRdmaKitSyscallModule 1) _) as [[[] st']|] eqn:E2; [|discriminate Hr].
  unfold load in E. destruct (module_lifecycle [] (fun _ => (0, 0, 0)) 1 (ChrSim.empty [] []) null sim_init m c1 CL w1 w1 st' E E2) as (_ & c3 & w3 & -> & Hl).
  split; [exact (bool_decide_eq_true_1 _ HCL)|exact Hl].
Defined.
