(* ===== verification/KrLib.v ===== *)
(** * The library under the one-sided system calls

    src/KRdmaKit-syscall/src is written against the KRdmaKit of
    src/rust-kernel-rdma, whose sources are not part of the repository.  What the
    module uses of it is an interface here: [KrLib] its operations, [KrLaws] what
    the module relies on of them.  The structures that the module builds by literals
    (end points, memory regions, targets of a DC transport) have the fields of
    [SysQp].  Objects behind references are their addresses.

    Below are the kernel's memory, which the library reads and writes as bytes, and
    the remote reads of a DC queue pair. *)

From S2P Require Import Prelude Bytes Errors Verbs CmVerbs Sim Context CompletionQueue QueuePair BringUp.
From S2P Require Import CommManager RecvHelper SysQp.

#[local] Open Scope Z_scope.

Abbreviation point := EndPoint.EndPoint.

(** The functions a remote procedure call can run. *)
Inductive handler : Set :=
| reg_dc_meta | dereg_dc_meta | query_dc_meta | connect_rc | disconnect_rc.

Class KrLib (W : Type) := {
  (* controls *)
  ctrl_create : Z -> ptr -> M W (option ptr);
  ctrl_drop : ptr -> M W unit;
  get_context : W -> ptr -> ptr;
  get_self_test_mr : W -> ptr -> TempMR;
  ctrl_dc : W -> ptr -> option ptr;
  ctrl_ud : W -> ptr -> Z -> option ptr;
  get_dc_num : W -> ptr -> Z;
  get_trc : W -> ptr -> Z -> option ptr;
  get_recv_cq : W -> ptr -> ptr;
  post_recvs : ptr -> ptr -> Z -> M W (Result Error unit);
  pop_recvs : ptr -> ptr -> Z -> Z -> M W (Result Error (option ptr * Z));
  ud_post_recv : ptr -> Z -> M W (Result Error unit);
  trc_post_recv : ptr -> Z -> Z -> M W (Result Error unit);
  get_next_in_qp_key : ptr -> Z -> M W Z;
  register_rc : ptr -> Z -> ptr -> M W unit;
  dereg_rc : ptr -> Z -> M W unit;
  (* devices and contexts *)
  register_client : M W unit;
  unregister_client : M W unit;
  nic_create : ptr -> Z -> M W (Result Error ptr);
  ctx_create : ptr -> M W (option ptr);
  ctx_reset : ptr -> M W unit;
  get_lkey : W -> ptr -> Z;
  get_rkey : W -> ptr -> Z;
  get_pd : W -> ptr -> ptr;
  get_lid : W -> ptr -> Z;
  get_gid : W -> ptr -> ib_gid;
  explore_path : ptr -> list Z -> Z -> M W (option sa_path_rec);
  (* connections *)
  sidr_new : ptr -> M W (option ptr);
  sidr_connect : ptr -> sa_path_rec -> Z -> Z -> M W (Result Error point);
  sidr_drop : ptr -> M W unit;
  point_new : ptr -> Z -> Z -> Z -> ib_gid -> Z -> TempMR -> M W point;
  point_drop : point -> M W unit;
  self_clone : point -> point;
  (* queue pairs *)
  rc_new_with_srq : ptr -> ptr -> M W (option ptr);
  rc_connect : ptr -> Z -> sa_path_rec -> Z -> M W (Result Error unit);
  rc_drop : ptr -> M W unit;
  rc_qp : W -> ptr -> ptr;
  rc_qp_num : W -> ptr -> Z;
  rc_remote_mr : W -> ptr -> TempMR;
  rc_push_with_imm : ptr -> ib_wr_opcode -> Z -> Z -> Z -> Z -> Z -> Z -> list ib_send_flag ->
    M W (Result Error unit);
  rc_pop : ptr -> M W (option ptr);
  rc_wait_til_comp : ptr -> M W (option ptr);
  bring_to_init : ptr -> M W (Result Error unit);
  bring_init_to_rtr : ptr -> Z -> Z -> ib_gid -> M W (Result Error unit);
  bring_rtr_to_rts : ptr -> M W (Result Error unit);
  ud_qp : W -> ptr -> ptr;
  ud_qp_num : W -> ptr -> Z;
  ud_qkey : W -> ptr -> Z;
  ud_push : ptr -> ib_wr_opcode -> Z -> Z -> point -> Z -> Z -> list ib_send_flag ->
    M W (Result Error unit);
  ud_wait_til_comp : ptr -> M W (option ptr);
  dc_push : ptr -> ib_wr_opcode -> Z -> Z -> Z -> Z -> Z -> point -> list ib_send_flag ->
    M W (Result Error unit);
  dc_pop : ptr -> M W (option ptr);
  dc_wait_til_comp : ptr -> M W (option ptr);
  (* remote procedure calls *)
  rpc_create : ptr -> ptr -> Z -> TempMR -> M W ptr;
  rpc_drop : ptr -> M W unit;
  rpc_end_point : W -> ptr -> point;
  reg_handler : ptr -> Z -> handler -> M W unit;
  rpc_call : ptr -> point -> Z -> list Z -> nat -> Z -> M W (option (list Z));
  rpc_poll_all : ptr -> M W unit;
  kthread_poll_all : ptr -> M W unit;
  (* memory blocks by the address the device uses *)
  mem_new : Z -> M W Z;
  pa_va : Z -> Z;
  (* the kernel's memory, and the completions at an address of it *)
  kmem : W -> umem;
  set_kmem : umem -> W -> W;
  wc_at : W -> ptr -> Z -> ib_wc;
  (* the layout of an end point and of a GID; text *)
  point_size : nat;
  point_bytes : point -> list Z;
  point_of : list Z -> point;
  gid_bytes : ib_gid -> list Z;
  gid_of : list Z -> ib_gid;
  gid_to_str : ib_gid -> list Z;
  str_to_gid : list Z -> ib_gid;
  gid_eq : ib_gid -> ib_gid -> bool;
  (* the order in which a hash table yields its keys *)
  keys : gmap (list Z) point -> list (list Z);
  (* constants *)
  DEFAULT_RPC_HINT : Z;
  MAX_KMALLOC_SZ : Z;
  UD_HEADER_SZ : Z;
  (* one random byte *)
  getrandom : M W Z
}.

(** Values in the width of their fields. *)
Definition gid_fits (g : ib_gid) : Prop := in_width 64 (subnet_prefix g) /\ in_width 64 (interface_id g).
Definition mr_fits (m : TempMR) : Prop := in_width 64 (mr_addr m) /\ in_width 32 (mr_capacity m) /\ in_width 32 (mr_key m).
Definition point_fits (p : point) : Prop :=
  in_width 32 (EndPoint.qpn p) /\ in_width 32 (EndPoint.qkey p) /\ in_width 16 (EndPoint.lid p) /\
  gid_fits (EndPoint.gid p) /\ in_width 32 (EndPoint.dct_num p) /\ mr_fits (EndPoint.mr p) /\
  in_width 64 (EndPoint.ah p).

(** A peer is the same whatever handle of this host an end point carries. *)
Definition same_peer (p q : point) : Prop :=
  EndPoint.qpn p = EndPoint.qpn q /\ EndPoint.qkey p = EndPoint.qkey q /\ EndPoint.lid p = EndPoint.lid q /\
  EndPoint.gid p = EndPoint.gid q /\ EndPoint.dct_num p = EndPoint.dct_num q /\ EndPoint.mr p = EndPoint.mr q.

#[export] Instance same_peer_equiv : Equivalence same_peer.
Proof.
  split.
  - by intros p.
  - intros p q (? & ? & ? & ? & ? & ?). split_and!; congruence.
  - intros p q r (? & ? & ? & ? & ? & ?) (? & ? & ? & ? & ? & ?). split_and!; congruence.
Qed.

(** ** Memory of the kernel *)
Section memory.
Context {W : Type} `{!KrLib W}.

(** [memcpy] from and to the kernel's memory; an access outside of it is a fault. *)
Definition kread (a : Z) (n : nat) : M W (list Z) := fun w =>
  match copy_from_user (kmem w) a n with (l, 0) => Done (l, w) | _ => Panic end.
Definition kwrite (a : Z) (l : list Z) : M W unit := fun w =>
  match copy_to_user (kmem w) a l with (m, 0) => Done ((), set_kmem m w) | _ => Panic end.

End memory.

(** ** What the module relies on *)
Class KrLaws (W : Type) `{!KrLib W} : Prop := {
  kmem_set m w : kmem (set_kmem m w) = m;
  point_bytes_length p : length (point_bytes p) = point_size;
  point_size_pos : (0 < point_size)%nat;
  point_roundtrip p : point_fits p -> point_of (point_bytes p) = p;
  point_of_fits l : point_fits (point_of l);
  gid_bytes_length g : length (gid_bytes g) = 16%nat;
  gid_roundtrip g : gid_fits g -> gid_of (gid_bytes g) = g;
  gid_of_fits l : gid_fits (gid_of l);
  self_clone_peer p : same_peer (self_clone p) p;
  self_clone_fits p : point_fits p -> point_fits (self_clone p);
  gid_to_str_inj g h : gid_fits g -> gid_fits h -> gid_to_str g = gid_to_str h -> g = h;
  gid_eq_spec g h : gid_eq g h = bool_decide (g = h);
  keys_nodup m : NoDup (keys m);
  keys_dom m k : k ∈ keys m <-> is_Some (m !! k);
  pa_va_add a n : pa_va (a + n) = pa_va a + n;
  point_drop_quiet p w : exists w', point_drop p w = Done ((), w') /\ kmem w' = kmem w
}.

Section laws.
Context {W : Type} `{!KrLib W, !KrLaws W}.

Lemma kread_holds w a l : holds (kmem w) a l -> kread a (length l) w = Done (l, w).
Proof. intros H. unfold kread. by rewrite copy_from_user_holds. Qed.

End laws.
