(* ===== verification/MetaKv.v ===== *)
(** * The meta server of the one-sided system calls

    The globals of the module (src/KRdmaKit-syscall/src/client.rs) and its remote
    procedure calls (rpc/protocol.rs).  One machine keeps the DC end points of all
    the others, by the text of their GIDs, and writes them as a table into memory
    that the others read with one-sided operations; [query_dct_meta] of
    virtual_queue.rs is such a read. *)

From S2P Require Import Prelude Bytes Errors Verbs CmVerbs Sim Context CompletionQueue QueuePair BringUp.
From S2P Require Import CommManager RecvHelper SysQp SysAbi VirtualQueue KrLib.

#[local] Open Scope Z_scope.

(** The Cargo features of the module. *)
Class OneCfg := {
  f_virtual_queue : bool; f_dct_qp : bool; f_migrate_qp : bool; f_meta_kv : bool; f_meta_cache : bool;
  f_rpc_server : bool }.

Definition MAX_SERVICE_NUM : Z := 25.

(** The request types of [RPCReqType]. *)
Inductive RPCReqType : Set :=
| Dummy | RegisterDCMeta | DeregisterDcMeta | QueryDCMeta | ConnectRC | DisconnectRC.
Definition value (t : RPCReqType) : Z :=
  match t with
  | Dummy => 0 | RegisterDCMeta => 1 | DeregisterDcMeta => 2 | QueryDCMeta => 3 | ConnectRC => 4
  | DisconnectRC => 5
  end.

(** ** The globals (client.rs) *)
Record globals := mkGlobals {
  allnics : list ptr; allrcontexts : list ptr; rctrls : list ptr; rpc_clients : list ptr;
  global_mem : list Z; meta_info : gmap (list Z) point; meta_kv_pa : Z }.

Definition no_globals : globals := mkGlobals [] [] [] [] [] ∅ 0.
Definition set_nics x g := mkGlobals x (allrcontexts g) (rctrls g) (rpc_clients g) (global_mem g) (meta_info g) (meta_kv_pa g).
Definition set_contexts x g := mkGlobals (allnics g) x (rctrls g) (rpc_clients g) (global_mem g) (meta_info g) (meta_kv_pa g).
Definition set_rctrls x g := mkGlobals (allnics g) (allrcontexts g) x (rpc_clients g) (global_mem g) (meta_info g) (meta_kv_pa g).
Definition set_clients x g := mkGlobals (allnics g) (allrcontexts g) (rctrls g) x (global_mem g) (meta_info g) (meta_kv_pa g).
Definition set_mems x g := mkGlobals (allnics g) (allrcontexts g) (rctrls g) (rpc_clients g) x (meta_info g) (meta_kv_pa g).
Definition set_info x g := mkGlobals (allnics g) (allrcontexts g) (rctrls g) (rpc_clients g) (global_mem g) x (meta_kv_pa g).
Definition set_kv_pa x g := mkGlobals (allnics g) (allrcontexts g) (rctrls g) (rpc_clients g) (global_mem g) (meta_info g) x.

Section meta.
Context {W : Type} `{!Cfg, !OneCfg, !KrLib W}.
Abbreviation K := (M (W * globals)).

(** A query of the library's state. *)
Definition ask {A} (f : W -> A) : K A := onW (gets f).

(** An element by an index modulo the length. *)
Definition nth_mod {A} (f : globals -> list A) (idx : Z) : K A :=
  g ← getX; '(_, a) ← lift (VQ.index_mod (f g) idx); mret a.

Definition get_global_rcontext (idx : Z) : K ptr := nth_mod allrcontexts idx.
Definition get_global_rctrl (idx : Z) : K ptr := nth_mod rctrls idx.
Definition get_global_test_mem_pa (idx : Z) : K Z := nth_mod global_mem idx.
Definition get_global_meta_kv_mem : K Z := g ← getX; unwrap (global_mem g !! 1%nat).
Definition get_bind_ctrl (port : Z) : K ptr := get_global_rctrl (port * 2).
Definition get_rpc_client (idx : Z) : K ptr := nth_mod rpc_clients idx.

Definition get_remote_dc_meta (remote_gid : list Z) : K (option point) :=
  g ← getX; mret (meta_info g !! remote_gid).
Definition get_remote_dc_meta_unsafe (remote_gid : list Z) : K point :=
  p ← get_remote_dc_meta remote_gid; unwrap p.

(** The entry that is replaced or removed is dropped. *)
Definition insert_meta (k : list Z) (p : point) : K unit :=
  g ← getX;
  _ ← onX (set_info (<[k := p]> (meta_info g)));
  match meta_info g !! k with Some old => onW (point_drop old) | None => mret () end.
Definition put_remote_dc_meta (remote_gid : list Z) (p : point) : K unit :=
  insert_meta remote_gid (self_clone p).
Definition evict_remote_dc_meta (remote_gid : list Z) : K unit :=
  g ← getX;
  _ ← onX (set_info (delete remote_gid (meta_info g)));
  match meta_info g !! remote_gid with Some old => onW (point_drop old) | None => mret () end.

(** ** The handlers (rpc/protocol.rs) *)

(** [payload::RegDCMeta]: the GID, the port, the end point. *)
Definition reg_payload (gid : ib_gid) (port : Z) (p : point) : list Z :=
  gid_bytes gid ++ le 8 port ++ point_bytes p.
Definition reg_size : nat := (24 + point_size)%nat.

(** The end points of the table in the order of the keys, each behind the other. *)
Fixpoint write_entries (kv_meta_va idx : Z) (ks : list (list Z)) : K unit :=
  match ks with
  | [] => mret ()
  | k :: ks =>
      g ← getX;
      meta ← unwrap (meta_info g !! k);
      let clone := self_clone meta in
      a ← lift (add_u64 overflow_checks kv_meta_va (8 + idx * Z.of_nat point_size));
      _ ← onW (kwrite a (point_bytes clone));
      _ ← onW (point_drop clone);
      write_entries kv_meta_va (idx + 1) ks
  end.

(** One copy of the table: the entries, then their number in front. *)
Definition write_table (kv_meta_pa : Z) : K unit :=
  let kv_meta_va := pa_va kv_meta_pa in
  g ← getX;
  _ ← write_entries kv_meta_va 0 (keys (meta_info g));
  onW (kwrite kv_meta_va (le 8 (Z.of_nat (size (meta_info g))))).

(** [for idx in 0..get_global_test_mem_len()]. *)
Fixpoint write_tables (idx : Z) (n : nat) : K unit :=
  match n with
  | O => mret ()
  | S n => pa ← get_global_test_mem_pa idx; _ ← write_table pa; write_tables (idx + 1) n
  end.

Definition reg_dc_meta_handler (req_va reply_va : Z) : K Z :=
  l ← onW (kread req_va reg_size);
  let gid := gid_of (take 16 l) in
  let port := word_at 16 8 l in
  let local_point := point_of (skipn 24 l) in
  _ ← put_remote_dc_meta (gid_to_str gid) local_point;
  kv_meta_pa ← get_global_test_mem_pa port;
  g ← getX;
  _ ← write_tables 0 (length (global_mem g));
  _ ← onW (kwrite reply_va (le 8 kv_meta_pa));
  _ ← onW (point_drop local_point);
  mret 64.

Definition dereg_dc_meta_handler (req_va reply_va : Z) : K Z :=
  l ← onW (kread req_va 16);
  _ ← evict_remote_dc_meta (gid_to_str (gid_of l));
  _ ← onW (kwrite reply_va (le 8 0));
  mret 64.

Definition query_dc_meta_handler (req_va reply_va : Z) : K Z :=
  l ← onW (kread req_va 16);
  p ← get_remote_dc_meta (gid_to_str (gid_of l));
  match p with
  | None => mret 0
  | Some p =>
      let reply := self_clone p in
      _ ← onW (kwrite reply_va (point_bytes reply));
      _ ← onW (point_drop reply);
      mret (u32 (Z.of_nat point_size))
  end.

(** [payload::ConnectRC] and [reply::ConnectRC]. *)
Definition connect_payload (gid : ib_gid) (lid qpn : Z) : list Z :=
  gid_bytes gid ++ le 2 lid ++ [0; 0] ++ le 4 qpn.
Definition connect_reply (gid : ib_gid) (lid qpn qd : Z) : list Z :=
  gid_bytes gid ++ le 2 lid ++ [0; 0] ++ le 4 qpn ++ le 8 qd.

(** A connection at the request of a client.  The results of the three transitions
    are not looked at. *)
Definition connect_rc_handler (req_va reply_va : Z) : K Z :=
  l ← onW (kread req_va 24);
  let gid := gid_of (take 16 l) in
  let lid := word_at 16 2 l in
  let qpn := word_at 20 4 l in
  ctrl ← get_global_rctrl 0;
  ctx ← ask (fun w => get_context w ctrl);
  cq ← ask (fun w => get_recv_cq w ctrl);
  rc ← onW (rc_new_with_srq ctx cq);
  qp ← unwrap rc;
  ib_qp ← ask (fun w => rc_qp w qp);
  _ ← onW (bring_to_init ib_qp);
  _ ← onW (bring_init_to_rtr ib_qp qpn lid gid);
  _ ← onW (bring_rtr_to_rts ib_qp);
  node ← get_rpc_client 0;
  new_key ← onW (get_next_in_qp_key ctrl 0);
  me ← ask (fun w => rpc_end_point w node);
  num ← ask (fun w => rc_qp_num w qp);
  _ ← onW (register_rc ctrl new_key qp);
  _ ← onW (kwrite reply_va (connect_reply (EndPoint.gid me) (EndPoint.lid me) num new_key));
  mret 32.

Definition disconnect_rc_handler (req_va reply_va : Z) : K Z :=
  l ← onW (kread req_va 8);
  ctrl ← get_global_rctrl 0;
  _ ← onW (dereg_rc ctrl (word_at 0 8 l));
  _ ← onW (kwrite reply_va (le 4 0));
  mret 4.

(** What the library runs for a registered handler. *)
Definition run_handler (h : handler) : Z -> Z -> K Z :=
  match h with
  | reg_dc_meta => reg_dc_meta_handler
  | dereg_dc_meta => dereg_dc_meta_handler
  | query_dc_meta => query_dc_meta_handler
  | connect_rc => connect_rc_handler
  | disconnect_rc => disconnect_rc_handler
  end.

Definition fill_handler_table (rpc_client : ptr) : K unit :=
  _ ← onW (reg_handler rpc_client (value RegisterDCMeta) reg_dc_meta);
  _ ← onW (reg_handler rpc_client (value DeregisterDcMeta) dereg_dc_meta);
  _ ← onW (reg_handler rpc_client (value QueryDCMeta) query_dc_meta);
  _ ← onW (reg_handler rpc_client (value ConnectRC) connect_rc);
  onW (reg_handler rpc_client (value DisconnectRC) disconnect_rc).

(** ** The callers *)
Definition call_reg_dc_meta (meta_point : point) : K (option Z) :=
  caller_client ← get_rpc_client 1;
  local_point ← ask (fun w => rpc_end_point w caller_client);
  random ← onW getrandom;
  let clone := self_clone local_point in
  let payload := reg_payload (EndPoint.gid local_point) random clone in
  r ← onW (rpc_call caller_client meta_point (value RegisterDCMeta) payload 8 (500 * 1000));
  _ ← onW (point_drop clone);
  mret (word_at 0 8 <$> r).

Definition call_query_dc_meta (meta_point : point) (query_gid : list Z) : K (option point) :=
  caller_client ← get_rpc_client 1;
  let payload := gid_bytes (str_to_gid query_gid) in
  r ← onW (rpc_call caller_client meta_point (value QueryDCMeta) payload point_size (5 * 1000));
  mret (point_of <$> r).

Definition call_dereg_dc_meta (meta_point : point) : K (option Z) :=
  caller_client ← get_rpc_client 1;
  local_point ← ask (fun w => rpc_end_point w caller_client);
  r ← onW (rpc_call caller_client meta_point (value DeregisterDcMeta) (gid_bytes (EndPoint.gid local_point)) 8 (5 * 1000));
  mret (word_at 0 8 <$> r).

Definition call_connect_rc (meta_point : point) (local_qpn : Z) : K (option (ib_gid * Z * Z * Z)) :=
  caller_client ← get_rpc_client 1;
  me ← ask (fun w => rpc_end_point w caller_client);
  let payload := connect_payload (EndPoint.gid me) (EndPoint.lid me) local_qpn in
  r ← onW (rpc_call caller_client meta_point (value ConnectRC) payload 32 (15 * 1000));
  mret ((fun l => (gid_of (take 16 l), word_at 16 2 l, word_at 20 4 l, word_at 24 8 l)) <$> r).

Definition call_disconnect_rc (meta_point : point) (qd : Z) : K (option Z) :=
  caller_client ← get_rpc_client 1;
  r ← onW (rpc_call caller_client meta_point (value DisconnectRC) (le 8 qd) 4 (5 * 1000));
  mret (word_at 0 4 <$> r).

(** ** The module's client *)
Section client.
Context (meta_server_gid : list Z).

(** The path to the meta server, at most sixteen tries. *)
Fixpoint explore_meta (n : nat) (ctx : ptr) : K (option sa_path_rec) :=
  p ← onW (explore_path ctx meta_server_gid 0);
  match p with
  | Some path => mret (Some path)
  | None => match n with O => mret None | S n => explore_meta n ctx end
  end.

(** The meta server: a path, its end point, and the address of its table.  Without
    an answer the address is that of a block of this machine. *)
Definition conn_meta : K (option unit) :=
  meta_pa ← get_global_meta_kv_mem;
  _ ← onX (set_kv_pa meta_pa);
  g ← getX;
  ctx ← unwrap (allrcontexts g !! 0%nat);
  path ← explore_meta 15 ctx;
  match path with
  | None => mret None
  | Some path =>
      sidr ← onW (sidr_new ctx);
      sidr_cm ← unwrap sidr;
      remote_info ← onW (sidr_connect sidr_cm path 0 DEFAULT_RPC_HINT);
      match remote_info with
      | Err _ => _ ← onW (sidr_drop sidr_cm); mret None
      | Ok p =>
          _ ← insert_meta meta_server_gid p;
          meta_point ← get_remote_dc_meta_unsafe meta_server_gid;
          reply ← call_reg_dc_meta meta_point;
          _ ← match reply with Some pa => onX (set_kv_pa pa) | None => mret () end;
          _ ← onW (sidr_drop sidr_cm);
          mret (Some ())
      end
  end.

(** [_add_one] of every device the core announces; a device without a context is
    left out. *)
Fixpoint add_devices (devs : list ptr) : K unit :=
  match devs with
  | [] => mret ()
  | dev :: devs =>
      nic ← onW (nic_create dev 1);
      _ ← match nic with
          | Ok nic => g ← getX; onX (set_nics (allnics g ++ [nic]))
          | Err _ => mret ()
          end;
      add_devices devs
  end.

Fixpoint create_contexts (nics : list ptr) : K unit :=
  match nics with
  | [] => mret ()
  | nic :: nics =>
      ctx ← onW (ctx_create nic);
      ctx ← unwrap ctx;
      g ← getX;
      _ ← onX (set_contexts (allrcontexts g ++ [ctx]));
      create_contexts nics
  end.

(** The controls of the services, one for each device. *)
Fixpoint create_ctrls (ids : list (Z * Z)) : K unit :=
  match ids with
  | [] => mret ()
  | (i, j) :: ids =>
      ctx ← get_global_rcontext j;
      c ← onW (ctrl_create i ctx);
      c ← unwrap c;
      g ← getX;
      _ ← onX (set_rctrls (rctrls g ++ [c]));
      create_ctrls ids
  end.
Definition ctrl_ids (nics : nat) : list (Z * Z) :=
  i ← seqZ 0 MAX_SERVICE_NUM; pair i <$> seqZ 0 (Z.of_nat nics).

Fixpoint create_clients (idxs : list Z) : K unit :=
  match idxs with
  | [] => mret ()
  | i :: idxs =>
      ctx ← get_global_rcontext 0;
      ctrl ← get_global_rctrl (i * 2);
      mr ← ask (fun w => get_self_test_mr w ctrl);
      num ← ask (fun w => get_dc_num w ctrl);
      ud ← ask (fun w => ctrl_ud w ctrl DEFAULT_RPC_HINT);
      ud ← unwrap ud;
      c ← onW (rpc_create ctx ud num mr);
      g ← getX;
      _ ← onX (set_clients (rpc_clients g ++ [c]));
      create_clients idxs
  end.

Fixpoint fill_handlers (cs : list ptr) : K unit :=
  match cs with [] => mret () | c :: cs => _ ← fill_handler_table c; fill_handlers cs end.

Fixpoint create_mems (n : nat) : K unit :=
  match n with
  | O => mret ()
  | S n =>
      m ← onW (mem_new (1024 * 4));
      g ← getX;
      _ ← onX (set_mems (global_mem g ++ [m]));
      create_mems n
  end.

(** [Client::create]; [devs] are the devices of the machine. *)
Definition create (devs : list ptr) : K (option unit) :=
  _ ← onW register_client;
  _ ← add_devices devs;
  g ← getX;
  if Nat.eqb (length (allnics g)) 0 then _ ← onW unregister_client; mret None
  else
    _ ← create_contexts (allnics g);
    _ ← create_ctrls (ctrl_ids (length (allnics g)));
    _ ← create_clients [0; 1];
    g ← getX;
    _ ← fill_handlers (rpc_clients g);
    _ ← create_mems 12;
    _ ← (if f_rpc_server then c ← unwrap (rpc_clients g !! 0%nat); onW (kthread_poll_all c) else mret ());
    if f_meta_kv then r ← conn_meta; match r with None => mret None | Some _ => mret (Some ()) end
    else mret (Some ()).

Fixpoint drop_all (f : ptr -> M W unit) (l : list ptr) : K unit :=
  match l with [] => mret () | p :: l => _ ← onW (f p); drop_all f l end.
Fixpoint drop_points (l : list point) : K unit :=
  match l with [] => mret () | p :: l => _ ← onW (point_drop p); drop_points l end.

(** [Drop for Client]. *)
Definition drop_client : K unit :=
  _ ← (if f_meta_kv then
         remote_point ← get_remote_dc_meta_unsafe meta_server_gid;
         _ ← call_dereg_dc_meta remote_point; mret ()
       else mret ());
  g ← getX;
  _ ← onX (set_info ∅);
  _ ← drop_points (omap (fun k => meta_info g !! k) (keys (meta_info g)));
  _ ← onX (set_clients []);
  _ ← drop_all rpc_drop (rpc_clients g);
  _ ← onX (set_rctrls []);
  _ ← drop_all ctrl_drop (rctrls g);
  _ ← drop_all ctx_reset (allrcontexts g);
  onW unregister_client.

End client.
End meta.
