(* ===== verification/OneSided.v ===== *)
(** * One-sided virtual queues

    The file operations of [/dev/krdma] in the one-sided KRCORE module
    (src/KRdmaKit-syscall/src/virtual_queue.rs and core.rs).  A queue sends through
    a shared DC queue pair until its own reliable connection is there; with the
    feature [migrate_qp] a kernel thread makes that connection in the background
    and puts it into the queue.

    The state of an open file is the memory of the process and the queue, beside
    the library and the globals of [MetaKv].  The thread runs between two batches of
    a push: [bg i] is what it does before batch [i]. *)

From S2P Require Import Prelude Bytes Errors Verbs CmVerbs Sim Guid Context CompletionQueue QueuePair BringUp.
From S2P Require Import CommManager RecvHelper SysQp SysCtrl SysAbi VirtualQueue KrLib MetaKv.

#[local] Open Scope Z_scope.

(** The commands this module has beside those of [lib_r_cmd]. *)
Definition cmd_RegMRs : Z := 9.
Definition cmd_RpcPoll : Z := 10.

Module One.

(** The caches of a queue. *)
Record LocalCache := mkCache {
  path_rec_cache : gmap (list Z) sa_path_rec; dct_meta_cache : gmap (list Z) RCtrl.DCTargetMeta;
  local_mr : option TempMR; cached_client_endpoint : gmap Z point; remote_endpoint : option point }.

Record RCConnectParam := mkParam { p_vid : Z; p_port : Z; p_path : sa_path_rec }.

Record VQ := mkVQ {
  virtual_queue : option ptr; local_dc : option ptr; local_ud : option ptr;
  rc_connect_param : option RCConnectParam; local_cache : LocalCache;
  bind_port : option Z; local_connect_port : option Z; put_ud_info : bool }.

Definition set_queue x q := mkVQ x (local_dc q) (local_ud q) (rc_connect_param q) (local_cache q) (bind_port q) (local_connect_port q) (put_ud_info q).
Definition set_local x y q := mkVQ (virtual_queue q) x y (rc_connect_param q) (local_cache q) (bind_port q) (local_connect_port q) (put_ud_info q).
Definition set_param x q := mkVQ (virtual_queue q) (local_dc q) (local_ud q) x (local_cache q) (bind_port q) (local_connect_port q) (put_ud_info q).
Definition set_cache (f : LocalCache -> LocalCache) q := mkVQ (virtual_queue q) (local_dc q) (local_ud q) (rc_connect_param q) (f (local_cache q)) (bind_port q) (local_connect_port q) (put_ud_info q).
Definition set_bind x q := mkVQ (virtual_queue q) (local_dc q) (local_ud q) (rc_connect_param q) (local_cache q) x (local_connect_port q) (put_ud_info q).
Definition set_port x q := mkVQ (virtual_queue q) (local_dc q) (local_ud q) (rc_connect_param q) (local_cache q) (bind_port q) x (put_ud_info q).
Definition set_put x q := mkVQ (virtual_queue q) (local_dc q) (local_ud q) (rc_connect_param q) (local_cache q) (bind_port q) (local_connect_port q) x.

Definition set_paths x c := mkCache x (dct_meta_cache c) (local_mr c) (cached_client_endpoint c) (remote_endpoint c).
Definition set_metas x c := mkCache (path_rec_cache c) x (local_mr c) (cached_client_endpoint c) (remote_endpoint c).
Definition set_mr x c := mkCache (path_rec_cache c) (dct_meta_cache c) x (cached_client_endpoint c) (remote_endpoint c).
Definition set_clients x c := mkCache (path_rec_cache c) (dct_meta_cache c) (local_mr c) x (remote_endpoint c).
Definition set_remote x c := mkCache (path_rec_cache c) (dct_meta_cache c) (local_mr c) (cached_client_endpoint c) x.

(** An open file: the memory of the process, and the queue. *)
Record file := mkFile { user : umem; self : VQ }.

Section one.
Context {W : Type} `{!Cfg, !OneCfg, !KrLib W}.
Context (meta_server_gid : list Z).
Abbreviation K := (M (W * globals * file)).

(** The globals and the library from an open file. *)
Definition sys {A} (m : M (W * globals) A) : K A := onW m.
Definition lib {A} (m : M W A) : K A := onW (onW m).
Definition ask {A} (f : W -> A) : K A := lib (gets f).

Definition get_self : K VQ := f ← getX; mret (self f).
Definition on_self (g : VQ -> VQ) : K unit := onX (fun f => mkFile (user f) (g (self f))).
Definition on_cache (g : LocalCache -> LocalCache) : K unit := on_self (set_cache g).

Definition from_user (src : Z) (n : nat) : K (list Z) :=
  f ← getX; mret (fst (copy_from_user (user f) src n)).
Definition to_user (dst : Z) (l : list Z) : K Z :=
  f ← getX;
  let '(m, n) := copy_to_user (user f) dst l in
  _ ← onX (fun f => mkFile m (self f)); mret n.
Definition uaddr (a off : Z) : K Z := lift (add_u64 overflow_checks a off).

Definition drop_opt {A} (d : A -> M W unit) (o : option A) : K unit :=
  match o with Some a => lib (d a) | None => mret () end.

(** ** core.rs *)

(** A reliable connection to the service [port]; [None] when none can be created. *)
Definition qp_connect (vid port : Z) (path : sa_path_rec) : K (Result Error (option ptr)) :=
  ctrl ← sys (get_global_rctrl port);
  ctx ← ask (fun w => get_context w ctrl);
  cq ← ask (fun w => get_recv_cq w ctrl);
  rc ← lib (rc_new_with_srq ctx cq);
  match rc with
  | None => mret (Ok None)
  | Some qp =>
      r ← lib (rc_connect qp vid path port);
      match r with
      | Err e => _ ← lib (rc_drop qp); mret (Err e)
      | Ok _ => mret (Ok (Some qp))
      end
  end.

Definition status_of {A} (r : Result Error A) : Z :=
  match r with Ok _ => reply_status.ok | Err _ => reply_status.err end.

Definition post_recv (core_id post_cnt vid : Z) : K Z :=
  ctrl ← sys (get_global_rctrl core_id);
  rc ← ask (fun w => get_trc w ctrl vid);
  rc ← unwrap rc;
  qp ← ask (fun w => rc_qp w rc);
  r ← lib (post_recvs ctrl qp post_cnt);
  mret (status_of r).

Definition pop_recv (core_id pop_cnt off : Z) : K (option ptr * Z) :=
  ctrl ← sys (get_global_rctrl core_id);
  cq ← ask (fun w => get_recv_cq w ctrl);
  r ← lib (pop_recvs ctrl cq pop_cnt off);
  match r with Ok x => mret x | Err _ => panic end.

(** One completion: its message is copied behind itself in the kernel's memory,
    and the completion to the process. *)
Definition put_wc (wcs buf payload_sz i : Z) : K unit :=
  wc ← ask (fun w => wc_at w wcs i);
  let va := wc_wr_id wc in
  dst ← uaddr va payload_sz;
  l ← lib (kread va (Z.to_nat payload_sz));
  _ ← lib (kwrite dst l);
  a ← uaddr buf (16 + i * 24);
  _ ← to_user a (user_wc_bytes (mkUserWc (wc_opcode wc) (wc_status wc) (u32 (wc_imm wc)) (wc_wr_id wc)));
  mret ().

Fixpoint put_wcs (wcs buf payload_sz i : Z) (n : nat) : K unit :=
  match n with
  | O => mret ()
  | S n => _ ← put_wc wcs buf payload_sz i; put_wcs wcs buf payload_sz (i + 1) n
  end.

Definition handle_pop_ret (pop_ret : option ptr) (buf wc_len payload_sz : Z) : K Z :=
  match pop_ret with
  | Some wcs =>
      _ ← put_wcs wcs buf payload_sz 0 (Z.to_nat wc_len);
      a ← uaddr buf (16 + pop_wc_len * 24);
      _ ← to_user a (le 4 wc_len);
      mret reply_status.ok
  | None => mret reply_status.nil
  end.

(** The thread that makes the reliable connection.  The assignment drops the
    connection the queue had. *)
Definition bg_rc_migrate_thread : K Z :=
  q ← get_self;
  p ← unwrap (rc_connect_param q);
  match virtual_queue q with
  | Some _ => mret 0
  | None =>
      r ← qp_connect (p_vid p) (p_port p) (p_path p);
      match r with
      | Ok qp =>
          if f_virtual_queue then
            q ← get_self;
            _ ← on_self (set_queue qp);
            _ ← drop_opt rc_drop (virtual_queue q);
            mret 0
          else _ ← drop_opt rc_drop qp; mret 0
      | Err _ => mret 0
      end
  end.

(** ** virtual_queue.rs *)

(** A new queue uses the first memory block, with the key of the first context. *)
Definition default_cache : M (W * globals) LocalCache :=
  pa ← get_global_test_mem_pa 0;
  ctx ← get_global_rcontext 0;
  lkey ← MetaKv.ask (fun w => get_lkey w ctx);
  mret (mkCache ∅ ∅ (Some (mkTempMR pa (u32 MAX_KMALLOC_SZ) lkey)) ∅ None).
Definition open : M (W * globals) VQ :=
  cache ← default_cache;
  mret (mkVQ None None None None cache None None false).

Definition get_dc : K ptr := q ← get_self; unwrap (local_dc q).
Definition get_ud : K ptr := q ← get_self; unwrap (local_ud q).
Definition get_mr : K TempMR := q ← get_self; unwrap (local_mr (local_cache q)).

(** *** Binding *)
Definition is_bind_mode : K bool := q ← get_self; mret (bool_decide (is_Some (bind_port q))).
Definition get_bind_ctrl_unsafe : K ptr :=
  q ← get_self; port ← unwrap (bind_port q); sys (get_bind_ctrl port).
Definition check_bind (vid : Z) : K bool :=
  q ← get_self;
  match bind_port q with
  | None => mret false
  | Some port =>
      ctrl ← sys (get_bind_ctrl port);
      rc ← ask (fun w => get_trc w ctrl vid);
      mret (bool_decide (is_Some rc))
  end.

(** *** Paths *)
Definition explore_path (port : Z) (addr : list Z) : K (Result Error sa_path_rec) :=
  q ← get_self;
  match path_rec_cache (local_cache q) !! addr with
  | Some p => mret (Ok p)
  | None =>
      ctrl ← sys (get_global_rctrl port);
      ctx ← ask (fun w => get_context w ctrl);
      p ← lib (KrLib.explore_path ctx addr port);
      ret ← unwrap p;
      _ ← on_cache (fun c => set_paths (<[addr := ret]> (path_rec_cache c)) c);
      mret (Ok ret)
  end.

(** *** The lookup at the meta server

    The number of the entries is read, then the entries.  The results of the reads
    are not looked at. *)
Definition dc_read (dc : ptr) (local_pa lkey len remote_pa rkey : Z) (p : point) : K unit :=
  r ← lib (dc_push dc IB_WR_RDMA_READ local_pa lkey len remote_pa rkey p [IB_SEND_SIGNALED]);
  match r with Ok _ => _ ← lib (dc_wait_til_comp dc); mret () | Err _ => mret () end.

Fixpoint find_point (target : ib_gid) (va : Z) (n : nat) : K (option point) :=
  match n with
  | O => mret None
  | S n =>
      l ← lib (kread va point_size);
      let cur := point_of l in
      if gid_eq (EndPoint.gid cur) target then mret (Some (self_clone cur))
      else find_point target (va + Z.of_nat point_size) n
  end.

(** [usize] multiplication. *)
Definition mul_u64 (a b : Z) : outcome Z :=
  if a * b <? 2 ^ 64 then Done (a * b) else if overflow_checks then Panic else Done (u64 (a * b)).

Definition query_dct_meta (remote_gid : list Z) : K (option point) :=
  meta_point ← sys (get_remote_dc_meta_unsafe meta_server_gid);
  dc ← get_dc;
  mr ← get_mr;
  let rkey := mr_key (EndPoint.mr meta_point) in
  let local_pa := mr_addr mr in
  let local_va := pa_va local_pa in
  g ← sys getX;
  let remote_pa := meta_kv_pa g in
  _ ← dc_read dc local_pa (mr_key mr) 8 remote_pa rkey meta_point;
  remote_base_pa ← uaddr remote_pa 8;
  local_base_pa ← uaddr local_pa 8;
  l ← lib (kread local_va 8);
  let entries_num := unle l in
  read_len ← lift (mul_u64 entries_num (Z.of_nat point_size));
  _ ← dc_read dc local_base_pa (mr_key mr) read_len remote_base_pa rkey meta_point;
  find_point (str_to_gid remote_gid) (pa_va local_base_pa) (Z.to_nat entries_num).

(** *** Connecting *)

(** Without the DC transport: a path and a reliable connection. *)
Definition connect_rc (vid : Z) (addr : list Z) (port : Z) : K Z :=
  path ← explore_path port addr;
  match path with
  | Err _ => mret reply_status.err
  | Ok path =>
      r ← qp_connect vid port path;
      match r with
      | Ok qp =>
          _ ← (if f_virtual_queue then on_self (set_queue qp) else drop_opt rc_drop qp);
          mret reply_status.ok
      | Err _ => mret reply_status.err
      end
  end.

(** The thread is started with the parameters of the connection. *)
Definition start_migration (vid : Z) (addr : list Z) (port : Z) : K (Result Error unit) :=
  path ← explore_path port addr;
  match path with
  | Err e => mret (Err e)
  | Ok path => _ ← on_self (set_param (Some (mkParam vid port path))); mret (Ok ())
  end.

(** The peer's end point from its connection manager. *)
Definition query_sidr (ctx : ptr) (addr : list Z) (port : Z) : K (Result Error point) :=
  path ← explore_path port addr;
  match path with
  | Err e => mret (Err e)
  | Ok path =>
      sidr ← lib (sidr_new ctx);
      sidr_cm ← unwrap sidr;
      r ← lib (sidr_connect sidr_cm path port DEFAULT_RPC_HINT);
      _ ← lib (sidr_drop sidr_cm);
      mret r
  end.

(** The peer's end point with a handle of this host; the assignment drops the end
    point of an earlier connect. *)
Definition keep_point (ctx : ptr) (key : list Z) (p : point) : K unit :=
  pd ← ask (fun w => get_pd w ctx);
  e ← lib (point_new pd (EndPoint.qpn p) (EndPoint.qkey p) (EndPoint.lid p) (EndPoint.gid p)
             (EndPoint.dct_num p) (EndPoint.mr p));
  q ← get_self;
  _ ← on_cache (set_remote (Some e));
  _ ← drop_opt point_drop (remote_endpoint (local_cache q));
  _ ← (if f_meta_cache then
         let meta := RCtrl.mkMeta (EndPoint.dct_num p) (EndPoint.lid p) (EndPoint.gid p) (EndPoint.mr p) in
         on_cache (fun c => set_metas (<[key := meta]> (dct_meta_cache c)) c)
       else mret ());
  lib (point_drop p).

Definition connect_dct (vid : Z) (addr : list Z) (port : Z) (ctrl : ptr) : K Z :=
  let key := addr ++ to_string port in
  q ← get_self;
  match dct_meta_cache (local_cache q) !! key with
  | Some _ => mret reply_status.ok
  | None =>
      started ← (if f_migrate_qp then start_migration vid addr port else mret (Ok ()));
      match started with
      | Err _ => mret reply_status.err
      | Ok _ =>
          ctx ← ask (fun w => get_context w ctrl);
          p ← (if f_meta_kv then query_dct_meta addr else mret None);
          r ← match p with Some p => mret (Ok p) | None => query_sidr ctx addr port end;
          match r with
          | Err _ => mret reply_status.err
          | Ok p => _ ← keep_point ctx key p; mret reply_status.ok
          end
      end
  end.

Definition connect_impl (addr : list Z) (port vid : Z) : K Z :=
  q ← get_self;
  match virtual_queue q with
  | Some _ => mret reply_status.already_connected
  | None =>
      addr_p ← lift (Guid.Guid.from_str addr);
      match addr_p with
      | Err _ => mret reply_status.addr_error
      | Ok _ =>
          ctrl ← sys (get_global_rctrl port);
          mr ← ask (fun w => get_self_test_mr w ctrl);
          lkey ← ask (fun w => get_lkey w (get_context w ctrl));
          _ ← on_cache (set_mr (Some (mkTempMR (mr_addr mr) (u32 MAX_KMALLOC_SZ) lkey)));
          _ ← on_self (set_port (Some port));
          q ← get_self;
          _ ← match local_dc q with
              | None =>
                  dc ← ask (fun w => ctrl_dc w ctrl);
                  ud ← ask (fun w => ctrl_ud w ctrl DEFAULT_RPC_HINT);
                  on_self (set_local dc ud)
              | Some _ => mret ()
              end;
          if f_dct_qp then connect_dct vid addr port ctrl else connect_rc vid addr port
      end
  end.

(** *** Receiving *)
Definition push_recv_impl (push_cnt : Z) : K Z :=
  q ← get_self;
  match bind_port q with
  | Some port =>
      bound ← check_bind 1;
      if negb bound then mret reply_status.not_connected else post_recv (port * 2) push_cnt 1
  | None =>
      match local_connect_port q with
      | None => mret reply_status.not_connected
      | Some port =>
          ctrl ← sys (get_global_rctrl port);
          qp ← match virtual_queue q with
               | Some rc => ask (fun w => rc_qp w rc)
               | None => ud ← get_ud; ask (fun w => ud_qp w ud)
               end;
          r ← lib (post_recvs ctrl qp push_cnt);
          mret (status_of r)
      end
  end.

(** The loop of a queue that is not bound; [None] is a loop that outlives its fuel. *)
Fixpoint pop_msg_loop (fuel : nat) (connect_port : option Z) (buf least_pop_cnt payload_sz retry act_pop_cnt : Z) :
  K (option Z) :=
  match fuel with
  | O => mret None
  | S fuel =>
      '(pop_ret, pop_cnt) ← match connect_port with
                            | None => mret (None, 0)
                            | Some port => pop_recv port 2048 act_pop_cnt
                            end;
      let act_pop_cnt := act_pop_cnt + pop_cnt in
      if (least_pop_cnt <=? act_pop_cnt) || (50000 <? retry) then
        r ← handle_pop_ret pop_ret buf act_pop_cnt payload_sz; mret (Some r)
      else pop_msg_loop fuel connect_port buf least_pop_cnt payload_sz (retry + 1) act_pop_cnt
  end.
Definition pop_msg_impl (buf least_pop_cnt payload_sz : Z) : K Z :=
  q ← get_self;
  match bind_port q with
  | Some port =>
      '(pop_ret, pop_cnt) ← pop_recv (2 * port) 2048 0;
      handle_pop_ret pop_ret buf pop_cnt payload_sz
  | None =>
      r ← pop_msg_loop (Z.to_nat 50002) (local_connect_port q) buf least_pop_cnt payload_sz 0 0;
      unwrap r
  end.

(** A completion of the own connection, of the DC queue pair first. *)
Definition pop_rc (q : VQ) : K (option ptr) :=
  match virtual_queue q with Some rc => lib (rc_pop rc) | None => mret None end.
Definition pop_impl (buf vid : Z) : K Z :=
  q ← get_self;
  pop_ret ← match bind_port q with
            | Some _ =>
                bound ← check_bind vid;
                if negb bound then mret None
                else
                  ctrl ← get_bind_ctrl_unsafe;
                  rc ← ask (fun w => get_trc w ctrl vid);
                  rc ← unwrap rc;
                  lib (rc_pop rc)
            | None =>
                if f_dct_qp then
                  dc ← get_dc;
                  res ← lib (dc_pop dc);
                  match res with Some _ => mret res | None => pop_rc q end
                else pop_rc q
            end;
  handle_pop_ret pop_ret buf 1 0.

(** *** Pushing *)
Fixpoint push_each {A} (push : core_req_t -> A -> K (Result Error unit * A)) (reqs : list core_req_t) (a : A) : K Z :=
  match reqs with
  | [] => mret reply_status.ok
  | req :: reqs =>
      '(r, a) ← push req a;
      match r with Ok _ => push_each push reqs a | Err _ => mret reply_status.err end
  end.

(** The addresses of a request are offsets into the two memory regions; a short
    write is sent inline, from its virtual address. *)
Definition wr_of (mr rmr : TempMR) (req : core_req_t) : K (ib_wr_opcode * Z * Z * list ib_send_flag) :=
  laddr ← uaddr (mr_addr mr) (cr_addr req);
  raddr ← uaddr (cr_remote_addr req) (mr_addr rmr);
  op_code ← lift (op_code_table (cr_type req));
  let inline := VQ.inlined (cr_length req) op_code in
  let laddr := if inline then pa_va laddr else laddr in
  mret (op_code, laddr, raddr, VQ.send_flag inline (cr_send_flags req)).

Definition rc_push_one (qp : ptr) (mr rmr : TempMR) (req : core_req_t) (_ : unit) :
  K (Result Error unit * unit) :=
  '(op_code, laddr, raddr, flag) ← wr_of mr rmr req;
  r ← lib (rc_push_with_imm qp op_code laddr (mr_key mr) (cr_length req) raddr (mr_key rmr) (cr_vid req) flag);
  mret (r, ()).
Definition rc_push_impl (reqs : list core_req_t) : K Z :=
  q ← get_self;
  match virtual_queue q with
  | None => mret reply_status.nil
  | Some qp =>
      mr ← get_mr;
      rmr ← ask (fun w => rc_remote_mr w qp);
      push_each (rc_push_one qp mr rmr) reqs ()
  end.

Definition dc_push_one (dc : ptr) (p : point) (mr : TempMR) (req : core_req_t) (_ : unit) :
  K (Result Error unit * unit) :=
  '(op_code, laddr, raddr, flag) ← wr_of mr (EndPoint.mr p) req;
  r ← lib (dc_push dc op_code laddr (mr_key mr) (cr_length req) raddr (mr_key (EndPoint.mr p)) p flag);
  mret (r, ()).
Definition dc_push_impl (reqs : list core_req_t) : K Z :=
  mr ← get_mr;
  q ← get_self;
  match local_dc q with
  | None => mret reply_status.nil
  | Some dc =>
      p ← unwrap (remote_endpoint (local_cache q));
      push_each (dc_push_one dc p mr) reqs ()
  end.

(** The datagrams of [ud_push_impl], which no command uses: the address of this end
    goes to the head of the block once; the assignment drops what was there. *)
Definition put_self_point (ud : ptr) (port va : Z) : K unit :=
  ctrl ← sys (get_global_rctrl port);
  qpn ← ask (fun w => ud_qp_num w ud);
  qkey ← ask (fun w => ud_qkey w ud);
  lid ← ask (fun w => get_lid w (get_context w ctrl));
  gid ← ask (fun w => get_gid w (get_context w ctrl));
  num ← ask (fun w => get_dc_num w ctrl);
  mr ← ask (fun w => get_self_test_mr w ctrl);
  old ← lib (kread va point_size);
  _ ← lib (point_drop (point_of old));
  _ ← lib (kwrite va (point_bytes (EndPoint.mkEndPoint qpn qkey lid gid num mr null)));
  on_self (set_put true).
Definition ud_push_one (ud : ptr) (p : point) (va lkey : Z) (req : core_req_t) (laddr : Z) :
  K (Result Error unit * Z) :=
  op_code ← lift (op_code_table (cr_type req));
  let inline := VQ.inlined (cr_length req) op_code in
  let laddr := if inline then va else laddr in
  r ← lib (ud_push ud op_code laddr lkey p (cr_length req) (cr_vid req) (VQ.send_flag inline (cr_send_flags req)));
  mret (r, laddr).
Definition ud_push_impl (reqs : list core_req_t) : K Z :=
  mr ← get_mr;
  q ← get_self;
  match local_ud q, local_connect_port q with
  | Some ud, Some port =>
      p ← unwrap (remote_endpoint (local_cache q));
      let va := pa_va (mr_addr mr) in
      _ ← (if put_ud_info q then mret () else put_self_point ud port va);
      push_each (ud_push_one ud p va (mr_key mr)) reqs (mr_addr mr)
  | _, _ => mret reply_status.nil
  end.

(** *** Replies of a bound queue *)

(** The end point of the client, from the message it sent, with a handle of this
    host; an entry that is replaced is dropped. *)
Definition client_endpoint (vid : Z) (ctrl : ptr) (remote_addr : Z) : K point :=
  wr_id ← uaddr remote_addr UD_HEADER_SZ;
  q ← get_self;
  match cached_client_endpoint (local_cache q) !! vid with
  | Some p => mret p
  | None =>
      l ← lib (kread wr_id point_size);
      let p := point_of l in
      pd ← ask (fun w => get_pd w (get_context w ctrl));
      e ← lib (point_new pd (EndPoint.qpn p) (EndPoint.qkey p) (EndPoint.lid p) (EndPoint.gid p)
                 (EndPoint.dct_num p) (EndPoint.mr p));
      _ ← on_cache (fun c => set_clients (<[vid := e]> (cached_client_endpoint c)) c);
      mret e
  end.

Definition bind_push_one (mr : TempMR) (rkey : Z) (req : core_req_t) (n : VQ.counts) :
  K (Result Error unit * VQ.counts) :=
  let vid := cr_vid req mod VQ.HOST_LEN in
  bound ← check_bind vid;
  ctrl ← get_bind_ctrl_unsafe;
  if negb bound then
    endpoint ← client_endpoint vid ctrl (cr_remote_addr req);
    ud ← ask (fun w => ctrl_ud w ctrl DEFAULT_RPC_HINT);
    qp ← unwrap ud;
    op_code ← lift (op_code_table (cr_type req));
    r ← lib (ud_push qp op_code (mr_addr mr) (mr_key mr) endpoint 0 0
               (VQ.first_signaled (VQ.count (VQ.ud_pop_cnt_cache n) vid)));
    mret (r, VQ.mkCounts (VQ.rc_pop_cnt_cache n) (VQ.bump vid (VQ.ud_pop_cnt_cache n)))
  else
    rc ← ask (fun w => get_trc w ctrl vid);
    qp ← unwrap rc;
    laddr ← uaddr (mr_addr mr) (cr_addr req);
    raddr ← uaddr (cr_remote_addr req) (mr_addr mr);
    op_code ← lift (op_code_table (cr_type req));
    r ← lib (rc_push_with_imm qp op_code laddr (mr_key mr) (cr_length req) raddr rkey (u32 vid)
               (VQ.first_signaled (VQ.count (VQ.rc_pop_cnt_cache n) vid)));
    mret (r, VQ.mkCounts (VQ.bump vid (VQ.rc_pop_cnt_cache n)) (VQ.ud_pop_cnt_cache n)).

Fixpoint bind_push_each (mr : TempMR) (rkey : Z) (reqs : list core_req_t) (n : VQ.counts) : K (Z * VQ.counts) :=
  match reqs with
  | [] => mret (reply_status.ok, n)
  | req :: reqs =>
      '(r, n) ← bind_push_one mr rkey req n;
      match r with Ok _ => bind_push_each mr rkey reqs n | Err _ => mret (reply_status.err, n) end
  end.

(** The receive requests of one client, and the wait for the reply that was
    signaled; whether all went well. *)
Definition repost_wait {A} (post : K (Result Error unit)) (wait : K (option A)) (cnt : Z) (pop_at_once : bool) : K bool :=
  if 0 <? cnt then
    r ← post;
    match r with
    | Err _ => mret false
    | Ok _ => if pop_at_once then wc ← wait; mret (bool_decide (is_Some wc)) else mret true
    end
  else mret true.
Definition repost (ctrl : ptr) (pop_at_once : bool) (n : VQ.counts) (vid : Z) : K bool :=
  ud_ok ← repost_wait (lib (ud_post_recv ctrl (VQ.count (VQ.ud_pop_cnt_cache n) vid)))
            (ud ← ask (fun w => ctrl_ud w ctrl DEFAULT_RPC_HINT); qp ← unwrap ud; lib (ud_wait_til_comp qp))
            (VQ.count (VQ.ud_pop_cnt_cache n) vid) pop_at_once;
  if (ud_ok : bool) then
    repost_wait (lib (trc_post_recv ctrl vid (VQ.count (VQ.rc_pop_cnt_cache n) vid)))
      (rc ← ask (fun w => get_trc w ctrl vid); qp ← unwrap rc; lib (rc_wait_til_comp qp))
      (VQ.count (VQ.rc_pop_cnt_cache n) vid) pop_at_once
  else mret false.
Fixpoint repost_all (ctrl : ptr) (pop_at_once : bool) (n : VQ.counts) (vids : list Z) : K Z :=
  match vids with
  | [] => mret reply_status.ok
  | vid :: vids =>
      b ← repost ctrl pop_at_once n vid;
      if (b : bool) then repost_all ctrl pop_at_once n vids else mret reply_status.err
  end.

Definition bind_server_push_impl (reqs : list core_req_t) (pop_at_once : bool) : K Z :=
  ctrl ← get_bind_ctrl_unsafe;
  mr ← get_mr;
  rkey ← ask (fun w => get_rkey w (get_context w ctrl));
  '(res, n) ← bind_push_each mr rkey reqs VQ.no_counts;
  if res =? reply_status.ok then repost_all ctrl pop_at_once n (seqZ 1 11) else mret res.

(** *** The system call *)
Definition u32_arg (arg off : Z) : K Z :=
  a ← uaddr arg (16 + off); l ← from_user a 4; mret (word_at 0 4 l).
Definition int_arg (arg : Z) : K Z := z ← u32_arg arg 0; mret (i32 z).

Definition connect_cmd (arg : Z) : K Z :=
  a ← uaddr arg 16;
  l ← from_user a (size_of connect_layout);
  let conn := connect_of l in
  let sz := Z.to_nat (Z.min 39 (u64 (c_addr_sz conn))) in
  text ← from_user (c_addr conn) sz;
  let addr_buf := text ++ replicate (39 - sz) 0 in
  if valid_utf8 addr_buf then
    connect_impl addr_buf (u64 (Z.rem (c_port conn) MAX_SERVICE_NUM)) (u64 (c_vid conn))
  else panic.

Definition push_batch (reqs : list core_req_t) (pop_at_once : bool) : K Z :=
  bind ← is_bind_mode;
  if (bind : bool) then bind_server_push_impl reqs pop_at_once
  else
    q ← get_self;
    if bool_decide (is_Some (virtual_queue q)) then rc_push_impl reqs else dc_push_impl reqs.

Section push.
Context (bg : nat -> K unit).

(** The batches until one of them fails; the thread runs before each of them. *)
Fixpoint push_loop (fuel : nat) (i : nat) (req_list req_len : Z) (pop_at_once : bool) (send_offset ret : Z) :
  K (option Z) :=
  if negb (send_offset <? req_len) then mret (Some ret)
  else
    match fuel with
    | O => mret None
    | S fuel =>
        let send_len := Z.min VQ.DEFAULT_BATCH_SZ (req_len - send_offset) in
        a ← uaddr req_list (send_offset * 40);
        l ← from_user a (Z.to_nat (send_len * 40));
        _ ← bg i;
        ret ← push_batch (core_reqs_of (Z.to_nat send_len) l) pop_at_once;
        let send_offset := send_offset + send_len in
        if ret =? reply_status.err then mret (Some ret)
        else push_loop fuel (S i) req_list req_len pop_at_once send_offset ret
    end.

(** The completion of a push that waits: of the datagram queue pair while there is
    no connection. *)
Definition wait_pushed : K (option ptr) :=
  q ← get_self;
  match virtual_queue q with
  | None => ud ← get_ud; lib (ud_wait_til_comp ud)
  | Some rc => lib (rc_wait_til_comp rc)
  end.

Definition push_cmd (arg : Z) : K Z :=
  a ← uaddr arg 16;
  l ← from_user a (size_of push_core_layout);
  b ← uaddr arg (16 + 16);
  x ← from_user b (size_of push_ext_layout);
  let req_len := field push_core_layout 0 l in
  let req_list := field push_core_layout 2 l in
  let push_recv_cnt := field push_ext_layout 0 x in
  let pop_at_once := negb (field push_ext_layout 1 x =? 0) in
  bind ← is_bind_mode;
  ret ← (if negb bind && (0 <? push_recv_cnt) then push_recv_impl push_recv_cnt else mret reply_status.ok);
  ret ← push_loop (Z.to_nat req_len) 0 req_list req_len pop_at_once 0 ret;
  ret ← unwrap ret;
  if negb bind && pop_at_once && (ret =? reply_status.ok) then
    wc ← wait_pushed;
    mret (match wc with None => reply_status.err | Some _ => ret end)
  else mret ret.

Definition bind_cmd (arg : Z) : K Z :=
  port ← int_arg arg;
  let port := u64 port in
  q ← get_self;
  match bind_port q with
  | Some _ => mret reply_status.already_bind
  | None =>
      if MAX_SERVICE_NUM <? port then mret reply_status.nil
      else _ ← on_self (set_bind (Some port)); mret reply_status.ok
  end.
Definition unbind_cmd (arg : Z) : K Z :=
  port ← int_arg arg;
  let port := u64 port in
  q ← get_self;
  match bind_port q with
  | None => mret reply_status.not_bind
  | Some bound =>
      if negb (bound =? port) then mret reply_status.not_bind
      else _ ← pop_recv (bound * 2) 2048 0; _ ← on_self (set_bind None); mret reply_status.ok
  end.

Definition rpc_poll_cmd : K Z :=
  _ ← (if f_rpc_server then mret () else c ← sys (get_rpc_client 0); lib (rpc_poll_all c));
  mret reply_status.ok.

Definition command (cmd arg buf : Z) : K Z :=
  if cmd =? lib_r_cmd.Nil then mret reply_status.ok
  else if cmd =? lib_r_cmd.Connect then connect_cmd arg
  else if cmd =? cmd_RegMRs then mret reply_status.ok
  else if cmd =? lib_r_cmd.Push then push_cmd arg
  else if cmd =? lib_r_cmd.PushRecv then n ← int_arg arg; push_recv_impl (u64 n)
  else if cmd =? lib_r_cmd.Pop then vid ← u32_arg arg 0; pop_impl buf vid
  else if cmd =? lib_r_cmd.PopMsgs then
    least ← u32_arg arg 0; payload_sz ← u32_arg arg 4; pop_msg_impl buf least payload_sz
  else if cmd =? lib_r_cmd.Binds then bind_cmd arg
  else if cmd =? lib_r_cmd.UnBinds then unbind_cmd arg
  else if cmd =? cmd_RpcPoll then rpc_poll_cmd
  else mret reply_status.err.

Definition ioctrl (cmd arg : Z) : K Z :=
  l ← from_user arg (size_of req_layout);
  q ← get_self;
  if (cmd =? lib_r_cmd.Connect) && bool_decide (is_Some (virtual_queue q)) then mret reply_status.already_connected
  else
    status ← command cmd arg (reply_buf l);
    to_user (reply_buf l) (reply_bytes status).

End push.
End one.
End One.
