(* ===== verification/MetaLookup.v ===== *)
(** * The meta server: what a remote lookup finds

    The table that the handlers of [MetaKv] write is the registry at the time of
    the last registration, and [query_dct_meta] of [OneSided], which reads it with
    one-sided operations, finds in it what the registry held then. *)

From S2P Require Import Prelude Bytes Errors Verbs CmVerbs Sim Guid Context CompletionQueue QueuePair BringUp.
From S2P Require Import CommManager RecvHelper SysQp SysCtrl SysAbi VirtualQueue KrLib MetaKv OneSided.

#[local] Open Scope Z_scope.

(** ** Requests and the abstract server *)

(** A machine announces itself, or leaves; a machine asks for another. *)
Inductive meta_req :=
| Register (p : point) (port : Z)
| Deregister (g : ib_gid)
| Query (g : ib_gid).

Abbreviation registry := (gmap (list Z) point).

Section spec.
Context {W : Type} `{!KrLib W}.

(** The registry, and what it was at the last registration. *)
Definition spec_step (st : registry * option registry) (r : meta_req) : registry * option registry :=
  match r with
  | Register p _ => let info := <[gid_to_str (EndPoint.gid p) := self_clone p]> (fst st) in (info, Some info)
  | Deregister g => (delete (gid_to_str g) (fst st), snd st)
  | Query _ => st
  end.
Definition spec_run (st : registry * option registry) (rs : list meta_req) := foldl spec_step st rs.

(** The machines that announce themselves. *)
Definition machines (rs : list meta_req) : gset (list Z) :=
  list_to_set (omap (fun r => match r with Register p _ => Some (gid_to_str (EndPoint.gid p)) | _ => None end) rs).

Definition req_fits (r : meta_req) : Prop :=
  match r with
  | Register p port => point_fits p /\ in_width 64 port
  | Deregister g | Query g => gid_fits g
  end.

Definition handler_of (r : meta_req) : handler :=
  match r with Register _ _ => reg_dc_meta | Deregister _ => dereg_dc_meta | Query _ => query_dc_meta end.
Definition payload_of (r : meta_req) : list Z :=
  match r with
  | Register p port => reg_payload (EndPoint.gid p) port p
  | Deregister g | Query g => gid_bytes g
  end.

(** The table of a registry. *)
Definition clones (info : registry) (ks : list (list Z)) : list point :=
  omap (fun k => self_clone <$> info !! k) ks.
Definition table_bytes (info : registry) : list Z :=
  le 8 (Z.of_nat (size info)) ++ concat (map point_bytes (clones info (keys info))).

End spec.

(** The blocks of 4096 bytes. *)
Definition REGION : nat := 4096%nat.

Section server.
Context {W : Type} `{CF : !Cfg, OC : !OneCfg, KL : !KrLib W, LAW : !KrLaws W}.

(** A request arrives in the buffer at [req_va] and is served. *)
Definition serve (req_va reply_va : Z) (r : meta_req) : M (W * globals) Z :=
  _ ← onW (kwrite req_va (payload_of r)); run_handler (handler_of r) req_va reply_va.
Fixpoint serve_all (req_va reply_va : Z) (rs : list meta_req) : M (W * globals) unit :=
  match rs with [] => mret () | r :: rs => _ ← serve req_va reply_va r; serve_all req_va reply_va rs end.

Definition disjoint (a : Z) (n : nat) (b : Z) (k : nat) : Prop := a + Z.of_nat n <= b \/ b + Z.of_nat k <= a.

(** The buffers and the blocks are memory of the kernel and do not overlap. *)
Record layout_ok (req_va reply_va : Z) (regions : list Z) (m : umem) : Prop := {
  lo_req : mapped m req_va reg_size;
  lo_reply : mapped m reply_va (8 + point_size);
  lo_some : regions <> [];
  lo_region pa : pa ∈ regions -> mapped m (pa_va pa) REGION;
  lo_width pa : pa ∈ regions -> 0 <= pa_va pa /\ pa_va pa + Z.of_nat REGION < 2 ^ 64;
  lo_width_pa pa : pa ∈ regions -> 0 <= pa /\ pa + 8 < 2 ^ 64;
  lo_apart i j pa pb : regions !! i = Some pa -> regions !! j = Some pb -> i <> j ->
    disjoint (pa_va pa) REGION (pa_va pb) REGION;
  lo_req_apart pa : pa ∈ regions -> disjoint req_va reg_size (pa_va pa) REGION;
  lo_reply_apart pa : pa ∈ regions -> disjoint reply_va (8 + point_size) (pa_va pa) REGION }.

Lemma layout_dom req_va reply_va regions m m' :
  dom m' = dom m -> layout_ok req_va reply_va regions m -> layout_ok req_va reply_va regions m'.
Proof. intros Hd []. split; try done; [by eapply mapped_dom..|]. intros pa Hpa. by eapply mapped_dom, lo_region0. Qed.

(** *** Memory *)
Lemma kwrite_wp a l w (Q : unit -> W -> Prop) :
  mapped (kmem w) a (length l) ->
  (forall w', holds (kmem w') a l -> outside a (length l) (kmem w) (kmem w') -> dom (kmem w') = dom (kmem w) ->
    Q () w') ->
  wp (kwrite a l) w Q.
Proof.
  intros Hm HQ. destruct (copy_to_user_mapped _ _ _ Hm) as (m' & E & Hh & Ho & Hd).
  unfold wp, kwrite. rewrite E. apply HQ; by rewrite kmem_set.
Qed.

Lemma kread_wp a l w (Q : list Z -> W -> Prop) : holds (kmem w) a l -> Q l w -> wp (kread a (length l)) w Q.
Proof. intros Hl HQ. unfold wp. by rewrite kread_holds. Qed.

Lemma drop_wp p w (Q : unit -> W -> Prop) :
  (forall w', kmem w' = kmem w -> Q () w') -> wp (point_drop p) w Q.
Proof. intros HQ. destruct (point_drop_quiet p w) as (w' & E & Hk). unfold wp. rewrite E. auto. Qed.

Lemma outside_trans a n b k c j m1 m2 m3 :
  outside a n m1 m2 -> outside b k m2 m3 ->
  c <= a -> a + Z.of_nat n <= c + Z.of_nat j -> c <= b -> b + Z.of_nat k <= c + Z.of_nat j ->
  outside c j m1 m3.
Proof. intros H1 H2 ? ? ? ? x Hx. rewrite H2, H1 by lia. done. Qed.

Lemma outside_weaken a n c j m m' :
  outside a n m m' -> c <= a -> a + Z.of_nat n <= c + Z.of_nat j -> outside c j m m'.
Proof. intros Ho ? ? x Hx. apply Ho. lia. Qed.

Lemma points_length ps : length (concat (map point_bytes ps)) = (length ps * point_size)%nat.
Proof.
  induction ps as [|p ps IH]; [done|]. cbn [map concat length]. rewrite length_app, IH, point_bytes_length. lia.
Qed.

Lemma clones_cons (info : registry) k ks p :
  info !! k = Some p -> clones info (k :: ks) = self_clone p :: clones info ks.
Proof. intros Hp. unfold clones. simpl. by rewrite Hp. Qed.

(** *** Writing a table *)
Lemma write_entries_wp va idx ks w g (Q : unit -> W * globals -> Prop) :
  0 <= idx -> 0 <= va -> va + Z.of_nat REGION < 2 ^ 64 ->
  Forall (fun k => is_Some (meta_info g !! k)) ks -> mapped (kmem w) va REGION ->
  8 + (idx + Z.of_nat (length ks)) * Z.of_nat point_size <= Z.of_nat REGION ->
  (forall w', holds (kmem w') (va + (8 + idx * Z.of_nat point_size))
                (concat (map point_bytes (clones (meta_info g) ks))) ->
     outside (va + (8 + idx * Z.of_nat point_size)) (length ks * point_size) (kmem w) (kmem w') ->
     dom (kmem w') = dom (kmem w) -> Q () (w', g)) ->
  wp (write_entries va idx ks) (w, g) Q.
Proof.
  intros Hi Hva Hw HF. revert idx w Hi Q. induction HF as [|k ks [p Hp] HF IH]; intros idx w Hi Q Hm Hs HQ.
  { apply wp_ret, HQ; [by intros []|by intros x _|done]. }
  cbn [length] in Hs. cbn [write_entries]. wsteps. rewrite Hp. wsteps.
  rewrite add_u64_small by (unfold in_width; nia). wsteps.
  apply kwrite_wp; [rewrite point_bytes_length; apply (mapped_sub _ va REGION); [done|nia|nia]|].
  rewrite point_bytes_length. intros w1 Hh Ho Hd. wsteps. apply drop_wp. intros w2 Hk2.
  rewrite <- Hk2 in Hh, Ho, Hd. apply IH; [lia|by eapply mapped_dom|nia|].
  intros w3 Hh3 Ho3 Hd3. apply HQ; [|..|congruence].
  - rewrite (clones_cons _ _ _ _ Hp). cbn [map concat].
    apply holds_app. rewrite point_bytes_length. split.
    + eapply holds_outside; [exact Ho3|exact Hh|]. rewrite point_bytes_length. left. nia.
    + replace (va + (8 + idx * Z.of_nat point_size) + Z.of_nat point_size) with
        (va + (8 + (idx + 1) * Z.of_nat point_size)) by lia. exact Hh3.
  - cbn [length]. eapply outside_trans; [exact Ho|exact Ho3|nia..].
Qed.

Lemma keys_size (info : registry) : length (keys info) = size info.
Proof.
  rewrite <- size_dom. assert (dom info = list_to_set (keys info)) as ->.
  { apply set_eq. intros k. rewrite elem_of_list_to_set, keys_dom. apply elem_of_dom. }
  by rewrite size_list_to_set by apply keys_nodup.
Qed.

Lemma keys_some (info : registry) : Forall (fun k => is_Some (info !! k)) (keys info).
Proof. apply Forall_forall. intros k. apply keys_dom. Qed.

Definition table_fits (info : registry) : Prop := (8 + size info * point_size <= REGION)%nat.

Lemma clones_length (info : registry) : length (clones info (keys info)) = size info.
Proof.
  rewrite <- keys_size. pose proof (keys_some info) as HF.
  induction HF as [|k ks [p Hp] _ IH]; [done|]. rewrite (clones_cons _ _ _ _ Hp). cbn [length]. by rewrite IH.
Qed.

Lemma write_table_wp pa w g (Q : unit -> W * globals -> Prop) :
  0 <= pa_va pa -> pa_va pa + Z.of_nat REGION < 2 ^ 64 -> mapped (kmem w) (pa_va pa) REGION ->
  table_fits (meta_info g) ->
  (forall w', holds (kmem w') (pa_va pa) (table_bytes (meta_info g)) ->
     outside (pa_va pa) REGION (kmem w) (kmem w') -> dom (kmem w') = dom (kmem w) -> Q () (w', g)) ->
  wp (write_table pa) (w, g) Q.
Proof.
  intros H0 H1 Hm Hf HQ. unfold write_table, table_fits, REGION in *. wsteps.
  apply write_entries_wp; [lia|done|done|apply keys_some|done|rewrite keys_size; unfold REGION; lia|].
  rewrite keys_size. intros w1 Hh1 Ho1 Hd1. wsteps.
  apply kwrite_wp; [rewrite le_length; apply (mapped_sub _ (pa_va pa) REGION);
    [by eapply mapped_dom|unfold REGION; lia..]|].
  rewrite le_length. intros w2 Hh2 Ho2 Hd2. apply HQ; [|..|congruence].
  - unfold table_bytes. apply holds_app. rewrite le_length. split; [done|].
    eapply holds_outside; [exact Ho2| |right; lia].
    by replace (pa_va pa + Z.of_nat 8) with (pa_va pa + (8 + 0 * Z.of_nat point_size)) by lia.
  - eapply outside_trans; [exact Ho1|exact Ho2|lia..].
Qed.

(** *** Writing all tables *)
Lemma index_mod_lookup (l : list Z) (i : Z) pa :
  0 <= i -> l !! Z.to_nat i = Some pa -> VQ.index_mod l i = Done (Z.to_nat i, pa).
Proof.
  intros Hi Hl. pose proof (lookup_lt_Some _ _ _ Hl). unfold VQ.index_mod.
  rewrite rem_u64_pos, Z.mod_small by lia. by rewrite Hl.
Qed.

Lemma write_tables_wp req_va reply_va n idx w g (Q : unit -> W * globals -> Prop) :
  (idx + n = length (global_mem g))%nat -> layout_ok req_va reply_va (global_mem g) (kmem w) ->
  table_fits (meta_info g) ->
  (forall j pa, (j < idx)%nat -> global_mem g !! j = Some pa ->
     holds (kmem w) (pa_va pa) (table_bytes (meta_info g))) ->
  (forall w', (forall pa, pa ∈ global_mem g -> holds (kmem w') (pa_va pa) (table_bytes (meta_info g))) ->
     dom (kmem w') = dom (kmem w) -> Q () (w', g)) ->
  wp (write_tables (Z.of_nat idx) n) (w, g) Q.
Proof.
  revert idx w Q. induction n as [|n IH]; intros idx w Q Hn Hlo Hf Hdone HQ.
  { apply wp_ret, HQ; [|done]. intros pa [j Hj]%list_elem_of_lookup_1.
    eapply Hdone; [|done]. apply lookup_lt_Some in Hj. lia. }
  destruct (lookup_lt_is_Some_2 (global_mem g) idx) as [pa Hpa]; [lia|].
  pose proof (list_elem_of_lookup_2 _ _ _ Hpa) as Hin.
  destruct (lo_width _ _ _ _ Hlo pa Hin). cbn [write_tables]. unfold get_global_test_mem_pa, nth_mod. wsteps.
  rewrite (index_mod_lookup _ _ pa) by (lia || by rewrite Nat2Z.id). wsteps.
  apply write_table_wp; [done|done|by apply (lo_region _ _ _ _ Hlo)|done|].
  intros w1 Hh Ho Hd. replace (Z.of_nat idx + 1) with (Z.of_nat (S idx)) by lia.
  apply IH; [lia|by eapply layout_dom|done| |intros w2 Hall Hd2; apply HQ; [done|congruence]].
  intros j pb Hj Hpb. destruct (decide (j = idx)) as [->|Hne]; [by simplify_eq|].
  eapply holds_outside; [exact Ho|apply (Hdone j); [lia|done]|].
  pose proof (lo_apart _ _ _ _ Hlo j idx pb pa Hpb Hpa Hne) as Hap. unfold disjoint in Hap.
  unfold table_bytes. rewrite length_app, le_length, points_length, clones_length.
  unfold table_fits in Hf. lia.
Qed.

(** *** The handlers *)
Definition inv (req_va reply_va : Z) (st : registry * option registry) (s : W * globals) : Prop :=
  layout_ok req_va reply_va (global_mem (snd s)) (kmem (fst s)) /\ meta_info (snd s) = fst st /\
  forall snap, snd st = Some snap -> table_fits snap /\
    forall pa, pa ∈ global_mem (snd s) -> holds (kmem (fst s)) (pa_va pa) (table_bytes snap).

Lemma payload_length r : (length (payload_of r) <= reg_size)%nat.
Proof.
  unfold reg_size. destruct r; cbn [payload_of]; unfold reg_payload;
    rewrite ?length_app, ?le_length, ?point_bytes_length, gid_bytes_length; lia.
Qed.

Lemma table_length (snap : registry) : length (table_bytes snap) = (8 + size snap * point_size)%nat.
Proof. unfold table_bytes. by rewrite length_app, le_length, points_length, clones_length. Qed.

(** A change of a buffer leaves the tables. *)
Lemma inv_buffer req_va reply_va st w w' g a n :
  inv req_va reply_va st (w, g) -> outside a n (kmem w) (kmem w') -> dom (kmem w') = dom (kmem w) ->
  (forall pa, pa ∈ global_mem g -> disjoint a n (pa_va pa) REGION) ->
  inv req_va reply_va st (w', g).
Proof.
  intros (Hlo & Hi & Ht) Ho Hd Ha. split_and!; [by eapply layout_dom|done|].
  intros snap Hs. destruct (Ht snap Hs) as [Hf Hh]. split; [done|]. intros pa Hpa. cbn [fst snd] in *.
  eapply holds_outside; [exact Ho|by apply Hh|]. specialize (Ha pa Hpa). unfold disjoint, table_fits in *.
  rewrite table_length. lia.
Qed.

Lemma reply_wp req_va reply_va st w g l (Q : unit -> W -> Prop) :
  inv req_va reply_va st (w, g) -> (length l <= 8 + point_size)%nat ->
  (forall w', inv req_va reply_va st (w', g) -> Q () w') -> wp (kwrite reply_va l) w Q.
Proof.
  intros Hinv Hl HQ. pose proof Hinv as (Hlo & _). cbn [fst snd] in Hlo.
  apply kwrite_wp; [eapply mapped_sub; [apply (lo_reply _ _ _ _ Hlo)|lia..]|].
  intros w' _ Ho Hd. apply HQ. eapply inv_buffer; [done|exact Ho|done|].
  intros pa Hpa. pose proof (lo_reply_apart _ _ _ _ Hlo pa Hpa). unfold disjoint in *. lia.
Qed.

Lemma inv_kmem req_va reply_va st w w' g :
  kmem w' = kmem w -> inv req_va reply_va st (w, g) -> inv req_va reply_va st (w', g).
Proof. unfold inv. cbn [fst snd]. by intros ->. Qed.

(** Putting in or taking out an entry drops the old one. *)
Lemma change_info_wp (f : globals -> globals) k w g (Q : unit -> W * globals -> Prop) :
  (forall w', kmem w' = kmem w -> Q () (w', f g)) ->
  wp (_ ← onX f; match meta_info g !! k with Some old => onW (point_drop old) | None => mret () end) (w, g) Q.
Proof.
  intros HQ. wsteps. destruct (meta_info g !! k); wsteps; [|by apply HQ].
  apply drop_wp. intros w' Hk. by apply HQ.
Qed.

Lemma reg_decode p port :
  point_fits p -> in_width 64 port ->
  let l := reg_payload (EndPoint.gid p) port p in
  gid_of (take 16 l) = EndPoint.gid p /\ word_at 16 8 l = port /\ point_of (skipn 24 l) = p /\
  length l = reg_size.
Proof.
  intros Hp Hport. pose proof Hp as (_ & _ & _ & Hg & _). unfold reg_payload.
  pose proof (gid_bytes_length (EndPoint.gid p)) as Hl. cbv zeta. split_and!.
  - rewrite <- Hl, take_app_length. by apply gid_roundtrip.
  - rewrite <- Hl, word_at_le. by apply (byte_range 8).
  - rewrite app_assoc, drop_app_length'; [by apply point_roundtrip|].
    by rewrite length_app, le_length, Hl.
  - unfold reg_size. by rewrite !length_app, le_length, point_bytes_length, Hl.
Qed.

(** The request in its buffer, and the rest of the memory as it was. *)
Lemma arrive_wp req_va reply_va st w g r (Q : unit -> W * globals -> Prop) :
  inv req_va reply_va st (w, g) ->
  (forall w', inv req_va reply_va st (w', g) -> holds (kmem w') req_va (payload_of r) -> Q () (w', g)) ->
  wp (onW (kwrite req_va (payload_of r))) (w, g) Q.
Proof.
  intros Hinv HQ. pose proof Hinv as (Hlo & _). cbn [fst snd] in Hlo. pose proof (payload_length r) as Hl.
  wsteps. apply kwrite_wp; [eapply mapped_sub; [apply (lo_req _ _ _ _ Hlo)|lia..]|].
  intros w' Hh Ho Hd. apply HQ; [|done]. eapply inv_buffer; [done|exact Ho|done|].
  intros pa Hpa. pose proof (lo_req_apart _ _ _ _ Hlo pa Hpa). unfold disjoint in *. lia.
Qed.

Lemma register_wp req_va reply_va st w g p port (Q : Z -> W * globals -> Prop) :
  inv req_va reply_va st (w, g) -> holds (kmem w) req_va (payload_of (Register p port)) ->
  req_fits (Register p port) -> table_fits (fst (spec_step st (Register p port))) ->
  (forall r s, inv req_va reply_va (spec_step st (Register p port)) s -> global_mem (snd s) = global_mem g -> Q r s) ->
  wp (reg_dc_meta_handler req_va reply_va) (w, g) Q.
Proof.
  intros (Hlo & Hi & _) Hreq [Hp Hport] Hf HQ. cbn [fst snd payload_of spec_step] in *.
  destruct (reg_decode p port Hp Hport) as (E1 & E2 & E3 & E4).
  unfold reg_dc_meta_handler. rewrite <- E4. apply wp_bind, wp_onW, kread_wp; [done|].
  rewrite E1, E2, E3. apply wp_bind. unfold put_remote_dc_meta, insert_meta. apply wp_bind, wp_getX.
  apply change_info_wp. intros w1 Hk1. rewrite Hi in *.
  set (g' := set_info _ g). unfold get_global_test_mem_pa at 1, nth_mod. wsteps.
  change (global_mem g') with (global_mem g).
  destruct (index_mod_some (global_mem g) port (lo_some _ _ _ _ Hlo)) as (k & pa & -> & Hpa%list_elem_of_lookup_2 & _). wsteps.
  rewrite <- Hk1 in Hlo.
  apply (write_tables_wp req_va reply_va _ 0); [done|done|done|intros; lia|].
  intros w2 Hall Hd2.
  assert (Hinv : inv req_va reply_va (meta_info g', Some (meta_info g')) (w2, g')).
  { split_and!; [by eapply layout_dom|done|]. intros snap [= <-]. done. }
  wsteps. eapply reply_wp; [exact Hinv|rewrite le_length; lia|].
  intros w3 Hinv3. wsteps. apply drop_wp. intros w4 Hk4. wsteps. apply HQ; [|done].
  eapply inv_kmem; [done|exact Hinv3].
Qed.

Lemma deregister_wp req_va reply_va st w g gid (Q : Z -> W * globals -> Prop) :
  inv req_va reply_va st (w, g) -> holds (kmem w) req_va (gid_bytes gid) -> gid_fits gid ->
  (forall r s, inv req_va reply_va (spec_step st (Deregister gid)) s -> global_mem (snd s) = global_mem g -> Q r s) ->
  wp (dereg_dc_meta_handler req_va reply_va) (w, g) Q.
Proof.
  intros Hinv Hreq Hg HQ. pose proof Hinv as (Hlo & Hi & Ht). cbn [fst snd] in *.
  unfold dereg_dc_meta_handler. rewrite <- (gid_bytes_length gid). apply wp_bind, wp_onW, kread_wp; [done|].
  rewrite gid_roundtrip by done. apply wp_bind. unfold evict_remote_dc_meta. apply wp_bind, wp_getX.
  apply change_info_wp. intros w1 Hk1.
  assert (Hinv1 : inv req_va reply_va (spec_step st (Deregister gid)) (w1, set_info (delete (gid_to_str gid) (meta_info g)) g)).
  { split_and!; cbn [fst snd spec_step]; rewrite ?Hk1; [done|by rewrite <- Hi|done]. }
  wsteps. eapply reply_wp; [exact Hinv1|rewrite le_length; lia|].
  intros w2 Hinv2. wsteps. by apply HQ.
Qed.

Lemma query_wp req_va reply_va st w g gid (Q : Z -> W * globals -> Prop) :
  inv req_va reply_va st (w, g) -> holds (kmem w) req_va (gid_bytes gid) -> gid_fits gid ->
  (forall r s, inv req_va reply_va st s -> global_mem (snd s) = global_mem g -> Q r s) ->
  wp (query_dc_meta_handler req_va reply_va) (w, g) Q.
Proof.
  intros Hinv Hreq Hg HQ. unfold query_dc_meta_handler. rewrite <- (gid_bytes_length gid).
  apply wp_bind, wp_onW, kread_wp; [done|]. rewrite gid_roundtrip by done. unfold get_remote_dc_meta. wsteps.
  destruct (meta_info g !! gid_to_str gid) as [p|]; wsteps; [|by apply HQ].
  eapply reply_wp; [exact Hinv|rewrite point_bytes_length; lia|]. intros w1 Hinv1. wsteps.
  apply drop_wp. intros w2 Hk2. wsteps. apply HQ; [|done]. by eapply inv_kmem.
Qed.

Lemma serve_wp req_va reply_va st w g r (Q : Z -> W * globals -> Prop) :
  inv req_va reply_va st (w, g) -> req_fits r -> table_fits (fst (spec_step st r)) ->
  (forall x s, inv req_va reply_va (spec_step st r) s -> global_mem (snd s) = global_mem g -> Q x s) ->
  wp (serve req_va reply_va r) (w, g) Q.
Proof.
  intros Hinv Hr Hf HQ. apply wp_bind. eapply arrive_wp; [done|]. intros w1 Hinv1 Hreq.
  destruct r; cbn [handler_of run_handler] in *.
  - by eapply register_wp.
  - by eapply deregister_wp.
  - by eapply query_wp.
Qed.

(** The registry never holds more machines than were registered. *)
Lemma dom_spec_step st r rs :
  dom (fst (spec_step st r)) ∪ machines rs ⊆ dom (fst st) ∪ machines (r :: rs).
Proof. destruct r; unfold machines; cbn; set_solver. Qed.

Lemma machines_fit st r rs :
  (8 + size (dom (fst st) ∪ machines (r :: rs)) * point_size <= REGION)%nat ->
  table_fits (fst (spec_step st r)) /\
  (8 + size (dom (fst (spec_step st r)) ∪ machines rs) * point_size <= REGION)%nat.
Proof.
  intros Hs. pose proof (subseteq_size _ _ (dom_spec_step st r rs)) as H1.
  assert (H2 : (size (fst (spec_step st r)) <= size (dom (fst (spec_step st r)) ∪ machines rs))%nat).
  { rewrite <- size_dom. apply subseteq_size. set_solver. }
  unfold table_fits. nia.
Qed.

Lemma serve_all_wp req_va reply_va rs st w g (Q : unit -> W * globals -> Prop) :
  inv req_va reply_va st (w, g) -> Forall req_fits rs ->
  (8 + size (dom (fst st) ∪ machines rs) * point_size <= REGION)%nat ->
  (forall s, inv req_va reply_va (spec_run st rs) s -> global_mem (snd s) = global_mem g -> Q () s) ->
  wp (serve_all req_va reply_va rs) (w, g) Q.
Proof.
  intros Hinv HF. revert st w g Q Hinv. induction HF as [|r rs Hr HF IH]; intros st w g Q Hinv Hs HQ.
  { apply wp_ret. by apply HQ. }
  destruct (machines_fit st r rs Hs) as [Hf Hs']. apply wp_bind. eapply serve_wp; [done..|].
  intros x [w1 g1] Hinv1 Hm. eapply IH; [exact Hinv1|done|]. intros s Hinv2 Hm2. cbn [fst snd] in *.
  apply HQ; [done|congruence].
Qed.

(** ** Well-formed registries *)
Definition reg_wf (info : registry) : Prop :=
  map_Forall (fun k p => point_fits p /\ k = gid_to_str (EndPoint.gid p)) info.

Lemma spec_step_wf st r :
  req_fits r -> reg_wf (fst st) -> (forall snap, snd st = Some snap -> reg_wf snap) ->
  reg_wf (fst (spec_step st r)) /\ forall snap, snd (spec_step st r) = Some snap -> reg_wf snap.
Proof.
  intros Hr H1 H2. destruct r as [p port|g|g]; cbn [spec_step fst snd].
  - destruct Hr as [Hp _]. destruct (self_clone_peer p) as (_ & _ & _ & Eg & _).
    assert (reg_wf (<[gid_to_str (EndPoint.gid p):=self_clone p]> (fst st))) as Hwf.
    { apply map_Forall_insert_2; [|done]. split; [by apply self_clone_fits|by rewrite Eg]. }
    split; [done|]. by intros snap [= <-].
  - split; [by apply map_Forall_delete|done].
  - done.
Qed.

Lemma spec_run_wf rs st :
  Forall req_fits rs -> reg_wf (fst st) -> (forall snap, snd st = Some snap -> reg_wf snap) ->
  forall snap, snd (spec_run st rs) = Some snap -> reg_wf snap.
Proof.
  intros HF. revert st. induction HF as [|r rs Hr HF IH]; intros st H1 H2; [done|].
  destruct (spec_step_wf st r Hr H1 H2). by apply IH.
Qed.

(** ** Reading the table *)
Lemma clones_elem (info : registry) p :
  p ∈ clones info (keys info) <-> exists k e, info !! k = Some e /\ p = self_clone e.
Proof.
  unfold clones. rewrite list_elem_of_omap. split.
  - intros (k & _ & E). destruct (info !! k) as [e|] eqn:He; [|done]. injection E as <-. by exists k, e.
  - intros (k & e & He & ->). exists k. rewrite He. split; [by apply keys_dom|done].
Qed.

(** The first entry of a GID. *)
Definition lookup_gid (ps : list point) (target : ib_gid) : option point :=
  self_clone <$> List.find (fun p => bool_decide (EndPoint.gid p = target)) ps.

Lemma lookup_gid_spec (info : registry) target :
  reg_wf info -> gid_fits target ->
  option_Forall2 same_peer (lookup_gid (clones info (keys info)) target) (info !! gid_to_str target).
Proof.
  intros Hwf Hg. unfold lookup_gid. destruct (List.find _ _) as [p|] eqn:E; cbn [fmap option_fmap option_map].
  - apply find_some in E as [Hin%list_elem_of_In Hgid%bool_decide_eq_true].
    apply clones_elem in Hin as (k & e & He & ->). destruct (Hwf k e He) as [_ ->].
    destruct (self_clone_peer e) as (_ & _ & _ & Eg & _). rewrite <- Hgid, Eg, He. constructor.
    transitivity (self_clone e); apply self_clone_peer.
  - destruct (info !! gid_to_str target) as [e|] eqn:He; [|constructor]. exfalso.
    destruct (Hwf _ e He) as [(_ & _ & _ & Hfe & _) Hk].
    apply gid_to_str_inj in Hk; [|done..].
    pose proof (find_none _ _ E (self_clone e)) as Hno. rewrite bool_decide_eq_false in Hno. apply Hno.
    + apply list_elem_of_In, clones_elem. by eexists _, e.
    + destruct (self_clone_peer e) as (_ & _ & _ & -> & _). congruence.
Qed.
End server.

(** A read over a DC queue pair: the memory of the peer at the given addresses goes
    to the local block, and a completion arrives. *)
Class ReadLaws (W : Type) `{!KrLib W} := {
  peer_mem : W -> point -> umem;
  dc_read_law dc la lk len ra rk p w l :
    Z.of_nat (length l) = len -> holds (peer_mem w p) ra l -> mapped (kmem w) (pa_va la) (length l) ->
    exists w1 wc w2,
      dc_push dc IB_WR_RDMA_READ la lk len ra rk p [IB_SEND_SIGNALED] w = Done (Ok (), w1) /\
      dc_wait_til_comp dc w1 = Done (Some wc, w2) /\
      kmem w2 = fst (copy_to_user (kmem w) (pa_va la) l) /\ forall q, peer_mem w2 q = peer_mem w q
}.

Section lookup.
Context {W : Type} `{CF : !Cfg, OC : !OneCfg, KL : !KrLib W, LAW : !KrLaws W, RL : !ReadLaws W}.
Context (meta_server_gid : list Z).

Lemma dc_read_wp dc la lk len ra rk p w g f l (Q : unit -> W * globals * One.file -> Prop) :
  Z.of_nat (length l) = len -> holds (peer_mem w p) ra l -> mapped (kmem w) (pa_va la) (length l) ->
  (forall w', holds (kmem w') (pa_va la) l -> dom (kmem w') = dom (kmem w) ->
     outside (pa_va la) (length l) (kmem w) (kmem w') -> (forall q, peer_mem w' q = peer_mem w q) -> Q () (w', g, f)) ->
  wp (One.dc_read dc la lk len ra rk p) (w, g, f) Q.
Proof.
  intros Hl Hp Hm HQ. destruct (dc_read_law dc la lk len ra rk p w l Hl Hp Hm) as (w1 & wc & w2 & E1 & E2 & Hk & Hq).
  destruct (copy_to_user_mapped _ _ _ Hm) as (m' & Em & Hh & Ho & Hd). rewrite Em in Hk. cbn [fst] in Hk.
  unfold One.dc_read, One.lib. wsteps. unfold wp at 1. rewrite E1. wsteps. unfold wp at 1. rewrite E2. wsteps.
  apply HQ; [by rewrite Hk..|done].
Qed.

(** The search in the copy of the table. *)
Lemma find_point_wp target va ps w g f (Q : option point -> W * globals * One.file -> Prop) :
  Forall point_fits ps -> holds (kmem w) va (concat (map point_bytes ps)) ->
  Q (lookup_gid ps target) (w, g, f) -> wp (One.find_point target va (length ps)) (w, g, f) Q.
Proof.
  intros HF. revert va. induction HF as [|p ps Hp HF IH]; intros va Hh HQ; [done|].
  cbn [map concat] in Hh. apply holds_app in Hh as [Hh1 Hh2]. rewrite point_bytes_length in Hh2.
  cbn [length One.find_point]. unfold One.lib. wsteps. rewrite <- (point_bytes_length p).
  apply kread_wp; [done|]. rewrite point_roundtrip, gid_eq_spec by done. unfold lookup_gid in *. cbn [List.find] in HQ.
  case_bool_decide; [done|]. rewrite point_bytes_length. by apply IH.
Qed.

(** The client: it knows the meta server and its table, and has a block to read to. *)
Record client_ok (g : globals) (q : One.VQ) (w : W) (meta_point : point) (pa : Z) (n : nat) : Prop := {
  co_meta : meta_info g !! meta_server_gid = Some meta_point;
  co_pa : meta_kv_pa g = pa;
  co_dc : is_Some (One.local_dc q);
  co_mr : exists mr, One.local_mr (One.local_cache q) = Some mr /\
            mapped (kmem w) (pa_va (mr_addr mr)) n /\ 0 <= mr_addr mr /\ mr_addr mr + 8 < 2 ^ 64 }.

Lemma clones_fit (snap : registry) : reg_wf snap -> Forall point_fits (clones snap (keys snap)).
Proof.
  intros Hwf. apply Forall_forall. intros p (k & e & He & ->)%clones_elem.
  apply self_clone_fits, (Hwf k e He).
Qed.

Lemma query_table_wp snap t w g f meta_point pa (Q : option point -> W * globals * One.file -> Prop) :
  reg_wf snap -> table_fits snap -> 0 <= pa -> pa + 8 < 2 ^ 64 ->
  client_ok g (One.self f) w meta_point pa (8 + size snap * point_size) ->
  holds (peer_mem w meta_point) pa (table_bytes snap) ->
  (forall s, Q (lookup_gid (clones snap (keys snap)) (str_to_gid t)) s) ->
  wp (One.query_dct_meta meta_server_gid t) (w, g, f) Q.
Proof.
  intros Hwf Hf Hpa0 Hpa8 [Hmeta Hpa [dc Hdc] (mr & Hmr & Hm & Ha0 & Ha8)] Hp HQ.
  unfold table_bytes in Hp. apply holds_app in Hp as [Hp1 Hp2]. rewrite le_length in Hp2.
  unfold One.query_dct_meta, One.sys, get_remote_dc_meta_unsafe, get_remote_dc_meta. wsteps.
  rewrite Hmeta. wsteps. unfold One.get_dc, One.get_self. wsteps. rewrite Hdc. wsteps.
  unfold One.get_mr, One.get_self. wsteps. rewrite Hmr. wsteps. rewrite Hpa.
  eapply dc_read_wp; [|exact Hp1|..]; rewrite ?le_length; [done|by eapply mapped_sub; [exact Hm|lia..]|].
  intros w1 Hh1 Hd1 _ Hq1. wsteps. unfold One.uaddr. rewrite !add_u64_small by (unfold in_width; lia). wsteps.
  unfold One.lib. wsteps. rewrite <- (le_length 8 (Z.of_nat (size snap))) at 1. apply kread_wp; [done|].
  pose proof point_size_pos as Hps. unfold table_fits, REGION in Hf.
  assert (Hsz : (size snap <= 4096)%nat) by nia.
  rewrite unle_le, (byte_range 8) by (unfold in_width; change (2 ^ (8 * Z.of_nat 8)) with (2 ^ 64); lia).
  unfold One.mul_u64. destruct (Z.ltb_spec (Z.of_nat (size snap) * Z.of_nat point_size) (2 ^ 64)); [|nia]. wsteps.
  assert (Hl : length (concat (map point_bytes (clones snap (keys snap)))) = (size snap * point_size)%nat)
    by by rewrite points_length, clones_length.
  eapply dc_read_wp; [|rewrite Hq1; exact Hp2|..]; rewrite ?Hl, ?pa_va_add; [lia| |].
  { eapply mapped_sub; [eapply mapped_dom; [exact Hd1|exact Hm]|lia..]. }
  intros w2 Hh2 _ _ _. rewrite Nat2Z.id, <- clones_length.
  apply find_point_wp; [by apply clones_fit|exact Hh2|]. apply HQ.
Qed.
End lookup.

(** C4. The table of the meta server refines its registry: after any sequence of
    registrations, departures and queries that leaves the table within its blocks,
    a machine that reads any of the blocks with one-sided operations finds for a GID
    what the registry held at the last registration, and nothing if it held nothing.
    Departures since then are not seen. *)
Theorem meta_lookup_refines {W : Type} `{!Cfg, !OneCfg, !KrLib W, !KrLaws W, !ReadLaws W}
  (req_va reply_va : Z) (rs : list meta_req) (w : W) (g : globals) :
  layout_ok req_va reply_va (global_mem g) (kmem w) -> reg_wf (meta_info g) -> Forall req_fits rs ->
  (8 + size (dom (meta_info g) ∪ machines rs) * point_size <= REGION)%nat ->
  exists w' g', serve_all req_va reply_va rs (w, g) = Done ((), (w', g')) /\
  forall snap, snd (spec_run (meta_info g, None) rs) = Some snap ->
  forall meta_server_gid pa wc gc f meta_point t,
    pa ∈ global_mem g -> gid_fits (str_to_gid t) ->
    client_ok meta_server_gid gc (One.self f) wc meta_point pa (8 + size snap * point_size) ->
    (forall a, peer_mem wc meta_point !! a = kmem w' !! pa_va a) ->
    exists r s, One.query_dct_meta meta_server_gid t (wc, gc, f) = Done (r, s) /\
      option_Forall2 same_peer r (snap !! gid_to_str (str_to_gid t)).
Proof.
  intros Hlo Hwf HF Hs.
  assert (Hinv : inv req_va reply_va (meta_info g, None) (w, g)) by (split_and!; done).
  destruct (proj1 (wp_done _ _ _) (serve_all_wp req_va reply_va rs (meta_info g, None) w g
    (fun _ s => inv req_va reply_va (spec_run (meta_info g, None) rs) s /\ global_mem (snd s) = global_mem g)
    Hinv HF Hs ltac:(done))) as ([] & [w' g'] & E & (Hlo' & _ & Ht) & Hm). cbn [fst snd] in *.
  exists w', g'. split; [done|]. intros snap Hsnap gid pa wc gc f mp t Hpa Hg Hc Hpeer.
  rewrite <- Hm in Hpa. destruct (Ht snap Hsnap) as [Hfit Hh].
  assert (Hwf' : reg_wf snap) by (apply (spec_run_wf rs (meta_info g, None) HF Hwf); done).
  destruct (lo_width_pa _ _ _ _ Hlo' pa Hpa) as [Hw0 Hw8].
  apply wp_done. eapply query_table_wp; [exact Hwf'|done|done|done|done| |].
  - intros i b Hi. rewrite Hpeer, pa_va_add. by apply (Hh pa Hpa).
  - intros s. by apply lookup_gid_spec.
Qed.
