(* ===== verification/Migrate.v ===== *)
(** * Migration of a queue to its own connection

    A one-sided queue sends through the shared DC queue pair until the background
    thread has put a reliable connection into it.  Whenever that happens between
    the batches of a push, the device gets the same requests in the same order. *)

From S2P Require Import Prelude Bytes Errors Verbs CmVerbs Sim Guid Context CompletionQueue QueuePair BringUp.
From S2P Require Import CommManager RecvHelper SysQp SysCtrl SysAbi VirtualQueue KrLib MetaKv OneSided.
Import One.

#[local] Open Scope Z_scope.

(** A request as the device gets it, whatever the transport; the immediate data is
    left out, which only a connection carries. *)
Record wr := mkWr {
  w_op : ib_wr_opcode; w_laddr : Z; w_lkey : Z; w_len : Z; w_raddr : Z; w_rkey : Z; w_flags : list ib_send_flag }.

(** What the module relies on of the queue pairs: the calls return; a push that is
    accepted has handed over its request, and nothing else posts one; a connection
    to a service reaches the memory that the service has registered. *)
Class PostLaws (W : Type) `{!KrLib W} := {
  posted : W -> list wr;
  service_mr : sa_path_rec -> Z -> TempMR;
  dc_push_law dc op la lk len ra rk p fl w : exists r w',
    dc_push dc op la lk len ra rk p fl w = Done (r, w') /\
    posted w' = posted w ++ (if is_Ok r then [mkWr op la lk len ra rk fl] else []) /\
    forall rc, rc_remote_mr w' rc = rc_remote_mr w rc;
  rc_push_law rc op la lk len ra rk imm fl w : exists r w',
    rc_push_with_imm rc op la lk len ra rk imm fl w = Done (r, w') /\
    posted w' = posted w ++ (if is_Ok r then [mkWr op la lk len ra rk fl] else []) /\
    forall rc, rc_remote_mr w' rc = rc_remote_mr w rc;
  rc_new_law ctx cq w : exists r w', rc_new_with_srq ctx cq w = Done (r, w') /\ posted w' = posted w;
  rc_connect_law rc vid path port w : exists r w',
    rc_connect rc vid path port w = Done (r, w') /\ posted w' = posted w /\
    (is_Ok r = true -> rc_remote_mr w' rc = service_mr path port);
  rc_drop_law rc w : exists w', rc_drop rc w = Done ((), w') /\ posted w' = posted w
}.

Section migrate.
Context {W : Type} `{CF : !Cfg, OC : !OneCfg, KL : !KrLib W, PL : !PostLaws W}.
Abbreviation K := (M (W * globals * file)).
Abbreviation state := (W * globals * file)%type.

(** ** The requests of a process *)
Definition req_ok (mr rmr : TempMR) (r : core_req_t) : Prop :=
  core_req_fits r /\ in_width 64 (mr_addr mr + cr_addr r) /\ in_width 64 (cr_remote_addr r + mr_addr rmr) /\
  0 <= cr_type r < 5.

Definition opcode (op : Z) : ib_wr_opcode :=
  match op_code_table op with Done o => o | Panic => IB_WR_RDMA_READ end.

(** The request between the two memory regions. *)
Definition wr_spec (mr rmr : TempMR) (r : core_req_t) : wr :=
  let inline := VQ.inlined (cr_length r) (opcode (cr_type r)) in
  let laddr := mr_addr mr + cr_addr r in
  mkWr (opcode (cr_type r)) (if inline then pa_va laddr else laddr) (mr_key mr) (cr_length r)
    (cr_remote_addr r + mr_addr rmr) (mr_key rmr) (VQ.send_flag inline (cr_send_flags r)).

Lemma opcode_done op : 0 <= op < 5 -> op_code_table op = Done (opcode op).
Proof. intros H. assert (op = 0 \/ op = 1 \/ op = 2 \/ op = 3 \/ op = 4) as Hc by lia. by destruct_or! Hc; subst. Qed.

Lemma wr_of_wp mr rmr req s (Q : _ -> state -> Prop) :
  req_ok mr rmr req ->
  Q (w_op (wr_spec mr rmr req), w_laddr (wr_spec mr rmr req), w_raddr (wr_spec mr rmr req), w_flags (wr_spec mr rmr req)) s ->
  wp (wr_of mr rmr req) s Q.
Proof.
  intros (_ & Hl & Hr & Ht) HQ. unfold wr_of, uaddr. rewrite !add_u64_small, opcode_done by done. by wsteps.
Qed.

(** ** Batches

    [sent reqs r w w']: the device has got the requests before the first that it
    did not accept. *)
Definition sent (wrs : list wr) (r : Z) (w w' : W) : Prop :=
  exists k, (k <= length wrs)%nat /\ posted w' = posted w ++ take k wrs /\
    (r = reply_status.ok /\ k = length wrs \/ r = reply_status.err /\ (k < length wrs)%nat).

Definition same_mrs (w w' : W) : Prop := forall rc, rc_remote_mr w' rc = rc_remote_mr w rc.

Lemma push_each_wp (push : core_req_t -> unit -> K (Result Error unit * unit)) mr rmr reqs w g f (Q : Z -> state -> Prop) :
  (forall req w (R : _ -> state -> Prop), req_ok mr rmr req ->
     (forall r w', posted w' = posted w ++ (if is_Ok (E := Error) (A := unit) r then [wr_spec mr rmr req] else []) ->
        same_mrs w w' -> R (r, ()) (w', g, f)) -> wp (push req ()) (w, g, f) R) ->
  Forall (req_ok mr rmr) reqs ->
  (forall r w', sent (map (wr_spec mr rmr) reqs) r w w' -> same_mrs w w' -> Q r (w', g, f)) ->
  wp (push_each push reqs ()) (w, g, f) Q.
Proof.
  intros Hpush HF. revert w Q. induction HF as [|req reqs Hr HF IH]; intros w Q HQ; cbn [push_each].
  { apply wp_ret, HQ; [|done]. exists 0%nat. cbn. rewrite app_nil_r. split_and!; [lia|done|by left]. }
  apply wp_bind, Hpush; [done|]. intros [u|e] w1 Hp Hm; cbn [is_Ok] in Hp.
  - apply IH. intros r w2 (k & Hk & Hp2 & Hc) Hm2. apply HQ; [|intros rc; by rewrite Hm2, Hm].
    exists (S k). cbn [map length take]. rewrite Hp2, Hp, <- app_assoc. split_and!; [lia|done|].
    destruct Hc as [[-> ->]|[-> ?]]; [left|right]; split; done || lia.
  - apply wp_ret, HQ; [|done]. exists 0%nat. cbn [map length]. rewrite Hp. split_and!; [lia|done|right; split; [done|lia]].
Qed.

Lemma rc_push_one_wp rc mr rmr req w g f (Q : _ -> state -> Prop) :
  req_ok mr rmr req ->
  (forall r w', posted w' = posted w ++ (if is_Ok r then [wr_spec mr rmr req] else []) -> same_mrs w w' ->
     Q (r, ()) (w', g, f)) ->
  wp (rc_push_one rc mr rmr req ()) (w, g, f) Q.
Proof.
  intros Hr HQ. unfold rc_push_one. apply wp_bind, wr_of_wp; [done|]. unfold lib. wsteps.
  match goal with |- wp (rc_push_with_imm ?rc ?o ?a ?b ?c ?d ?e ?i ?fl) ?w _ =>
    destruct (rc_push_law rc o a b c d e i fl w) as (r & w' & E & Hp & Hm) end.
  unfold wp at 1. rewrite E. by apply wp_ret, HQ.
Qed.

Lemma dc_push_one_wp dc p mr req w g f (Q : _ -> state -> Prop) :
  req_ok mr (EndPoint.mr p) req ->
  (forall r w', posted w' = posted w ++ (if is_Ok r then [wr_spec mr (EndPoint.mr p) req] else []) -> same_mrs w w' ->
     Q (r, ()) (w', g, f)) ->
  wp (dc_push_one dc p mr req ()) (w, g, f) Q.
Proof.
  intros Hr HQ. unfold dc_push_one. apply wp_bind, wr_of_wp; [done|]. unfold lib. wsteps.
  match goal with |- wp (dc_push ?rc ?o ?a ?b ?c ?d ?e ?i ?fl) ?w _ =>
    destruct (dc_push_law rc o a b c d e i fl w) as (r & w' & E & Hp & Hm) end.
  unfold wp at 1. rewrite E. by apply wp_ret, HQ.
Qed.

(** ** A queue that migrates *)
Record hybrid (mr rmr : TempMR) (w : W) (g : globals) (q : VQ) : Prop := {
  hy_bind : bind_port q = None;
  hy_ctrls : rctrls g <> [];
  hy_mr : local_mr (local_cache q) = Some mr;
  hy_dc : is_Some (local_dc q);
  hy_point : exists p, remote_endpoint (local_cache q) = Some p /\ EndPoint.mr p = rmr;
  hy_param : exists p, rc_connect_param q = Some p /\ service_mr (p_path p) (p_port p) = rmr;
  hy_queue rc : virtual_queue q = Some rc -> rc_remote_mr w rc = rmr }.

Lemma hybrid_mrs mr rmr w w' g q : same_mrs w w' -> hybrid mr rmr w g q -> hybrid mr rmr w' g q.
Proof. intros Hm []. split; try done. intros rc Hrc. rewrite Hm. by apply hy_queue0. Qed.

(** One batch, over the transport the queue has by then. *)
Lemma push_batch_wp mr rmr reqs pop w g f (Q : Z -> state -> Prop) :
  hybrid mr rmr w g (self f) -> Forall (req_ok mr rmr) reqs ->
  (forall r w', sent (map (wr_spec mr rmr) reqs) r w w' -> hybrid mr rmr w' g (self f) -> Q r (w', g, f)) ->
  wp (push_batch reqs pop) (w, g, f) Q.
Proof.
  intros Hy HF HQ. pose proof Hy as [Hb _ Hmr [dc Hdc] (p & Hp & Hpm) _ Hq].
  unfold push_batch, is_bind_mode, get_self. wsteps. rewrite Hb.
  change (bool_decide (is_Some None)) with false. wsteps.
  destruct (virtual_queue (self f)) as [rc|] eqn:Hv.
  - rewrite bool_decide_eq_true_2 by eauto. unfold rc_push_impl, get_self, get_mr, ask, lib. wsteps. rewrite Hv.
    unfold get_self. wsteps. rewrite Hmr. wsteps. rewrite (Hq rc eq_refl).
    apply (push_each_wp _ mr rmr); [|done|].
    + intros. by apply rc_push_one_wp.
    + intros r w' Hs Hm. apply HQ; [done|]. by eapply hybrid_mrs.
  - change (bool_decide (is_Some None)) with false. unfold dc_push_impl, get_mr, get_self. wsteps.
    rewrite Hmr. wsteps. rewrite Hdc. wsteps. rewrite Hp. wsteps.
    subst rmr. apply (push_each_wp _ mr (EndPoint.mr p)); [|done|].
    + intros. by apply dc_push_one_wp.
    + intros r w' Hs Hm. apply HQ; [done|]. by eapply hybrid_mrs.
Qed.

(** ** The thread *)
Lemma qp_connect_wp vid port path w g f (Q : Result Error (option ptr) -> state -> Prop) :
  rctrls g <> [] ->
  (forall r w', posted w' = posted w ->
     (forall rc, r = Ok (Some rc) -> rc_remote_mr w' rc = service_mr path port) -> Q r (w', g, f)) ->
  wp (qp_connect vid port path) (w, g, f) Q.
Proof.
  intros Hl HQ. unfold qp_connect, sys, get_global_rctrl, nth_mod, ask, lib. wsteps.
  destruct (index_mod_some (rctrls g) port Hl) as (k & c & -> & _ & _). wsteps.
  destruct (rc_new_law (get_context w c) (get_recv_cq w c) w) as (r & w1 & E & Hp). unfold wp at 1. rewrite E.
  destruct r as [qp|]; wsteps; [|by apply HQ].
  destruct (rc_connect_law qp vid path port w1) as (r & w2 & E2 & Hp2 & Hm). unfold wp at 1. rewrite E2.
  destruct r as [u|e]; wsteps.
  - apply HQ; [congruence|]. intros rc [= <-]. by apply Hm.
  - destruct (rc_drop_law qp w2) as (w3 & E3 & Hp3). unfold wp at 1. rewrite E3. wsteps. apply HQ; [congruence|done].
Qed.

(** The thread posts nothing and leaves the queue ready. *)
Lemma migrate_wp mr rmr w g f (Q : Z -> state -> Prop) :
  hybrid mr rmr w g (self f) ->
  (forall w' q, posted w' = posted w -> hybrid mr rmr w' g q -> Q 0 (w', g, mkFile (user f) q)) ->
  wp bg_rc_migrate_thread (w, g, f) Q.
Proof.
  intros Hy HQ. pose proof Hy as [? ? ? ? ? (p & Hp & Hpm) _].
  unfold bg_rc_migrate_thread, get_self. wsteps. rewrite Hp. wsteps.
  destruct (virtual_queue (self f)) as [rc|] eqn:Hv; wsteps.
  { destruct f. by apply HQ. }
  apply qp_connect_wp; [done|]. intros r w1 Hp1 Hm1.
  assert (Hnone : forall w', hybrid mr rmr w' g (self f)) by (intros w'; destruct Hy; split; congruence || done).
  destruct r as [qp|e]; [|wsteps; destruct f; by apply HQ]. destruct f_virtual_queue; wsteps.
  - unfold get_self, on_self. wsteps. rewrite Hv. wsteps. apply HQ; [done|]. destruct Hy. split; try done.
    intros rc Hrc. cbn [virtual_queue set_queue] in Hrc. subst qp. by rewrite <- Hpm, Hm1.
  - destruct qp as [qp|]; cbn [drop_opt]; [|wsteps; destruct f; by apply HQ]. unfold lib. wsteps.
    destruct (rc_drop_law qp w1) as (w2 & E & Hp2). unfold wp at 1. rewrite E. wsteps. destruct f. apply HQ; [congruence|done].
Qed.

(** What the thread may do before a batch: nothing, or its work. *)
Definition background (b : K unit) : Prop :=
  b = mret () \/ b = (_ ← bg_rc_migrate_thread; mret ()).

Lemma background_wp b mr rmr w g f (Q : unit -> state -> Prop) :
  background b -> hybrid mr rmr w g (self f) ->
  (forall w' q, posted w' = posted w -> hybrid mr rmr w' g q -> Q () (w', g, mkFile (user f) q)) ->
  wp b (w, g, f) Q.
Proof.
  intros [-> | ->] Hy HQ; wsteps; [destruct f; by apply HQ|].
  eapply migrate_wp; [done|]. intros w' q Hp Hq. wsteps. by apply HQ.
Qed.

(** ** The loop over the batches *)
Lemma sent_app wrs1 wrs2 r1 r2 w w1 w2 :
  sent wrs1 r1 w w1 -> r1 <> reply_status.err -> sent wrs2 r2 w1 w2 -> sent (wrs1 ++ wrs2) r2 w w2.
Proof.
  intros (k1 & _ & Hp1 & Hc1) Hne (k2 & Hk2 & Hp2 & Hc2). destruct Hc1 as [[_ ->]|[-> _]]; [|done].
  exists (length wrs1 + k2)%nat. rewrite length_app, take_app_add, Hp2, Hp1, firstn_all, <- app_assoc.
  split_and!; [lia|done|]. destruct Hc2 as [[-> ->]|[-> ?]]; [left|right]; split; done || lia.
Qed.

Lemma reqs_bytes_app r1 r2 : reqs_bytes (r1 ++ r2) = reqs_bytes r1 ++ reqs_bytes r2.
Proof. unfold reqs_bytes. by rewrite map_app, concat_app. Qed.

(** The bytes of a batch. *)
Lemma batch_bytes m a reqs off n :
  holds m a (reqs_bytes reqs) -> Forall core_req_fits reqs -> (off + n <= length reqs)%nat ->
  core_reqs_of n (fst (copy_from_user m (a + Z.of_nat (off * 40)) (n * 40))) = take n (skipn off reqs).
Proof.
  intros Hh HF Hn. rewrite <- (take_drop off reqs), reqs_bytes_app in Hh. apply holds_app in Hh as [_ Hh].
  rewrite reqs_bytes_length, length_take_le in Hh by lia.
  rewrite <- (take_drop n (drop off reqs)), reqs_bytes_app in Hh. apply holds_app in Hh as [Hh _].
  assert (Hl : length (take n (drop off reqs)) = n) by (rewrite length_take, length_drop; lia).
  replace (n * 40)%nat with (length (reqs_bytes (take n (drop off reqs)))) by (rewrite reqs_bytes_length, Hl; lia).
  replace (a + Z.of_nat (off * 40)) with (a + Z.of_nat (40 * off)) by lia.
  rewrite copy_from_user_holds by done. cbn [fst]. rewrite <- Hl at 1.
  apply core_reqs_roundtrip. by apply Forall_take, Forall_drop.
Qed.

Lemma push_loop_wp mr rmr bg fuel i a reqs pop o w g f (Q : option Z -> state -> Prop) :
  (forall i, background (bg i)) -> hybrid mr rmr w g (self f) ->
  holds (user f) a (reqs_bytes reqs) -> Forall (req_ok mr rmr) reqs ->
  0 <= a -> a + 40 * Z.of_nat (length reqs) < 2 ^ 64 -> (o <= length reqs)%nat -> (length reqs - o <= fuel)%nat ->
  (forall r w' q, sent (map (wr_spec mr rmr) (skipn o reqs)) r w w' -> hybrid mr rmr w' g q ->
     Q (Some r) (w', g, mkFile (user f) q)) ->
  wp (push_loop bg fuel i a (Z.of_nat (length reqs)) pop (Z.of_nat o) reply_status.ok) (w, g, f) Q.
Proof.
  intros Hbg Hy Hh HF Ha0 Ha Ho. pose proof (Forall_impl _ _ _ HF (fun r (H : req_ok mr rmr r) => proj1 H)) as Hfits.
  revert i o w f Hy Hh Ho Q. induction fuel as [|fuel IH]; intros i o w f Hy Hh Ho Q Hf HQ; cbn [push_loop];
    (destruct (Z.ltb_spec (Z.of_nat o) (Z.of_nat (length reqs))); cbn [negb];
     [|wsteps; destruct f; apply HQ; [|done]; rewrite drop_ge by lia; exists 0%nat; cbn; rewrite app_nil_r;
       split_and!; [lia|done|by left]]); [lia|].
  set (n := Nat.min 64 (length reqs - o)).
  replace (Z.min VQ.DEFAULT_BATCH_SZ _) with (Z.of_nat n) by (unfold VQ.DEFAULT_BATCH_SZ; lia).
  unfold uaddr. rewrite add_u64_small by (unfold in_width; lia). unfold from_user. wsteps.
  replace (Z.to_nat (Z.of_nat n * 40)) with (n * 40)%nat by lia.
  replace (a + Z.of_nat o * 40) with (a + Z.of_nat (o * 40)) by lia.
  rewrite Nat2Z.id, (batch_bytes _ a reqs o n) by (done || lia).
  eapply background_wp; [done|done|]. intros w1 q1 Hp1 Hy1. wsteps.
  apply (push_batch_wp mr rmr); [done|by apply Forall_take, Forall_drop|]. intros r w2 Hs2 Hy2.
  assert (Hsplit : map (wr_spec mr rmr) (skipn o reqs) =
    map (wr_spec mr rmr) (take n (skipn o reqs)) ++ map (wr_spec mr rmr) (skipn (o + n) reqs)).
  { rewrite <- map_app, <- drop_drop. by rewrite take_drop. }
  assert (Hs2' : sent (map (wr_spec mr rmr) (take n (skipn o reqs))) r w w2).
  { unfold sent in *. by rewrite <- Hp1. }
  destruct (Z.eqb_spec r reply_status.err) as [->|Hne]; wsteps.
  - apply HQ; [|done]. rewrite Hsplit. destruct Hs2' as (k & Hk & Hp & [[Hx _]|[_ Hlt]]); [done|].
    exists k. rewrite length_app, take_app_le by lia. split_and!; [lia|done|right; split; [done|lia]].
  - assert (r = reply_status.ok) as ->.
    { destruct Hs2' as (k & _ & _ & [[-> _]|[-> _]]); done. }
    replace (Z.of_nat o + Z.of_nat n) with (Z.of_nat (o + n)) by lia.
    apply IH; [done|done|lia|lia|]. intros r w3 q3 Hs3 Hy3. cbn [user self]. apply HQ; [|done].
    rewrite Hsplit. by eapply sent_app.
Qed.
End migrate.

(** C7. Migration is transparent: whenever the background thread puts its
    connection into the queue between the batches of a push, the device gets the
    requests of the process in their order, between the same two memory regions,
    up to the first that it does not accept; the status tells which of the two
    happened.  The immediate data is not part of the claim: the DC transport does
    not carry it. *)
Theorem migration_transparent {W : Type} `{!Cfg, !OneCfg, !KrLib W, !PostLaws W}
  (mr rmr : TempMR) (bg : nat -> M (W * globals * file) unit) (a : Z) (reqs : list core_req_t) (pop : bool)
  (w : W) (g : globals) (f : file) :
  (forall i, background (bg i)) -> hybrid mr rmr w g (self f) ->
  holds (user f) a (reqs_bytes reqs) -> Forall (req_ok mr rmr) reqs ->
  0 <= a -> a + 40 * Z.of_nat (length reqs) < 2 ^ 64 ->
  exists r w' q,
    push_loop bg (length reqs) 0 a (Z.of_nat (length reqs)) pop 0 reply_status.ok (w, g, f) =
      Done (Some r, (w', g, mkFile (user f) q)) /\
    sent (map (wr_spec mr rmr) reqs) r w w' /\ hybrid mr rmr w' g q.
Proof.
  intros Hbg Hy Hh HF Ha0 Ha.
  destruct (proj1 (wp_done _ _ _) (push_loop_wp mr rmr bg (length reqs) 0 a reqs pop 0 w g f
    (fun r s => exists x w' q, r = Some x /\ s = (w', g, mkFile (user f) q) /\
       sent (map (wr_spec mr rmr) reqs) x w w' /\ hybrid mr rmr w' g q)
    Hbg Hy Hh HF Ha0 Ha ltac:(lia) ltac:(lia) ltac:(intros r w' q Hs Hq; by eexists _, _, _)))
    as (r & s & E & x & w' & q & -> & -> & Hs & Hq).
  by exists x, w', q.
Qed.
