(* ===== verification/KrSim.v ===== *)
(** * A library under the one-sided system calls that runs

    An instance of [KrLib] that satisfies what the module relies on: a memory of the
    kernel, the memory of one peer, a log of the requests that were posted, and the
    memory regions that the connections reach.  A structure is its fields, little
    endian; a read over DC is done when it is posted.  The properties of the
    one-sided queues are applied here to concrete machines. *)

From S2P Require Import Prelude Bytes Errors Verbs CmVerbs Sim Guid Context CompletionQueue QueuePair BringUp.
From S2P Require Import CommManager RecvHelper SysQp SysCtrl SysAbi VirtualQueue KrLib MetaKv OneSided MetaLookup Migrate.

#[local] Open Scope Z_scope.

Record machine := mkMachine {
  m_mem : umem; m_peer : umem; m_log : list wr; m_mrs : gmap Z TempMR; m_next : Z }.

Definition set_m_mem x (w : machine) := mkMachine x (m_peer w) (m_log w) (m_mrs w) (m_next w).
Definition post_wr x (w : machine) := mkMachine (m_mem w) (m_peer w) (m_log w ++ [x]) (m_mrs w) (m_next w).
Definition set_m_mr rc mr (w : machine) :=
  mkMachine (m_mem w) (m_peer w) (m_log w) (<[rc := mr]> (m_mrs w)) (m_next w).

(** ** Layouts *)
Definition gid_layout : list nat := [8; 8]%nat.
Definition sim_gid_bytes (g : ib_gid) : list Z := pack gid_layout [subnet_prefix g; interface_id g].
Definition sim_gid_of (l : list Z) : ib_gid := mkGid (u64 (field gid_layout 0 l)) (u64 (field gid_layout 1 l)).

Definition point_layout : list nat := [4; 4; 2; 8; 8; 4; 8; 4; 4; 8]%nat.
Definition sim_point_bytes (p : point) : list Z :=
  pack point_layout [EndPoint.qpn p; EndPoint.qkey p; EndPoint.lid p; subnet_prefix (EndPoint.gid p);
    interface_id (EndPoint.gid p); EndPoint.dct_num p; mr_addr (EndPoint.mr p); mr_capacity (EndPoint.mr p);
    mr_key (EndPoint.mr p); EndPoint.ah p].
Definition sim_point_of (l : list Z) : point :=
  let f i := field point_layout i l in
  EndPoint.mkEndPoint (u32 (f 0%nat)) (u32 (f 1%nat)) (u16 (f 2%nat)) (mkGid (u64 (f 3%nat)) (u64 (f 4%nat)))
    (u32 (f 5%nat)) (mkTempMR (u64 (f 6%nat)) (u32 (f 7%nat)) (u32 (f 8%nat))) (u64 (f 9%nat)).

(** A copy of an end point has no handle. *)
Definition sim_clone (p : point) : point :=
  EndPoint.mkEndPoint (EndPoint.qpn p) (EndPoint.qkey p) (EndPoint.lid p) (EndPoint.gid p) (EndPoint.dct_num p)
    (EndPoint.mr p) null.

(** ** Operations *)
Definition VA : Z := 4096 * 4096.
Definition sim_mr : TempMR := mkTempMR 0 4096 7.
Definition sim_gid : ib_gid := mkGid 1 2.
Definition sim_point : point := EndPoint.mkEndPoint 1 2 3 sim_gid 4 sim_mr 0.
Definition sim_path : sa_path_rec := mkPath default_gid sim_gid 1 1 [].
Definition sim_service_mr (path : sa_path_rec) (port : Z) : TempMR := mkTempMR (4096 * port) 4096 port.

Definition sim_dc_push (op : ib_wr_opcode) (la lk len ra rk : Z) (fl : list ib_send_flag) :
  M machine (Result Error unit) := fun w =>
  let w := match op with
           | IB_WR_RDMA_READ =>
               set_m_mem (fst (copy_to_user (m_mem w) (la + VA) (fst (copy_from_user (m_peer w) ra (Z.to_nat len))))) w
           | _ => w
           end in
  Done (Ok (), post_wr (mkWr op la lk len ra rk fl) w).

#[export] Instance machine_lib : KrLib machine := {|
  ctrl_create i ctx := mret (Some ctx);
  ctrl_drop c := mret ();
  get_context w c := c;
  get_self_test_mr w c := sim_mr;
  ctrl_dc w c := Some c;
  ctrl_ud w c k := Some c;
  get_dc_num w c := 4;
  get_trc w c vid := None;
  get_recv_cq w c := c;
  post_recvs c qp n := mret (Ok ());
  pop_recvs c cq n off := mret (Ok (None, 0));
  ud_post_recv c n := mret (Ok ());
  trc_post_recv c vid n := mret (Ok ());
  get_next_in_qp_key c i := mret 1;
  register_rc c k qp := mret ();
  dereg_rc c k := mret ();
  register_client := mret ();
  unregister_client := mret ();
  nic_create dev port := mret (Ok dev);
  ctx_create nic := mret (Some nic);
  ctx_reset ctx := mret ();
  get_lkey w ctx := 7;
  get_rkey w ctx := 7;
  get_pd w ctx := ctx;
  get_lid w ctx := 3;
  get_gid w ctx := sim_gid;
  explore_path ctx addr port := mret (Some sim_path);
  sidr_new ctx := mret (Some ctx);
  sidr_connect cm path port hint := mret (Ok sim_point);
  sidr_drop cm := mret ();
  point_new pd qpn qkey lid gid num mr := mret (EndPoint.mkEndPoint qpn qkey lid gid num mr pd);
  point_drop p := mret ();
  self_clone := sim_clone;
  rc_new_with_srq ctx cq := fun w =>
    Done (Some (m_next w), mkMachine (m_mem w) (m_peer w) (m_log w) (m_mrs w) (m_next w + 1));
  rc_connect rc vid path port := fun w => Done (Ok (), set_m_mr rc (sim_service_mr path port) w);
  rc_drop rc := mret ();
  rc_qp w rc := rc;
  rc_qp_num w rc := rc;
  rc_remote_mr w rc := default sim_mr (m_mrs w !! rc);
  rc_push_with_imm rc op la lk len ra rk imm fl := fun w => Done (Ok (), post_wr (mkWr op la lk len ra rk fl) w);
  rc_pop rc := mret (Some 1);
  rc_wait_til_comp rc := mret (Some 1);
  bring_to_init qp := mret (Ok ());
  bring_init_to_rtr qp num lid gid := mret (Ok ());
  bring_rtr_to_rts qp := mret (Ok ());
  ud_qp w ud := ud;
  ud_qp_num w ud := ud;
  ud_qkey w ud := 73;
  ud_push ud op la lk p len imm fl := mret (Ok ());
  ud_wait_til_comp ud := mret (Some 1);
  dc_push dc op la lk len ra rk p fl := sim_dc_push op la lk len ra rk fl;
  dc_pop dc := mret (Some 1);
  dc_wait_til_comp dc := mret (Some 1);
  rpc_create ctx ud num mr := mret 1;
  rpc_drop c := mret ();
  rpc_end_point w c := sim_point;
  reg_handler c id h := mret ();
  rpc_call c p id l n us := mret None;
  rpc_poll_all c := mret ();
  kthread_poll_all c := mret ();
  mem_new sz := mret 0;
  pa_va a := a + VA;
  kmem := m_mem;
  set_kmem := set_m_mem;
  wc_at w p i := mkWc 0 0 0 0 0;
  point_size := 54%nat;
  point_bytes := sim_point_bytes;
  point_of := sim_point_of;
  gid_bytes := sim_gid_bytes;
  gid_of := sim_gid_of;
  gid_to_str := sim_gid_bytes;
  str_to_gid := sim_gid_of;
  gid_eq g h := bool_decide (g = h);
  keys m := (map_to_list m).*1;
  DEFAULT_RPC_HINT := 73;
  MAX_KMALLOC_SZ := 4 * 1024 * 1024;
  UD_HEADER_SZ := 40;
  getrandom := mret 4
|}.

(** ** Laws *)
Lemma field_packed ws zs i w z :
  ws !! i = Some w -> zs !! i = Some z -> in_width (8 * Z.of_nat w) z -> field ws i (pack ws zs) = z.
Proof.
  intros Hw Hz Hr. rewrite <- (app_nil_r (pack ws zs)), (field_pack _ _ _ w z) by done. by apply byte_range.
Qed.

Lemma gid_words_roundtrip g : gid_fits g -> sim_gid_of (sim_gid_bytes g) = g.
Proof.
  destruct g as [p i]. intros [Hp Hi]. unfold sim_gid_of, sim_gid_bytes.
  rewrite (field_packed _ _ 0 8 p), (field_packed _ _ 1 8 i) by done. by rewrite !wrap_small.
Qed.

Lemma point_words_roundtrip p : point_fits p -> sim_point_of (sim_point_bytes p) = p.
Proof.
  destruct p as [qpn qkey lid [gp gi] num [ma mc mk] ah].
  intros (H1 & H2 & H3 & [H4 H5] & H6 & (H7 & H8 & H9) & H10).
  unfold sim_point_of, sim_point_bytes. cbv zeta.
  rewrite (field_packed _ _ 0 4 qpn), (field_packed _ _ 1 4 qkey), (field_packed _ _ 2 2 lid),
    (field_packed _ _ 3 8 gp), (field_packed _ _ 4 8 gi), (field_packed _ _ 5 4 num), (field_packed _ _ 6 8 ma),
    (field_packed _ _ 7 4 mc), (field_packed _ _ 8 4 mk), (field_packed _ _ 9 8 ah) by done.
  by rewrite !wrap_small.
Qed.

#[export] Instance machine_laws : KrLaws machine.
Proof.
  split; try done.
  - cbn. lia.
  - apply point_words_roundtrip.
  - intros l. unfold point_fits, gid_fits, mr_fits. split_and!; by apply wrap_range.
  - apply gid_words_roundtrip.
  - intros l. split; by apply wrap_range.
  - intros p (H1 & H2 & H3 & H4 & H5 & H6 & _). split_and!; done.
  - intros g h Hg Hh E. rewrite <- (gid_words_roundtrip g Hg), <- (gid_words_roundtrip h Hh).
    by apply (f_equal sim_gid_of).
  - intros m. apply NoDup_fst_map_to_list.
  - intros m k. cbn. rewrite list_elem_of_fmap. split.
    + intros ([k' v] & -> & Hk%elem_of_map_to_list). by exists v.
    + intros [v Hv]. exists (k, v). split; [done|]. by apply elem_of_map_to_list.
  - intros a n. cbn. lia.
  - intros p w. by exists w.
Qed.

#[export] Program Instance machine_reads : ReadLaws machine := {| peer_mem w p := m_peer w |}.
Next Obligation.
  intros dc la lk len ra rk p w l Hl Hh Hm. eexists _, 1, _. split_and!; [reflexivity..| |done].
  cbn. replace (Z.to_nat len) with (length l) by lia. by rewrite copy_from_user_holds.
Qed.

#[export] Program Instance machine_posts : PostLaws machine := {| posted := m_log; service_mr := sim_service_mr |}.
Next Obligation. intros. eexists _, _. split_and!; [reflexivity|by destruct op|by destruct op]. Qed.
Next Obligation. intros. by eexists _, _. Qed.
Next Obligation. intros. by eexists _, _. Qed.
Next Obligation.
  intros. eexists _, _. split_and!; [reflexivity|done|]. intros _. cbn. by rewrite lookup_insert_eq.
Qed.
Next Obligation. intros. by eexists. Qed.

(** ** Two machines at a meta server *)
#[local] Instance cfg : Cfg := kernel_cfg.
#[local] Instance one_cfg : OneCfg := {|
  f_virtual_queue := true; f_dct_qp := true; f_migrate_qp := true; f_meta_kv := true; f_meta_cache := false;
  f_rpc_server := true |}.

(** A block of zeros at the start of the virtual addresses. *)
Definition zeros (n : nat) : umem := block VA (replicate n 0).

Definition server_globals : globals := mkGlobals [1] [1] [1] [1] [0; 4096] ∅ 0.
Definition server : machine := mkMachine (zeros (4 * REGION)) ∅ [] ∅ 100.
Definition point_a : point := EndPoint.mkEndPoint 11 12 13 (mkGid 1 10) 14 sim_mr 0.
Definition point_b : point := EndPoint.mkEndPoint 21 22 23 (mkGid 1 20) 24 sim_mr 0.
Definition arrivals : list meta_req :=
  [Register point_a 5; Register point_b 6; Deregister (EndPoint.gid point_a); Query (EndPoint.gid point_b)].

Lemma kernel_mapped k a n : VA <= a -> a + Z.of_nat n <= VA + Z.of_nat k -> mapped (zeros k) a n.
Proof. intros. eapply mapped_sub; [apply holds_mapped, block_holds|done|]. by rewrite length_replicate. Qed.
Lemma server_mapped a n : VA <= a -> a + Z.of_nat n <= VA + 16384 -> mapped (m_mem server) a n.
Proof. intros. apply kernel_mapped; unfold REGION; lia. Qed.

Lemma server_layout : layout_ok (VA + 8192) (VA + 12288) (global_mem server_globals) (kmem server).
Proof.
  change (kmem server) with (m_mem server).
  split; cbn [global_mem server_globals pa_va machine_lib length]; unfold REGION, reg_size, MetaLookup.disjoint;
    cbn [point_size machine_lib]; try (apply server_mapped; lia); try done;
    try (intros pa Hpa; set_unfold in Hpa; destruct_or! Hpa; subst; try apply server_mapped; unfold VA; lia).
  intros [|[|i]] [|[|j]] pa pb; simpl; intros; simplify_eq; unfold VA; lia.
Qed.

(** The machine that looks up; it reads the second block. *)
Definition client_globals : globals := mkGlobals [1] [1] [1] [1] [0] {[ [77] := sim_point ]} 4096.
Definition client_file : One.file :=
  One.mkFile ∅ (One.mkVQ None (Some 1) (Some 1) None (One.mkCache ∅ ∅ (Some sim_mr) ∅ None) None (Some 1) false).
Definition client_of (w : machine) : machine :=
  mkMachine (zeros 256) (kmap (fun a => a - VA) (m_mem w)) [] ∅ 100.

Lemma client_peer w a : m_peer (client_of w) !! a = m_mem w !! (a + VA).
Proof.
  cbn. assert (Inj (=) (=) (fun a => a - VA)) by (intros x y; lia).
  replace a with (a + VA - VA) at 1 by lia. apply (lookup_kmap (fun a => a - VA)).
Qed.

Lemma client_is_ok w : client_ok [77] client_globals (One.self client_file) (client_of w) sim_point 4096 116.
Proof.
  split; [done|done|by eexists|]. exists sim_mr. split_and!; [done| |done..].
  apply (kernel_mapped 256); cbn [pa_va machine_lib mr_addr sim_mr]; lia.
Qed.

Lemma meta_lookup_refines_witness :
  exists w g r s,
    serve_all (VA + 8192) (VA + 12288) arrivals (server, server_globals) = Done ((), (w, g)) /\
    One.query_dct_meta [77] (sim_gid_bytes (EndPoint.gid point_a)) (client_of w, client_globals, client_file) =
      Done (Some r, s) /\ same_peer r point_a.
Proof.
  destruct (meta_lookup_refines (VA + 8192) (VA + 12288) arrivals server server_globals server_layout)
    as (w & g & E & H).
  - by apply map_Forall_empty.
  - repeat (constructor; [vm_compute; repeat split; congruence|]). constructor.
  - apply Nat.leb_le. vm_compute. reflexivity.
  - set (snap := <[gid_to_str (EndPoint.gid point_b) := self_clone point_b]>
        (<[gid_to_str (EndPoint.gid point_a) := self_clone point_a]> (∅ : registry))).
    destruct (H snap eq_refl [77] 4096 (client_of w) client_globals client_file sim_point
      (sim_gid_bytes (EndPoint.gid point_a))) as (r & s & Eq & HF).
    + by right; left.
    + vm_compute. repeat split; congruence.
    + replace (8 + size snap * point_size)%nat with 116%nat by (vm_compute; reflexivity). apply client_is_ok.
    + intros a. apply client_peer.
    + replace (snap !! gid_to_str (str_to_gid (sim_gid_bytes (EndPoint.gid point_a))))
        with (Some (self_clone point_a)) in HF by (vm_compute; reflexivity).
      inversion HF as [x y Hxy E1 E2|]. subst. exists w, g, x, s. split; [exact E|]. split; [exact Eq|].
      transitivity (self_clone point_a); [exact Hxy|apply self_clone_peer].
Defined.

(** ** Seventy writes, and a connection after the first batch *)
Definition writes : list core_req_t :=
  (fun i => mkCoreReq (64 * i) 64 0 (64 * i) 0 1 0 1) <$> seqZ 0 70.
Definition target_mr : TempMR := sim_service_mr sim_path 3.
Definition target_point : point := EndPoint.mkEndPoint 11 12 13 (mkGid 1 10) 14 target_mr 1.
Definition writer_file : One.file :=
  One.mkFile (block 0 (reqs_bytes writes))
    (One.mkVQ None (Some 1) (Some 1) (Some (One.mkParam 1 3 sim_path))
       (One.mkCache ∅ ∅ (Some sim_mr) ∅ (Some target_point)) None (Some 3) false).
Definition writer : machine := mkMachine ∅ ∅ [] ∅ 100.
Definition late_thread (i : nat) : M (machine * globals * One.file) unit :=
  if Nat.eqb i 1 then _ ← One.bg_rc_migrate_thread; mret () else mret ().

(** The connection that the queue has when all is sent. *)
Definition queue_after {A} (o : outcome (A * (machine * globals * One.file))) : option ptr :=
  match o with Done (_, (_, f)) => One.virtual_queue (One.self f) | Panic => None end.

Lemma migration_transparent_witness :
  exists r w q,
    One.push_loop late_thread 70 0 0 70 false 0 reply_status.ok (writer, server_globals, writer_file) =
      Done (Some r, (w, server_globals, One.mkFile (One.user writer_file) q)) /\
    sent (map (wr_spec sim_mr target_mr) writes) r writer w /\ One.virtual_queue q = Some 100.
Proof.
  destruct (migration_transparent sim_mr target_mr late_thread 0 writes false writer server_globals writer_file)
    as (r & w & q & E & Hs & _).
  - intros [|[|i]]; [by left|by right|by left].
  - split; [done|done|done|by eexists|by exists target_point|by eexists|done].
  - apply block_holds.
  - repeat (constructor; [vm_compute; repeat split; congruence|]). constructor.
  - done.
  - vm_compute. reflexivity.
  - exists r, w, q. split; [exact E|]. split; [exact Hs|].
    apply (f_equal queue_after) in E. cbn [queue_after One.self] in E. rewrite <- E. vm_compute. reflexivity.
Defined.
