(* ===== verification/UserLib.v ===== *)
(** * The library of the processes

    src/KRdmaKit-syscall/two-sided-dc/include/syscall.h: the functions a process
    calls, each of which fills a request on its stack, enters the kernel with [ioctl]
    and returns the status of the reply.  The theorems are about the two sides
    together: what a process gets back for what it passes, through the bytes of its
    memory and [VQ::ioctrl]. *)

From S2P Require Import Prelude Bytes Errors Verbs CmVerbs Sim Guid Context CompletionQueue QueuePair BringUp.
From S2P Require Import Stable CommManager RecvHelper SysQp SysBringUp SysCtrl SysAbi VirtualQueue SysCalls.
Import RCtrl VQ.

(** Where the compiler has put the request and the reply of a call. *)
Record locals := mkLocals { l_req : Z; l_reply : Z }.

Section lib.
Context {W : Type} `{!Cfg, !DeviceOps W, !QueueOps W, !DataOps W, !CmOps W, !SysOps W, !PhysOps, !SrqOps W, !SaOps W}.
Context `{!SysCfg, !Frame, !KernelMem W} (env : conn_env).
Abbreviation K := (M (W * sys)).

(** libc turns a small negative result into -1. *)
Definition ioctl (cmd req : Z) : K Z :=
  r ← ioctrl cmd req env;
  mret (if (-4095 <=? r) && (r <? 0) then -1 else i32 r).
Definition int_at (a : Z) : K Z := l ← from_user a 4; mret (i32 (unle l)).

(** The members of the request in the order of their assignments, the call, and the
    status of the reply. *)
Definition request (req : Z) (members : list (nat * list Z)) (cmd reply : Z) : K Z :=
  _ ← onX (fun s => with_user (stores (user s) req members) s);
  r ← ioctl cmd req;
  if r =? -1 then mret (-1) else int_at reply.

Definition queue : K unit := q ← open; on_self (fun _ => q).

Definition qnil (fr : locals) : K Z :=
  request (l_req fr) [(0%nat, le 4 73); (8%nat, le 8 (l_reply fr))] lib_r_cmd.Nil (l_reply fr).

Definition qconnect (fr : locals) (addr addr_sz port vid : Z) : K Z :=
  _ ← onX (fun s => with_user (stores (user s) (l_reply fr) [(0%nat, le 4 reply_status.err)]) s);
  request (l_req fr)
    [(0%nat, le 4 64); (8%nat, le 8 (l_reply fr)); (16%nat, le 8 addr); (24%nat, le 4 port); (28%nat, le 4 addr_sz);
     (32%nat, le 4 vid)] lib_r_cmd.Connect (l_reply fr).

(** The request list is copied from the caller's structure. *)
Definition qpush (fr : locals) (reqq pop_res push_recv_cnt : Z) : K Z :=
  core ← from_user reqq 16;
  request (l_req fr)
    [(8%nat, le 8 (l_reply fr)); (32%nat, le 4 push_recv_cnt); (36%nat, le 1 pop_res); (16%nat, core)]
    lib_r_cmd.Push (l_reply fr).

Definition qpop (fr : locals) (reply vid : Z) : K Z :=
  request (l_req fr) [(8%nat, le 8 reply); (16%nat, le 4 vid)] lib_r_cmd.Pop reply.

Definition qpush_recv (fr : locals) (push_count : Z) : K Z :=
  request (l_req fr) [(16%nat, le 4 push_count); (8%nat, le 8 (l_reply fr))] lib_r_cmd.PushRecv (l_reply fr).

Definition qpop_msgs (fr : locals) (reply pop_count payload_sz : Z) : K Z :=
  request (l_req fr) [(16%nat, le 4 pop_count); (20%nat, le 4 payload_sz); (8%nat, le 8 reply)] lib_r_cmd.PopMsgs reply.

Definition qbind (fr : locals) (port : Z) : K Z :=
  request (l_req fr) [(0%nat, le 4 64); (16%nat, le 4 port); (8%nat, le 8 (l_reply fr))] lib_r_cmd.Binds (l_reply fr).

Definition qunbind (fr : locals) (port : Z) : K Z :=
  request (l_req fr) [(0%nat, le 4 64); (16%nat, le 4 port); (8%nat, le 8 (l_reply fr))] lib_r_cmd.UnBinds (l_reply fr).

End lib.

(** ** A call, from the kernel's result to the process *)
Section call.
Context {W : Type} `{!Cfg, !DeviceOps W, !QueueOps W, !DataOps W, !CmOps W, !SysOps W, !PhysOps, !SrqOps W, !SaOps W}.
Context `{!SysCfg, !Frame, !KernelMem W} (env : conn_env).
Implicit Types (w : W) (s : sys).

(** A buffer of [n] bytes at [a]. *)
Definition buffer_at (s : sys) (a : Z) (n : nat) : Prop := mapped (user s) a n /\ 0 <= a /\ a + Z.of_nat n < 2 ^ 64.

Lemma reply_buf_of m req reply n :
  mapped m req n -> (16 <= n)%nat -> in_width 64 reply -> holds m (req + 8) (le 8 reply) ->
  reply_buf (fst (copy_from_user m req 16)) = reply.
Proof.
  intros Hm Hn Hr Hh. change (word_at 8 8 (fst (copy_from_user m req 16)) = reply).
  rewrite (word_of_user m req 16 8 8 reply); [by apply Z.mod_small|by apply (mapped_sub m req n); [|lia..]|lia|done].
Qed.

Lemma status_roundtrip st : in_width 31 st -> i32 (unle (le 4 st)) = st.
Proof.
  intros Hs. rewrite unle_le. unfold in_width in Hs. rewrite Z.mod_small by lia. apply swrap_small; lia.
Qed.

Lemma request_run req n bl cmd reply w s st w' s' :
  mapped (user s) req n -> (16 <= n)%nat -> members n bl = true -> (8%nat, le 8 reply) ∈ bl -> in_width 64 reply ->
  cmd <> lib_r_cmd.Connect \/ virtual_queue (self s) = None ->
  command cmd req reply env (w, with_user (stores (user s) req bl) s) = Done (st, (w', s')) ->
  mapped (user s') reply 16 -> in_width 31 st ->
  exists m, request env req bl cmd reply (w, s) = Done (st, (w', with_user m s')) /\
    outside reply 16 (user s') m /\ dom m = dom (user s').
Proof.
  intros Hm Hn Hmem Hin Hr Hcon Hcmd Hreply Hst. unfold request. rewrite bind_onX.
  destruct (stores_outside (user s) req n bl Hm Hmem) as [_ Hd].
  pose proof (stores_holds (user s) req n bl Hm Hmem) as Hh. rewrite Forall_forall in Hh. specialize (Hh _ Hin). cbn [fst snd] in Hh.
  set (m1 := stores (user s) req bl) in *.
  destruct (copy_to_user_mapped (user s') reply (reply_bytes st)) as (m2 & Hc & Hh2 & Ho & Hd2).
  { by unfold reply_bytes; rewrite pack_length. }
  exists m2. split; [|split; [by unfold reply_bytes in Ho; rewrite pack_length in Ho|done]].
  assert (Hio : ioctrl cmd req env (w, with_user m1 s) = Done (0, (w', with_user m2 s'))).
  { unfold ioctrl, from_user at 1. rewrite bind_assoc, bind_getX, bind_ret. cbn [user with_user].
    change (size_of req_layout) with 16%nat.
    rewrite (reply_buf_of m1 req reply n) by (done || by eapply mapped_dom). unfold get_self. rewrite bind_assoc, bind_getX, bind_ret.
    destruct (_ && _) eqn:E. { apply andb_prop in E as [E1%Z.eqb_eq E2%bool_decide_eq_true]. cbn in E2.
      destruct Hcon as [?|Hq]; [done|]. rewrite Hq in E2. by destruct E2. }
    rewrite (bind_done _ _ _ _ _ Hcmd). unfold to_user. rewrite bind_getX, Hc. done. }
  unfold ioctl. rewrite bind_assoc, (bind_done _ _ _ _ _ Hio), bind_ret.
  change ((if (-4095 <=? 0) && (0 <? 0) then -1 else i32 0) =? -1) with false. cbv iota. unfold int_at, from_user. rewrite bind_assoc, bind_getX, bind_ret. cbn [user with_user].
  unfold reply_bytes, pack in Hh2. cbn [reply_layout zip_with concat] in Hh2. apply holds_app in Hh2 as [Hh2 _].
  pose proof (copy_from_user_holds _ _ _ Hh2) as Hcp. rewrite le_length in Hcp. rewrite Hcp. cbn [fst].
  by rewrite status_roundtrip.
Qed.
(** Arguments behind the head of the request. *)
Lemma u32_arg_run arg off z w s :
  0 <= arg -> 0 <= off -> arg + 16 + off + 4 < 2 ^ 64 -> holds (user s) (arg + (16 + off)) (le 4 z) ->
  u32_arg arg off (w, s) = Done (u32 z, (w, s)).
Proof.
  intros Ha Ho Hw Hh. unfold u32_arg, uaddr, HEAD. rewrite add_u64_small, bind_lift by (unfold in_width; lia).
  unfold from_user. rewrite bind_assoc, bind_getX, bind_ret.
  pose proof (copy_from_user_holds _ _ _ Hh) as Hc. rewrite le_length in Hc. rewrite Hc. cbn [fst].
  pose proof (word_at_le [] 4 z []) as Hz. cbn [length app] in Hz. rewrite app_nil_r in Hz. by rewrite Hz.
Qed.

Lemma swrap_wrap z : i32 (u32 z) = i32 z.
Proof. unfold swrap. by rewrite wrap_wrap. Qed.

Lemma int_arg_run arg z w s :
  0 <= arg -> arg + 20 < 2 ^ 64 -> holds (user s) (arg + 16) (le 4 z) -> - 2 ^ 31 <= z < 2 ^ 31 ->
  int_arg arg (w, s) = Done (z, (w, s)).
Proof.
  intros Ha Hw Hh Hz. unfold int_arg. rewrite (bind_done _ _ _ _ _ (u32_arg_run arg 0 z w s Ha ltac:(lia) ltac:(lia) Hh)).
  by rewrite swrap_wrap, swrap_small.
Qed.

(** *** The ring of a control *)

(** A control whose completions can be polled. *)
Definition usable (c : RCtrl) : Prop := has_ring c /\ is_null (get_recv_cq c) = false.

Lemma frame_usable s s' : frame s s' -> Forall usable (rctrls s) -> Forall usable (rctrls s').
Proof.
  intros (F & _ & _). induction F as [|c c' l l' (E & _ & _ & Hr) F IH]; [done|].
  intros [[Hc Hn] Hl]%Forall_cons. constructor; [|by auto]. split; [by auto|]. rewrite E. done.
Qed.

Lemma index_mod_insert {A} (l : list A) idx i c c' :
  index_mod l idx = Done (i, c) -> index_mod (<[i := c']> l) idx = Done (i, c').
Proof.
  unfold index_mod. rewrite length_insert. destruct (rem_u64 _ _) as [j|]; [|done].
  destruct (l !! Z.to_nat j) eqn:E; [|done]. intros [= <- <-].
  by rewrite list_lookup_insert_eq by (by eapply lookup_lt_Some).
Qed.

(** The completions a poll wrote into the array, from [p] on. *)
Definition overwrite (p : nat) (got l : list ib_wc) : list ib_wc := take p l ++ got ++ skipn (p + length got) l.

Lemma pop_recv_run idx off w s i c h got w' e k b :
  index_mod (rctrls s) idx = Done (i, c) -> recv_buffer c = Some h -> ring RING e k b h ->
  is_null (get_recv_cq c) = false -> 0 <= off ->
  ib_poll_cq (get_recv_cq c) 2048 w = ((Z.of_nat (length got), got), w') ->
  off mod 2048 + Z.of_nat (length got) <= 2048 ->
  let h' := RecvHelper.store_wcs (overwrite (Z.to_nat (off mod 2048)) got (RecvHelper.wcs h)) h in
  pop_recv idx 2048 off (w, s) =
    Done ((Some (RecvHelper.wcs h'), Z.of_nat (length got)),
      (w', with_rctrls (<[i := set_recv (Some h') c]> (rctrls s)) s)) /\ ring RING e k b h'.
Proof.
  intros Hi Hb Hr Hn Ho Hp Hfit h'. unfold pop_recv.
  assert (Hrun : on_ctrl idx (ctrl_pop_recvs 2048 off) (w, s) =
    Done (Z.of_nat (length got), (w', with_rctrls (<[i := set_recv (Some h') c]> (rctrls s)) s))).
  { unfold on_ctrl. cbn [fst snd]. rewrite Hi. unfold ctrl_pop_recvs. cbn [fst snd]. rewrite Hb.
    unfold RecvHelper.pop_recvs. rewrite Hn, bind_getX, rem_u64_pos, bind_lift, bind_run by (unfold RING; lia).
    unfold onW, call. cbn [fst snd]. change (i32 2048) with 2048. rewrite Hp, (ring_wcs _ _ _ _ _ Hr).
    change (Z.of_nat RING) with 2048.
    destruct (Z.ltb_spec (Z.of_nat (length got)) 0); [lia|].
    destruct (Z.ltb_spec 2048 (off mod 2048 + Z.of_nat (length got))); [lia|]. done. }
  rewrite (bind_done _ _ _ _ _ Hrun). split.
  - unfold get_global_rctrl. rewrite bind_assoc, bind_getX. cbn [rctrls with_rctrls].
    rewrite (index_mod_insert _ _ _ _ _ Hi). done.
  - apply store_wcs_ring; [done|]. unfold overwrite. rewrite !length_app, length_take, length_drop, (ring_wcs _ _ _ _ _ Hr).
    pose proof (Z.mod_pos_bound off 2048 ltac:(lia)). unfold RING. lia.
Qed.

End call.

(** What a driver says about polls: an error, or how many completions there are. *)
Class PollLaws (W : Type) `{!DataOps W} : Prop := {
  poll_law cq n w ret got w' :
    ib_poll_cq cq n w = ((ret, got), w') -> 0 <= n -> 0 <= ret -> ret = Z.of_nat (length got) /\ ret <= n
}.

(** ** Binding *)
Section binding.
Context {W : Type} `{!Cfg, !DeviceOps W, !QueueOps W, !DataOps W, !CmOps W, !SysOps W, !PhysOps, !SrqOps W, !SaOps W}.
Context `{!SysCfg, !Frame, !KernelMem W, !PollLaws W} (env : conn_env) (fr : locals).
Implicit Types (w : W) (s : sys).

(** The calls a server makes to take and to leave a service number. *)
Inductive service_call : Set := CNil | CBind (port : Z) | CUnbind (port : Z).
Definition is_int (z : Z) : Prop := - 2 ^ 31 <= z < 2 ^ 31.
Definition call_fits (c : service_call) : Prop := match c with CNil => True | CBind p | CUnbind p => is_int p end.

Definition service_call_run (c : service_call) : M (W * sys) Z :=
  match c with CNil => qnil env fr | CBind p => qbind env fr p | CUnbind p => qunbind env fr p end.
Fixpoint service_calls_run (l : list service_call) : M (W * sys) (list Z) :=
  match l with [] => mret [] | c :: l => r ← service_call_run c; rs ← service_calls_run l; mret (r :: rs) end.

(** The specification: the state is the service that is bound. *)
Definition abs_service_call (st : option Z) (c : service_call) : Z * option Z :=
  match c, st with
  | CNil, _ => (reply_status.ok, st)
  | CBind _, Some _ => (reply_status.already_bind, st)
  | CBind p, None => if (0 <=? p) && (p <=? MAX_SERVICE_NUM) then (reply_status.ok, Some p) else (reply_status.nil, None)
  | CUnbind p, Some b => if b =? p then (reply_status.ok, None) else (reply_status.not_bind, st)
  | CUnbind _, None => (reply_status.not_bind, None)
  end.
Fixpoint abs_service_calls (st : option Z) (l : list service_call) : list Z * option Z :=
  match l with
  | [] => ([], st)
  | c :: l => let '(r, st) := abs_service_call st c in let '(rs, st) := abs_service_calls st l in (r :: rs, st)
  end.

(** A process with its stack, a module with its controls, a driver whose polls
    succeed. *)
Definition polls_succeed : Prop := forall cq w, 0 <= fst (fst (ib_poll_cq cq 2048 w)).
Record ready (s : sys) : Prop := {
  rdy_wf : vq_wf (self s);
  rdy_ctrls : rctrls s <> [];
  rdy_usable : Forall usable (rctrls s);
  rdy_req : buffer_at s (l_req fr) 48;
  rdy_reply : buffer_at s (l_reply fr) 16 }.

(** Where a call may lead. *)
Definition leads (s s' : sys) (b : option Z) : Prop := ready s' /\ bind_port (self s') = b /\ dom (user s') = dom (user s).

Lemma ready_user s m : ready s -> dom m = dom (user s) -> ready (with_user m s).
Proof.
  intros [? ? ? [Hq ?] [Hr ?]] Hd. constructor; try done; split; try done; by eapply (mapped_dom (user s)).
Qed.

Lemma ready_bind s b :
  ready s -> (forall p, b = Some p -> 0 <= p <= MAX_SERVICE_NUM) -> ready (with_self (set_bind b) s).
Proof. intros [[] ? ? ? ?] Hb. by constructor. Qed.

(** Messages that have arrived are taken from the ring. *)
Lemma ready_pop idx w s :
  ready s -> polls_succeed ->
  exists r w' s', pop_recv idx 2048 0 (w, s) = Done (r, (w', s')) /\ ready s' /\ self s' = self s /\ user s' = user s.
Proof.
  intros [Hwf Hne Hus Hreq Hrep] Hp. destruct (index_mod_some (rctrls s) idx Hne) as (i & c & Hi & Hc & _).
  pose proof (proj1 (Forall_lookup _ _) Hus _ _ Hc) as [(h & Hb & e & k & b & Hr) Hn].
  specialize (Hp (get_recv_cq c) w). destruct (ib_poll_cq (get_recv_cq c) 2048 w) as [[ret got] w'] eqn:E. cbn in Hp.
  destruct (poll_law _ _ _ _ _ _ E) as [-> Hle]; [lia..|].
  destruct (pop_recv_run idx 0 w s i c h got w' e k b Hi Hb Hr Hn) as [Hrun Hr']; [lia|done|done|].
  eexists _, w', _. split; [exact Hrun|]. split_and!; [|done..]. constructor; try done.
  - cbn. intros E'. apply (f_equal length) in E'. rewrite length_insert in E'. by destruct (rctrls s).
  - cbn. apply Forall_insert; [done|]. split; [|done]. eexists. split; [done|]. by exists e, k, b.
Qed.
(** A request of a ready process: what the kernel does with its members. *)
Lemma ready_request bl cmd st b w s :
  ready s -> members 48 bl = true -> (8%nat, le 8 (l_reply fr)) ∈ bl -> cmd <> lib_r_cmd.Connect -> in_width 31 st ->
  (forall s1, s1 = with_user (stores (user s) (l_req fr) bl) s -> ready s1 ->
     Forall (fun m => holds (user s1) (l_req fr + Z.of_nat (fst m)) (snd m)) bl ->
     exists w' s', command cmd (l_req fr) (l_reply fr) env (w, s1) = Done (st, (w', s')) /\ leads s1 s' b) ->
  exists w' s', request env (l_req fr) bl cmd (l_reply fr) (w, s) = Done (st, (w', s')) /\ leads s s' b.
Proof.
  intros Hs Hmem Hin Hcmd Hst Hrun. destruct (rdy_req _ Hs) as (Hm & Hq0 & Hq1). destruct (rdy_reply _ Hs) as (Hr & Hr0 & Hr1).
  destruct (stores_outside (user s) (l_req fr) 48 bl Hm Hmem) as [_ Hd].
  destruct (Hrun _ eq_refl) as (w' & s' & Hc & Hs' & Hb & Hd').
  { by apply ready_user. }
  { by apply stores_holds with 48%nat. }
  cbn in Hd'. destruct (request_run env (l_req fr) 48 bl cmd (l_reply fr) w s st w' s') as (m & Hreq & Ho & Hdm); try done.
  { lia. } { unfold in_width. lia. } { by left. } { by eapply mapped_dom; [|exact Hr]; congruence. }
  exists w', (with_user m s'). split; [done|]. split_and!; [by apply ready_user|done|cbn; congruence].
Qed.

Lemma leads_refl s : ready s -> leads s s (bind_port (self s)).
Proof. by intros Hs. Qed.

Lemma bind_command p w s :
  ready s -> is_int p -> holds (user s) (l_req fr + 16) (le 4 p) ->
  exists w' s', bind_cmd (l_req fr) (w, s) = Done (fst (abs_service_call (bind_port (self s)) (CBind p)), (w', s')) /\
    leads s s' (snd (abs_service_call (bind_port (self s)) (CBind p))).
Proof.
  intros Hs Hp Hh. destruct (rdy_req _ Hs) as (Hm & Hq0 & Hq1). unfold bind_cmd.
  rewrite (bind_done _ _ _ _ _ (int_arg_run _ p w s Hq0 ltac:(lia) Hh Hp)). unfold get_self. rewrite bind_assoc, bind_getX, bind_ret.
  unfold is_int in Hp. cbn [abs_service_call]. destruct (bind_port (self s)) as [b|] eqn:Eb.
  { eexists _, _. split; [done|]. rewrite <- Eb. by apply leads_refl. }
  assert (Hu : (MAX_SERVICE_NUM <? u64 p) = negb ((0 <=? p) && (p <=? MAX_SERVICE_NUM))).
  { unfold wrap. change MAX_SERVICE_NUM with 25. destruct (Z.leb_spec 0 p); cbn [andb negb].
    - rewrite Z.mod_small by lia. destruct (Z.leb_spec p 25), (Z.ltb_spec 25 p); cbn; lia || done.
    - rewrite <- (Z.mod_add p 1), Z.mod_small by lia. apply Z.ltb_lt. lia. }
  rewrite Hu. destruct ((0 <=? p) && (p <=? MAX_SERVICE_NUM)) eqn:E; cbn [negb].
  - bool_to_Prop. unfold wrap. rewrite Z.mod_small by lia. unfold on_self. rewrite bind_onX. eexists _, _. split; [done|].
    split_and!; [|done..]. apply ready_bind; [done|]. by intros ? [= <-].
  - eexists _, _. split; [done|]. cbn [snd]. rewrite <- Eb. by apply leads_refl.
Qed.

Lemma unbind_command p w s :
  ready s -> polls_succeed -> is_int p -> holds (user s) (l_req fr + 16) (le 4 p) ->
  exists w' s', unbind_cmd (l_req fr) (w, s) = Done (fst (abs_service_call (bind_port (self s)) (CUnbind p)), (w', s')) /\
    leads s s' (snd (abs_service_call (bind_port (self s)) (CUnbind p))).
Proof.
  intros Hs Hpoll Hp Hh. destruct (rdy_req _ Hs) as (Hm & Hq0 & Hq1). unfold unbind_cmd.
  rewrite (bind_done _ _ _ _ _ (int_arg_run _ p w s Hq0 ltac:(lia) Hh Hp)). unfold get_self. rewrite bind_assoc, bind_getX, bind_ret.
  unfold is_int in Hp. cbn [abs_service_call]. destruct (bind_port (self s)) as [b|] eqn:Eb.
  2: { eexists _, _. split; [done|]. cbn [snd]. rewrite <- Eb. by apply leads_refl. }
  pose proof (wf_bind _ (rdy_wf _ Hs) _ Eb) as Hb. unfold MAX_SERVICE_NUM in Hb.
  assert (Hu : (b =? u64 p) = (b =? p)).
  { unfold wrap. destruct (Z_lt_le_dec p 0); [|by rewrite Z.mod_small by lia].
    rewrite <- (Z.mod_add p 1), Z.mod_small by lia. destruct (Z.eqb_spec b p), (Z.eqb_spec b (p + 1 * 2 ^ 64)); lia || done. }
  rewrite Hu. destruct (b =? p); cbn [negb fst snd].
  - destruct (ready_pop (b * 2) w s Hs Hpoll) as (r & w' & s' & Hrun & Hs' & Hself & Huser).
    rewrite (bind_done _ _ _ _ _ Hrun). unfold on_self. rewrite bind_onX. eexists _, _. split; [done|].
    split_and!; [by apply ready_bind|done|]. cbn. by rewrite Huser.
  - eexists _, _. split; [done|]. rewrite <- Eb. by apply leads_refl.
Qed.

Lemma service_call_refines c w s :
  ready s -> polls_succeed -> call_fits c ->
  exists w' s', service_call_run c (w, s) = Done (fst (abs_service_call (bind_port (self s)) c), (w', s')) /\
    leads s s' (snd (abs_service_call (bind_port (self s)) c)).
Proof.
  intros Hs Hpoll Hfit. assert (Hst : in_width 31 (fst (abs_service_call (bind_port (self s)) c))).
  { destruct c, (bind_port (self s)); cbn; repeat case_match; cbn; done. }
  destruct c as [|p|p]; cbn [service_call_run]; unfold qnil, qbind, qunbind; apply ready_request; try done;
    try (by rewrite !elem_of_cons; auto); intros s1 Es1 Hs1 Hall; rewrite !Forall_cons in Hall; cbn [fst snd] in Hall.
  - eexists _, _. split; [done|]. subst s1. by apply leads_refl.
  - destruct Hall as (_ & Hh & _). replace (bind_port (self s)) with (bind_port (self s1)) by by rewrite Es1.
    by apply bind_command.
  - destruct Hall as (_ & Hh & _). replace (bind_port (self s)) with (bind_port (self s1)) by by rewrite Es1.
    by apply unbind_command.
Qed.

(** C28.  Binding through the system calls implements its specification: the
    statuses that a process gets from [qbind], [qunbind] and [qnil], in any order and
    with any service numbers, through its own memory and [ioctl], are those of a
    machine whose only state is the service number that is bound; a number above 25
    and a negative one are refused, and messages that have arrived do not disturb. *)
Theorem binding_refines l w s :
  ready s -> polls_succeed -> Forall call_fits l ->
  exists w' s', service_calls_run l (w, s) = Done (fst (abs_service_calls (bind_port (self s)) l), (w', s')) /\
    bind_port (self s') = snd (abs_service_calls (bind_port (self s)) l) /\ ready s'.
Proof.
  intros Hs Hpoll Hl. revert w s Hs. induction Hl as [|c l Hc Hl IH]; intros w s Hs; [by eexists _, _|].
  destruct (service_call_refines c w s Hs Hpoll Hc) as (w1 & s1 & Hrun & Hs1 & Hb & _).
  destruct (IH w1 s1 Hs1) as (w' & s' & Hrun' & Hb' & Hs'). rewrite Hb in Hrun', Hb'.
  exists w', s'. cbn [service_calls_run abs_service_calls]. rewrite (bind_done _ _ _ _ _ Hrun).
  destruct (abs_service_call (bind_port (self s)) c) as [r st]. cbn [fst snd] in Hrun', Hb'.
  rewrite (bind_done _ _ _ _ _ Hrun'). by destruct (abs_service_calls st l).
Qed.

End binding.

(** ** Messages *)
Section messages.
Context {W : Type} `{!Cfg, !DeviceOps W, !QueueOps W, !DataOps W, !CmOps W, !SysOps W, !PhysOps, !SrqOps W, !SaOps W}.
Context `{!SysCfg, !Frame, !KernelMem W, !PollLaws W} (env : conn_env).
Implicit Types (w : W) (s : sys).

(** The completion a process sees, and its size in the reply. *)
Definition user_wc (wc : ib_wc) : user_wc_t := mkUserWc (wc_opcode wc) (wc_status wc) (u32 (wc_imm wc)) (wc_wr_id wc).
Definition wc_fits (wc : ib_wc) : Prop :=
  in_width 32 (wc_opcode wc) /\ in_width 32 (wc_status wc) /\ in_width 64 (wc_wr_id wc).
Definition wc_bytes (wc : ib_wc) : list Z := user_wc_bytes (user_wc wc).
Definition POP_REPLY : nat := Z.to_nat (16 + 2048 * 24 + 8).

Lemma wc_bytes_length wc : length (wc_bytes wc) = 24%nat.
Proof. unfold wc_bytes, user_wc_bytes. by rewrite pack_length. Qed.

Lemma wc_roundtrip wc post : wc_fits wc -> user_wc_of (wc_bytes wc ++ post) = user_wc wc.
Proof.
  intros (Hop & Hst & Hid). unfold user_wc_of, wc_bytes, user_wc_bytes. fields.
  assert (in_width 32 (u32 (wc_imm wc))) by by apply wrap_range. rewrite !byte_range by done. done.
Qed.

(** One completion. *)
Lemma put_wc_run buf sz i wc w s :
  mapped (user s) (buf + (16 + i * 24)) 24 -> 0 <= buf -> 0 <= i -> buf + (16 + i * 24) < 2 ^ 64 -> 0 <= sz <= 24 ->
  exists m, put_wc buf sz i wc (w, s) = Done ((), (w, with_user m s)) /\
    holds m (buf + (16 + i * 24)) (wc_bytes wc) /\ outside (buf + (16 + i * 24)) 24 (user s) m /\ dom m = dom (user s).
Proof.
  intros Hm Hb Hi Hw Hsz. unfold put_wc, uaddr. rewrite add_u64_small, bind_lift by (unfold in_width; lia).
  set (a := buf + (16 + i * 24)) in *. fold (user_wc wc). fold (wc_bytes wc).
  set (l := take (Z.to_nat sz) (wc_bytes wc ++ stack_tail (Z.to_nat sz - 24))).
  assert (Hl : (length l <= 24)%nat) by (unfold l; rewrite length_take; lia).
  destruct (copy_to_user_mapped (user s) a l) as (m1 & Hc1 & _ & Ho1 & Hd1); [by apply (mapped_sub _ a 24); [|lia..]|].
  destruct (copy_to_user_mapped m1 a (wc_bytes wc)) as (m2 & Hc2 & Hh & Ho2 & Hd2).
  { rewrite wc_bytes_length. by eapply mapped_dom. }
  unfold to_user. rewrite bind_assoc, bind_getX, Hc1, bind_assoc, bind_onX, bind_ret.
  rewrite bind_assoc, bind_getX. cbn [user with_user]. rewrite Hc2, bind_assoc, bind_onX, bind_ret.
  exists m2. rewrite wc_bytes_length in Ho2. split_and!; [done|done| |congruence].
  intros x Hx. rewrite Ho2, Ho1 by lia. done.
Qed.

Lemma put_wcs_run buf sz n i mem w s :
  (n <= length mem)%nat -> mapped (user s) buf POP_REPLY -> 0 <= buf -> buf + Z.of_nat POP_REPLY < 2 ^ 64 ->
  0 <= i -> i + Z.of_nat n <= 2048 -> 0 <= sz <= 24 ->
  exists m, put_wcs buf sz i n mem (w, s) = Done ((), (w, with_user m s)) /\
    holds m (buf + (16 + i * 24)) (concat (map wc_bytes (take n mem))) /\
    outside (buf + (16 + i * 24)) (n * 24) (user s) m /\ dom m = dom (user s).
Proof.
  unfold POP_REPLY. revert i mem s. induction n as [|n IH]; intros i mem s Hn Hm Hb Hw Hi Hin Hsz; cbn [put_wcs].
  { exists (user s). split_and!; [by destruct s|by intros []|by intros ?|done]. }
  destruct mem as [|wc mem]; cbn [length] in Hn; [lia|].
  destruct (put_wc_run buf sz i wc w s) as (m1 & Hr1 & Hh1 & Ho1 & Hd1); [|lia..|].
  { apply (mapped_sub _ buf (Z.to_nat (16 + 2048 * 24 + 8))); [done|lia..]. }
  rewrite (bind_done _ _ _ _ _ Hr1).
  destruct (IH (i + 1) mem (with_user m1 s)) as (m2 & Hr2 & Hh2 & Ho2 & Hd2); [lia|by eapply mapped_dom|lia..|].
  exists m2. cbn [take map concat]. split_and!; [exact Hr2| | |by cbn in Hd2; congruence].
  - apply holds_app. rewrite wc_bytes_length. split.
    + eapply holds_outside; [exact Ho2|exact Hh1|]. rewrite wc_bytes_length. lia.
    + replace (buf + (16 + i * 24) + Z.of_nat 24) with (buf + (16 + (i + 1) * 24)) by lia. done.
  - intros x Hx. rewrite Ho2 by lia. apply Ho1. lia.
Qed.

(** A whole reply but its head: the completions and their number. *)
Lemma handle_pop_ret_run buf sz got mem w s :
  take (length got) mem = got -> (length got <= 2048)%nat -> mapped (user s) buf POP_REPLY -> 0 <= buf ->
  buf + Z.of_nat POP_REPLY < 2 ^ 64 -> 0 <= sz <= 24 ->
  exists m, handle_pop_ret (Some mem) buf (Z.of_nat (length got)) sz (w, s) = Done (reply_status.ok, (w, with_user m s)) /\
    holds m (buf + 16) (concat (map wc_bytes got)) /\
    holds m (buf + 16 + 2048 * 24) (le 4 (Z.of_nat (length got))) /\ dom m = dom (user s).
Proof.
  intros Hg Hlen Hm Hb Hw Hsz. unfold handle_pop_ret. rewrite Nat2Z.id.
  destruct (put_wcs_run buf sz (length got) 0 mem w s) as (m1 & Hr1 & Hh1 & Ho1 & Hd1); [|done|lia..|].
  { rewrite <- Hg, length_take. lia. }
  rewrite (bind_done _ _ _ _ _ Hr1). unfold uaddr, pop_wc_len. unfold POP_REPLY in *.
  rewrite add_u64_small, bind_lift by (unfold in_width; lia).
  destruct (copy_to_user_mapped m1 (buf + (16 + 2048 * 24)) (le 4 (Z.of_nat (length got)))) as (m2 & Hc2 & Hh2 & Ho2 & Hd2).
  { rewrite le_length. apply (mapped_dom (user s)); [done|]. apply (mapped_sub _ buf (Z.to_nat (16 + 2048 * 24 + 8))); [done|lia..]. }
  unfold to_user. rewrite bind_assoc, bind_getX. cbn [user with_user]. rewrite Hc2, bind_assoc, bind_onX, bind_ret.
  exists m2. split_and!; [done| | |congruence].
  - rewrite Hg in Hh1. replace (buf + (16 + 0 * 24)) with (buf + 16) in Hh1 by lia. eapply holds_outside; [exact Ho2|exact Hh1|].
    left. assert (length (concat (map wc_bytes got)) = (24 * length got)%nat) as ->; [|lia].
    clear. induction got as [|wc got IH]; [done|]. cbn [map concat length]. rewrite length_app, wc_bytes_length, IH. lia.
  - by replace (buf + 16 + 2048 * 24) with (buf + (16 + 2048 * 24)) by lia.
Qed.
(** The completions of [k] polls. *)
Fixpoint polled (k : nat) (cq : ptr) (w : W) : list ib_wc * W :=
  match k with
  | O => ([], w)
  | S k =>
      let '((_, got), w) := ib_poll_cq cq 2048 w in
      let '(rest, w) := polled k cq w in (got ++ rest, w)
  end.

(** The control [idx] has gathered the completions [l] of its queue [cq]. *)
Definition gathered (s : sys) (idx : Z) (cq : ptr) (l : list ib_wc) : Prop :=
  exists i c h e k b, index_mod (rctrls s) idx = Done (i, c) /\ recv_buffer c = Some h /\ ring RING e k b h /\
    get_recv_cq c = cq /\ is_null cq = false /\ take (length l) (RecvHelper.wcs h) = l.

Lemma overwrite_gathers l got mem :
  take (length l) mem = l -> (length l + length got <= length mem)%nat ->
  take (length (l ++ got)) (overwrite (length l) got mem) = l ++ got.
Proof.
  intros Hl Hlen. unfold overwrite. rewrite Hl, app_assoc. by rewrite take_app_length.
Qed.

(** One more poll. *)
Lemma gather idx cq l got w s w' :
  gathered s idx cq l -> ib_poll_cq cq 2048 w = ((Z.of_nat (length got), got), w') ->
  (length l + length got <= 2048)%nat ->
  exists mem s', pop_recv idx 2048 (Z.of_nat (length l)) (w, s) = Done ((Some mem, Z.of_nat (length got)), (w', s')) /\
    take (length (l ++ got)) mem = l ++ got /\ gathered s' idx cq (l ++ got) /\ user s' = user s.
Proof.
  intros (i & c & h & e & k & b & Hi & Hb & Hr & Hcq & Hn & Hl) Hp Hlen. subst cq.
  pose proof (ring_wcs _ _ _ _ _ Hr) as Hw. change RING with (Z.to_nat 2048) in Hw.
  assert (Hoff : Z.to_nat (Z.of_nat (length l) mod 2048) = length l /\ Z.of_nat (length l) mod 2048 + Z.of_nat (length got) <= 2048 \/
                 got = [] /\ length l = Z.to_nat 2048).
  { destruct (decide (length l = Z.to_nat 2048)) as [E|E]; [right; split; [destruct got; [done|cbn in Hlen; lia]|done]|].
    left. rewrite Z.mod_small by lia. lia. }
  assert (Hwcs : take (length (l ++ got)) (overwrite (Z.to_nat (Z.of_nat (length l) mod 2048)) got (RecvHelper.wcs h)) = l ++ got).
  { destruct Hoff as [[-> _]|[-> E]]; [apply overwrite_gathers; [done|lia]|]. unfold overwrite. cbn [length app].
    by rewrite Nat.add_0_r, take_drop, app_nil_r. }
  assert (Hfit : Z.of_nat (length l) mod 2048 + Z.of_nat (length got) <= 2048).
  { destruct Hoff as [[_ ?]|[-> E]]; [done|]. rewrite E, Z2Nat.id by lia. done. }
  destruct (pop_recv_run idx (Z.of_nat (length l)) w s i c h got w' e k b Hi Hb Hr Hn ltac:(lia) Hp Hfit) as [Hrun Hr'].
  eexists _, _. split; [exact Hrun|]. split_and!; [exact Hwcs| |done].
  eexists i, _, _, e, k, b. split_and!; [by eapply index_mod_insert|done|exact Hr'|done|done|exact Hwcs].
Qed.

Lemma polled_S k cq w got w1 :
  ib_poll_cq cq 2048 w = ((Z.of_nat (length got), got), w1) ->
  polled (S k) cq w = (got ++ fst (polled k cq w1), snd (polled k cq w1)).
Proof. intros E. cbn [polled]. rewrite E. by destruct (polled k cq w1). Qed.

Lemma poll_ok cq w :
  polls_succeed (W := W) -> exists got w', ib_poll_cq cq 2048 w = ((Z.of_nat (length got), got), w').
Proof.
  intros Hp. specialize (Hp cq w). destruct (ib_poll_cq cq 2048 w) as [[ret got] w'] eqn:E. cbn in Hp.
  destruct (poll_law _ _ _ _ _ _ E) as [-> _]; [lia..|]. by exists got, w'.
Qed.

Lemma pop_msg_loop_run fuel idx cq buf least sz retry l w s :
  gathered s idx cq l -> polls_succeed (W := W) -> Z.of_nat fuel = 50002 - retry -> (0 < fuel)%nat ->
  (length l + length (fst (polled fuel cq w)) <= 2048)%nat ->
  mapped (user s) buf POP_REPLY -> 0 <= buf -> buf + Z.of_nat POP_REPLY < 2 ^ 64 -> 0 <= sz <= 24 ->
  exists k m s', (1 <= k <= fuel)%nat /\
    let got := l ++ fst (polled k cq w) in
    pop_msg_loop fuel (Some idx) buf least sz retry (Z.of_nat (length l)) (w, s) =
      Done (Some reply_status.ok, (snd (polled k cq w), with_user m s')) /\
    (least <= Z.of_nat (length got) \/ k = fuel) /\
    holds m (buf + 16) (concat (map wc_bytes got)) /\
    holds m (buf + 16 + 2048 * 24) (le 4 (Z.of_nat (length got))) /\ dom m = dom (user s).
Proof.
  intros Hg Hp Hf Hpos Htot Hm Hb Hw Hsz. revert retry l w s Hg Hf Htot Hm.
  induction fuel as [|fuel IH]; intros retry l w s Hg Hf Htot Hm; [lia|]. cbn [pop_msg_loop].
  destruct (poll_ok cq w Hp) as (got & w1 & Epoll). rewrite (polled_S _ _ _ _ _ Epoll) in Htot. cbn [fst] in Htot.
  rewrite length_app in Htot. destruct (gather idx cq l got w s w1 Hg Epoll) as (mem & s1 & Hrun & Hmem & Hg1 & Hu1); [lia|].
  unfold poll_msgs. rewrite (bind_done _ _ _ _ _ Hrun).
  assert (Hact : Z.of_nat (length l) + Z.of_nat (length got) = Z.of_nat (length (l ++ got))) by (rewrite length_app; lia).
  rewrite Hact. destruct ((least <=? Z.of_nat (length (l ++ got))) || (50000 <? retry)) eqn:E.
  - destruct (handle_pop_ret_run buf sz (l ++ got) mem w1 s1) as (m & Hrun2 & Hh1 & Hh2 & Hd); [done| |by rewrite Hu1|lia..|].
    { rewrite length_app. lia. }
    rewrite (bind_done _ _ _ _ _ Hrun2). exists 1%nat, m, s1. rewrite (polled_S _ _ _ _ _ Epoll). cbn [polled fst snd].
    rewrite app_nil_r. split; [lia|]. split_and!; [done| |done|done|congruence].
    apply orb_prop in E as [E|E]; bool_to_Prop; [by left|right; lia].
  - apply orb_false_iff in E as [_ E]. apply Z.ltb_ge in E.
    destruct (IH ltac:(lia) (retry + 1) (l ++ got) w1 s1) as (k & m & s' & Hk & Hrun' & Hex & Hh1 & Hh2 & Hd);
      [done|lia|rewrite length_app; lia|by rewrite Hu1|].
    exists (S k), m, s'. rewrite (polled_S _ _ _ _ _ Epoll). cbn [fst snd]. rewrite <- app_assoc in *.
    split; [lia|]. split_and!; [exact Hrun'|destruct Hex; [by left|right; lia]|done|done|congruence].
Qed.
Lemma polled_prefix k n cq w : fst (polled k cq w) `prefix_of` fst (polled (k + n) cq w).
Proof.
  revert w. induction k as [|k IH]; intros w; [by apply prefix_nil|]. cbn [polled Nat.add].
  destruct (ib_poll_cq cq 2048 w) as [[ret got] w1]. specialize (IH w1).
  destruct (polled k cq w1), (polled (k + n) cq w1). by apply prefix_app.
Qed.

(** The service whose messages a queue receives. *)
Definition recv_index (q : VQ) : option Z :=
  match bind_port q with Some port => Some (2 * port) | None => connect_port q end.

(** What the process reads in the reply at [a]. *)
Definition delivered (m : umem) (a : Z) (got : list ib_wc) : Prop :=
  unle (fst (copy_from_user m (a + 16 + 2048 * 24) 4)) = Z.of_nat (length got) /\
  forall i wc, got !! i = Some wc ->
    user_wc_of (fst (copy_from_user m (a + 16 + 24 * Z.of_nat i) 24)) = user_wc wc.

Lemma holds_nth m a got i wc :
  holds m a (concat (map wc_bytes got)) -> got !! i = Some wc -> holds m (a + 24 * Z.of_nat i) (wc_bytes wc).
Proof.
  revert a i. induction got as [|x got IH]; intros a i Hh Hi; [done|]. cbn [map concat] in Hh. apply holds_app in Hh as [Hx Hh].
  rewrite wc_bytes_length in Hh. destruct i as [|i]; [injection Hi as ->; by rewrite Z.mul_0_r, Z.add_0_r|].
  replace (a + 24 * Z.of_nat (S i)) with (a + Z.of_nat 24 + 24 * Z.of_nat i) by lia. by apply IH.
Qed.

Lemma delivered_intro m a got :
  holds m (a + 16) (concat (map wc_bytes got)) -> holds m (a + 16 + 2048 * 24) (le 4 (Z.of_nat (length got))) ->
  (length got <= 2048)%nat -> Forall wc_fits got -> delivered m a got.
Proof.
  intros Hh Hn Hlen Hf. split.
  - pose proof (copy_from_user_holds _ _ _ Hn) as Hc. rewrite le_length in Hc. rewrite Hc. cbn [fst].
    rewrite unle_le, Z.mod_small; [done|lia].
  - intros i wc Hi. pose proof (copy_from_user_holds _ _ _ (holds_nth _ _ _ _ _ Hh Hi)) as Hc.
    rewrite wc_bytes_length in Hc. rewrite Hc. cbn [fst]. rewrite <- (app_nil_r (wc_bytes wc)).
    apply wc_roundtrip. by eapply Forall_lookup_1.
Qed.

(** The kernel's part, for both kinds of queues. *)
Lemma pop_msg_run q idx i c buf least sz w s :
  self s = q -> recv_index q = Some idx -> index_mod (rctrls s) idx = Done (i, c) -> usable c -> polls_succeed (W := W) ->
  (length (fst (polled (Z.to_nat 50002) (get_recv_cq c) w)) <= 2048)%nat ->
  mapped (user s) buf POP_REPLY -> 0 <= buf -> buf + Z.of_nat POP_REPLY < 2 ^ 64 -> 0 <= sz <= 24 ->
  exists k m s', (1 <= k <= Z.to_nat 50002)%nat /\
    let got := fst (polled k (get_recv_cq c) w) in
    pop_msg_impl buf least sz (w, s) = Done (reply_status.ok, (snd (polled k (get_recv_cq c) w), with_user m s')) /\
    (match bind_port q with Some _ => k = 1%nat | None => least <= Z.of_nat (length got) \/ k = Z.to_nat 50002 end) /\
    holds m (buf + 16) (concat (map wc_bytes got)) /\
    holds m (buf + 16 + 2048 * 24) (le 4 (Z.of_nat (length got))) /\ dom m = dom (user s).
Proof.
  intros Hq Hidx Hi [(h & Hb & e & k0 & b & Hr) Hn] Hp Htot Hm Hb0 Hw Hsz. set (cq := get_recv_cq c) in *.
  assert (Hg : gathered s idx cq []) by (by exists i, c, h, e, k0, b).
  unfold pop_msg_impl, get_self. rewrite bind_assoc, bind_getX, bind_ret, Hq. unfold recv_index in Hidx.
  destruct (bind_port q) as [port|].
  - injection Hidx as <-. destruct (poll_ok cq w Hp) as (got & w1 & Epoll).
    assert (Hlen : (length got <= 2048)%nat).
    { assert (Z.to_nat 50002 = S (Z.to_nat 50001)) as E by lia. rewrite E, (polled_S _ _ _ _ _ Epoll) in Htot.
      cbn [fst] in Htot. rewrite length_app in Htot. lia. }
    destruct (gather (2 * port) cq [] got w s w1 Hg Epoll) as (mem & s1 & Hrun & Hmem & _ & Hu1); [cbn; lia|].
    cbn [length app Z.of_nat] in Hrun, Hmem. rewrite (bind_done _ _ _ _ _ Hrun).
    destruct (handle_pop_ret_run buf sz got mem w1 s1) as (m & Hrun2 & Hh1 & Hh2 & Hd); [done|done|by rewrite Hu1|lia..|].
    exists 1%nat, m, s1. rewrite (polled_S _ _ _ _ _ Epoll). cbn [polled fst snd]. rewrite app_nil_r.
    split; [lia|]. split_and!; [exact Hrun2|done..|congruence].
  - rewrite Hidx. destruct (pop_msg_loop_run (Z.to_nat 50002) idx cq buf least sz 0 [] w s) as
      (k & m & s' & Hk & Hrun & Hex & Hh1 & Hh2 & Hd); [done|done|lia|lia|by cbn|done|lia..|].
    cbn [length app Z.of_nat] in Hrun. rewrite (bind_done _ _ _ _ _ Hrun). exists k, m, s'. split; [exact Hk|]. split_and!; done.
Qed.

(** C2.  Messages reach the process: [qpop_msgs] on a bound or connected queue
    returns [ok], and the process reads in its reply exactly the completions the
    driver has reported, in their order and with the number of them; a bound queue
    is polled once, a connected one until as many as asked for have arrived or 50002
    times.  The process gives a [payload_sz] of at most the size of an entry, and no
    more messages arrive than the ring has buffers. *)
Theorem messages_delivered fr reply least sz idx i c w s :
  recv_index (self s) = Some idx -> index_mod (rctrls s) idx = Done (i, c) -> usable c -> polls_succeed (W := W) ->
  buffer_at s (l_req fr) 24 -> buffer_at s reply POP_REPLY -> in_width 32 least -> 0 <= sz <= 24 ->
  let all := fst (polled (Z.to_nat 50002) (get_recv_cq c) w) in
  (length all <= 2048)%nat -> Forall wc_fits all ->
  exists k m s', (1 <= k <= Z.to_nat 50002)%nat /\
    let got := fst (polled k (get_recv_cq c) w) in
    qpop_msgs env fr reply least sz (w, s) =
      Done (reply_status.ok, (snd (polled k (get_recv_cq c) w), with_user m s')) /\
    delivered m reply got /\
    (match bind_port (self s) with Some _ => k = 1%nat | None => least <= Z.of_nat (length got) \/ k = Z.to_nat 50002 end).
Proof.
  intros Hidx Hi Hc Hp (Hreq & Hq0 & Hq1) (Hrep & Hr0 & Hr1) Hleast Hsz all Htot Hfits. unfold qpop_msgs.
  set (bl := [(16%nat, le 4 least); (20%nat, le 4 sz); (8%nat, le 8 reply)]).
  assert (Hmem : members 24 bl = true) by done.
  destruct (stores_outside (user s) (l_req fr) 24 bl Hreq Hmem) as [_ Hd].
  pose proof (stores_holds (user s) (l_req fr) 24 bl Hreq Hmem) as Hh.
  set (s1 := with_user (stores (user s) (l_req fr) bl) s).
  unfold bl in Hh at 2. rewrite !Forall_cons in Hh. cbn [fst snd] in Hh. destruct Hh as (Hh1 & Hh2 & _ & _).
  destruct (pop_msg_run (self s) idx i c reply least sz w s1) as (k & m & s' & Hk & Hrun & Hex & Hw1 & Hw2 & Hdm);
    [done|done|done|done|done|exact Htot|by eapply mapped_dom|lia..|].
  assert (Hlen : (length (fst (polled k (get_recv_cq c) w)) <= 2048)%nat /\ Forall wc_fits (fst (polled k (get_recv_cq c) w))).
  { destruct (polled_prefix k (Z.to_nat 50002 - k) (get_recv_cq c) w) as [rest E].
    replace (k + (Z.to_nat 50002 - k))%nat with (Z.to_nat 50002) in E by lia. unfold all in Htot, Hfits.
    rewrite E in Htot, Hfits. rewrite length_app in Htot. apply Forall_app in Hfits as [? _]. split; [lia|done]. }
  assert (Hcmd : command lib_r_cmd.PopMsgs (l_req fr) reply env (w, s1) =
    Done (reply_status.ok, (snd (polled k (get_recv_cq c) w), with_user m s'))).
  { unfold command. cbn [Z.eqb lib_r_cmd.PopMsgs lib_r_cmd.Nil lib_r_cmd.Connect lib_r_cmd.RegMR lib_r_cmd.Push
      lib_r_cmd.PushRecv lib_r_cmd.Pop Pos.eqb].
    rewrite (bind_done _ _ _ _ _ (u32_arg_run (l_req fr) 0 least w s1 Hq0 ltac:(lia) ltac:(lia) Hh1)).
    rewrite (bind_done _ _ _ _ _ (u32_arg_run (l_req fr) 4 sz w s1 Hq0 ltac:(lia) ltac:(lia) Hh2)).
    rewrite !wrap_small by (done || unfold in_width; lia). exact Hrun. }
  edestruct (request_run env (l_req fr) 24 bl lib_r_cmd.PopMsgs reply w s) as (m2 & Hreq2 & Ho2 & Hd2);
    [done|lia|done| | |by left|exact Hcmd| |done|].
  { unfold bl. rewrite !elem_of_cons. auto. }
  { unfold in_width, POP_REPLY in *. lia. }
  { cbn [user with_user]. apply (mapped_sub _ reply POP_REPLY); [|unfold POP_REPLY; lia..]. eapply mapped_dom; [|exact Hrep].
    cbn in Hd, Hdm. congruence. }
  exists k, m2, s'. split; [done|]. split_and!; [exact Hreq2| |done]. cbn [user with_user] in Ho2.
  apply delivered_intro; [eapply holds_outside; [exact Ho2|done|lia]..|by destruct Hlen|by destruct Hlen].
Qed.
End messages.

(** ** Pushes *)
Section pushes.
Context {W : Type} `{!Cfg, !DeviceOps W, !QueueOps W, !DataOps W, !CmOps W, !SysOps W, !PhysOps, !SrqOps W, !SaOps W}.
Context `{!SysCfg, !Frame, !KernelMem W} (env : conn_env).
Implicit Types (w : W) (s : sys).

(** The specification: the work requests, posted one at a time up to the first that
    is refused. *)
Fixpoint post_each (qp : ptr) (wrs : list send_wr) (w : W) : Z * W :=
  match wrs with
  | [] => (reply_status.ok, w)
  | wr :: wrs =>
      let '(e, w) := ib_post_send qp [wr] w in
      if e =? 0 then post_each qp wrs w else (reply_status.err, w)
  end.

(** The work request of a user's request: offsets in the local and the remote block
    become addresses. *)
Definition wr_of (pa lkey : Z) (mr : TempMR) (req : core_req_t) (op : ib_wr_opcode) : send_wr :=
  let inline := inlined (cr_length req) op in
  let laddr := pa + cr_addr req in
  mkSendWr 0 op (send_flag inline (cr_send_flags req)) (cr_vid req)
    [mkSge (if inline then pa_to_va laddr else laddr) (cr_length req) lkey]
    (WrRdma (cr_remote_addr req + mr_addr mr) (mr_key mr)).

(** A request the kernel can translate, with its work request. *)
Definition translates (pa lkey : Z) (mr : TempMR) (req : core_req_t) (wr : send_wr) : Prop :=
  core_req_fits req /\ 0 <= pa /\ pa + cr_addr req < 2 ^ 64 /\ 0 <= mr_addr mr /\ cr_remote_addr req + mr_addr mr < 2 ^ 64 /\
  exists op, op_code_table (cr_type req) = Done op /\ wr = wr_of pa lkey mr req op.

Lemma post_each_app qp l1 l2 w :
  post_each qp (l1 ++ l2) w =
  (if fst (post_each qp l1 w) =? reply_status.ok then post_each qp l2 (snd (post_each qp l1 w)) else post_each qp l1 w).
Proof.
  revert w. induction l1 as [|wr l1 IH]; intros w; [done|]. cbn [app post_each].
  destruct (ib_post_send qp [wr] w) as [e w1]. destruct (e =? 0); [apply IH|done].
Qed.

Lemma post_each_status qp l w :
  fst (post_each qp l w) = reply_status.ok \/ fst (post_each qp l w) = reply_status.err.
Proof.
  revert w. induction l as [|wr l IH]; intros w; cbn [post_each]; [by left|].
  destruct (ib_post_send qp [wr] w) as [e w1]. destruct (e =? 0); [apply IH|by right].
Qed.

Lemma rc_push_one_run rc pa lkey mr req wr w s :
  translates pa lkey mr req wr ->
  let '(e, w1) := ib_post_send (Rc.qp rc) [wr] w in
  rc_push_one rc pa lkey mr req () (w, s) =
    Done ((if negb (e =? 0) then Err (from_kernel_errno e) else Ok (), ()), (w1, s)).
Proof.
  intros ((Ha & Hl & _ & Hra & _) & Hpa & Hpa' & Hmr & Hmr' & op & Hop & ->). unfold in_width in *.
  destruct (ib_post_send (Rc.qp rc) _ w) as [e w1] eqn:E. unfold wr_of in E.
  unfold rc_push_one, uaddr. rewrite (add_u64_small _ pa), bind_lift by (unfold in_width; lia).
  rewrite add_u64_small, bind_lift by (unfold in_width; lia). rewrite Hop, bind_lift. cbv zeta.
  unfold RCOp.push_with_imm, post_one. rewrite bind_run. unfold onW. cbn [fst snd].
  rewrite bind_call, wrap_small by done. rewrite E. done.
Qed.

Lemma push_each_run rc pa lkey mr reqs wrs w s :
  Forall2 (translates pa lkey mr) reqs wrs ->
  push_each (rc_push_one rc pa lkey mr) reqs () (w, s) =
    Done (fst (post_each (Rc.qp rc) wrs w), (snd (post_each (Rc.qp rc) wrs w), s)).
Proof.
  intros Hall. revert w. induction Hall as [|req wr reqs wrs Hr Hall IH]; intros w; [done|]. cbn [push_each post_each].
  pose proof (rc_push_one_run rc pa lkey mr req wr w s Hr) as Hone.
  destruct (ib_post_send (Rc.qp rc) [wr] w) as [e w1]. rewrite (bind_done _ _ _ _ _ Hone).
  destruct (e =? 0); cbn [negb]; [apply IH|done].
Qed.

(** A connected queue of the process, with its two blocks. *)
Definition pushes_to (q : VQ) (rc : Rc.RC) (pa : Z) (mr : TempMR) : Prop :=
  bind_port q = None /\ virtual_queue q = Some rc /\ reg_mem_addr q = Some pa /\ Rc.remote_mr rc = Some mr.

Lemma push_batch_run q rc pa mr reqs wrs pop w s :
  self s = q -> pushes_to q rc pa mr -> Forall2 (translates pa (lkey q) mr) reqs wrs ->
  push_batch reqs pop (w, s) = Done (fst (post_each (Rc.qp rc) wrs w), (snd (post_each (Rc.qp rc) wrs w), s)).
Proof.
  intros Hq (Hb & Hv & Hm & Hr) Hall. unfold push_batch, get_self. rewrite bind_assoc, bind_getX, bind_ret, Hq, Hb, Hv.
  unfold rc_push_impl, get_self. change (bool_decide (is_Some None)) with false.
  rewrite bool_decide_eq_true_2 by by eexists. rewrite bind_assoc, bind_getX, bind_ret, Hq, Hv, Hm. cbn [unwrap].
  rewrite bind_ret. erewrite bind_done. 2: { apply (onW_run _ (w, s)). unfold Rc.get_remote_mr. rewrite Hr. reflexivity. }
  by apply push_each_run.
Qed.

(** The loop over the batches does what one pass over the requests does. *)
Lemma push_loop_run q rc pa mr list fuel reqs wrs pop off ret w s :
  self s = q -> pushes_to q rc pa mr -> Forall2 (translates pa (lkey q) mr) reqs wrs ->
  holds (user s) (list + off * 40) (reqs_bytes reqs) -> 0 <= list -> 0 <= off ->
  list + (off + Z.of_nat (length reqs)) * 40 < 2 ^ 64 -> (length reqs <= fuel)%nat ->
  let len := off + Z.of_nat (length reqs) in
  push_loop fuel list len pop off ret (w, s) =
    Done (Some (match reqs with [] => ret | _ => fst (post_each (Rc.qp rc) wrs w) end), (snd (post_each (Rc.qp rc) wrs w), s)).
Proof.
  intros Hq Hto. revert reqs wrs off ret w. induction fuel as [|fuel IH]; intros reqs wrs off ret w Hall Hh Hl Ho Hw Hf len.
  all: unfold len; cbn [push_loop]; destruct reqs as [|req reqs]; [|cbn [length] in Hf].
  1, 3: apply Forall2_nil_inv_l in Hall as ->; cbn [length Z.of_nat]; rewrite Z.add_0_r, (proj2 (Z.ltb_ge _ _)) by lia; done.
  { lia. }
  set (all := req :: reqs) in *. assert (Hlen : (0 < length all)%nat) by (cbn; lia).
  rewrite (proj2 (Z.ltb_lt _ _)) by lia. cbn [negb]. unfold DEFAULT_BATCH_SZ.
  replace (off + Z.of_nat (length all) - off) with (Z.of_nat (length all)) by lia.
  set (n := Nat.min 64 (length all)). replace (Z.min 64 (Z.of_nat (length all))) with (Z.of_nat n) by lia.
  rewrite <- (take_drop n all) in Hh, Hall. unfold reqs_bytes in Hh. rewrite map_app, concat_app in Hh.
  apply Forall2_app_inv_l in Hall as (wrs1 & wrs2 & Hall1 & Hall2 & ->). apply holds_app in Hh as [Hh1 Hh2].
  fold (reqs_bytes (take n all)) in Hh1, Hh2. fold (reqs_bytes (skipn n all)) in Hh2.
  assert (Ht : length (take n all) = n) by (rewrite length_take; lia).
  unfold uaddr. rewrite add_u64_small, bind_lift by (unfold in_width; lia).
  unfold from_user. rewrite bind_assoc, bind_getX, bind_ret.
  pose proof (copy_from_user_holds _ _ _ Hh1) as Hc. rewrite reqs_bytes_length, Ht in Hc.
  replace (Z.to_nat (Z.of_nat n * 40)) with (40 * n)%nat by lia. rewrite Hc, Nat2Z.id. cbn [fst].
  rewrite <- Ht at 1. rewrite core_reqs_roundtrip.
  2: { eapply Forall2_Forall_l; [exact Hall1|]. by apply Forall_true; intros ? ? []. }
  rewrite (bind_done _ _ _ _ _ (push_batch_run q rc pa mr _ _ pop w s Hq Hto Hall1)), post_each_app.
  destruct (post_each_status (Rc.qp rc) wrs1 w) as [E|E]; rewrite E; cbn [Z.eqb reply_status.ok reply_status.err]; [|by rewrite <- E; destruct (post_each _ wrs1 w)].
  replace (off + Z.of_nat (length all)) with (off + Z.of_nat n + Z.of_nat (length (skipn n all))) by (rewrite length_drop; lia).
  rewrite (IH (skipn n all) wrs2 (off + Z.of_nat n)); [|done| |lia|lia|rewrite length_drop; lia|rewrite length_drop; cbn [length all]; lia].
  - destruct (skipn n all) eqn:Ed; [|done]. apply Forall2_nil_inv_l in Hall2 as ->. done.
  - rewrite reqs_bytes_length, Ht in Hh2. by replace (list + (off + Z.of_nat n) * 40) with (list + off * 40 + Z.of_nat (40 * n)) by lia.
Qed.
(** A member of a structure that the kernel copies from [a]. *)
Lemma from_user_run a n w s :
  from_user a n (w, s) = Done (fst (copy_from_user (user s) a n), (w, s)).
Proof. done. Qed.

Lemma push_cmd_run q rc pa mr arg list reqs wrs w s :
  self s = q -> pushes_to q rc pa mr -> Forall2 (translates pa (lkey q) mr) reqs wrs ->
  mapped (user s) arg 40 -> 0 <= arg -> arg + 40 < 2 ^ 64 ->
  holds (user s) (arg + 16) (le 4 (Z.of_nat (length reqs))) -> holds (user s) (arg + 16 + 8) (le 8 list) ->
  holds (user s) (arg + 32) (le 4 0) -> holds (user s) (arg + 32 + 4) (le 1 0) ->
  holds (user s) list (reqs_bytes reqs) -> 0 <= list -> list + Z.of_nat (length reqs) * 40 < 2 ^ 64 ->
  Z.of_nat (length reqs) < 2 ^ 32 ->
  push_cmd arg (w, s) = Done (fst (post_each (Rc.qp rc) wrs w), (snd (post_each (Rc.qp rc) wrs w), s)).
Proof.
  intros Hq Hto Hall Hm Ha Ha' Hlen Hlist Hrecv Hpop Hreqs Hl0 Hl1 Hn. unfold push_cmd, uaddr, HEAD.
  rewrite (add_u64_small _ arg 16), bind_lift by (unfold in_width; lia).
  rewrite (bind_done _ _ _ _ _ (from_user_run _ _ _ _)), add_u64_small, bind_lift by (unfold in_width; lia).
  rewrite (bind_done _ _ _ _ _ (from_user_run _ _ _ _)). cbv zeta.
  set (core := fst (copy_from_user (user s) (arg + 16) _)). set (ext := fst (copy_from_user (user s) (arg + (16 + 16)) _)).
  assert (Hf0 : field push_core_layout 0 core = Z.of_nat (length reqs)).
  { change (word_at 0 4 core = Z.of_nat (length reqs)). unfold core. change (size_of push_core_layout) with 16%nat.
    rewrite (word_of_user _ _ 16 0 4 (Z.of_nat (length reqs))); [apply Z.mod_small; lia|apply (mapped_sub _ arg 40); [done|lia..]|lia|].
    by rewrite Z.add_0_r. }
  assert (Hf2 : field push_core_layout 2 core = list).
  { change (word_at 8 8 core = list). unfold core. change (size_of push_core_layout) with 16%nat.
    rewrite (word_of_user _ _ 16 8 8 list); [apply Z.mod_small; lia|apply (mapped_sub _ arg 40); [done|lia..]|lia|done]. }
  assert (Hx0 : field push_ext_layout 0 ext = 0).
  { change (word_at 0 4 ext = 0). unfold ext. change (size_of push_ext_layout) with 8%nat.
    rewrite (word_of_user _ _ 8 0 4 0); [done|apply (mapped_sub _ arg 40); [done|lia..]|lia|by rewrite Z.add_0_r]. }
  assert (Hx1 : field push_ext_layout 1 ext = 0).
  { change (word_at 4 1 ext = 0). unfold ext. change (size_of push_ext_layout) with 8%nat.
    rewrite (word_of_user _ _ 8 4 1 0); [done|apply (mapped_sub _ arg 40); [done|lia..]|lia|done]. }
  rewrite Hf0, Hf2, Hx0, Hx1. unfold is_bind_mode, get_self. rewrite !bind_assoc, bind_getX, !bind_ret, Hq.
  destruct Hto as (Hb & Hto). rewrite Hb. change (bool_decide (is_Some None)) with false. cbn [negb andb Z.eqb Z.ltb Z.compare].
  rewrite bind_ret.
  pose proof (push_loop_run q rc pa mr list (length reqs) reqs wrs false 0 reply_status.ok w s Hq (conj Hb Hto) Hall) as Hrun.
  cbn zeta in Hrun. rewrite Z.mul_0_l, !Z.add_0_l, Z.add_0_r in Hrun.
  rewrite Nat2Z.id, (bind_done _ _ _ _ _ (Hrun Hreqs Hl0 ltac:(lia) Hl1 ltac:(lia))). cbn [unwrap]. rewrite !bind_ret.
  destruct reqs; [|done]. apply Forall2_nil_inv_l in Hall as ->. done.
Qed.

(** C5.  A push posts its requests: [qpush] of a connected queue, for any number of
    requests in the memory of the process, has the driver receive exactly the work
    requests of the specification, one at a time and in order up to the first that
    is refused, and returns [ok] when all were accepted and [err] otherwise.  The
    copy by batches of 64 cannot be observed. *)
Theorem push_posts_requests fr reqq list rc pa mr reqs wrs w s :
  pushes_to (self s) rc pa mr -> Forall2 (translates pa (lkey (self s)) mr) reqs wrs ->
  buffer_at s (l_req fr) 40 -> buffer_at s (l_reply fr) 16 -> mapped (user s) reqq 16 ->
  holds (user s) reqq (le 4 (Z.of_nat (length reqs))) -> holds (user s) (reqq + 8) (le 8 list) ->
  holds (user s) list (reqs_bytes reqs) -> 0 <= list -> list + Z.of_nat (length reqs) * 40 < 2 ^ 64 ->
  list + Z.of_nat (length reqs) * 40 <= l_req fr \/ l_req fr + 40 <= list -> Z.of_nat (length reqs) < 2 ^ 32 ->
  let '(status, w') := post_each (Rc.qp rc) wrs w in
  exists m, qpush env fr reqq 0 0 (w, s) = Done (status, (w', with_user m s)) /\ dom m = dom (user s).
Proof.
  intros Hto Hall (Hreq & Hq0 & Hq1) (Hrep & Hr0 & Hr1) Hcore Hlen Hlist Hreqs Hl0 Hl1 Hap Hn. unfold qpush.
  rewrite (bind_done _ _ _ _ _ (from_user_run _ _ _ _)).
  destruct (mapped_holds _ _ _ Hcore) as (core & Hcl & Hch & ->). cbn [fst].
  set (bl := [(8%nat, le 8 (l_reply fr)); (32%nat, le 4 0); (36%nat, le 1 0); (16%nat, core)]).
  assert (Hmem : members 40 bl = true) by (unfold bl; cbn [members forallb]; unfold apart; cbn [fst snd]; rewrite Hcl; done).
  destruct (stores_outside (user s) (l_req fr) 40 bl Hreq Hmem) as [Ho Hd].
  pose proof (stores_holds (user s) (l_req fr) 40 bl Hreq Hmem) as Hh. unfold bl in Hh at 2.
  rewrite !Forall_cons in Hh. cbn [fst snd] in Hh. destruct Hh as (_ & Hh1 & Hh2 & Hh3 & _).
  set (s1 := with_user (stores (user s) (l_req fr) bl) s).
  assert (Hcmd : command lib_r_cmd.Push (l_req fr) (l_reply fr) env (w, s1) =
    Done (fst (post_each (Rc.qp rc) wrs w), (snd (post_each (Rc.qp rc) wrs w), s1))).
  { apply (push_cmd_run (self s) rc pa mr (l_req fr) list reqs wrs w s1); try done.
    - by eapply mapped_dom.
    - pose proof (holds_copy _ _ _ _ _ 0 (le 4 (Z.of_nat (length reqs))) Hch Hh3) as Hp. rewrite !Z.add_0_r in Hp. apply Hp; [|done].
      rewrite le_length. lia.
    - apply (holds_copy _ _ _ _ _ 8 _ Hch Hh3); [|done]. rewrite le_length. lia.
    - by replace (l_req fr + 32 + 4) with (l_req fr + Z.of_nat 36) by lia.
    - eapply holds_outside; [exact Ho|done|]. rewrite reqs_bytes_length. lia. }
  edestruct (request_run env (l_req fr) 40 bl lib_r_cmd.Push (l_reply fr) w s) as (m & Hrun & _ & Hdm);
    [done|lia|done|by unfold bl; rewrite !elem_of_cons; auto|unfold in_width; lia|by left|exact Hcmd| | |].
  { by eapply mapped_dom. }
  { by destruct (post_each_status (Rc.qp rc) wrs w) as [->| ->]. }
  destruct (post_each (Rc.qp rc) wrs w) as [status w']. exists m. split; [exact Hrun|]. rewrite Hdm. exact Hd.
Qed.
End pushes.

(** ** On the simulated driver *)
#[export] Instance sim_poll_laws : PollLaws sim.
Proof.
  constructor. intros cq n s ret got s' E Hn Hr. cbn in E. unfold sim_poll in E. injection E as <- <- _.
  split; [done|]. rewrite length_take. lia.
Qed.

Lemma sim_polls_succeed : polls_succeed (W := sim).
Proof. intros cq s. cbn. lia. Qed.

(** Polls take the completions from the front. *)
Lemma sim_polled k cq (s : sim) : exists n, fst (polled k cq s) = take n (default [] (s_wcs s !! cq)).
Proof.
  revert s. induction k as [|k IH]; intros s; [by exists 0%nat|]. cbn [polled].
  destruct (ib_poll_cq cq 2048 s) as [[ret got] s1] eqn:E. cbn in E. unfold sim_poll in E. injection E as _ <- <-.
  destruct (IH (set_wcs (<[cq := skipn (Z.to_nat 2048) (default [] (s_wcs s !! cq))]> (s_wcs s)) s)) as [n Hn].
  destruct (polled k cq _) as [rest s2]. cbn [fst] in Hn |- *. cbn [set_wcs s_wcs] in Hn. rewrite lookup_insert_eq in Hn.
  exists (Z.to_nat 2048 + n)%nat. rewrite Hn. apply take_take_drop.
Qed.

Module LibSample.
Import SysSample.

(** A process whose stack and buffers are one block of zeros at 4096. *)
Definition zeros (n : nat) : umem := block 4096 (replicate n 0).

Lemma zeros_mapped n a k : 4096 <= a -> a + Z.of_nat k <= 4096 + Z.of_nat n -> mapped (zeros n) a k.
Proof.
  intros Ha Hk. eapply mapped_sub; [apply (holds_mapped _ _ _ (block_holds 4096 (replicate n 0)))|done|].
  by rewrite length_replicate.
Qed.

Definition fr : locals := mkLocals 4096 4144.
Definition stack_only : sys := module (zeros 64) opened.

Lemma opened_wf : vq_wf opened.
Proof. constructor; cbn; try (by intros [? [=]]) || apply map_Forall_empty; [done|by eexists]. Qed.

Lemma control_usable : usable PairSample.control.
Proof. split; [apply control_ring|done]. Qed.

Lemma stack_ready : ready fr stack_only.
Proof.
  constructor; [exact opened_wf|done|by apply Forall_singleton, control_usable|..];
    (split; [apply zeros_mapped; cbn; lia|cbn; lia]).
Qed.

Definition script : list service_call :=
  [CBind 3; CBind 4; CUnbind 4; CUnbind 3; CBind 26; CBind (-1); CUnbind 3; CBind 25; CNil].

(** Two messages on a queue that is bound. *)
Definition wcs : list ib_wc := [mkWc 4096 0 128 8 3; mkWc 6144 0 128 8 4].
Definition world : sim := set_wcs {[11 := wcs]} sim_init.
Lemma polled_few k : (length (fst (polled k 11 world)) <= 2048)%nat /\ Forall wc_fits (fst (polled k 11 world)).
Proof.
  destruct (sim_polled k 11 world) as [n ->].
  assert (default [] (s_wcs world !! 11) = wcs) as -> by (cbn [world set_wcs s_wcs]; by rewrite lookup_singleton_eq).
  split; [rewrite length_take; cbn [length wcs]; lia|]. apply Forall_take.
  repeat apply Forall_cons_2; try apply Forall_nil_2; (split_and!; cbn; unfold in_width; lia).
Qed.
Definition server : sys := module (zeros (48 + POP_REPLY)) (set_bind (Some 3) opened).

(** Two requests: an inline write and a long read. *)
Definition reqs : list core_req_t := [mkCoreReq 8 16 0 64 0 1 3 1; mkCoreReq 0 4096 0 0 0 0 0 0].
Definition mr : TempMR := mkTempMR 65536 4096 77.
Definition wrs : list send_wr := zip_with (wr_of 8192 0 mr) reqs [IB_WR_RDMA_WRITE; IB_WR_RDMA_READ].
Definition rc : Rc.RC := Rc.with_remote_mr mr PairSample.client.
Definition client : sys :=
  module (block 4096 (replicate 64 0 ++ pack push_core_layout [2; 0; 4176] ++ reqs_bytes reqs))
    (set_port (Some 1) (set_queue (Some rc) opened)).

End LibSample.
Import SysSample.

Lemma binding_refines_witness :
  exists w' s', service_calls_run env LibSample.fr LibSample.script (sim_init, LibSample.stack_only) =
      Done ([1; 4; 8; 1; 6; 6; 8; 1; 1], (w', s')) /\
    bind_port (self s') = Some 25 /\ ready LibSample.fr s'.
Proof.
  apply (binding_refines env LibSample.fr LibSample.script sim_init LibSample.stack_only LibSample.stack_ready sim_polls_succeed).
  repeat apply Forall_cons_2; try apply Forall_nil_2; cbn; unfold is_int; done || lia.
Defined.

Lemma messages_delivered_witness :
  exists k m s', (1 <= k <= Z.to_nat 50002)%nat /\
    let got := fst (polled k 11 LibSample.world) in
    qpop_msgs env LibSample.fr 4144 1 8 (LibSample.world, LibSample.server) =
      Done (reply_status.ok, (snd (polled k 11 LibSample.world), with_user m s')) /\
    delivered m 4144 got /\ k = 1%nat.
Proof.
  apply (messages_delivered env LibSample.fr 4144 1 8 6 0 PairSample.control LibSample.world LibSample.server).
  - reflexivity.
  - reflexivity.
  - apply LibSample.control_usable.
  - apply sim_polls_succeed.
  - split; [apply LibSample.zeros_mapped; unfold POP_REPLY; cbn [l_req LibSample.fr]; lia|cbn; lia].
  - split; [apply LibSample.zeros_mapped; unfold POP_REPLY; lia|unfold POP_REPLY; lia].
  - split; lia.
  - lia.
  - apply LibSample.polled_few.
  - apply LibSample.polled_few.
Defined.

Lemma push_posts_requests_witness :
  let '(status, w') := post_each (Rc.qp LibSample.rc) LibSample.wrs sim_init in
  exists m, qpush env LibSample.fr 4160 0 0 (sim_init, LibSample.client) = Done (status, (w', with_user m LibSample.client)) /\
    dom m = dom (user LibSample.client).
Proof.
  pose proof (block_holds 4096 (replicate 64 0 ++ pack push_core_layout [2; 0; 4176] ++ reqs_bytes LibSample.reqs)) as Hall.
  pose proof (holds_mapped _ _ _ Hall) as Hm. rewrite !holds_app in Hall. destruct Hall as (_ & Hcore & Hreqs).
  unfold pack in Hcore. cbn [push_core_layout zip_with concat] in Hcore. rewrite !holds_app in Hcore.
  destruct Hcore as (Hlen & _ & Hlist & _). rewrite !le_length in Hlist.
  apply (push_posts_requests env LibSample.fr 4160 4176 LibSample.rc 8192 LibSample.mr LibSample.reqs LibSample.wrs).
  - by split_and!.
  - repeat apply Forall2_cons_2; [..|apply Forall2_nil_2];
      (unfold translates, core_req_fits; split_and!; [cbn; unfold in_width; lia..|eexists; split; reflexivity]).
  - split; [eapply mapped_sub; [exact Hm|cbn; lia..]|cbn; lia].
  - split; [eapply mapped_sub; [exact Hm|cbn; lia..]|cbn; lia].
  - eapply mapped_sub; [exact Hm|cbn; lia..].
  - exact Hlen.
  - exact Hlist.
  - exact Hreqs.
  - lia.
  - cbn; lia.
  - cbn; lia.
  - cbn; lia.
Defined.
