(* ===== verification/UserConnect.v ===== *)
(** * Connecting from a process

    [qconnect] of syscall.h down to the queue pair: the address text through the
    memory of the process, the parser of GIDs, the query for a path and the handshake
    of a reliable connection. *)

From S2P Require Import Prelude Bytes Errors Verbs CmVerbs Sim Guid Context CompletionQueue QueuePair BringUp.
From S2P Require Import Stable CommManager RecvHelper SysQp SysBringUp SysCtrl SysAbi VirtualQueue SysCalls UserLib.
Import RCtrl VQ.

(** ** Address texts *)

(** A text that the parser accepts has hexadecimal digits and colons only. *)
Lemma gid_chars k : is_gid k -> Forall (fun c => 48 <= c <= 102) k.
Proof.
  intros [g Hg]. rewrite GuidSpec.from_str_run in Hg.
  destruct (groups _ _ _ _ _ _ _) as [[gs [|]]|] eqn:E; [|done..].
  apply groups_first_iff in E as (Hlen & HF & ->); [|done]. destruct gs as [|d gs]; [done|].
  rewrite (join_seps _). apply Forall_cons in HF as [Hd HF].
  assert (Hdigits : forall ds, numeral 16 4 65535 ds -> Forall (fun c => 48 <= c <= 102) ds).
  { intros ds (_ & Hds & _). eapply Forall_impl; [exact Hds|]. intros c. unfold is_digit, Parser.parse_digit.
    destruct (_ && _) eqn:E1; [intros _; bool_to_Prop; lia|].
    destruct (_ && (c <? 97 + _)) eqn:E2; [intros _; bool_to_Prop; lia|].
    destruct (_ && (c <? 65 + _)) eqn:E3; [intros _; bool_to_Prop; lia|done]. }
  apply Forall_app. split; [by apply Hdigits|]. unfold seps. clear Hlen Hg.
  induction HF as [|x gs Hx HF IH]; [done|]. cbn [map concat app]. constructor; [unfold Guid.colon; lia|].
  apply Forall_app. split; [by apply Hdigits|exact IH].
Qed.

Lemma gid_utf8 k : is_gid k -> valid_utf8 k = true.
Proof. intros Hk. apply ascii_utf8. eapply Forall_impl; [by apply gid_chars|]. by intros c Hc; cbn in Hc; lia. Qed.

Lemma padded_not_gid k n : (0 < n)%nat -> ~ is_gid (k ++ replicate n 0).
Proof.
  intros Hn Hg%gid_chars. apply Forall_app in Hg as [_ Hz]. destruct n as [|n]; [lia|].
  apply Forall_cons in Hz as [Hz _]. lia.
Qed.

(** The parser always answers. *)
Lemma from_str_total k : exists r, Guid.Guid.from_str k = Done r.
Proof. rewrite GuidSpec.from_str_run. eauto. Qed.

Section connect.
Context {W : Type} `{!Cfg, !DeviceOps W, !QueueOps W, !DataOps W, !CmOps W, !SysOps W, !PhysOps, !SrqOps W, !SaOps W}.
Context `{!SysCfg, !Frame, !KernelMem W} (env : conn_env).
Implicit Types (w : W) (s : sys).

(** The request of [qconnect] in memory. *)
Definition connect_request (m : umem) (arg addr port sz vid : Z) : Prop :=
  mapped m arg 48 /\ 0 <= arg /\ arg + 48 < 2 ^ 64 /\
  holds m (arg + 16) (le 8 addr) /\ holds m (arg + 24) (le 4 port) /\ holds m (arg + 28) (le 4 sz) /\
  holds m (arg + 32) (le 4 vid).

Lemma int_field m a off z :
  mapped m a 32 -> (off + 4 <= 32)%nat -> holds m (a + Z.of_nat off) (le 4 z) -> is_int z ->
  i32 (word_at off 4 (fst (copy_from_user m a 32))) = z.
Proof.
  intros Hm Ho Hh Hz. rewrite (word_of_user m a 32 off 4 z) by done. change (256 ^ Z.of_nat 4) with (2 ^ 32).
  fold (u32 z). rewrite swrap_wrap. by apply swrap_small.
Qed.

Lemma connect_cmd_run arg addr text sz port vid w s :
  connect_request (user s) arg addr port sz vid -> in_width 64 addr -> is_int port -> is_int vid -> 0 <= sz < 2 ^ 31 ->
  holds (user s) addr text -> Z.of_nat (length text) = Z.min 39 sz ->
  let buf := text ++ replicate (39 - length text) 0 in
  valid_utf8 buf = true ->
  connect_cmd arg env (w, s) = connect_impl (u64 vid) buf (u64 (Z.rem port MAX_SERVICE_NUM)) env (w, s).
Proof.
  intros (Hm & Ha0 & Ha1 & Haddr & Hport & Hsz & Hvid) Hw Hp Hv Hz Htext Hlen buf Hutf. unfold connect_cmd, uaddr, HEAD.
  rewrite add_u64_small, bind_lift by (unfold in_width; lia). rewrite (bind_done _ _ _ _ _ (from_user_run _ _ _ _)).
  change (size_of connect_layout) with 32%nat. set (l := fst (copy_from_user (user s) (arg + 16) 32)).
  assert (Hm' : mapped (user s) (arg + 16) 32) by (apply (mapped_sub _ arg 48); [done|lia..]).
  assert (Hconn : connect_of l = mkConnect addr port sz vid (i32 (word_at 20 4 l)) (i32 (word_at 24 4 l))).
  { change (connect_of l) with (mkConnect (word_at 0 8 l) (i32 (word_at 8 4 l)) (i32 (word_at 12 4 l)) (i32 (word_at 16 4 l))
      (i32 (word_at 20 4 l)) (i32 (word_at 24 4 l))). unfold l. f_equal.
    - rewrite (word_of_user _ _ 32 0 8 addr); [by apply Z.mod_small|done|lia|by rewrite Z.add_0_r].
    - apply int_field; [done|lia| |done]. by replace (arg + 16 + Z.of_nat 8) with (arg + 24) by lia.
    - apply int_field; [done|lia| |unfold is_int; lia]. by replace (arg + 16 + Z.of_nat 12) with (arg + 28) by lia.
    - apply int_field; [done|lia| |done]. by replace (arg + 16 + Z.of_nat 16) with (arg + 32) by lia. }
  rewrite Hconn. cbv zeta. cbn [c_addr c_port c_addr_sz c_vid].
  assert (Hn : Z.to_nat (Z.min 39 (u64 sz)) = length text) by (rewrite wrap_small by (unfold in_width; lia); lia).
  rewrite Hn, (bind_done _ _ _ _ _ (from_user_run _ _ _ _)), (copy_from_user_holds _ _ _ Htext). cbn [fst].
  fold buf. by rewrite Hutf.
Qed.
(** A process that calls [qconnect]: its stack, and the text it passes, elsewhere. *)
Record caller (fr : locals) (addr : Z) (text : list Z) (s : sys) : Prop := {
  cl_req : buffer_at s (l_req fr) 48;
  cl_reply : buffer_at s (l_reply fr) 16;
  cl_addr : in_width 64 addr;
  cl_text : holds (user s) addr text;
  cl_apart_req : addr + Z.of_nat (length text) <= l_req fr \/ l_req fr + 48 <= addr;
  cl_apart_reply : addr + Z.of_nat (length text) <= l_reply fr \/ l_reply fr + 16 <= addr;
  cl_queue : virtual_queue (self s) = None }.

(** The call, given what the kernel makes of the request. *)
Lemma qconnect_run fr addr text sz port vid st w s (P : W -> sys -> Prop) :
  caller fr addr text s -> in_width 31 st ->
  (forall m, connect_request m (l_req fr) addr port sz vid -> holds m addr text -> dom m = dom (user s) ->
     exists w' s', command lib_r_cmd.Connect (l_req fr) (l_reply fr) env (w, with_user m s) = Done (st, (w', s')) /\
       dom (user s') = dom (user s) /\ P w' s') ->
  exists w' s' m, qconnect env fr addr sz port vid (w, s) = Done (st, (w', with_user m s')) /\ P w' s' /\ dom m = dom (user s).
Proof.
  intros [(Hreq & Hq0 & Hq1) (Hrep & Hr0 & Hr1) Haddr Htext Hap1 Hap2 Hv] Hst Hrun. unfold qconnect. rewrite bind_onX.
  set (b0 := [(0%nat, le 4 reply_status.err)]).
  destruct (stores_outside (user s) (l_reply fr) 16 b0 Hrep eq_refl) as [Ho0 Hd0].
  set (m0 := stores (user s) (l_reply fr) b0) in *. set (bl := [_; _; _; _; _; _]).
  assert (Hmem : members 48 bl = true) by done.
  assert (Hreq0 : mapped m0 (l_req fr) 48) by by eapply mapped_dom.
  destruct (stores_outside m0 (l_req fr) 48 bl Hreq0 Hmem) as [Ho1 Hd1].
  pose proof (stores_holds m0 (l_req fr) 48 bl Hreq0 Hmem) as Hh. unfold bl in Hh at 2. rewrite !Forall_cons in Hh.
  cbn [fst snd] in Hh. destruct Hh as (_ & _ & Hh1 & Hh2 & Hh3 & Hh4 & _). set (m1 := stores m0 (l_req fr) bl) in *.
  destruct (Hrun m1) as (w' & s' & Hcmd & Hd' & HP).
  { split_and!; try done. by eapply mapped_dom; [|exact Hreq0]. }
  { eapply holds_outside; [exact Ho1| |lia]. eapply holds_outside; [exact Ho0|done|lia]. }
  { congruence. }
  edestruct (request_run env (l_req fr) 48 bl lib_r_cmd.Connect (l_reply fr) w (with_user m0 s)) as (m & Hreq' & _ & Hdm);
    [done|lia|done|by unfold bl; rewrite !elem_of_cons; auto|unfold in_width; lia|by right|exact Hcmd| |done|].
  { by eapply mapped_dom. }
  exists w', s', m. split; [exact Hreq'|]. split; [done|congruence].
Qed.

(**  Texts that are refused: [qconnect] returns [addr_error], and does nothing
    else, unless the first 39 bytes of the text are a GID.  So every text of fewer
    than 39 bytes is refused, also one that is a GID by itself: the kernel parses
    the whole buffer, with the zeros behind the text. *)
Theorem address_refused fr addr text sz port vid w s :
  caller fr addr text s -> is_int port -> is_int vid -> 0 <= sz < 2 ^ 31 -> Z.of_nat (length text) = Z.min 39 sz ->
  valid_utf8 (text ++ replicate (39 - length text) 0) = true -> ~ (39 <= sz /\ is_gid text) ->
  exists m, qconnect env fr addr sz port vid (w, s) = Done (reply_status.addr_error, (w, with_user m s)) /\
    dom m = dom (user s).
Proof.
  intros Hc Hp Hv Hz Hlen Hutf Hno.
  assert (Hng : ~ is_gid (text ++ replicate (39 - length text) 0)).
  { destruct (Z.le_gt_cases 39 sz); [|apply padded_not_gid; lia].
    replace (39 - length text)%nat with 0%nat by lia. cbn [replicate]. rewrite app_nil_r. naive_solver. }
  destruct (qconnect_run fr addr text sz port vid reply_status.addr_error w s
    (fun w' s' => w' = w /\ exists m', s' = with_user m' s) Hc ltac:(done)) as (w' & s' & m & Hrun & (-> & m' & ->) & Hd); [|by exists m].
  intros m Hreq Ht Hd. exists w, (with_user m s). split; [|split; [done|by split; [|exists m]]].
  change (connect_cmd (l_req fr) env (w, with_user m s) = Done (reply_status.addr_error, (w, with_user m s))).
  rewrite (connect_cmd_run _ addr text sz port vid); try done; [|by destruct Hc].
  unfold connect_impl, get_self. rewrite bind_assoc, bind_getX, bind_ret. cbn [self with_user]. rewrite (cl_queue _ _ _ _ Hc).
  destruct (from_str_total (text ++ replicate (39 - length text) 0)) as [[g|e] Hr]; rewrite Hr, bind_lift; [|done].
  destruct Hng. by exists g.
Qed.
End connect.

(** ** A connection *)

(** A query for a path concerns neither queue pairs nor connections; a driver that
    works starts it. *)
Class PathLaws (W : Type) `{!DeviceOps W, !QueueOps W, !VerbsLaws W, !SaOps W} : Prop := {
  path_get_law c d p rec m t w r w' : ib_sa_path_rec_get c d p rec m t w = (r, w') -> healthy w -> healthy w' /\ 0 <= r
}.

Section success.
Context {W : Type} `{!Cfg, !DeviceOps W, !QueueOps W, !DataOps W, !CmOps W, !SysOps W, !PhysOps, !SrqOps W, !SaOps W}.
Context `{!VerbsLaws W, !CmLaws W, !LinkLaws W, !PathLaws W, !SysCfg, !Frame, !KernelMem W} (env : conn_env).
Implicit Types (w : W) (s : sys).

(** The answers of the network: a path, and the reply of the server. *)
Definition answers (path : sa_path_rec) (data : list Z) (rep : ib_cm_rep_event_param) : Prop :=
  e_path env = Some (0, path) /\ e_path_signal env = 0 /\
  e_wait env = mkWait [mkEvent IB_CM_REP_RECEIVED data (RepRcvd rep)] 0.

Lemma explore_run port text path data rep w s :
  is_gid text -> path_rec_cache (self s) !! text = None -> rctrls s <> [] -> healthy w -> answers path data rep ->
  exists w', explore_path port text env (w, s) =
      Done (Ok path, (w', with_self (fun q => set_paths (<[text := path]> (path_rec_cache q)) q) s)) /\ healthy w'.
Proof.
  intros [g Hg] Hnone Hne Hh (Hp & Hsig & _). unfold explore_path, get_path_rec_cache, get_self.
  rewrite !bind_assoc, bind_getX, !bind_ret, Hnone. unfold get_global_rctrl. rewrite bind_assoc, bind_getX.
  destruct (index_mod_some (rctrls s) port Hne) as (i & c & Hi & _ & _). rewrite Hi, bind_assoc, bind_lift, bind_ret.
  set (msk := [path_rec_service_id; path_rec_dgid; path_rec_sgid; path_rec_numb_path]).
  destruct (ib_sa_path_rec_get (e_sa_client env) (RContext.get_raw_dev (get_context c)) (RContext.get_port (get_context c))
    (mkPath (CommManager.Explorer.gid_of_raw (Guid.Guid.get_raw g)) (RContext.get_gid (get_context c)) 1 port []) msk
    Rc.CONNECT_TIME_OUT_MS w) as [r w'] eqn:E.
  destruct (path_get_law _ _ _ _ _ _ _ _ _ E Hh) as [Hh' Hr]. exists w'. split; [|done].
  assert (Hrun : IBExplorer.resolve port (get_context c) text (e_sa_client env) (e_path env) (e_path_signal env) w =
    Done ((Ok (), Some path), w')).
  { unfold IBExplorer.resolve, IBExplorer.str_to_gid. rewrite Hg, bind_lift, bind_call. fold msk. rewrite E.
    rewrite (proj2 (Z.ltb_ge _ _)) by done. rewrite Hp, Hsig. done. }
  rewrite (bind_done _ _ _ _ _ (onW_run _ (w, s) _ _ Hrun)). done.
Qed.

(** The state of the queue pair of the process, for the peer that has replied. *)
Definition ready_for (w : W) (rc : Rc.RC) (rep : ib_cm_rep_event_param) : Prop :=
  exists v init, qp_view w (Rc.qp rc) = Some v /\
    linked init (Verbs.qp_num w (Rc.qp rc)) (mkLink (rp_remote_qpn rep) (rp_starting_psn rep)) v.

Lemma qp_connect_run vid port path data rep w s :
  rctrls s <> [] -> healthy w -> answers path data rep ->
  exists rc w', qp_connect vid port path env (w, s) = Done (Ok (Some rc), (w', s)) /\ healthy w' /\
    ready_for w' rc rep /\ Rc.remote_mr rc = Some (Reply.mr (of_bytes data)) /\
    cm_outbox w' (ClientCM.inner_cm (Rc.cm rc)) =
      [MReq (CMWrapper.req_with vid (Rc.request (Verbs.qp_num w' (Rc.qp rc)) path port)); MRtu [0]].
Proof.
  intros Hne Hh (_ & _ & Hwait). unfold qp_connect, get_global_rctrl. rewrite bind_assoc, bind_getX.
  destruct (index_mod_some (rctrls s) port Hne) as (i & c & Hi & _ & _). rewrite Hi, bind_assoc, bind_lift, bind_ret.
  destruct (rc_new_client (Config.default (e_random env)) (get_context c) null (get_recv_cq c) (e_arc env) w Hh)
    as (rc & init & w1 & Hnew & Hq & Ht & _ & Hv & Hh1 & Hctx & Hout).
  rewrite (bind_done _ _ _ _ _ (onW_run _ (w, s) _ _ Hnew)). cbn [snd].
  destruct (connect_run rc completion_init rep data vid path port w1 init _ Hq Ht Hv eq_refl Hh1)
    as (v & w2 & dn & Hcon & Ho & Hv2 & Hh2 & Hout2 & Hlink); [by eexists|].
  exists (Rc.with_remote_mr (Reply.mr (of_bytes data)) rc), w2.
  assert (Hnum : Verbs.qp_num w2 (Rc.qp rc) = Verbs.qp_num w1 (Rc.qp rc)) by (by destruct Ho as (_ & Hn & _)).
  split_and!; [|done| |done|].
  - erewrite bind_done; [|unfold local; cbn [fst snd]; rewrite Hwait, Hcon; reflexivity]. done.
  - exists v, init. split; [done|]. cbn [Rc.qp Rc.with_remote_mr]. by rewrite Hnum.
  - cbn [Rc.qp Rc.cm Rc.with_remote_mr]. by rewrite Hout2, Hout, Hnum.
Qed.
(** The registered block of the module. *)
Lemma test_mem_run idx w s :
  mems s <> [] -> exists pa l, get_global_test_mem_pa idx (w, s) = Done (pa, (w, with_mems l s)).
Proof.
  intros Hne. unfold get_global_test_mem_pa. rewrite bind_getX. destruct (mems s) as [|m l]; [done|].
  change (unwrap ((m :: l) !! 0%nat)) with (mret (M := M (W * sys)) m). rewrite bind_ret.
  unfold RMemPhy.get_dma_buf, RMemPhy.get_pa, RMemPhy.get_pa_unsafe, RMemPhy.pin_for_rdma.
  destruct (RMemPhy.dma_buf m) eqn:E; cbn [RMemPhy.dma_buf]; rewrite ?E; eauto.
Qed.

(** The queue after a connect that has succeeded. *)
Record connected_to (svc vid : Z) (path : sa_path_rec) (data : list Z) (rep : ib_cm_rep_event_param)
  (s s' : sys) (w' : W) : Prop := {
  ct_port : connect_port (self s') = Some svc;
  ct_bind : bind_port (self s') = bind_port (self s);
  ct_mem : is_Some (reg_mem_addr (self s'));
  ct_ctrls : rctrls s' = rctrls s;
  ct_user : user s' = user s;
  ct_queue : exists rc, virtual_queue (self s') = Some rc /\ ready_for w' rc rep /\
    Rc.remote_mr rc = Some (Reply.mr (of_bytes data)) /\
    cm_outbox w' (ClientCM.inner_cm (Rc.cm rc)) =
      [MReq (CMWrapper.req_with vid (Rc.request (Verbs.qp_num w' (Rc.qp rc)) path svc)); MRtu [0]] }.

Lemma connect_impl_run vid text port path data rep w s :
  dct_qp = false -> feature_virtual_queue = true -> virtual_queue (self s) = None ->
  is_gid text -> path_rec_cache (self s) !! text = None -> rctrls s <> [] -> mems s <> [] -> healthy w ->
  answers path data rep ->
  exists w' s', connect_impl vid text port env (w, s) = Done (reply_status.ok, (w', s')) /\ healthy w' /\
    connected_to port vid path data rep s s' w'.
Proof.
  intros Hdct Hvq Hv Hg Hnone Hne Hme Hh Hans. unfold connect_impl, get_self. rewrite bind_assoc, bind_getX, bind_ret, Hv.
  destruct Hg as [g Hg]. rewrite Hg, bind_lift. destruct (test_mem_run port w s Hme) as (pa & l & Hpa).
  rewrite (bind_done _ _ _ _ _ Hpa). unfold get_global_rctrl. rewrite bind_assoc, bind_getX. cbn [rctrls with_mems].
  destruct (index_mod_some (rctrls s) port Hne) as (i & c & Hi & _ & _). rewrite Hi, bind_assoc, bind_lift, bind_ret.
  erewrite bind_done by by apply (onW_run _ (w, with_mems l s)). cbn [snd]. unfold on_self. rewrite bind_onX, Hdct.
  set (s1 := with_self _ _). unfold connect_rc.
  destruct (explore_run port text path data rep w s1) as (w1 & Hpath & Hh1); [by exists g|done..|].
  rewrite (bind_done _ _ _ _ _ Hpath). set (s2 := with_self _ s1).
  destruct (qp_connect_run vid port path data rep w1 s2) as (rc & w2 & Hcon & Hh2 & Hready & Hmr & Hout); [done..|].
  rewrite (bind_done _ _ _ _ _ Hcon), Hvq. unfold on_self. rewrite bind_onX. eexists w2, _. split; [done|]. split; [done|].
  constructor; try done. by exists rc.
Qed.

End success.

(** ** On the simulated driver *)
#[export] Instance sim_path_laws : PathLaws sim (SaOps0 := SysSample.sa).
Proof. constructor. cbn. by intros ????????? [= <- <-] ?. Qed.

Module ConnectSample.
Import SysSample LibSample.

(** The text fe80:0000:0000:0000:ec0d:9a03:00ca:2f4c. *)
Definition text : list Z :=
  [102; 101; 56; 48; 58; 48; 48; 48; 48; 58; 48; 48; 48; 48; 58; 48; 48; 48; 48; 58;
   101; 99; 48; 100; 58; 57; 97; 48; 51; 58; 48; 48; 99; 97; 58; 50; 102; 52; 99].

Lemma text_gid : is_gid text.
Proof. eexists. vm_compute. reflexivity. Qed.

(** A process with the text behind its stack. *)
Definition process (text : list Z) : sys := module (block 4096 (replicate 64 0 ++ text)) opened.

Lemma process_calls text : caller fr 4160 text (process text).
Proof.
  pose proof (block_holds 4096 (replicate 64 0 ++ text)) as Hall. pose proof (holds_mapped _ _ _ Hall) as Hm.
  rewrite length_app, length_replicate in Hm. apply holds_app in Hall as [_ Ht]. rewrite length_replicate in Ht.
  constructor; [split; [eapply mapped_sub; [exact Hm|cbn; lia..]|cbn; lia]..|split; lia|exact Ht|cbn; lia|cbn; lia|done].
Qed.

End ConnectSample.
Import SysSample.

(** A text that is a GID, of 15 bytes. *)
Lemma address_refused_witness :
  exists m, qconnect env LibSample.fr 4160 15 1 3 (sim_init, ConnectSample.process [49; 58; 50; 58; 51; 58; 52; 58; 53; 58; 54; 58; 55; 58; 56]) =
    Done (reply_status.addr_error, (sim_init, with_user m (ConnectSample.process [49; 58; 50; 58; 51; 58; 52; 58; 53; 58; 54; 58; 55; 58; 56]))) /\
    dom m = dom (user (ConnectSample.process [49; 58; 50; 58; 51; 58; 52; 58; 53; 58; 54; 58; 55; 58; 56])).
Proof.
  apply (address_refused env LibSample.fr 4160 [49; 58; 50; 58; 51; 58; 52; 58; 53; 58; 54; 58; 55; 58; 56] 15 1 3 sim_init);
    [apply ConnectSample.process_calls|unfold is_int; lia|unfold is_int; lia|lia|reflexivity|reflexivity|].
  intros [Hs _]. lia.
Defined.

